(** * Space Shooter: the room simulation of [main.go], embedded and verified

    The repository holds two revisions of the server:

    - [src/main.go] (version 1.1: boss, game over and clear screens), and
    - [src/unnamed/part_001], the same file extended with power-up items,
      [FirePower] and hostile bullets that hurt players.

    Both are embedded below.  Whatever the two files share textually
    (the data types, [checkCollision], the spawner, the restart handler,
    the matchmaker, player movement, the enemy loop and the boss step of
    [updateGame]) is defined once; [createBullet] and the bullet pass of
    [updateGame] are defined per revision, in [Module Main] for
    [src/main.go] and in [Module PowerUp] for [src/unnamed/part_001].

    Modelling conventions.

    - [float64] is Rocq's primitive binary64 float, so the arithmetic and
      the comparisons are Go's.
    - Go's [int] fields ([Health], [Score], [EnemiesDefeated], [FirePower],
      [Width], [Height]) are taken in [Z]: every update adds or subtracts
      a constant of at most 500, far from the 64-bit range.
    - A Go [map[string]*T] is a [gmap string T].  The pointer targets are
      only reached through the map, so updating the entry is the
      mutation.  Go leaves the iteration order of [range] unspecified:
      each [range] whose outcome can depend on the order asks the
      environment for one ([range] below).
    - [rand.Intn] and [uuid.New] read from the environment as well.
    - Every handler body and every timer branch runs as one atomic step;
      the goroutines and the mutexes are not modelled. *)

From Stdlib Require Import ZArith Floats.
From stdpp Require Import gmap strings pretty.

Local Open Scope Z_scope.

(** ** float64 *)

Abbreviation float64 := PrimFloat.float.

(** The conversion [float64(n)] of an [int]. *)
Definition float64_of_int (z : Z) : float64 :=
  if z <? 0 then PrimFloat.opp (PrimFloat.of_uint63 (Uint63.of_Z (- z)))
  else PrimFloat.of_uint63 (Uint63.of_Z z).

(** Go's comparison operators on float64.  [a > b] is [b < a] and
    [a >= b] is [b <= a] in IEEE 754, NaN included. *)
Definition flt (a b : float64) : bool := PrimFloat.ltb a b.
Definition fgt (a b : float64) : bool := PrimFloat.ltb b a.
Definition fle (a b : float64) : bool := PrimFloat.leb a b.
Definition fge (a b : float64) : bool := PrimFloat.leb b a.
Definition feq (a b : float64) : bool := PrimFloat.eqb a b.

(** ** The environment: random numbers, fresh identifiers, map orders *)

Record Env := mkEnv {
  randSource : nat -> Z;          (* successive raw outcomes of math/rand *)
  randUsed : nat;
  uuidSource : nat -> string;     (* successive results of uuid.New().String() *)
  uuidUsed : nat;
  orderSource : nat -> list nat;  (* one shuffle per range statement *)
  orderUsed : nat
}.

(** A computation that reads the environment. *)
Definition Rand (A : Type) : Type := Env -> A * Env.

Definition ret {A} (a : A) : Rand A := fun e => (a, e).

Definition bind {A B} (c : Rand A) (k : A -> Rand B) : Rand B :=
  fun e => let (a, e') := c e in k a e'.

Notation "'let*' x ':=' c 'in' k" := (bind c (fun x => k))
  (at level 10, x name, c at level 100, k at level 200).

(** [rand.Intn(n)]: for [0 < n] the outcome is in [0, n). *)
Definition Intn (n : Z) : Rand Z := fun e =>
  (randSource e (randUsed e) mod n,
   mkEnv (randSource e) (S (randUsed e)) (uuidSource e) (uuidUsed e)
         (orderSource e) (orderUsed e)).

(** [uuid.New().String()] *)
Definition newUUID : Rand string := fun e =>
  (uuidSource e (uuidUsed e),
   mkEnv (randSource e) (randUsed e) (uuidSource e) (S (uuidUsed e))
         (orderSource e) (orderUsed e)).

(** Places [x] at position [i] of [l] (at the end when [i] is too large). *)
Definition insertAt {A} (i : nat) (x : A) (l : list A) : list A :=
  take i l ++ x :: drop i l.

(** The arrangement of [l] that the choices [ns] select: every list of
    choices gives a permutation, and every permutation is given by some
    list of choices ([shuffle_Permutation], [shuffle_complete]). *)
Fixpoint shuffle {A} (ns : list nat) (l : list A) : list A :=
  match l with
  | [] => []
  | x :: l' =>
      insertAt (Nat.modulo (hd 0%nat ns) (S (length l'))) x (shuffle (tl ns) l')
  end.

(** The keys of [m] in the order in which this [range] statement visits
    them. *)
Definition range {V} (m : gmap string V) : Rand (list string) := fun e =>
  (shuffle (orderSource e (orderUsed e)) (map fst (map_to_list m)),
   mkEnv (randSource e) (randUsed e) (uuidSource e) (uuidUsed e)
         (orderSource e) (S (orderUsed e))).

(** A loop body run over the keys [ks] in order, threading the room. *)
Fixpoint forEach {S} (body : string -> S -> Rand S) (ks : list string) (s : S)
  : Rand S :=
  match ks with
  | [] => ret s
  | k :: ks' => let* s' := body k s in forEach body ks' s'
  end.

(** ** Data model ([main.go], lines 57-124) *)

(** The values of [Entity.Type]: the strings "player", "bullet", "enemy",
    "boss", "bossBullet", and, in [part_001], "enemyBullet" and "item". *)
Inductive EntityType :=
  player | bullet | enemy | boss | bossBullet | enemyBullet | item.

(** The values of [GameRoom.GameState]: "playing", "gameover", "clear". *)
Inductive State := playing | gameover | clear.

Definition State_eqb (a b : State) : bool :=
  match a, b with
  | playing, playing | gameover, gameover | clear, clear => true
  | _, _ => false
  end.

Module Entity.
Record t := mk {
    ID : string;
    Type_ : EntityType;
    X : float64;
    Y : float64;
    VelocityX : float64;
    VelocityY : float64;
    Width : Z;
    Height : Z;
    Health : Z
  }.

Definition setType_ (ty : EntityType) (e : t) : t :=
  mk (ID e) ty (X e) (Y e) (VelocityX e) (VelocityY e) (Width e) (Height e) (Health e).
Definition setX (x : float64) (e : t) : t :=
    mk (ID e) (Type_ e) x (Y e) (VelocityX e) (VelocityY e) (Width e) (Height e) (Health e).
Definition setY (y : float64) (e : t) : t :=
    mk (ID e) (Type_ e) (X e) y (VelocityX e) (VelocityY e) (Width e) (Height e) (Health e).
Definition setVelocityX (v : float64) (e : t) : t :=
    mk (ID e) (Type_ e) (X e) (Y e) v (VelocityY e) (Width e) (Height e) (Health e).
Definition setVelocityY (v : float64) (e : t) : t :=
    mk (ID e) (Type_ e) (X e) (Y e) (VelocityX e) v (Width e) (Height e) (Health e).
Definition setHealth (h : Z) (e : t) : t :=
    mk (ID e) (Type_ e) (X e) (Y e) (VelocityX e) (VelocityY e) (Width e) (Height e) h.
End Entity.

(** [Player] embeds [Entity]; its own [Health] shadows the embedded one,
    so [player.Health] in the source is [Player.Health] here.
    [FirePower] exists in [part_001] only: no operation of [src/main.go]
    reads or writes it. *)
Module Player.
Record t := mk {
    Entity : Entity.t;
    Name : string;
    Score : Z;
    Health : Z;
    Color : string;
    FirePower : Z
  }.

Definition setEntity (e : Entity.t) (p : t) : t :=
    mk e (Name p) (Score p) (Health p) (Color p) (FirePower p).
Definition setScore (s : Z) (p : t) : t :=
    mk (Entity p) (Name p) s (Health p) (Color p) (FirePower p).
Definition setHealth (h : Z) (p : t) : t :=
    mk (Entity p) (Name p) (Score p) h (Color p) (FirePower p).
Definition setFirePower (f : Z) (p : t) : t :=
    mk (Entity p) (Name p) (Score p) (Health p) (Color p) f.

(** The promoted fields [player.X], [player.Y]. *)
Definition X (p : t) : float64 := Entity.X (Entity p).
Definition Y (p : t) : float64 := Entity.Y (Entity p).
End Player.

(** [LastTick] (written once, never read) and [Mutex] are left out.
    [Items] exists in [part_001] only: no operation of [src/main.go]
    reads or writes it. *)
Module GameRoom.
Record t := mk {
    ID : string;
    Players : gmap string Player.t;
    Bullets : gmap string Entity.t;
    Enemies : gmap string Entity.t;
    Items : gmap string Entity.t;
    Boss : option Entity.t;
    EnemiesDefeated : Z;
    BossSpawned : bool;
    GameState : State
  }.

Definition setPlayers (v : gmap string Player.t) (r : t) : t :=
    mk (ID r) v (Bullets r) (Enemies r) (Items r) (Boss r)
       (EnemiesDefeated r) (BossSpawned r) (GameState r).
Definition setBullets (v : gmap string Entity.t) (r : t) : t :=
    mk (ID r) (Players r) v (Enemies r) (Items r) (Boss r)
       (EnemiesDefeated r) (BossSpawned r) (GameState r).
Definition setEnemies (v : gmap string Entity.t) (r : t) : t :=
    mk (ID r) (Players r) (Bullets r) v (Items r) (Boss r)
       (EnemiesDefeated r) (BossSpawned r) (GameState r).
Definition setItems (v : gmap string Entity.t) (r : t) : t :=
    mk (ID r) (Players r) (Bullets r) (Enemies r) v (Boss r)
       (EnemiesDefeated r) (BossSpawned r) (GameState r).
Definition setBoss (v : option Entity.t) (r : t) : t :=
    mk (ID r) (Players r) (Bullets r) (Enemies r) (Items r) v
       (EnemiesDefeated r) (BossSpawned r) (GameState r).
Definition setEnemiesDefeated (v : Z) (r : t) : t :=
    mk (ID r) (Players r) (Bullets r) (Enemies r) (Items r) (Boss r)
       v (BossSpawned r) (GameState r).
Definition setBossSpawned (v : bool) (r : t) : t :=
    mk (ID r) (Players r) (Bullets r) (Enemies r) (Items r) (Boss r)
       (EnemiesDefeated r) v (GameState r).
Definition setGameState (v : State) (r : t) : t :=
    mk (ID r) (Players r) (Bullets r) (Enemies r) (Items r) (Boss r)
       (EnemiesDefeated r) (BossSpawned r) v.
End GameRoom.

(** [newGameRoom] ([main.go], lines 156-168) *)
Definition newGameRoom : Rand GameRoom.t :=
  let* id := newUUID in
  ret (GameRoom.mk id ∅ ∅ ∅ ∅ None 0 false playing).

(** ** Collision test ([main.go], lines 431-436) *)

Definition checkCollision (a b : Entity.t) : bool :=
  flt (Entity.X a) (Entity.X b + float64_of_int (Entity.Width b))%float &&
  fgt (Entity.X a + float64_of_int (Entity.Width a))%float (Entity.X b) &&
  flt (Entity.Y a) (Entity.Y b + float64_of_int (Entity.Height b))%float &&
  fgt (Entity.Y a + float64_of_int (Entity.Height a))%float (Entity.Y b).

(** ** Operations shared by both revisions *)

(** The test of the loops at [main.go] lines 584-589 and 637-642: no
    player has [Health > 0].  The outcome does not depend on the
    iteration order. *)
Definition allPlayersDead (ps : gmap string Player.t) : bool :=
  bool_decide (map_Forall (fun _ p => Player.Health p <= 0) ps).

(** The body shared by the contact damage of an enemy ([main.go], lines
    578-594, [amount] 10) and of the boss (lines 631-647, [amount] 20),
    for the player [p] stored under [pid]. *)
Definition hurt (amount : Z) (pid : string) (p : Player.t) (r : GameRoom.t)
  : GameRoom.t :=
  let h := Player.Health p - amount in
  if h <=? 0 then
    let r' := GameRoom.setPlayers
                (<[pid := Player.setHealth 0 p]> (GameRoom.Players r)) r in
    if allPlayersDead (GameRoom.Players r')
    then GameRoom.setGameState gameover r' else r'
  else
    GameRoom.setPlayers (<[pid := Player.setHealth h p]> (GameRoom.Players r)) r.

(** Player integration ([main.go], lines 494-511), for one player. *)
Definition movePlayer (p : Player.t) : Player.t :=
  let e := Player.Entity p in
  let x := (Entity.X e + Entity.VelocityX e)%float in
  let y := (Entity.Y e + Entity.VelocityY e)%float in
  let x := if flt x 0 then 0%float else x in
  let x := if fgt x 770 then 770%float else x in
  let y := if flt y 0 then 0%float else y in
  let y := if fgt y 570 then 570%float else y in
  Player.setEntity (Entity.setY y (Entity.setX x e)) p.

(** The loop over the players touches each player on its own, so its
    outcome does not depend on the iteration order. *)
Definition movePlayers (r : GameRoom.t) : GameRoom.t :=
  GameRoom.setPlayers (movePlayer <$> GameRoom.Players r) r.

(** [e.X += e.VelocityX; e.Y += e.VelocityY] *)
Definition advance (e : Entity.t) : Entity.t :=
  Entity.setY (Entity.Y e + Entity.VelocityY e)%float
    (Entity.setX (Entity.X e + Entity.VelocityX e)%float e).

(** The first key of [ks] whose player overlaps [a]: the inner loops
    [for _, player := range gameRoom.Players] that [break] on the first
    hit. *)
Definition firstPlayerHit (a : Entity.t) (ps : gmap string Player.t)
  (ks : list string) : option string :=
  find (fun k => match ps !! k with
                 | Some p => checkCollision a (Player.Entity p)
                 | None => false
                 end) ks.

(** The first key of [ks] whose enemy is overlapped by [b]. *)
Definition firstEnemyHit (b : Entity.t) (es : gmap string Entity.t)
  (ks : list string) : option string :=
  find (fun k => match es !! k with
                 | Some e => checkCollision b e
                 | None => false
                 end) ks.

(** The enemy loop of [updateGame] ([main.go], lines 564-599), body for
    the enemy stored under [id]. *)
Definition enemyStep (id : string) (r : GameRoom.t) : Rand GameRoom.t :=
  match GameRoom.Enemies r !! id with
  | None => ret r
  | Some e0 =>
      let e := advance e0 in
      if fgt (Entity.Y e) 600 then
        ret (GameRoom.setEnemies (delete id (GameRoom.Enemies r)) r)
      else
        let r := GameRoom.setEnemies (<[id := e]> (GameRoom.Enemies r)) r in
        let* pks := range (GameRoom.Players r) in
        match firstPlayerHit e (GameRoom.Players r) pks with
        | Some pid =>
            match GameRoom.Players r !! pid with
            | Some p =>
                let r := hurt 10 pid p r in
                ret (GameRoom.setEnemies (delete id (GameRoom.Enemies r)) r)
            | None => ret r
            end
        | None => ret r
        end
  end.

Definition enemyLoop (r : GameRoom.t) : Rand GameRoom.t :=
  let* ks := range (GameRoom.Enemies r) in forEach enemyStep ks r.

(** The boss bullet of [main.go], lines 613-624. *)
Definition bossBulletOf (id : string) (b : Entity.t) (vx vy : Z) : Entity.t :=
  Entity.mk id bossBullet
    (Entity.X b + float64_of_int (Entity.Width b) / 2)%float
    (Entity.Y b + float64_of_int (Entity.Height b))%float
    (float64_of_int (vx - 2)) (float64_of_int (vy + 2)) 10 10 0.

(** Boss movement, attack and body contact ([main.go], lines 602-650). *)
Definition bossStep (r : GameRoom.t) : Rand GameRoom.t :=
  match GameRoom.Boss r with
  | None => ret r
  | Some b0 =>
      let b := Entity.setX (Entity.X b0 + Entity.VelocityX b0)%float b0 in
      let b :=
        if fle (Entity.X b) 0
           || fge (Entity.X b + float64_of_int (Entity.Width b))%float 800
        then Entity.setVelocityX (Entity.VelocityX b * (-1))%float b else b in
      let r := GameRoom.setBoss (Some b) r in
      let* n := Intn 60 in
      let* r :=
        (if n <? 5 then
           let* id := newUUID in
           let* vx := Intn 5 in
           let* vy := Intn 3 in
           ret (GameRoom.setBullets
                  (<[id := bossBulletOf id b vx vy]> (GameRoom.Bullets r)) r)
         else ret r) in
      let* pks := range (GameRoom.Players r) in
      forEach (fun pid r =>
                 ret match GameRoom.Players r !! pid with
                     | Some p =>
                         if checkCollision b (Player.Entity p)
                         then hurt 20 pid p r else r
                     | None => r
                     end) pks r
  end.

(** ** Spawner ([main.go], lines 376-422 and 465-474) *)

Definition createEnemy (r : GameRoom.t) : Rand GameRoom.t :=
  if negb (State_eqb (GameRoom.GameState r) playing) || GameRoom.BossSpawned r
  then ret r
  else
    let* id := newUUID in
    let* x := Intn 600 in
    let* vx := Intn 3 in
    let* vy := Intn 2 in
    ret (GameRoom.setEnemies
           (<[id := Entity.mk id enemy (float64_of_int x) 0
                      (float64_of_int (vx - 1)) (float64_of_int (vy + 1))
                      30 30 1]> (GameRoom.Enemies r)) r).

Definition createBoss (r : GameRoom.t) : Rand GameRoom.t :=
  let* u := newUUID in
  ret (GameRoom.setBossSpawned true
         (GameRoom.setBoss
            (Some (Entity.mk ("boss-" +:+ u) boss (float64_of_int (400 - 50))
                     50 2 0 100 80 100)) r)).

(** The [enemyTicker.C] branch of [gameLoop]. *)
Definition enemyTick (r : GameRoom.t) : Rand GameRoom.t :=
  if State_eqb (GameRoom.GameState r) playing then
    if (20 <=? GameRoom.EnemiesDefeated r) && negb (GameRoom.BossSpawned r)
    then createBoss r else createEnemy r
  else ret r.

(** ** Session handlers ([main.go], lines 223-241 and 284-337) *)

Definition playerColors : list string :=
  ["#FF0000"; "#00FF00"; "#0000FF"; "#FFFF00"; "#FF00FF"].

(** The player created for the client [clientID]. *)
Definition newPlayer (clientID : string) : Rand Player.t :=
  let* x := Intn 300 in
  let* y := Intn 300 in
  let* c := Intn (Z.of_nat (length playerColors)) in
  ret (Player.mk
         (Entity.mk clientID player (float64_of_int (300 + x))
            (float64_of_int (300 + y)) 0 0 30 30 100)
         ("Player-" +:+ String.substring 0 5 clientID) 0 100
         (nth (Z.to_nat c) playerColors "") 1).

(** [gameRoom.Players[player.ID] = player] *)
Definition join (p : Player.t) (r : GameRoom.t) : GameRoom.t :=
  GameRoom.setPlayers
    (<[Entity.ID (Player.Entity p) := p]> (GameRoom.Players r)) r.

(** [delete(gameRoom.Players, player.ID)] *)
Definition leave (pid : string) (r : GameRoom.t) : GameRoom.t :=
  GameRoom.setPlayers (delete pid (GameRoom.Players r)) r.

(** The "move" message: a field that is missing or not a number leaves
    the velocity component as it was. *)
Definition move (pid : string) (vx vy : option float64) (r : GameRoom.t)
  : GameRoom.t :=
  match GameRoom.Players r !! pid with
  | None => r
  | Some p =>
      let e := Player.Entity p in
      let e := match vx with Some v => Entity.setVelocityX v e | None => e end in
      let e := match vy with Some v => Entity.setVelocityY v e | None => e end in
      GameRoom.setPlayers (<[pid := Player.setEntity e p]> (GameRoom.Players r)) r
  end.

(** The body of the loop at lines 328-333, for the player under [pid]. *)
Definition respawn (pid : string) (r : GameRoom.t) : Rand GameRoom.t :=
  match GameRoom.Players r !! pid with
  | None => ret r
  | Some p =>
      let* x := Intn 300 in
      let* y := Intn 300 in
      let e := Entity.setY (float64_of_int (300 + y))
                 (Entity.setX (float64_of_int (300 + x)) (Player.Entity p)) in
      ret (GameRoom.setPlayers
             (<[pid := Player.setEntity e
                         (Player.setScore 0 (Player.setHealth 100 p))]>
                (GameRoom.Players r)) r)
  end.

(** The "restart" message. *)
Definition restart (r : GameRoom.t) : Rand GameRoom.t :=
  match GameRoom.GameState r with
  | playing => ret r
  | gameover | clear =>
      let r := GameRoom.setGameState playing r in
      let r := GameRoom.setEnemiesDefeated 0 r in
      let r := GameRoom.setBossSpawned false r in
      let r := GameRoom.setBoss None r in
      let r := GameRoom.setEnemies ∅ r in
      let r := GameRoom.setBullets ∅ r in
      let* pks := range (GameRoom.Players r) in
      forEach respawn pks r
  end.

(** The boss hit of the bullet pass ([main.go], lines 527-539): the
    bullet [id] is removed and the boss [b] loses one point of health;
    at zero the room is cleared and every player gets the bonus. *)
Definition hitBoss (id : string) (b : Entity.t) (r : GameRoom.t) : GameRoom.t :=
  let r := GameRoom.setBullets (delete id (GameRoom.Bullets r)) r in
  let b := Entity.setHealth (Entity.Health b - 1) b in
  if Entity.Health b <=? 0 then
    let r := GameRoom.setGameState clear r in
    let r := GameRoom.setBoss None r in
    GameRoom.setPlayers
      ((fun p => Player.setScore (Player.Score p + 500) p)
         <$> GameRoom.Players r) r
  else GameRoom.setBoss (Some b) r.

(** The score loop at lines 552-557: the first player, in the order
    [ks], whose position equals the bullet's gets 10 points. *)
Definition samePosition (p : Player.t) (b : Entity.t) : bool :=
  feq (Player.X p) (Entity.X b) && feq (Player.Y p) (Entity.Y b).

Definition creditScore (b : Entity.t) (ks : list string) (r : GameRoom.t)
  : GameRoom.t :=
  match find (fun k => match GameRoom.Players r !! k with
                       | Some p => samePosition p b
                       | None => false
                       end) ks with
  | Some pid =>
      match GameRoom.Players r !! pid with
      | Some p =>
          GameRoom.setPlayers
            (<[pid := Player.setScore (Player.Score p + 10) p]>
               (GameRoom.Players r)) r
      | None => r
      end
  | None => r
  end.

(** The bounds test of line 519. *)
Definition offScreen (b : Entity.t) : bool :=
  flt (Entity.Y b) 0 || fgt (Entity.Y b) 600
  || flt (Entity.X b) 0 || fgt (Entity.X b) 800.

(** The boss, when the room has one and [b] overlaps it (the condition
    of line 525). *)
Definition bossHit (b : Entity.t) (r : GameRoom.t) : option Entity.t :=
  match GameRoom.Boss r with
  | Some bs => if checkCollision b bs then Some bs else None
  | None => None
  end.

(** ** [src/main.go]: [createBullet] and the bullet pass *)

Module Main.

(** [createBullet] ([main.go], lines 348-369) *)
Definition createBullet (r : GameRoom.t) (p : Player.t) : Rand GameRoom.t :=
  if negb (State_eqb (GameRoom.GameState r) playing) then ret r
  else
    let* bulletID := newUUID in
    let b := Entity.mk bulletID bullet
               (Player.X p
                + float64_of_int (Entity.Width (Player.Entity p)) / 2 - 2.5)%float
               (Player.Y p) 0 (-5) 5 10 0 in
    ret (GameRoom.setBullets (<[bulletID := b]> (GameRoom.Bullets r)) r).

(** The enemy test of the bullet pass (lines 544-560) for the bullet [b]
    stored under [id]. *)
Definition hitEnemy (id : string) (b : Entity.t) (r : GameRoom.t)
  : Rand GameRoom.t :=
  let* eks := range (GameRoom.Enemies r) in
  match firstEnemyHit b (GameRoom.Enemies r) eks with
  | Some enemyID =>
      let r := GameRoom.setBullets (delete id (GameRoom.Bullets r)) r in
      let r := GameRoom.setEnemies (delete enemyID (GameRoom.Enemies r)) r in
      let r := GameRoom.setEnemiesDefeated (GameRoom.EnemiesDefeated r + 1) r in
      let* pks := range (GameRoom.Players r) in
      ret (creditScore b pks r)
  | None => ret r
  end.

(** The body of the bullet loop (lines 514-561) for the bullet stored
    under [id].  The type of the bullet is never looked at. *)
Definition bulletStep (id : string) (r : GameRoom.t) : Rand GameRoom.t :=
  match GameRoom.Bullets r !! id with
  | None => ret r
  | Some b0 =>
      let b := advance b0 in
      if offScreen b then
        ret (GameRoom.setBullets (delete id (GameRoom.Bullets r)) r)
      else
        let r := GameRoom.setBullets (<[id := b]> (GameRoom.Bullets r)) r in
        match bossHit b r with
        | Some bs => ret (hitBoss id bs r)
        | None => hitEnemy id b r
        end
  end.

(** [updateGame] ([main.go], lines 484-651) *)
Definition updateGame (r : GameRoom.t) : Rand GameRoom.t :=
  if negb (State_eqb (GameRoom.GameState r) playing) then ret r
  else
    let r := movePlayers r in
    let* bks := range (GameRoom.Bullets r) in
    let* r := forEach bulletStep bks r in
    let* r := enemyLoop r in
    bossStep r.

End Main.

(** ** [src/unnamed/part_001]: fire power, hostile bullets, items *)

Module PowerUp.

(** The integer [i-(player.FirePower-1)/2] of line 360: Go's [/] on
    [int] truncates. *)
Definition fanIndex (firePower i : Z) : Z := i - Z.quot (firePower - 1) 2.

(** The [i]-th bullet of a shot ([part_001], lines 358-372).  The
    constant is the float64 nearest to 0.2. *)
Definition bulletOf (p : Player.t) (i : Z) (id : string) : Entity.t :=
  let offset := (float64_of_int (fanIndex (Player.FirePower p) i) * 5)%float in
  Entity.mk id bullet
    (Player.X p + float64_of_int (Entity.Width (Player.Entity p)) / 2 - 2.5
     + offset)%float
    (Player.Y p) (offset * 0x1.999999999999ap-3)%float (-6) 5 10 0.

(** The iterations [i, i+1, ..., i+n-1] of the loop of [createBullet]. *)
Fixpoint fire (p : Player.t) (n : nat) (i : Z) (r : GameRoom.t)
  : Rand GameRoom.t :=
  match n with
  | O => ret r
  | S n' =>
      let* id := newUUID in
      fire p n' (i + 1)
        (GameRoom.setBullets (<[id := bulletOf p i id]> (GameRoom.Bullets r)) r)
  end.

(** [createBullet] ([part_001], lines 353-376) *)
Definition createBullet (r : GameRoom.t) (p : Player.t) : Rand GameRoom.t :=
  if negb (State_eqb (GameRoom.GameState r) playing) then ret r
  else fire p (Z.to_nat (Player.FirePower p)) 0 r.

(** Hostile fire of the enemy under [id] ([part_001], lines 519-534). *)
Definition enemyFire (id : string) (r : GameRoom.t) : Rand GameRoom.t :=
  match GameRoom.Enemies r !! id with
  | None => ret r
  | Some e =>
      let* n := Intn 1000 in
      if n <? 5 then
        let* bid := newUUID in
        let eb := Entity.mk bid enemyBullet
                    (Entity.X e + float64_of_int (Entity.Width e) / 2)%float
                    (Entity.Y e + float64_of_int (Entity.Height e))%float
                    0 3 5 5 0 in
        ret (GameRoom.setBullets (<[bid := eb]> (GameRoom.Bullets r)) r)
      else ret r
  end.

(** A hostile bullet [id] hits the player [p] stored under [pid]
    ([part_001], lines 551-566). *)
Definition hostileHit (id pid : string) (p : Player.t) (r : GameRoom.t)
  : GameRoom.t :=
  let r := GameRoom.setBullets (delete id (GameRoom.Bullets r)) r in
  let h := Player.Health p - 15 in
  let h := if h <? 0 then 0 else h in
  let r := GameRoom.setPlayers
             (<[pid := Player.setHealth h p]> (GameRoom.Players r)) r in
  if allPlayersDead (GameRoom.Players r)
  then GameRoom.setGameState gameover r else r.

(** The item dropped by the enemy [e] ([part_001], lines 602-613). *)
Definition itemOf (itemID : string) (e : Entity.t) : Entity.t :=
  Entity.mk itemID item (Entity.X e) (Entity.Y e) 0 1 15 15 0.

(** The enemy test of the bullet pass ([part_001], lines 595-625). *)
Definition hitEnemy (id : string) (b : Entity.t) (r : GameRoom.t)
  : Rand GameRoom.t :=
  let* eks := range (GameRoom.Enemies r) in
  match firstEnemyHit b (GameRoom.Enemies r) eks with
  | Some eid =>
      match GameRoom.Enemies r !! eid with
      | Some e =>
          let r := GameRoom.setBullets (delete id (GameRoom.Bullets r)) r in
          let r := GameRoom.setEnemies (delete eid (GameRoom.Enemies r)) r in
          let r := GameRoom.setEnemiesDefeated
                     (GameRoom.EnemiesDefeated r + 1) r in
          let* itemID := newUUID in
          let r := GameRoom.setItems
                     (<[itemID := itemOf itemID e]> (GameRoom.Items r)) r in
          let* pks := range (GameRoom.Players r) in
          ret (creditScore b pks r)
      | None => ret r
      end
  | None => ret r
  end.

(** The player test of a hostile bullet [b] stored under [id]
    ([part_001], lines 548-571). *)
Definition hitPlayer (id : string) (b : Entity.t) (r : GameRoom.t)
  : Rand GameRoom.t :=
  let* pks := range (GameRoom.Players r) in
  match firstPlayerHit b (GameRoom.Players r) pks with
  | Some pid =>
      match GameRoom.Players r !! pid with
      | Some p => ret (hostileHit id pid p r)
      | None => ret r
      end
  | None => ret r
  end.

(** The body of the bullet loop ([part_001], lines 537-628) for the
    bullet stored under [id]. *)
Definition bulletStep (id : string) (r : GameRoom.t) : Rand GameRoom.t :=
  match GameRoom.Bullets r !! id with
  | None => ret r
  | Some b0 =>
      let b := advance b0 in
      if offScreen b then
        ret (GameRoom.setBullets (delete id (GameRoom.Bullets r)) r)
      else
        let r := GameRoom.setBullets (<[id := b]> (GameRoom.Bullets r)) r in
        match Entity.Type_ b with
        | enemyBullet | bossBullet => hitPlayer id b r
        | bullet =>
            match bossHit b r with
            | Some bs => ret (hitBoss id bs r)
            | None => hitEnemy id b r
            end
        | _ => ret r
        end
  end.

(** The body of the item loop ([part_001], lines 631-645). *)
Definition itemStep (iid : string) (r : GameRoom.t) : Rand GameRoom.t :=
  match GameRoom.Items r !! iid with
  | None => ret r
  | Some it0 =>
      let it := Entity.setY (Entity.Y it0 + Entity.VelocityY it0)%float it0 in
      if fgt (Entity.Y it) 600 then
        ret (GameRoom.setItems (delete iid (GameRoom.Items r)) r)
      else
        let r := GameRoom.setItems (<[iid := it]> (GameRoom.Items r)) r in
        let* pks := range (GameRoom.Players r) in
        match firstPlayerHit it (GameRoom.Players r) pks with
        | Some pid =>
            match GameRoom.Players r !! pid with
            | Some p =>
                let r := GameRoom.setPlayers
                           (<[pid := Player.setFirePower (Player.FirePower p + 1) p]>
                              (GameRoom.Players r)) r in
                ret (GameRoom.setItems (delete iid (GameRoom.Items r)) r)
            | None => ret r
            end
        | None => ret r
        end
  end.

(** [updateGame] ([part_001], lines 489-735) *)
Definition updateGame (r : GameRoom.t) : Rand GameRoom.t :=
  if negb (State_eqb (GameRoom.GameState r) playing) then ret r
  else
    let r := movePlayers r in
    let* eks := range (GameRoom.Enemies r) in
    let* r := forEach enemyFire eks r in
    let* bks := range (GameRoom.Bullets r) in
    let* r := forEach bulletStep bks r in
    let* iks := range (GameRoom.Items r) in
    let* r := forEach itemStep iks r in
    let* r := enemyLoop r in
    bossStep r.

End PowerUp.

(** ** One room as a transition system *)

Inductive Revision := main_go | part_001.

Definition createBullet (v : Revision) : GameRoom.t -> Player.t -> Rand GameRoom.t :=
  match v with
  | main_go => Main.createBullet
  | part_001 => PowerUp.createBullet
  end.

Definition updateGame (v : Revision) : GameRoom.t -> Rand GameRoom.t :=
  match v with
  | main_go => Main.updateGame
  | part_001 => PowerUp.updateGame
  end.

(** The body of the bullet loop in either revision. *)
Definition bulletStep (v : Revision) : string -> GameRoom.t -> Rand GameRoom.t :=
  match v with
  | main_go => Main.bulletStep
  | part_001 => PowerUp.bulletStep
  end.

(** What can happen to a room: the messages of its sessions, a session
    joining or leaving, and the two timers of its [gameLoop]. *)
Inductive RoomEvent :=
| Joined (clientID : string)
| Left (pid : string)
| Move (pid : string) (vx vy : option float64)
| Shoot (pid : string)
| Restart
| Tick
| EnemyTick.

Definition roomStep (v : Revision) (ev : RoomEvent) (r : GameRoom.t)
  : Rand GameRoom.t :=
  match ev with
  | Joined clientID => let* p := newPlayer clientID in ret (join p r)
  | Left pid => ret (leave pid r)
  | Move pid vx vy => ret (move pid vx vy r)
  | Shoot pid =>
      match GameRoom.Players r !! pid with
      | Some p => createBullet v r p
      | None => ret r
      end
  | Restart => restart r
  | Tick => updateGame v r
  | EnemyTick => enemyTick r
  end.

(** The room after the events [evs], from the room [r]. *)
Fixpoint runRoom (v : Revision) (evs : list RoomEvent) (r : GameRoom.t)
  : Rand GameRoom.t :=
  match evs with
  | [] => ret r
  | ev :: evs' => let* r' := roomStep v ev r in runRoom v evs' r'
  end.

(** ** The server: registry, matchmaker, sessions ([main.go], lines 40-55
    and 202-340, and the [ticker.C] branch of [gameLoop], lines 452-463) *)

(** A session: its [GameRoom] pointer is kept as the room's [ID]. *)
Module Client.
Record t := mk { ID : string; GameRoom : string }.
End Client.

Record Server := mkServer {
  clients : gmap string Client.t;
  gameRooms : gmap string GameRoom.t
}.

(** The test of line 250. *)
Definition hasVacancy (room : GameRoom.t) : bool :=
  (size (GameRoom.Players room) <? 4)%nat
  && State_eqb (GameRoom.GameState room) playing.

(** The search of lines 249-254 over the rooms in the order [ks]. *)
Definition findRoom (rooms : gmap string GameRoom.t) (ks : list string)
  : option string :=
  find (fun k => match rooms !! k with
                 | Some room => hasVacancy room
                 | None => false
                 end) ks.

(** Lines 244-262: the room a new session is placed in, with the
    registry after a room had to be created. *)
Definition placeSession (rooms : gmap string GameRoom.t)
  : Rand (string * gmap string GameRoom.t) :=
  let* ks := range rooms in
  match findRoom rooms ks with
  | Some rid => ret (rid, rooms)
  | None =>
      let* room := newGameRoom in
      ret (GameRoom.ID room, <[GameRoom.ID room := room]> rooms)
  end.

(** Lines 266-269: the player enters the room it was placed in. *)
Definition enter (p : Player.t) (rid : string) (rooms : gmap string GameRoom.t)
  : gmap string GameRoom.t :=
  match rooms !! rid with
  | Some room => <[rid := join p room]> rooms
  | None => rooms
  end.

(** A connection, up to the "init" message (lines 211-269), run with no
    other handler and no timer in between: the search and the entry
    back to back.  The source takes [gamesMutex] for the search and,
    after releasing it, the room's [Mutex] for the entry, so that in the
    program the two halves ([search], [entry]) can be interleaved with
    other handlers; every statement about [connect] and [runServer] is
    about events that are each handled in one piece. *)
Definition connect (s : Server) : Rand Server :=
  let* clientID := newUUID in
  let* p := newPlayer clientID in
  let* placed := placeSession (gameRooms s) in
  let rid := fst placed in
  let rooms := snd placed in
  ret (mkServer (<[clientID := Client.mk clientID rid]> (clients s))
         (enter p rid rooms)).

Inductive Message :=
| MsgMove (vx vy : option float64)
| MsgShoot
| MsgRestart.

Definition roomEventOf (clientID : string) (m : Message) : RoomEvent :=
  match m with
  | MsgMove vx vy => Move clientID vx vy
  | MsgShoot => Shoot clientID
  | MsgRestart => Restart
  end.

Inductive ServerEvent :=
| Connect
| Receive (clientID : string) (m : Message)
| Disconnect (clientID : string)
| Ticker (roomID : string)
| EnemyTicker (roomID : string).

(** The room event [ev] applied to the registered room [rid]. *)
Definition inRoom (v : Revision) (rid : string) (ev : RoomEvent) (s : Server)
  : Rand Server :=
  match gameRooms s !! rid with
  | Some room =>
      let* room' := roomStep v ev room in
      ret (mkServer (clients s) (<[rid := room']> (gameRooms s)))
  | None => ret s
  end.

Definition serverStep (v : Revision) (ev : ServerEvent) (s : Server)
  : Rand Server :=
  match ev with
  | Connect => connect s
  | Receive clientID m =>
      match clients s !! clientID with
      | Some c => inRoom v (Client.GameRoom c) (roomEventOf clientID m) s
      | None => ret s
      end
  | Disconnect clientID =>
      match clients s !! clientID with
      | Some c =>
          let* s' := inRoom v (Client.GameRoom c) (Left clientID) s in
          ret (mkServer (delete clientID (clients s')) (gameRooms s'))
      | None => ret s
      end
  | Ticker rid =>
      let* s' := inRoom v rid Tick s in
      match gameRooms s' !! rid with
      | Some room =>
          if (size (GameRoom.Players room) =? 0)%nat
          then ret (mkServer (clients s') (delete rid (gameRooms s')))
          else ret s'
      | None => ret s'
      end
  | EnemyTicker rid => inRoom v rid EnemyTick s
  end.

Fixpoint runServer (v : Revision) (evs : list ServerEvent) (s : Server)
  : Rand Server :=
  match evs with
  | [] => ret s
  | ev :: evs' => let* s' := serverStep v ev s in runServer v evs' s'
  end.

Definition emptyServer : Server := mkServer ∅ ∅.

(** ** Specification vocabulary *)

(** [post c P]: whatever the environment, the result of [c] satisfies [P]. *)
Definition post {A} (c : Rand A) (P : A -> Prop) : Prop :=
  forall e, P (fst (c e)).

(** The order in which the [range] statement run in environment [e]
    visits the keys of [m]. *)
Definition orderOf {V} (m : gmap string V) (e : Env) : list string :=
  fst (range m e).

(** What the score loop does to the players: nothing when no player of
    [ks] stands exactly where the bullet is, and otherwise ten points to
    the first of them. *)
Definition credited (b : Entity.t) (ks : list string)
  (ps ps' : gmap string Player.t) : Prop :=
  ((forall k p, k ∈ ks -> ps !! k = Some p -> samePosition p b = false)
   /\ ps' = ps)
  \/ (exists pid p before after,
        ks = before ++ pid :: after
        /\ ps !! pid = Some p /\ samePosition p b = true
        /\ (forall k q, k ∈ before -> ps !! k = Some q -> samePosition q b = false)
        /\ ps' = <[pid := Player.setScore (Player.Score p + 10) p]> ps).

(** The bonus of 500 points of line 537. *)
Definition bonus (p : Player.t) : Player.t :=
  Player.setScore (Player.Score p + 500) p.

(** The bullet under [id] is a friendly bullet that, once advanced, is
    on screen and overlaps [bs]. *)
Definition strikes (r : GameRoom.t) (bs : Entity.t) (id : string) : Prop :=
  exists b0, GameRoom.Bullets r !! id = Some b0
             /\ Entity.Type_ b0 = bullet
             /\ offScreen (advance b0) = false
             /\ checkCollision (advance b0) bs = true.

(** [m] without the keys [ks]. *)
Definition deleteAll {V} (ks : list string) (m : gmap string V) : gmap string V :=
  foldl (fun m k => delete k m) m ks.

(** The next [n] identifiers that [uuid.New] returns in [e]. *)
Definition nextUUIDs (e : Env) (n : nat) : list string :=
  map (fun j => uuidSource e (uuidUsed e + j)%nat) (seq 0 n).

(** The fan of a shot is symmetric around the shooter's centre: the
    lateral indices of its bullets come in opposite pairs. *)
Definition symmetricFan (firePower : Z) : Prop :=
  forall i, 0 <= i < firePower ->
    exists j, 0 <= j < firePower
              /\ PowerUp.fanIndex firePower j = - PowerUp.fanIndex firePower i.

(** What a physics tick never does to a room [r], whatever it does
    otherwise: [s] has the same [BossSpawned] flag and the same players
    (by key), no boss if [r] had none, and no enemy that [r] did not
    have. *)
Definition tickStable (r s : GameRoom.t) : Prop :=
  GameRoom.BossSpawned s = GameRoom.BossSpawned r
  /\ (GameRoom.Boss r = None -> GameRoom.Boss s = None)
  /\ dom (GameRoom.Enemies s) ⊆ dom (GameRoom.Enemies r)
  /\ dom (GameRoom.Players s) = dom (GameRoom.Players r).

(** A player as the restart handler leaves it: full health, no points,
    and a spawn point drawn from [300, 600) x [300, 600). *)
Definition respawned (p : Player.t) : Prop :=
  Player.Health p = 100 /\ Player.Score p = 0
  /\ exists x y, 0 <= x < 300 /\ 0 <= y < 300
                 /\ Player.X p = float64_of_int (300 + x)
                 /\ Player.Y p = float64_of_int (300 + y).

(** The step from [r] to [r'] brought a boss into a room that had none. *)
Definition bossAppears (r r' : GameRoom.t) : bool :=
  match GameRoom.Boss r, GameRoom.Boss r' with
  | None, Some _ => true
  | _, _ => false
  end.

(** A restart request that takes effect: one received in an end state. *)
Definition effectiveRestart (ev : RoomEvent) (r : GameRoom.t) : bool :=
  match ev with
  | Restart => negb (State_eqb (GameRoom.GameState r) playing)
  | _ => false
  end.



(** The step from [r] to [r'] touched neither the boss, nor the flag,
    nor the enemies. *)
Definition spawnQuiet (r r' : GameRoom.t) : Prop :=
  GameRoom.Boss r' = GameRoom.Boss r
  /\ GameRoom.BossSpawned r' = GameRoom.BossSpawned r
  /\ GameRoom.Enemies r' = GameRoom.Enemies r.

(** A room with a boss has its [BossSpawned] flag set. *)
Definition bossFlagged (r : GameRoom.t) : Prop :=
  GameRoom.Boss r <> None -> GameRoom.BossSpawned r = true.

(** The bounds on a player's health and score. *)
Definition okPlayer (p : Player.t) : Prop :=
  0 <= Player.Health p <= 100 /\ 0 <= Player.Score p.

Definition playersOK (r : GameRoom.t) : Prop :=
  map_Forall (fun _ p => okPlayer p) (GameRoom.Players r).

(** No registered room holds more than four players. *)
Definition occupancyOK (s : Server) : Prop :=
  map_Forall (fun _ room => (size (GameRoom.Players room) <= 4)%nat) (gameRooms s).

(** ** Sample data *)

Definition sampleEnv : Env :=
  mkEnv (fun n => Z.of_nat n) 0 (fun n => "uuid-" +:+ pretty n) 0 (fun _ => []) 0.

Definition alice : Player.t :=
  Player.mk (Entity.mk "alice" player 300 300 0 0 30 30 100)
    "Player-alice" 0 100 "#FF0000" 1.

(** A boss bullet about to reach [alice]. *)
Definition hostileShot : Entity.t := Entity.mk "shot" bossBullet 310 290 0 3 10 10 0.

Definition duel : GameRoom.t :=
  GameRoom.mk "room" {["alice" := alice]} {["shot" := hostileShot]} ∅ ∅ None
    0 false playing.

(** A player's bullet about to reach the enemy [grunt]. *)
Definition pew : Entity.t := Entity.mk "pew" bullet 312.5 100 0 (-6) 5 10 0.

Definition grunt : Entity.t := Entity.mk "grunt" enemy 300 80 0 1 30 30 1.

Definition skirmish : GameRoom.t :=
  GameRoom.mk "room" {["alice" := alice]} {["pew" := pew]} {["grunt" := grunt]} ∅
    None 0 false playing.

Definition bigBoss : Entity.t := Entity.mk "boss-1" boss 350 50 2 0 100 80 100.

(** A boss bullet about to reach [grunt], away from the boss. *)
Definition bolt : Entity.t := Entity.mk "bolt" bossBullet 310 70 0 3 10 10 0.

Definition bossFight : GameRoom.t :=
  GameRoom.mk "room" {["alice" := alice]} {["bolt" := bolt]} {["grunt" := grunt]} ∅
    (Some bigBoss) 20 true playing.

(** A lost game: [alice] is dead, the boss is still there. *)
Definition wreck : GameRoom.t :=
  GameRoom.mk "room"
    {["alice" := Player.setScore 40 (Player.setHealth 0 alice)]}
    {["bolt" := bolt]} {["grunt" := grunt]} ∅ (Some bigBoss) 23 true gameover.

(** A room whose players have earned the boss. *)
Definition ripe : GameRoom.t :=
  GameRoom.mk "room" {["alice" := alice]} ∅ {["grunt" := grunt]} ∅ None 20 false
    playing.

Definition sampleRun : list RoomEvent :=
  [Joined "alice"; EnemyTick; Shoot "alice"; Tick;
   Move "alice" (Some 1%float) None; Tick; Restart; Left "bob"].

(** A hundred bullets under the boss. *)
Definition volleyIds : list string := map (fun n => "b" +:+ pretty n) (seq 0 100).

Definition volley : GameRoom.t :=
  GameRoom.mk "room" {["alice" := alice]}
    (list_to_map (map (fun id => (id, Entity.mk id bullet 400 130 0 (-6) 5 10 0))
                    volleyIds))
    ∅ ∅ (Some bigBoss) 20 true playing.

(** The test behind [strikes]. *)
Definition strikesb (r : GameRoom.t) (bs : Entity.t) (id : string) : bool :=
  match GameRoom.Bullets r !! id with
  | Some b0 =>
      match Entity.Type_ b0 with bullet => true | _ => false end
      && negb (offScreen (advance b0)) && checkCollision (advance b0) bs
  | None => false
  end.

(** A player with fire power 2, and one with fire power 3. *)
Definition twin : Player.t := Player.setFirePower 2 alice.
Definition triple : Player.t := Player.setFirePower 3 alice.

Definition lobby : GameRoom.t :=
  GameRoom.mk "room" {["alice" := twin]} ∅ ∅ ∅ None 0 false playing.

(** Three sessions in one room, and two more players on their way. *)
Definition threeIn : gmap string GameRoom.t :=
  gameRooms (fst (runServer main_go (replicate 3 Connect) emptyServer sampleEnv)).

Definition bob : Player.t :=
  Player.mk (Entity.mk "bob" player 400 400 0 0 30 30 100)
    "Player-bob" 0 100 "#00FF00" 1.

Definition carol : Player.t :=
  Player.mk (Entity.mk "carol" player 500 500 0 0 30 30 100)
    "Player-carol" 0 100 "#0000FF" 1.

(** ** The range of the [int] fields

    The model takes Go's [int] in [Z].  [intsBounded n r] bounds every
    [int] field that the program updates, in a room [r] reached by [n]
    events: the theorem [ints_stay_small] shows it of every run, so the
    64-bit arithmetic of the source agrees with [Z] on any run of fewer
    than 2^59 events. *)

(** The bonus a player may hold: 500 once a boss has come and gone. *)
Definition bonusCap (r : GameRoom.t) : Z :=
  match GameRoom.Boss r with
  | Some _ => 0
  | None => if GameRoom.BossSpawned r then 500 else 0
  end.

Definition scoreCeiling (r : GameRoom.t) : Z :=
  10 * GameRoom.EnemiesDefeated r + bonusCap r.

(** Enemies alive and items on their way down. *)
Definition load (r : GameRoom.t) : Z :=
  Z.of_nat (size (GameRoom.Items r)) + Z.of_nat (size (GameRoom.Enemies r)).

Definition playerWithin (n ceiling ld : Z) (p : Player.t) : Prop :=
  0 <= Player.Health p <= 100
  /\ 0 <= Player.Score p <= ceiling
  /\ 1 <= Player.FirePower p
  /\ Player.FirePower p - 1 + ld <= n.

Definition intsBounded (n : Z) (r : GameRoom.t) : Prop :=
  bossFlagged r
  /\ 0 <= GameRoom.EnemiesDefeated r
  /\ GameRoom.EnemiesDefeated r + Z.of_nat (size (GameRoom.Enemies r)) <= n
  /\ load r <= n
  /\ (forall b, GameRoom.Boss r = Some b -> 0 < Entity.Health b <= 100)
  /\ map_Forall (fun _ p => playerWithin n (scoreCeiling r) (load r) p)
       (GameRoom.Players r).

(** ** The players through a tick *)

(** [q] stands within the play field of the players, [0, 770] x [0, 570]
    (lines 499-510): its corner is past none of the four edges.  A
    coordinate that is not a number is past no edge. *)
Definition withinField (q : Player.t) : Prop :=
  flt (Player.X q) 0 = false /\ fgt (Player.X q) 770 = false
  /\ flt (Player.Y q) 0 = false /\ fgt (Player.Y q) 570 = false.

(** What the passes of a tick may do to a player [p]: its entity, name
    and colour stay, its score and fire power do not go down, and its
    health does not go up. *)
Definition playerKept (p p' : Player.t) : Prop :=
  Player.Entity p' = Player.Entity p
  /\ Player.Name p' = Player.Name p
  /\ Player.Color p' = Player.Color p
  /\ Player.Score p <= Player.Score p'
  /\ Player.FirePower p <= Player.FirePower p'
  /\ Player.Health p' <= Z.max 0 (Player.Health p).

Definition playersKept (r s : GameRoom.t) : Prop :=
  forall pid,
    option_Forall2 playerKept (GameRoom.Players r !! pid) (GameRoom.Players s !! pid).

(** ** The bullets, the enemies and the items through a tick *)

(** The bullet that the enemy [e] fires ([part_001], lines 522-531). *)
Definition enemyBulletOf (bid : string) (e : Entity.t) : Entity.t :=
  Entity.mk bid enemyBullet
    (Entity.X e + float64_of_int (Entity.Width e) / 2)%float
    (Entity.Y e + float64_of_int (Entity.Height e))%float 0 3 5 5 0.

(** Where the bullet [b], stored under [k] in the room [r'] after a
    tick, comes from, [r] being the room before the tick: either it is a
    bullet of [r], or (in [part_001]) the bullet that an enemy of [r]
    fired during this tick, moved by one step and on screen; or it is
    the bullet that the boss has just fired. *)
Definition bulletOrigin (v : Revision) (r r' : GameRoom.t) (k : string)
  (b : Entity.t) : Prop :=
  (exists b0,
     (GameRoom.Bullets r !! k = Some b0
      \/ v = part_001
         /\ exists eid en, GameRoom.Enemies r !! eid = Some en
                           /\ b0 = enemyBulletOf k en)
     /\ b = advance b0 /\ offScreen b = false)
  \/ (exists bs vx vy,
        GameRoom.Boss r' = Some bs /\ b = bossBulletOf k bs vx vy
        /\ 0 <= vx < 5 /\ 0 <= vy < 3).

(** The boss as lines 604-609 leave it: moved, and turned round at the
    edges. *)
Definition patrolled (b0 : Entity.t) : Entity.t :=
  let b := Entity.setX (Entity.X b0 + Entity.VelocityX b0)%float b0 in
  if fle (Entity.X b) 0
     || fge (Entity.X b + float64_of_int (Entity.Width b))%float 800
  then Entity.setVelocityX (Entity.VelocityX b * (-1))%float b else b.

(** What the hostile fire of the enemies ([part_001], lines 519-534) may
    do: add bullets fired by enemies of the room. *)
Definition firedFrom (r s : GameRoom.t) : Prop :=
  GameRoom.Enemies s = GameRoom.Enemies r
  /\ forall k b, GameRoom.Bullets s !! k = Some b ->
       GameRoom.Bullets r !! k = Some b
       \/ exists eid en, GameRoom.Enemies r !! eid = Some en
                         /\ b = enemyBulletOf k en.

(** What the passes that come before the item loop and the enemy loop
    may do to the enemies and the items: remove enemies and, in
    [part_001], drop the item of an enemy of the room. *)
Definition dropped (r s : GameRoom.t) : Prop :=
  (forall k en, GameRoom.Enemies s !! k = Some en -> GameRoom.Enemies r !! k = Some en)
  /\ forall k it, GameRoom.Items s !! k = Some it ->
       GameRoom.Items r !! k = Some it
       \/ exists eid en, GameRoom.Enemies r !! eid = Some en
                         /\ it = PowerUp.itemOf k en.

(** An item after one step of its fall (line 632). *)
Definition fallen (it : Entity.t) : Entity.t :=
  Entity.setY (Entity.Y it + Entity.VelocityY it)%float it.

(** No player of the room [r] overlaps [a]. *)
Definition clearOfPlayers (a : Entity.t) (r : GameRoom.t) : Prop :=
  forall pid p, GameRoom.Players r !! pid = Some p ->
                checkCollision a (Player.Entity p) = false.

(** The passes of [updateGame] that differ between the revisions, by
    name: the hostile fire of the enemies ([part_001], lines 519-534;
    absent from [src/main.go]), the bullet loop, and the item loop
    ([part_001], lines 631-645; absent from [src/main.go]). *)
Definition firePass (v : Revision) (s : GameRoom.t) : Rand GameRoom.t :=
  match v with
  | main_go => ret s
  | part_001 =>
      let* eks := range (GameRoom.Enemies s) in forEach PowerUp.enemyFire eks s
  end.

Definition bulletPass (v : Revision) (s : GameRoom.t) : Rand GameRoom.t :=
  let* bks := range (GameRoom.Bullets s) in forEach (bulletStep v) bks s.

Definition itemPass (v : Revision) (s : GameRoom.t) : Rand GameRoom.t :=
  match v with
  | main_go => ret s
  | part_001 =>
      let* iks := range (GameRoom.Items s) in forEach PowerUp.itemStep iks s
  end.

(** The player [p] once it has lost [amount] points of health, the
    health floored at 0. *)
Definition wounded (amount : Z) (p : Player.t) : Player.t :=
  Player.setHealth (Z.max 0 (Player.Health p - amount)) p.

(** An enemy about to run into [alice], and an item about to reach her. *)
Definition lurker : Entity.t := Entity.mk "lurker" enemy 310 280 0 1 30 30 1.

Definition ambush : GameRoom.t :=
  GameRoom.mk "room" {["alice" := alice]} ∅ {["lurker" := lurker]} ∅ None 0 false
    playing.

Definition prize : Entity.t := Entity.mk "prize" item 310 290 0 1 15 15 0.

Definition windfall : GameRoom.t :=
  GameRoom.mk "room" {["alice" := alice]} ∅ ∅ {["prize" := prize]} None 0 false
    playing.

(** ** The boss *)

(** What the body of the boss [b] does to the player [p] (lines
    628-649): 20 points of damage when they overlap. *)
Definition rammed (b : Entity.t) (p : Player.t) : Player.t :=
  if checkCollision b (Player.Entity p) then wounded 20 p else p.

(** The test of line 629 for the player stored under [k]. *)
Definition overlapsAt (b : Entity.t) (ps : gmap string Player.t) (k : string)
  : bool :=
  match ps !! k with
  | Some p => checkCollision b (Player.Entity p)
  | None => false
  end.

(** The body of the loop at lines 628-649, for the boss [b]. *)
Definition contact (b : Entity.t) (pid : string) (r : GameRoom.t)
  : Rand GameRoom.t :=
  ret match GameRoom.Players r !! pid with
      | Some p => if checkCollision b (Player.Entity p) then hurt 20 pid p r else r
      | None => r
      end.

(** The boss [b] overlaps some player of [ps]. *)
Definition touches (b : Entity.t) (ps : gmap string Player.t) : bool :=
  negb (bool_decide
          (map_Forall (fun _ p => checkCollision b (Player.Entity p) = false) ps)).

(** The course of the boss.  [createBoss] puts it at x = 350 with speed 2
    to the right; [onPatrol b] says that [b] is at one of the even
    abscissas 0, 2, ..., 700, at height 50, moving at speed 2 to the
    right or to the left, and outwards at neither end. *)
Definition speedOf (right : bool) : float64 := if right then 2%float else (-2)%float.

Definition onPatrol (b : Entity.t) : Prop :=
  exists (n : Z) (right : bool),
    0 <= n <= 350
    /\ Entity.X b = float64_of_int (2 * n)
    /\ Entity.VelocityX b = speedOf right
    /\ (n = 0 -> right = true) /\ (n = 350 -> right = false)
    /\ Entity.Y b = 50%float /\ Entity.Width b = 100 /\ Entity.Height b = 80.

Definition bossPatrols (r : GameRoom.t) : Prop :=
  forall b, GameRoom.Boss r = Some b -> onPatrol b.

(** The boss is within the screen, [0, 800], from side to side. *)
Definition bossOnScreen (b : Entity.t) : Prop :=
  fle 0 (Entity.X b) = true
  /\ fle (Entity.X b + float64_of_int (Entity.Width b))%float 800 = true.

(** The next stop of the patrol after the stop [n], and the direction
    there. *)
Definition nextStop (n : Z) (right : bool) : Z * bool :=
  let n' := if right then n + 1 else n - 1 in
  (n', if (n' <=? 0) || (350 <=? n') then negb right else right).

(** A boss at the stop [n] of the patrol. *)
Definition bossAt (n : Z) (right : bool) : Entity.t :=
  Entity.mk "boss" boss (float64_of_int (2 * n)) 50 (speedOf right) 0 100 80 100.

(** The test that one step of [patrolled] takes the boss from the stop
    [n] to the next stop, on screen. *)
Definition patrolStepOK (n : Z) (right : bool) : bool :=
  let b := patrolled (bossAt n right) in
  let n' := fst (nextStop n right) in
  let right' := snd (nextStop n right) in
  PrimFloat.Leibniz.eqb (Entity.X b) (float64_of_int (2 * n'))
  && PrimFloat.Leibniz.eqb (Entity.VelocityX b) (speedOf right')
  && fle 0 (float64_of_int (2 * n))
  && fle (float64_of_int (2 * n) + float64_of_int 100)%float 800.

Definition stops : list Z := map Z.of_nat (seq 0 351).

(** What the bullet loop may do to the boss: lower its health or remove
    it. *)
Definition bossKept (s t : GameRoom.t) : Prop :=
  forall b', GameRoom.Boss t = Some b' ->
    exists b, GameRoom.Boss s = Some b /\ b' = Entity.setHealth (Entity.Health b') b.

(** [alice] under the boss. *)
Definition brawl : GameRoom.t :=
  GameRoom.mk "room"
    {["alice" := Player.setEntity
                   (Entity.setY 100 (Entity.setX 400 (Player.Entity alice))) alice]}
    ∅ ∅ ∅ (Some bigBoss) 20 true playing.

(** ** Restart, spawner and end states *)

(** What the restart handler leaves of a player [p]: its name, colour
    and fire power, and all of its entity but the position (so its
    velocity as well). *)
Definition respawnKept (p p' : Player.t) : Prop :=
  Player.Name p' = Player.Name p
  /\ Player.Color p' = Player.Color p
  /\ Player.FirePower p' = Player.FirePower p
  /\ Player.Entity p'
     = Entity.setY (Player.Y p') (Entity.setX (Player.X p') (Player.Entity p)).

Definition restartKept (r s : GameRoom.t) : Prop :=
  GameRoom.ID s = GameRoom.ID r
  /\ GameRoom.Items s = GameRoom.Items r
  /\ forall pid,
       option_Forall2 respawnKept (GameRoom.Players r !! pid)
         (GameRoom.Players s !! pid).

(** The abscissas at which [createEnemy] can put an enemy. *)
Definition spawnColumns : list Z := map Z.of_nat (seq 0 600).

(** How the state of a room may change in one pass of a tick: not at
    all, to "gameover" with no player left alive, or to "clear" with the
    boss gone. *)
Definition endStep (s t : GameRoom.t) : Prop :=
  GameRoom.GameState t = GameRoom.GameState s
  \/ (GameRoom.GameState t = gameover
      /\ allPlayersDead (GameRoom.Players t) = true)
  \/ (GameRoom.GameState t = clear
      /\ GameRoom.Boss t = None /\ GameRoom.Boss s <> None).

Definition passSound (s t : GameRoom.t) : Prop :=
  playersKept s t
  /\ (GameRoom.Boss s = None -> GameRoom.Boss t = None)
  /\ endStep s t.

(** [alice] with ten points of health left, the [lurker] upon her. *)
Definition lastStand : GameRoom.t :=
  GameRoom.setPlayers {["alice" := Player.setHealth 10 alice]} ambush.

(** ** Sessions and rooms *)

(** The environment [e'] is [e] some draws later: the stream of
    identifiers is the same, and at least as many of them are used. *)
Definition laterEnv (e e' : Env) : Prop :=
  uuidSource e' = uuidSource e /\ (uuidUsed e <= uuidUsed e')%nat.

(** A computation that only draws from the environment. *)
Definition steady {A} (c : Rand A) : Prop := forall e, laterEnv e (snd (c e)).

(** The sessions and the rooms agree: every session is registered under
    its own identifier and is a player of a registered room; every
    registered room is registered under its own identifier, and every
    one of its players is a session placed in it. *)
Definition sessionsOK (s : Server) : Prop :=
  (forall cid c, clients s !! cid = Some c ->
     Client.ID c = cid
     /\ exists room, gameRooms s !! Client.GameRoom c = Some room
                     /\ cid ∈ dom (GameRoom.Players room))
  /\ (forall rid room, gameRooms s !! rid = Some room ->
        GameRoom.ID room = rid
        /\ forall pid, pid ∈ dom (GameRoom.Players room) ->
             exists c, clients s !! pid = Some c /\ Client.GameRoom c = rid).

(** No identifier that [uuid.New] has still to return names a session
    or a room. *)
Definition unusedAhead (e : Env) (s : Server) : Prop :=
  forall i, (uuidUsed e <= i)%nat ->
    clients s !! uuidSource e i = None /\ gameRooms s !! uuidSource e i = None.

(** [uuid.New] never returns the same identifier twice. *)
Definition uuidsDistinct (e : Env) : Prop :=
  forall i j, uuidSource e i = uuidSource e j -> i = j.

(** ** State broadcast ([main.go], lines 658-687) *)





(** ** Message decoding ([main.go], lines 284-337) *)

(** A value as [encoding/json] decodes it into an [interface{}]. *)
#[local] Unset Elimination Schemes.
Inductive Dyn :=
| DNull
| DBool (b : bool)
| DNumber (x : float64)
| DString (s : string)
| DArray (l : list Dyn)
| DObject (m : gmap string Dyn).
#[local] Set Elimination Schemes.

(** [data[k].(float64)] *)
Definition numberAt (k : string) (m : gmap string Dyn) : option float64 :=
  match m !! k with
  | Some (DNumber x) => Some x
  | _ => None
  end.

(** The switch of lines 304-336 on [msg.Type], with the type assertions
    of the "move" case on [msg.Data]. *)
Definition decode (type : string) (data : Dyn) : option Message :=
  if String.eqb type "move" then
    Some match data with
         | DObject m => MsgMove (numberAt "vx" m) (numberAt "vy" m)
         | _ => MsgMove None None
         end
  else if String.eqb type "shoot" then Some MsgShoot
  else if String.eqb type "restart" then Some MsgRestart
  else None.

(** One turn of the message loop of the session [clientID], for a
    message that was read without error. *)
Definition receive (v : Revision) (clientID type : string) (data : Dyn)
  (s : Server) : Rand Server :=
  match decode type data with
  | Some m => serverStep v (Receive clientID m) s
  | None => ret s
  end.

(** ** The rooms of the server *)

(** The end states of a room are to be trusted: over, no player is
    alive; cleared, the boss is gone. *)
Definition endSound (r : GameRoom.t) : Prop :=
  (GameRoom.GameState r = gameover ->
   allPlayersDead (GameRoom.Players r) = true)
  /\ (GameRoom.GameState r = clear -> GameRoom.Boss r = None).

(** What holds of every room of the server. *)
Definition roomSound (r : GameRoom.t) : Prop :=
  playersOK r /\ endSound r /\ bossFlagged r /\ bossPatrols r.

(** The coordinates at which a session's player can be put. *)
Definition spawnPoints : list Z := map Z.of_nat (seq 0 300).

(** Every registered room satisfies [Inv]. *)
Definition roomsInv (Inv : GameRoom.t -> Prop) (s : Server) : Prop :=
  map_Forall (fun _ room => Inv room) (gameRooms s).

(** ** A bullet meets a player or an enemy *)

(** The player [p] is exactly where the bullet [b] is: both coordinates
    are equal as [float64] numbers ([==] of Go: no NaN is equal to
    anything, and the two zeros are equal). *)
Definition standsAt (p : Player.t) (b : Entity.t) : Prop :=
  PrimFloat.eqb (Player.X p) (Entity.X b) = true
  /\ PrimFloat.eqb (Player.Y p) (Entity.Y b) = true.

(** Ten points for the first player, in the order [ks], who stands
    exactly where the bullet [b] is; nothing for anybody when no player
    stands there. *)
Definition awarded (b : Entity.t) (ks : list string)
  (ps ps' : gmap string Player.t) : Prop :=
  ((forall k p, k ∈ ks -> ps !! k = Some p -> ~ standsAt p b) /\ ps' = ps)
  \/ (exists pid p before after,
        ks = before ++ pid :: after
        /\ ps !! pid = Some p /\ standsAt p b
        /\ (forall k q, k ∈ before -> ps !! k = Some q -> ~ standsAt q b)
        /\ ps' = <[pid := Player.setScore (Player.Score p + 10) p]> ps).

(** Nobody in [ps] is alive. *)
Definition nobodyAlive (ps : gmap string Player.t) : Prop :=
  forall k p, ps !! k = Some p -> Player.Health p <= 0.

(** [alice] and the boss, whose bullet is about to reach her. *)
Definition siege : GameRoom.t :=
  GameRoom.mk "room" {["alice" := alice]} {["shot" := hostileShot]} ∅ ∅
    (Some bigBoss) 20 true playing.

(** The same with ten points of health left. *)
Definition brink : GameRoom.t :=
  GameRoom.setPlayers {["alice" := Player.setHealth 10 alice]} siege.

(** A bullet that, once advanced, is exactly where [alice] is, and an
    enemy that it then overlaps. *)
Definition zap : Entity.t := Entity.mk "zap" bullet 300 306 0 (-6) 5 10 0.

Definition raider : Entity.t := Entity.mk "raider" enemy 290 290 0 1 30 30 1.

Definition melee : GameRoom.t :=
  GameRoom.mk "room" {["alice" := alice]} {["zap" := zap]} {["raider" := raider]} ∅
    None 0 false playing.

(** ** The two halves of a connection

    One run of the handler takes [gamesMutex] for the search (lines
    244-262) and, after releasing it, the room's own [Mutex] for the
    entry (lines 266-269): other handlers can run in between. *)

(** Lines 211-262: the session is registered, its player is created and
    a room is found or created for it.  The handler leaves with its
    player and its room. *)
Definition search (s : Server) : Rand (Player.t * string * Server) :=
  let* clientID := newUUID in
  let* p := newPlayer clientID in
  let* placed := placeSession (gameRooms s) in
  ret (p, fst placed,
       mkServer (<[clientID := Client.mk clientID (fst placed)]> (clients s))
         (snd placed)).

(** Lines 266-269: the player enters the room that the search gave.
    The source holds a pointer to that room; here the room is looked up
    under its identifier, which is the same thing as long as the room
    is registered. *)
Definition entry (p : Player.t) (rid : string) (s : Server) : Server :=
  mkServer (clients s) (enter p rid (gameRooms s)).

(** The abscissas of the field that are whole numbers. *)
Definition fieldColumns : list Z := map Z.of_nat (seq 0 771).

(** * Properties *)

(** ** float64 comparisons *)

Lemma SFltb_irrefl s : SFltb s s = false.
Proof.
  unfold SFltb, SFcompare.
  destruct s as [ [] | [] | | [] m e]; try reflexivity;
    rewrite Z.compare_refl, Pos.compare_cont_refl; reflexivity.
Qed.

Lemma flt_irrefl (x : float64) : flt x x = false.
Proof. unfold flt. rewrite ltb_spec. apply SFltb_irrefl. Qed.

(** ** The environment monad *)

Lemma post_ret {A} (a : A) (P : A -> Prop) : P a -> post (ret a) P.
Proof. intros H e. exact H. Qed.

Lemma post_bind {A B} (c : Rand A) (k : A -> Rand B) (P : A -> Prop)
  (Q : B -> Prop) :
  post c P -> (forall a, P a -> post (k a) Q) -> post (bind c k) Q.
Proof.
  intros Hc Hk e. unfold bind. specialize (Hc e).
  destruct (c e) as [a e']. exact (Hk a Hc e').
Qed.

Lemma post_any {A B} (c : Rand A) (k : A -> Rand B) (Q : B -> Prop) :
  (forall a, post (k a) Q) -> post (bind c k) Q.
Proof.
  intros Hk. apply post_bind with (P := fun _ => True); [intros e; exact I | auto].
Qed.

Lemma post_forEach {S} (body : string -> S -> Rand S) (I : S -> Prop) :
  (forall k s, I s -> post (body k s) I) ->
  forall ks s, I s -> post (forEach body ks s) I.
Proof.
  intros Hbody ks. induction ks as [|k ks IH]; intros s Hs; simpl.
  - apply post_ret, Hs.
  - eapply post_bind; [apply Hbody, Hs | exact IH].
Qed.

(** ** Iteration orders *)

Lemma insertAt_Permutation {A} (i : nat) (x : A) (l : list A) :
  insertAt i x l ≡ₚ x :: l.
Proof.
  unfold insertAt. rewrite <- Permutation_middle.
  now rewrite take_drop.
Qed.

Lemma shuffle_Permutation {A} (ns : list nat) (l : list A) :
  shuffle ns l ≡ₚ l.
Proof.
  revert ns. induction l as [|x l IH]; intros ns; simpl; [reflexivity|].
  rewrite insertAt_Permutation. now rewrite IH.
Qed.

(** Every order of the keys is the outcome of some choices: the
    theorems below, which hold for every environment, cover every
    iteration order Go may pick. *)
Lemma shuffle_complete {A} (l l' : list A) :
  l ≡ₚ l' -> exists ns, shuffle ns l = l'.
Proof.
  revert l'. induction l as [|x l IH]; intros l' Hp.
  - apply Permutation_nil in Hp. subst l'. exists []. reflexivity.
  - assert (Hin : x ∈ l') by (apply elem_of_Permutation; exists l; now symmetry).
    apply list_elem_of_split in Hin as (l1 & l2 & ->).
    apply Permutation_cons_app_inv in Hp.
    destruct (IH _ Hp) as [ns Hns].
    exists (length l1 :: ns). cbn [shuffle hd tl]. rewrite Hns.
    assert (Hlen : length l = (length l1 + length l2)%nat)
      by (rewrite Hp; apply length_app).
    rewrite Nat.mod_small by lia.
    unfold insertAt. now rewrite take_app_length, drop_app_length.
Qed.

Lemma elem_of_orderOf {V} (m : gmap string V) (e : Env) (k : string) :
  k ∈ orderOf m e <-> is_Some (m !! k).
Proof.
  unfold orderOf, range. simpl. rewrite shuffle_Permutation.
  rewrite list_elem_of_fmap. split.
  - intros [[k' v] [-> Hin]]. apply elem_of_map_to_list in Hin. eauto.
  - intros [v Hv]. exists (k, v). split; [reflexivity|].
    now apply elem_of_map_to_list.
Qed.

(** ** C9: the collision test *)

(** C9.  [checkCollision] is symmetric in its two arguments; an entity
    (of positive width and height) does not overlap its own copy
    shifted by its width along x or by its height along y; and the test
    is the conjunction of the four strict comparisons. *)
Theorem checkCollision_symmetric_edge_exclusive (a b : Entity.t) :
  checkCollision a b = checkCollision b a
  /\ (0 < Entity.Width a -> 0 < Entity.Height a ->
      checkCollision a
        (Entity.setX (Entity.X a + float64_of_int (Entity.Width a))%float a)
      = false
      /\ checkCollision a
           (Entity.setY (Entity.Y a + float64_of_int (Entity.Height a))%float a)
         = false)
  /\ (checkCollision a b = true <->
      flt (Entity.X a) (Entity.X b + float64_of_int (Entity.Width b))%float = true
      /\ fgt (Entity.X a + float64_of_int (Entity.Width a))%float (Entity.X b) = true
      /\ flt (Entity.Y a) (Entity.Y b + float64_of_int (Entity.Height b))%float = true
      /\ fgt (Entity.Y a + float64_of_int (Entity.Height a))%float (Entity.Y b) = true).
Proof.
  split; [|split].
  - unfold checkCollision, fgt, flt.
    destruct (PrimFloat.ltb (Entity.X a) _), (PrimFloat.ltb (Entity.X b) _),
      (PrimFloat.ltb (Entity.Y a) _), (PrimFloat.ltb (Entity.Y b) _); reflexivity.
  - intros _ _. unfold checkCollision, fgt. simpl.
    fold (flt (Entity.X a + float64_of_int (Entity.Width a))
              (Entity.X a + float64_of_int (Entity.Width a))).
    fold (flt (Entity.Y a + float64_of_int (Entity.Height a))
              (Entity.Y a + float64_of_int (Entity.Height a))).
    rewrite !flt_irrefl, !andb_false_r. split; reflexivity.
  - unfold checkCollision. rewrite !andb_true_iff. tauto.
Qed.

(** Reduction of the accessors of a room applied to its setters. *)
Ltac room_simpl :=
  cbn [GameRoom.ID GameRoom.Players GameRoom.Bullets GameRoom.Enemies
       GameRoom.Items GameRoom.Boss GameRoom.EnemiesDefeated
       GameRoom.BossSpawned GameRoom.GameState
       GameRoom.setPlayers GameRoom.setBullets GameRoom.setEnemies
       GameRoom.setItems GameRoom.setBoss GameRoom.setEnemiesDefeated
       GameRoom.setBossSpawned GameRoom.setGameState fst snd] in *.

Lemma orderOf_complete {V} (m : gmap string V) (ks : list string) (e : Env) :
  ks ≡ₚ map fst (map_to_list m) ->
  exists ns,
    orderOf m (mkEnv (randSource e) (randUsed e) (uuidSource e) (uuidUsed e)
                 (fun _ => ns) (orderUsed e)) = ks.
Proof.
  intros Hp. symmetry in Hp. destruct (shuffle_complete _ _ Hp) as [ns Hns].
  exists ns. exact Hns.
Qed.

(** ** First matches *)

Lemma find_first {A} (f : A -> bool) (l : list A) (x : A) :
  find f l = Some x ->
  exists before after,
    l = before ++ x :: after /\ f x = true
    /\ forall y, y ∈ before -> f y = false.
Proof.
  induction l as [|a l IH]; simpl; [discriminate|].
  destruct (f a) eqn:Ha.
  - intros [= ->]. exists [], l. repeat split; [assumption|].
    intros y Hy. inversion Hy.
  - intros Hx. destruct (IH Hx) as (before & after & -> & Hfx & Hb).
    exists (a :: before), after. repeat split; [assumption|].
    intros y Hy. apply elem_of_cons in Hy as [-> | Hy]; auto.
Qed.

Lemma find_is_Some {A} (f : A -> bool) (l : list A) (x : A) :
  x ∈ l -> f x = true -> is_Some (find f l).
Proof.
  intros Hin Hfx. destruct (find f l) eqn:Hfind; [eauto|].
  apply list_elem_of_In in Hin.
  pose proof (find_none f l Hfind x Hin) as Hn. congruence.
Qed.

Lemma firstPlayerHit_Some a (ps : gmap string Player.t) ks pid :
  firstPlayerHit a ps ks = Some pid ->
  exists p before after,
    ks = before ++ pid :: after
    /\ ps !! pid = Some p
    /\ checkCollision a (Player.Entity p) = true
    /\ forall k q, k ∈ before -> ps !! k = Some q ->
                   checkCollision a (Player.Entity q) = false.
Proof.
  intros H. apply find_first in H as (before & after & -> & Hp & Hb).
  destruct (ps !! pid) as [p|] eqn:Hpid; [|discriminate].
  exists p, before, after. repeat split; try assumption.
  intros k q Hk Hq. specialize (Hb k Hk). now rewrite Hq in Hb.
Qed.

Lemma firstPlayerHit_exists a (ps : gmap string Player.t) ks pid p :
  pid ∈ ks -> ps !! pid = Some p ->
  checkCollision a (Player.Entity p) = true ->
  is_Some (firstPlayerHit a ps ks).
Proof.
  intros Hin Hp Hc. apply (find_is_Some _ _ pid Hin). now rewrite Hp.
Qed.

Lemma firstEnemyHit_Some b (es : gmap string Entity.t) ks eid :
  firstEnemyHit b es ks = Some eid ->
  exists en before after,
    ks = before ++ eid :: after
    /\ es !! eid = Some en
    /\ checkCollision b en = true
    /\ forall k q, k ∈ before -> es !! k = Some q -> checkCollision b q = false.
Proof.
  intros H. apply find_first in H as (before & after & -> & Hp & Hb).
  destruct (es !! eid) as [en|] eqn:Heid; [|discriminate].
  exists en, before, after. repeat split; try assumption.
  intros k q Hk Hq. specialize (Hb k Hk). now rewrite Hq in Hb.
Qed.

Lemma firstEnemyHit_exists b (es : gmap string Entity.t) ks eid en :
  eid ∈ ks -> es !! eid = Some en -> checkCollision b en = true ->
  is_Some (firstEnemyHit b es ks).
Proof.
  intros Hin Hp Hc. apply (find_is_Some _ _ eid Hin). now rewrite Hp.
Qed.

Lemma setGameState_same r : GameRoom.setGameState (GameRoom.GameState r) r = r.
Proof. now destruct r. Qed.

(** ** Hostile bullets ([part_001]) *)

Lemma hostileHit_stored id pid p b r :
  PowerUp.hostileHit id pid p
    (GameRoom.setBullets (<[id := b]> (GameRoom.Bullets r)) r)
  = let ps' := <[pid := Player.setHealth (Z.max 0 (Player.Health p - 15)) p]>
                 (GameRoom.Players r) in
    GameRoom.setGameState
      (if allPlayersDead ps' then gameover else GameRoom.GameState r)
      (GameRoom.setPlayers ps'
         (GameRoom.setBullets (delete id (GameRoom.Bullets r)) r)).
Proof.
  unfold PowerUp.hostileHit. simpl. rewrite delete_insert_eq.
  replace (if Player.Health p - 15 <? 0 then 0 else Player.Health p - 15)
    with (Z.max 0 (Player.Health p - 15))
    by (destruct (Z.ltb_spec (Player.Health p - 15) 0); lia).
  destruct (allPlayersDead _); reflexivity.
Qed.

Lemma hostile_step r e id b0 pid p :
  GameRoom.Bullets r !! id = Some b0 ->
  Entity.Type_ b0 = enemyBullet \/ Entity.Type_ b0 = bossBullet ->
  offScreen (advance b0) = false ->
  firstPlayerHit (advance b0) (GameRoom.Players r)
    (orderOf (GameRoom.Players r) e) = Some pid ->
  GameRoom.Players r !! pid = Some p ->
  fst (PowerUp.bulletStep id r e)
  = PowerUp.hostileHit id pid p
      (GameRoom.setBullets (<[id := advance b0]> (GameRoom.Bullets r)) r).
Proof.
  intros Hb Hty Hon Hfind Hp. unfold PowerUp.bulletStep. rewrite Hb, Hon.
  change (Entity.Type_ (advance b0)) with (Entity.Type_ b0).
  unfold orderOf in Hfind.
  destruct Hty as [-> | ->]; unfold PowerUp.hitPlayer, bind;
    cbn [GameRoom.Players GameRoom.setBullets];
    destruct (range (GameRoom.Players r) e) as [pks e'];
    cbn [fst] in Hfind; rewrite Hfind, Hp; reflexivity.
Qed.

(** ** The score loop *)

Lemma creditScore_spec b ks r :
  creditScore b ks r = GameRoom.setPlayers (GameRoom.Players (creditScore b ks r)) r
  /\ credited b ks (GameRoom.Players r) (GameRoom.Players (creditScore b ks r)).
Proof.
  unfold creditScore.
  destruct (find _ ks) as [pid|] eqn:Hfind.
  - apply find_first in Hfind as (before & after & -> & Hp & Hb).
    destruct (GameRoom.Players r !! pid) as [p|] eqn:Hpid; [|discriminate].
    split; [reflexivity|]. right. exists pid, p, before, after.
    repeat split; try assumption.
    intros k q Hk Hq. specialize (Hb k Hk). now rewrite Hq in Hb.
  - split; [now destruct r|]. left. split; [|reflexivity].
    intros k p Hk Hp. apply list_elem_of_In in Hk.
    pose proof (find_none _ _ Hfind k Hk) as Hn. simpl in Hn.
    now rewrite Hp in Hn.
Qed.

Lemma bossHit_setBullets b bs r :
  bossHit b (GameRoom.setBullets bs r) = bossHit b r.
Proof. reflexivity. Qed.

(** ** C10: boss bullets in [src/main.go] *)

Lemma checkCollision_setType_ ty b x :
  checkCollision (Entity.setType_ ty b) x = checkCollision b x.
Proof. reflexivity. Qed.

Lemma hurt_Bullets n pid p r :
  GameRoom.Bullets (hurt n pid p r) = GameRoom.Bullets r.
Proof.
  unfold hurt. destruct (_ <=? 0); [|reflexivity].
  destruct (allPlayersDead _); reflexivity.
Qed.

(** The kill of [Main.hitEnemy], spelled out. *)
Lemma main_enemy_step r e id b0 :
  GameRoom.Bullets r !! id = Some b0 ->
  offScreen (advance b0) = false ->
  bossHit (advance b0) r = None ->
  (exists k q, GameRoom.Enemies r !! k = Some q
               /\ checkCollision (advance b0) q = true) ->
  exists eid en before after pks,
    orderOf (GameRoom.Enemies r) e = before ++ eid :: after
    /\ GameRoom.Enemies r !! eid = Some en
    /\ checkCollision (advance b0) en = true
    /\ (forall k q, k ∈ before -> GameRoom.Enemies r !! k = Some q ->
                    checkCollision (advance b0) q = false)
    /\ (forall k, k ∈ pks <-> is_Some (GameRoom.Players r !! k))
    /\ fst (Main.bulletStep id r e)
       = creditScore (advance b0) pks
           (GameRoom.setEnemiesDefeated (GameRoom.EnemiesDefeated r + 1)
              (GameRoom.setEnemies (delete eid (GameRoom.Enemies r))
                 (GameRoom.setBullets (delete id (GameRoom.Bullets r)) r))).
Proof.
  intros Hb Hon Hboss (k & q & Hq & Hcq).
  assert (Hin : k ∈ orderOf (GameRoom.Enemies r) e)
    by (apply elem_of_orderOf; eauto).
  destruct (firstEnemyHit_exists _ _ _ _ _ Hin Hq Hcq) as [eid Hfind].
  destruct (firstEnemyHit_Some _ _ _ _ Hfind)
    as (en & before & after & Hord & Hen & Hcen & Hbefore).
  unfold Main.bulletStep. rewrite Hb, Hon, bossHit_setBullets, Hboss.
  unfold Main.hitEnemy, bind. unfold orderOf in *. room_simpl.
  destruct (range (GameRoom.Enemies r) e) as [eks e1].
  room_simpl. rewrite Hfind, delete_insert_eq.
  pose proof (elem_of_orderOf (GameRoom.Players r) e1) as Hpks.
  unfold orderOf in Hpks.
  destruct (range (GameRoom.Players r) e1) as [pks e2].
  exists eid, en, before, after, pks. unfold ret. room_simpl.
  split_and!; try assumption; reflexivity.
Qed.

Lemma bossContact_Bullets b pks r :
  post (forEach (fun pid r =>
                   ret match GameRoom.Players r !! pid with
                       | Some p =>
                           if checkCollision b (Player.Entity p)
                           then hurt 20 pid p r else r
                       | None => r
                       end) pks r)
       (fun s => GameRoom.Bullets s = GameRoom.Bullets r).
Proof.
  apply post_forEach with (I := fun s => GameRoom.Bullets s = GameRoom.Bullets r);
    [|reflexivity].
  intros k s Hs. apply post_ret.
  destruct (GameRoom.Players s !! k) as [p|]; [|exact Hs].
  destruct (checkCollision b (Player.Entity p)); [|exact Hs].
  now rewrite hurt_Bullets.
Qed.

(** C10.  In [src/main.go] the boss's bullets go into the same
    [Bullets] map as the players' bullets, and the bullet pass treats
    them alike: a bossBullet that, once advanced, is on screen, misses
    the boss and overlaps some enemy is removed together with the first
    overlapping enemy of this pass, [EnemiesDefeated] grows by one, and
    the room that results is the one a friendly bullet at the same place
    would give. *)
Theorem boss_bullet_kills_enemy_like_friendly :
  (forall r e b,
     GameRoom.Boss r = Some b ->
     randSource e (randUsed e) mod 60 < 5 ->
     exists id bb,
       Entity.Type_ bb = bossBullet
       /\ GameRoom.Bullets (fst (bossStep r e)) = <[id := bb]> (GameRoom.Bullets r))
  /\ (forall r e id b0,
        GameRoom.Bullets r !! id = Some b0 ->
        Entity.Type_ b0 = bossBullet ->
        offScreen (advance b0) = false ->
        bossHit (advance b0) r = None ->
        (exists k q, GameRoom.Enemies r !! k = Some q
                     /\ checkCollision (advance b0) q = true) ->
        let r' := fst (Main.bulletStep id r e) in
        (exists eid en before after,
           orderOf (GameRoom.Enemies r) e = before ++ eid :: after
           /\ GameRoom.Enemies r !! eid = Some en
           /\ checkCollision (advance b0) en = true
           /\ (forall k q, k ∈ before -> GameRoom.Enemies r !! k = Some q ->
                           checkCollision (advance b0) q = false)
           /\ GameRoom.Bullets r' = delete id (GameRoom.Bullets r)
           /\ GameRoom.Enemies r' = delete eid (GameRoom.Enemies r)
           /\ GameRoom.EnemiesDefeated r' = GameRoom.EnemiesDefeated r + 1)
        /\ r' = fst (Main.bulletStep id
                       (GameRoom.setBullets
                          (<[id := Entity.setType_ bullet b0]> (GameRoom.Bullets r)) r)
                       e)).
Proof.
  split.
  - intros r e b Hboss Hfire. unfold bossStep. rewrite Hboss.
    unfold bind at 1. unfold Intn at 1. cbn [fst snd randSource randUsed].
    apply Z.ltb_lt in Hfire. rewrite Hfire.
    unfold bind at 1. unfold bind at 1.
    match goal with |- context [newUUID ?e0] => destruct (newUUID e0) as [id e1] end.
    unfold bind at 1.
    match goal with |- context [Intn 5 ?e0] => destruct (Intn 5 e0) as [vx e2] end.
    unfold bind at 1.
    match goal with |- context [Intn 3 ?e0] => destruct (Intn 3 e0) as [vy e3] end.
    unfold ret at 1. unfold bind at 1.
    match goal with |- context [range ?m ?e0] => destruct (range m e0) as [pks e4] end.
    eexists id, _. split; cycle 1.
    + etransitivity; [apply (bossContact_Bullets _ pks _ e4)|]. reflexivity.
    + reflexivity.
  - intros r e id b0 Hb Hty Hon Hboss Hex r'.
    destruct (main_enemy_step r e id b0 Hb Hon Hboss Hex)
      as (eid & en & before & after & pks & Hord & Hen & Hcen & Hbefore & Hpks & Heq).
    split.
    + exists eid, en, before, after. subst r'. rewrite Heq.
      destruct (creditScore_spec (advance b0) pks
                  (GameRoom.setEnemiesDefeated (GameRoom.EnemiesDefeated r + 1)
                     (GameRoom.setEnemies (delete eid (GameRoom.Enemies r))
                        (GameRoom.setBullets (delete id (GameRoom.Bullets r)) r))))
        as [-> _].
      room_simpl. split_and!; try assumption; reflexivity.
    + subst r'. unfold Main.bulletStep. room_simpl.
      rewrite Hb, lookup_insert_eq.
      change (offScreen (advance (Entity.setType_ bullet b0)))
        with (offScreen (advance b0)).
      rewrite Hon, !bossHit_setBullets.
      change (bossHit (advance (Entity.setType_ bullet b0)) r)
        with (bossHit (advance b0) r).
      rewrite Hboss. unfold Main.hitEnemy, bind. room_simpl.
      pose proof (elem_of_orderOf (GameRoom.Enemies r) e) as Heks.
      unfold orderOf in Heks.
      destruct (range (GameRoom.Enemies r) e) as [eks e1]. room_simpl.
      change (firstEnemyHit (advance (Entity.setType_ bullet b0)))
        with (firstEnemyHit (advance b0)).
      destruct (firstEnemyHit (advance b0) (GameRoom.Enemies r) eks) as [eid'|] eqn:Hf.
      * room_simpl. rewrite !delete_insert_eq.
        destruct (range (GameRoom.Players r) e1) as [pks' e2]. reflexivity.
      * exfalso. destruct Hex as (k & q & Hq & Hcq).
        assert (Hk : k ∈ eks) by (apply Heks; eauto).
        destruct (firstEnemyHit_exists _ _ _ _ _ Hk Hq Hcq) as [x Hx].
        congruence.
Qed.

(** ** C6: friendly bullets and the boss *)

Lemma boss_step v r e id b0 bs :
  GameRoom.Bullets r !! id = Some b0 ->
  Entity.Type_ b0 = bullet ->
  offScreen (advance b0) = false ->
  GameRoom.Boss r = Some bs ->
  checkCollision (advance b0) bs = true ->
  fst (bulletStep v id r e)
  = hitBoss id bs (GameRoom.setBullets (<[id := advance b0]> (GameRoom.Bullets r)) r).
Proof.
  intros Hb Hty Hon Hboss Hc.
  assert (Hh : bossHit (advance b0) r = Some bs)
    by (unfold bossHit; now rewrite Hboss, Hc).
  destruct v; simpl; [unfold Main.bulletStep | unfold PowerUp.bulletStep];
    rewrite Hb, Hon.
  - now rewrite bossHit_setBullets, Hh.
  - change (Entity.Type_ (advance b0)) with (Entity.Type_ b0).
    now rewrite Hty, bossHit_setBullets, Hh.
Qed.

Lemma hitBoss_wounds id bs b r :
  1 < Entity.Health bs ->
  hitBoss id bs (GameRoom.setBullets (<[id := b]> (GameRoom.Bullets r)) r)
  = GameRoom.setBoss (Some (Entity.setHealth (Entity.Health bs - 1) bs))
      (GameRoom.setBullets (delete id (GameRoom.Bullets r)) r).
Proof.
  intros Hh. unfold hitBoss. room_simpl. cbn [Entity.Health Entity.setHealth].
  rewrite delete_insert_eq.
  destruct (Z.leb_spec (Entity.Health bs - 1) 0); [lia|reflexivity].
Qed.

Lemma hitBoss_kills id bs b r :
  Entity.Health bs <= 1 ->
  hitBoss id bs (GameRoom.setBullets (<[id := b]> (GameRoom.Bullets r)) r)
  = GameRoom.setPlayers (bonus <$> GameRoom.Players r)
      (GameRoom.setBoss None
         (GameRoom.setGameState clear
            (GameRoom.setBullets (delete id (GameRoom.Bullets r)) r))).
Proof.
  intros Hh. unfold hitBoss. room_simpl. cbn [Entity.Health Entity.setHealth].
  rewrite delete_insert_eq.
  destruct (Z.leb_spec (Entity.Health bs - 1) 0); [reflexivity|lia].
Qed.

Lemma strikes_after_wound r bs id id' h :
  id <> id' -> strikes r bs id' ->
  strikes (GameRoom.setBoss (Some (Entity.setHealth h bs))
             (GameRoom.setBullets (delete id (GameRoom.Bullets r)) r))
          (Entity.setHealth h bs) id'.
Proof.
  intros Hne (b0 & Hb & Hty & Hon & Hc). exists b0. room_simpl.
  rewrite lookup_delete_ne by exact Hne. split_and!; try assumption.
Qed.

(** A volley of as many hits as the boss has health left. *)
Lemma boss_volley v ids : forall r e bs,
  NoDup ids ->
  GameRoom.Boss r = Some bs ->
  Entity.Health bs = Z.of_nat (length ids) ->
  ids <> [] ->
  (forall id, id ∈ ids -> strikes r bs id) ->
  fst (forEach (bulletStep v) ids r e)
  = GameRoom.setPlayers (bonus <$> GameRoom.Players r)
      (GameRoom.setBoss None
         (GameRoom.setGameState clear
            (GameRoom.setBullets (deleteAll ids (GameRoom.Bullets r)) r))).
Proof.
  induction ids as [|id ids IH]; intros r e bs Hnd Hboss Hh Hne Hall;
    [congruence|].
  destruct (Hall id) as (b0 & Hb & Hty & Hon & Hc); [left|].
  apply NoDup_cons in Hnd as [Hnotin Hnd].
  cbn [forEach]. unfold bind.
  pose proof (boss_step v r e id b0 bs Hb Hty Hon Hboss Hc) as Hstep.
  destruct (bulletStep v id r e) as [r1 e1]. cbn [fst] in Hstep. subst r1.
  destruct ids as [|id2 ids].
  - cbn [forEach]. unfold ret. cbn [fst length] in *.
    rewrite hitBoss_kills by lia. reflexivity.
  - rewrite hitBoss_wounds by (cbn [length] in Hh; lia).
    erewrite IH; [ | exact Hnd | reflexivity | | discriminate | ].
    + reflexivity.
    + cbn [Entity.Health Entity.setHealth length] in *. lia.
    + intros id' Hid'. apply strikes_after_wound.
      * intros ->. contradiction.
      * apply Hall. now right.
Qed.

(** C6.  In both revisions, a friendly bullet that, once advanced, is on
    screen and overlaps the boss is removed and costs the boss one point
    of health (nothing else changes while the boss survives); when that
    brings the boss to zero or below, the room is [clear], the boss is
    gone and every player of the room has exactly 500 points more.  In
    particular a volley of 100 such bullets on a boss of health 100
    ends in that outcome. *)
Theorem friendly_bullet_hits_boss (v : Revision) :
  (forall r e id b0 bs,
     GameRoom.Bullets r !! id = Some b0 ->
     Entity.Type_ b0 = bullet ->
     offScreen (advance b0) = false ->
     GameRoom.Boss r = Some bs ->
     checkCollision (advance b0) bs = true ->
     let r' := fst (bulletStep v id r e) in
     (1 < Entity.Health bs ->
      r' = GameRoom.setBoss (Some (Entity.setHealth (Entity.Health bs - 1) bs))
             (GameRoom.setBullets (delete id (GameRoom.Bullets r)) r))
     /\ (Entity.Health bs <= 1 ->
         r' = GameRoom.setPlayers (bonus <$> GameRoom.Players r)
                (GameRoom.setBoss None
                   (GameRoom.setGameState clear
                      (GameRoom.setBullets (delete id (GameRoom.Bullets r)) r)))))
  /\ (forall r e ids bs,
        NoDup ids -> length ids = 100%nat ->
        GameRoom.Boss r = Some bs -> Entity.Health bs = 100 ->
        (forall id, id ∈ ids -> strikes r bs id) ->
        let r' := fst (forEach (bulletStep v) ids r e) in
        GameRoom.GameState r' = clear
        /\ GameRoom.Boss r' = None
        /\ (forall pid, GameRoom.Players r' !! pid
                        = bonus <$> (GameRoom.Players r !! pid))
        /\ GameRoom.Bullets r' = deleteAll ids (GameRoom.Bullets r)).
Proof.
  split.
  - intros r e id b0 bs Hb Hty Hon Hboss Hc r'. subst r'.
    rewrite (boss_step v r e id b0 bs Hb Hty Hon Hboss Hc). split; intros Hh.
    + now apply hitBoss_wounds.
    + now apply hitBoss_kills.
  - intros r e ids bs Hnd Hlen Hboss Hh Hall r'. subst r'.
    rewrite (boss_volley v ids r e bs Hnd Hboss); try assumption.
    + room_simpl. split_and!; try reflexivity.
      intros pid. apply lookup_fmap.
    + rewrite Hlen. exact Hh.
    + intros ->. discriminate.
Qed.

(** ** C2: [createBullet] *)

Lemma createBullet_idle v r p e :
  GameRoom.GameState r <> playing -> fst (createBullet v r p e) = r.
Proof.
  intros Hs. destruct v; simpl;
    [unfold Main.createBullet | unfold PowerUp.createBullet];
    destruct (GameRoom.GameState r); try congruence; reflexivity.
Qed.

Lemma nextUUIDs_S e n :
  nextUUIDs e (S n)
  = uuidSource e (uuidUsed e) :: nextUUIDs (snd (newUUID e)) n.
Proof.
  unfold nextUUIDs. cbn [seq map]. rewrite Nat.add_0_r. f_equal.
  rewrite <- seq_shift, map_map. apply map_ext. intros j. simpl.
  f_equal. lia.
Qed.

(** The loop of [createBullet] with fresh identifiers: one new bullet
    per iteration, nothing else touched. *)
Lemma fire_spec p n : forall i r e,
  NoDup (nextUUIDs e n) ->
  (forall id, id ∈ nextUUIDs e n -> GameRoom.Bullets r !! id = None) ->
  let r' := fst (PowerUp.fire p n i r e) in
  r' = GameRoom.setBullets (GameRoom.Bullets r') r
  /\ size (GameRoom.Bullets r') = (size (GameRoom.Bullets r) + n)%nat
  /\ (forall j, (j < n)%nat ->
        GameRoom.Bullets r' !! uuidSource e (uuidUsed e + j)%nat
        = Some (PowerUp.bulletOf p (i + Z.of_nat j)
                  (uuidSource e (uuidUsed e + j)%nat)))
  /\ (forall k, k ∉ nextUUIDs e n ->
        GameRoom.Bullets r' !! k = GameRoom.Bullets r !! k).
Proof.
  induction n as [|n IH]; intros i r e Hnd Hfresh.
  - simpl. split_and!; [now destruct r | lia | lia | reflexivity].
  - rewrite nextUUIDs_S in Hnd, Hfresh.
    apply NoDup_cons in Hnd as [Hnotin Hnd].
    cbn [PowerUp.fire]. unfold bind.
    set (id0 := uuidSource e (uuidUsed e)) in *.
    change (newUUID e) with (id0, snd (newUUID e)).
    set (e1 := snd (newUUID e)) in *. cbv beta iota.
    set (r1 := GameRoom.setBullets
                 (<[id0 := PowerUp.bulletOf p i id0]> (GameRoom.Bullets r)) r).
    assert (Hfresh1 : forall id, id ∈ nextUUIDs e1 n ->
                                 GameRoom.Bullets r1 !! id = None).
    { intros id Hid. subst r1. room_simpl.
      rewrite lookup_insert_ne by (intros ->; contradiction).
      apply Hfresh. now right. }
    destruct (IH (i + 1) r1 e1 Hnd Hfresh1) as (Heq & Hsize & Hnew & Hold).
    split_and!.
    + rewrite Heq at 1. reflexivity.
    + rewrite Hsize. subst r1. room_simpl.
      rewrite map_size_insert_None by (apply Hfresh; left). lia.
    + intros [|j] Hj.
      * rewrite Nat.add_0_r, Z.add_0_r. fold id0.
        rewrite Hold by exact Hnotin. subst r1. room_simpl.
        apply lookup_insert_eq.
      * specialize (Hnew j ltac:(lia)).
        replace (uuidSource e (uuidUsed e + S j)%nat)
          with (uuidSource e1 (uuidUsed e1 + j)%nat)
          by (subst e1; simpl; f_equal; lia).
        rewrite Hnew. do 2 f_equal. lia.
    + intros k Hk. rewrite nextUUIDs_S in Hk. fold id0 e1 in Hk.
      rewrite Hold by (intros Hin; apply Hk; now right).
      subst r1. room_simpl. apply lookup_insert_ne.
      intros <-. apply Hk. left.
Qed.

Lemma fanIndex_odd k i : 0 <= k -> PowerUp.fanIndex (2 * k + 1) i = i - k.
Proof.
  intros Hk. unfold PowerUp.fanIndex.
  replace (2 * k + 1 - 1) with (k * 2) by lia.
  now rewrite Z.quot_mul by lia.
Qed.

Lemma fanIndex_even k i : 1 <= k -> PowerUp.fanIndex (2 * k) i = i - (k - 1).
Proof.
  intros Hk. unfold PowerUp.fanIndex.
  replace (2 * k - 1) with (1 + (k - 1) * 2) by lia.
  rewrite Z.quot_add by lia. reflexivity.
Qed.

(** With an odd fire power the fan is symmetric. *)
Lemma fan_symmetric_odd k : 0 <= k -> symmetricFan (2 * k + 1).
Proof.
  intros Hk i Hi. exists (2 * k - i). split; [lia|].
  rewrite !fanIndex_odd by exact Hk. lia.
Qed.

(** With an even fire power it is not: the rightmost bullet, at index
    [k], has no partner at [-k]. *)
Lemma fan_lopsided_even k : 1 <= k -> ~ symmetricFan (2 * k).
Proof.
  intros Hk Hsym. destruct (Hsym (2 * k - 1)) as (j & Hj & Heq); [lia|].
  rewrite !fanIndex_even in Heq by exact Hk. lia.
Qed.

(** X4.  A shot while playing, with fresh identifiers: exactly
    [FirePower] new bullets, the [j]-th one offset sideways by five times its
    lateral index, and nothing else changed; a shot in any other state
    changes nothing. *)
Lemma createBullet_fires_FirePower (r : GameRoom.t) (p : Player.t) (e : Env) :
  let n := Z.to_nat (Player.FirePower p) in
  let r' := fst (PowerUp.createBullet r p e) in
  (GameRoom.GameState r <> playing -> r' = r)
  /\ (GameRoom.GameState r = playing ->
      NoDup (nextUUIDs e n) ->
      (forall id, id ∈ nextUUIDs e n -> GameRoom.Bullets r !! id = None) ->
      r' = GameRoom.setBullets (GameRoom.Bullets r') r
      /\ size (GameRoom.Bullets r') = (size (GameRoom.Bullets r) + n)%nat
      /\ (forall j, (j < n)%nat ->
            exists b,
              GameRoom.Bullets r' !! uuidSource e (uuidUsed e + j)%nat = Some b
              /\ Entity.Type_ b = bullet
              /\ Entity.X b
                 = (Player.X p + float64_of_int (Entity.Width (Player.Entity p)) / 2
                    - 2.5
                    + float64_of_int
                        (PowerUp.fanIndex (Player.FirePower p) (Z.of_nat j)) * 5)%float
              /\ Entity.Y b = Player.Y p)
      /\ (forall k, k ∉ nextUUIDs e n ->
            GameRoom.Bullets r' !! k = GameRoom.Bullets r !! k)).
Proof.
  intros n r'. split.
  - intros Hs. apply (createBullet_idle part_001 r p e Hs).
  - intros Hs Hnd Hfresh. subst r'. unfold PowerUp.createBullet.
    rewrite Hs. cbn [State_eqb negb].
    destruct (fire_spec p n 0 r e Hnd Hfresh) as (Heq & Hsize & Hnew & Hold).
    split_and!; try assumption.
    intros j Hj. eexists. split; [apply Hnew, Hj|]. now rewrite Z.add_0_l.
Qed.

(** ** What a tick leaves alone *)

Lemma tickStable_refl r : tickStable r r.
Proof. unfold tickStable. split_and!; auto. Qed.

Lemma tickStable_trans r s t : tickStable r s -> tickStable s t -> tickStable r t.
Proof.
  unfold tickStable. intros (H1 & H2 & H3 & H4) (K1 & K2 & K3 & K4).
  split_and!.
  - now rewrite K1.
  - auto.
  - etransitivity; eassumption.
  - now rewrite K4.
Qed.

Lemma post_forEach_rel {S} (R : S -> S -> Prop) (body : string -> S -> Rand S) :
  (forall s, R s s) -> (forall r s t, R r s -> R s t -> R r t) ->
  (forall k s, post (body k s) (R s)) ->
  forall ks s, post (forEach body ks s) (R s).
Proof.
  intros Hrefl Htrans Hbody ks s.
  apply post_forEach with (I := R s); [|apply Hrefl].
  intros k t Ht e. eapply Htrans; [exact Ht | apply Hbody].
Qed.

Lemma post_range {V} (m : gmap string V) (P : list string -> Prop) :
  (forall ks, P ks) -> post (range m) P.
Proof. intros H e. apply H. Qed.

Lemma tickStable_setPlayers r (ps : gmap string Player.t) :
  dom ps = dom (GameRoom.Players r) -> tickStable r (GameRoom.setPlayers ps r).
Proof. intros H. unfold tickStable. room_simpl. split_and!; auto. Qed.

Lemma tickStable_setBullets r bs : tickStable r (GameRoom.setBullets bs r).
Proof. unfold tickStable. room_simpl. split_and!; auto. Qed.

Lemma tickStable_setItems r its : tickStable r (GameRoom.setItems its r).
Proof. unfold tickStable. room_simpl. split_and!; auto. Qed.

Lemma tickStable_setGameState r st : tickStable r (GameRoom.setGameState st r).
Proof. unfold tickStable. room_simpl. split_and!; auto. Qed.

Lemma tickStable_setEnemiesDefeated r n :
  tickStable r (GameRoom.setEnemiesDefeated n r).
Proof. unfold tickStable. room_simpl. split_and!; auto. Qed.

Lemma tickStable_setEnemies r (es : gmap string Entity.t) :
  dom es ⊆ dom (GameRoom.Enemies r) -> tickStable r (GameRoom.setEnemies es r).
Proof. intros H. unfold tickStable. room_simpl. split_and!; auto. Qed.

Lemma tickStable_hurt n pid p r :
  GameRoom.Players r !! pid = Some p -> tickStable r (hurt n pid p r).
Proof.
  intros Hp. unfold hurt.
  assert (Hdom : forall q, dom (<[pid := q]> (GameRoom.Players r))
                           = dom (GameRoom.Players r))
    by (intros q; apply dom_insert_lookup_L; eauto).
  destruct (_ <=? 0); [destruct (allPlayersDead _)|].
  - eapply tickStable_trans; [|apply tickStable_setGameState].
    apply tickStable_setPlayers, Hdom.
  - apply tickStable_setPlayers, Hdom.
  - apply tickStable_setPlayers, Hdom.
Qed.

Lemma tickStable_hitBoss id bs r :
  GameRoom.Boss r = Some bs -> tickStable r (hitBoss id bs r).
Proof.
  intros Hb. unfold hitBoss, tickStable.
  destruct (_ <=? 0); room_simpl; rewrite ?dom_fmap_L;
    split_and!; auto; congruence.
Qed.

Lemma tickStable_creditScore b ks r : tickStable r (creditScore b ks r).
Proof.
  unfold creditScore. destruct (find _ ks) as [pid|]; [|apply tickStable_refl].
  destruct (GameRoom.Players r !! pid) as [p|] eqn:Hp; [|apply tickStable_refl].
  apply tickStable_setPlayers, dom_insert_lookup_L. eauto.
Qed.

Lemma tickStable_movePlayers r : tickStable r (movePlayers r).
Proof. apply tickStable_setPlayers, dom_fmap_L. Qed.

Create HintDb tick.

#[local] Hint Resolve tickStable_refl tickStable_setBullets tickStable_setItems
  tickStable_setGameState tickStable_setEnemiesDefeated tickStable_creditScore
  tickStable_movePlayers : tick.

Lemma dom_delete_subseteq {V} (k : string) (m : gmap string V) :
  dom (delete k m) ⊆ dom m.
Proof. rewrite dom_delete_L. apply subseteq_difference_l. reflexivity. Qed.

Lemma dom_insert_present {V} (k : string) (v w : V) (m : gmap string V) :
  m !! k = Some w -> dom (<[k := v]> m) = dom m.
Proof. intros H. apply dom_insert_lookup_L. eauto. Qed.

Lemma tickStable_main_hitEnemy id b r : post (Main.hitEnemy id b r) (tickStable r).
Proof.
  unfold Main.hitEnemy. apply post_any. intros eks.
  destruct (firstEnemyHit _ _ eks) as [eid|]; [|apply post_ret; auto with tick].
  apply post_any. intros pks. apply post_ret.
  eapply tickStable_trans; [|apply tickStable_creditScore].
  eapply tickStable_trans; [|apply tickStable_setEnemiesDefeated].
  eapply tickStable_trans; [apply tickStable_setBullets|].
  apply tickStable_setEnemies. room_simpl. apply dom_delete_subseteq.
Qed.

Lemma tickStable_powerUp_hitEnemy id b r :
  post (PowerUp.hitEnemy id b r) (tickStable r).
Proof.
  unfold PowerUp.hitEnemy. apply post_any. intros eks.
  destruct (firstEnemyHit _ _ eks) as [eid|]; [|apply post_ret; auto with tick].
  destruct (GameRoom.Enemies r !! eid) as [en|]; [|apply post_ret; auto with tick].
  apply post_any. intros itemID. apply post_any. intros pks. apply post_ret.
  eapply tickStable_trans; [|apply tickStable_creditScore].
  eapply tickStable_trans; [|apply tickStable_setItems].
  eapply tickStable_trans; [|apply tickStable_setEnemiesDefeated].
  eapply tickStable_trans; [apply tickStable_setBullets|].
  apply tickStable_setEnemies. room_simpl. apply dom_delete_subseteq.
Qed.

Lemma bossHit_Some b r bs : bossHit b r = Some bs -> GameRoom.Boss r = Some bs.
Proof.
  unfold bossHit. destruct (GameRoom.Boss r) as [bs'|]; [|discriminate].
  destruct (checkCollision b bs'); [congruence|discriminate].
Qed.

Lemma tickStable_main_bulletStep id r : post (Main.bulletStep id r) (tickStable r).
Proof.
  unfold Main.bulletStep.
  destruct (GameRoom.Bullets r !! id) as [b0|]; [|apply post_ret; auto with tick].
  destruct (offScreen (advance b0)); [apply post_ret; auto with tick|].
  destruct (bossHit _ _) as [bs|] eqn:Hh.
  - apply post_ret. eapply tickStable_trans; [apply tickStable_setBullets|].
    apply tickStable_hitBoss. now apply bossHit_Some in Hh.
  - intros e. eapply tickStable_trans; [apply tickStable_setBullets|].
    apply tickStable_main_hitEnemy.
Qed.

Lemma tickStable_hostileHit id pid p r :
  GameRoom.Players r !! pid = Some p -> tickStable r (PowerUp.hostileHit id pid p r).
Proof.
  intros Hp. unfold PowerUp.hostileHit.
  assert (Hst : tickStable r
            (GameRoom.setPlayers
               (<[pid := Player.setHealth
                           (if Player.Health p - 15 <? 0 then 0
                            else Player.Health p - 15) p]>
                  (GameRoom.Players
                     (GameRoom.setBullets (delete id (GameRoom.Bullets r)) r)))
               (GameRoom.setBullets (delete id (GameRoom.Bullets r)) r))).
  { eapply tickStable_trans; [apply tickStable_setBullets|].
    apply tickStable_setPlayers. room_simpl. eapply dom_insert_present, Hp. }
  cbv zeta. destruct (allPlayersDead _); [|exact Hst].
  eapply tickStable_trans; [exact Hst|apply tickStable_setGameState].
Qed.

Lemma tickStable_powerUp_bulletStep id r :
  post (PowerUp.bulletStep id r) (tickStable r).
Proof.
  unfold PowerUp.bulletStep.
  destruct (GameRoom.Bullets r !! id) as [b0|]; [|apply post_ret; auto with tick].
  destruct (offScreen (advance b0)); [apply post_ret; auto with tick|].
  assert (Hhostile : post
    (PowerUp.hitPlayer id (advance b0)
       (GameRoom.setBullets (<[id:=advance b0]> (GameRoom.Bullets r)) r))
    (tickStable r)).
  { unfold PowerUp.hitPlayer. apply post_any. intros pks.
    destruct (firstPlayerHit _ _ pks) as [pid|]; [|apply post_ret; auto with tick].
    destruct (GameRoom.Players _ !! pid) as [p|] eqn:Hp;
      [|apply post_ret; auto with tick].
    apply post_ret. eapply tickStable_trans; [apply tickStable_setBullets|].
    now apply tickStable_hostileHit. }
  destruct (Entity.Type_ (advance b0)); try (apply post_ret; auto with tick);
    try exact Hhostile.
  destruct (bossHit _ _) as [bs|] eqn:Hh.
  - apply post_ret. eapply tickStable_trans; [apply tickStable_setBullets|].
    apply tickStable_hitBoss. now apply bossHit_Some in Hh.
  - intros e. eapply tickStable_trans; [apply tickStable_setBullets|].
    apply tickStable_powerUp_hitEnemy.
Qed.

Lemma tickStable_enemyFire id r : post (PowerUp.enemyFire id r) (tickStable r).
Proof.
  unfold PowerUp.enemyFire.
  destruct (GameRoom.Enemies r !! id) as [en|]; [|apply post_ret; auto with tick].
  apply post_any. intros n. destruct (n <? 5); [|apply post_ret; auto with tick].
  apply post_any. intros bid. apply post_ret. auto with tick.
Qed.

Lemma tickStable_itemStep iid r : post (PowerUp.itemStep iid r) (tickStable r).
Proof.
  unfold PowerUp.itemStep.
  destruct (GameRoom.Items r !! iid) as [it0|]; [|apply post_ret; auto with tick].
  destruct (fgt _ 600); [apply post_ret; auto with tick|].
  apply post_any. intros pks.
  destruct (firstPlayerHit _ _ pks) as [pid|]; [|apply post_ret; auto with tick].
  destruct (GameRoom.Players _ !! pid) as [p|] eqn:Hp;
    [|apply post_ret; auto with tick].
  apply post_ret. room_simpl.
  eapply tickStable_trans; [apply tickStable_setItems|].
  eapply tickStable_trans; [|apply tickStable_setItems].
  apply tickStable_setPlayers. room_simpl. eapply dom_insert_present, Hp.
Qed.

Lemma tickStable_enemyStep id r : post (enemyStep id r) (tickStable r).
Proof.
  unfold enemyStep.
  destruct (GameRoom.Enemies r !! id) as [e0|] eqn:He0;
    [|apply post_ret; auto with tick].
  destruct (fgt _ 600).
  { apply post_ret, tickStable_setEnemies, dom_delete_subseteq. }
  assert (Hstore : tickStable r
            (GameRoom.setEnemies (<[id := advance e0]> (GameRoom.Enemies r)) r)).
  { apply tickStable_setEnemies. erewrite dom_insert_present; [reflexivity|exact He0]. }
  apply post_any. intros pks.
  destruct (firstPlayerHit _ _ pks) as [pid|]; [|apply post_ret; exact Hstore].
  destruct (GameRoom.Players _ !! pid) as [p|] eqn:Hp; [|apply post_ret; exact Hstore].
  apply post_ret. eapply tickStable_trans; [exact Hstore|].
  eapply tickStable_trans; [apply tickStable_hurt; exact Hp|].
  apply tickStable_setEnemies, dom_delete_subseteq.
Qed.

Lemma tickStable_enemyLoop r : post (enemyLoop r) (tickStable r).
Proof.
  unfold enemyLoop. apply post_any. intros ks.
  apply post_forEach_rel;
    [apply tickStable_refl | apply tickStable_trans | apply tickStable_enemyStep].
Qed.

Lemma tickStable_setBoss_Some r b :
  GameRoom.Boss r <> None -> tickStable r (GameRoom.setBoss (Some b) r).
Proof.
  intros Hb. unfold tickStable. room_simpl. split_and!; auto. congruence.
Qed.

Lemma tickStable_bossStep r : post (bossStep r) (tickStable r).
Proof.
  unfold bossStep.
  destruct (GameRoom.Boss r) as [b0|] eqn:Hb0; [|apply post_ret; auto with tick].
  set (b := if _ || _ then _ else _).
  assert (Hstore : tickStable r (GameRoom.setBoss (Some b) r))
    by (apply tickStable_setBoss_Some; congruence).
  apply post_any. intros n.
  eapply post_bind with (P := tickStable r).
  - destruct (n <? 5); [|apply post_ret; exact Hstore].
    apply post_any. intros id. apply post_any. intros vx.
    apply post_any. intros vy. apply post_ret.
    eapply tickStable_trans; [exact Hstore|apply tickStable_setBullets].
  - intros s Hs. apply post_any. intros pks e.
    eapply tickStable_trans; [exact Hs|].
    apply post_forEach_rel; [apply tickStable_refl | apply tickStable_trans |].
    intros pid t. apply post_ret.
    destruct (GameRoom.Players t !! pid) as [p|] eqn:Hp; [|apply tickStable_refl].
    destruct (checkCollision b (Player.Entity p)); [|apply tickStable_refl].
    now apply tickStable_hurt.
Qed.

(** A tick never sets or clears [BossSpawned], never creates a boss or
    an enemy, and never adds or removes a player. *)
Lemma tickStable_updateGame v r : post (updateGame v r) (tickStable r).
Proof.
  destruct v; simpl; [unfold Main.updateGame | unfold PowerUp.updateGame];
    destruct (negb _); try (apply post_ret; apply tickStable_refl).
  - apply post_any. intros bks.
    eapply post_bind with (P := tickStable r).
    { intros e. eapply tickStable_trans; [apply tickStable_movePlayers|].
      apply post_forEach_rel;
        [apply tickStable_refl | apply tickStable_trans
        | apply tickStable_main_bulletStep]. }
    intros s Hs. eapply post_bind with (P := tickStable r).
    { intros e. eapply tickStable_trans; [exact Hs|apply tickStable_enemyLoop]. }
    intros t Ht e. eapply tickStable_trans; [exact Ht|apply tickStable_bossStep].
  - apply post_any. intros eks.
    eapply post_bind with (P := tickStable r).
    { intros e. eapply tickStable_trans; [apply tickStable_movePlayers|].
      apply post_forEach_rel;
        [apply tickStable_refl | apply tickStable_trans
        | apply tickStable_enemyFire]. }
    intros s0 Hs0. apply post_any. intros bks.
    eapply post_bind with (P := tickStable r).
    { intros e. eapply tickStable_trans; [exact Hs0|].
      apply post_forEach_rel;
        [apply tickStable_refl | apply tickStable_trans
        | apply tickStable_powerUp_bulletStep]. }
    intros s1 Hs1. apply post_any. intros iks.
    eapply post_bind with (P := tickStable r).
    { intros e. eapply tickStable_trans; [exact Hs1|].
      apply post_forEach_rel;
        [apply tickStable_refl | apply tickStable_trans
        | apply tickStable_itemStep]. }
    intros s Hs. eapply post_bind with (P := tickStable r).
    { intros e. eapply tickStable_trans; [exact Hs|apply tickStable_enemyLoop]. }
    intros t Ht e. eapply tickStable_trans; [exact Ht|apply tickStable_bossStep].
Qed.

(** ** C4: end states and restart *)

Lemma respawn_spec pid s e :
  let s' := fst (respawn pid s e) in
  s' = GameRoom.setPlayers (GameRoom.Players s') s
  /\ (forall k, k <> pid -> GameRoom.Players s' !! k = GameRoom.Players s !! k)
  /\ match GameRoom.Players s !! pid with
     | Some _ => exists p', GameRoom.Players s' !! pid = Some p' /\ respawned p'
     | None => GameRoom.Players s' !! pid = None
     end.
Proof.
  unfold respawn. destruct (GameRoom.Players s !! pid) as [p|] eqn:Hp.
  - unfold bind, Intn, ret. room_simpl. split_and!.
    + reflexivity.
    + intros k Hk. now rewrite lookup_insert_ne.
    + eexists. split; [apply lookup_insert_eq|].
      unfold respawned. split_and!; try reflexivity.
      eexists _, _. refine (conj _ (conj _ (conj eq_refl eq_refl)));
        apply Z.mod_pos_bound; lia.
  - simpl. split_and!; [now destruct s | reflexivity | exact Hp].
Qed.

Lemma forEach_respawn ks : forall s e,
  let s' := fst (forEach respawn ks s e) in
  s' = GameRoom.setPlayers (GameRoom.Players s') s
  /\ forall k,
       match GameRoom.Players s !! k with
       | Some p => exists p', GameRoom.Players s' !! k = Some p'
                              /\ (k ∈ ks \/ respawned p -> respawned p')
       | None => GameRoom.Players s' !! k = None
       end.
Proof.
  induction ks as [|k0 ks IH]; intros s e.
  - simpl. split; [now destruct s|]. intros k.
    destruct (GameRoom.Players s !! k) as [p|]; [|reflexivity].
    exists p. split; [reflexivity|]. intros [Hin|Hr]; [inversion Hin|exact Hr].
  - cbn [forEach]. unfold bind.
    destruct (respawn_spec k0 s e) as (Heq1 & Hother & Hk0).
    destruct (respawn k0 s e) as [s1 e1]. cbn [fst] in Heq1, Hother, Hk0.
    destruct (IH s1 e1) as (Heq & Hall). split.
    + rewrite Heq at 1. rewrite Heq1. reflexivity.
    + intros k. specialize (Hall k).
      destruct (decide (k = k0)) as [->|Hne].
      * destruct (GameRoom.Players s !! k0) as [p|].
        -- destruct Hk0 as (p1 & Hp1 & Hr1). rewrite Hp1 in Hall.
           destruct Hall as (p' & Hp' & Hr'). exists p'. split; [exact Hp'|].
           intros _. apply Hr'. now right.
        -- now rewrite Hk0 in Hall.
      * rewrite (Hother k Hne) in Hall.
        destruct (GameRoom.Players s !! k) as [p|]; [|exact Hall].
        destruct Hall as (p' & Hp' & Hr'). exists p'. split; [exact Hp'|].
        intros [Hin|Hr]; apply Hr'; [left|now right].
        apply elem_of_cons in Hin as [?|Hin]; [contradiction|exact Hin].
Qed.

(** The restart handler in an end state: the room plays again from
    scratch, with the same players, each of them respawned. *)
Lemma restart_spec r e :
  GameRoom.GameState r <> playing ->
  let r' := fst (restart r e) in
  GameRoom.GameState r' = playing
  /\ GameRoom.EnemiesDefeated r' = 0
  /\ GameRoom.BossSpawned r' = false
  /\ GameRoom.Boss r' = None
  /\ GameRoom.Bullets r' = ∅
  /\ GameRoom.Enemies r' = ∅
  /\ GameRoom.Items r' = GameRoom.Items r
  /\ forall pid,
       match GameRoom.Players r !! pid with
       | Some _ => exists p', GameRoom.Players r' !! pid = Some p' /\ respawned p'
       | None => GameRoom.Players r' !! pid = None
       end.
Proof.
  intros Hs r'.
  assert (Hrun : r' = fst (
            (let* pks := range (GameRoom.Players r) in
             forEach respawn pks
               (GameRoom.setBullets ∅ (GameRoom.setEnemies ∅ (GameRoom.setBoss None
                  (GameRoom.setBossSpawned false (GameRoom.setEnemiesDefeated 0
                     (GameRoom.setGameState playing r))))))) e)).
  { subst r'. unfold restart. destruct (GameRoom.GameState r); [congruence| |];
      reflexivity. }
  rewrite Hrun. unfold bind.
  pose proof (elem_of_orderOf (GameRoom.Players r) e) as Hpks. unfold orderOf in Hpks.
  destruct (range (GameRoom.Players r) e) as [pks e1]. cbn [fst] in Hpks.
  match goal with
  | |- context [forEach respawn pks ?s e1] =>
      destruct (forEach_respawn pks s e1) as (Heq & Hall)
  end.
  rewrite Heq. room_simpl. split_and!; try reflexivity.
  intros pid. specialize (Hall pid).
  destruct (GameRoom.Players r !! pid) as [p|] eqn:Hp; [|exact Hall].
  destruct Hall as (p' & Hp' & Hr'). exists p'. split; [exact Hp'|].
  apply Hr'. left. apply Hpks. eauto.
Qed.

Lemma restart_playing r e : GameRoom.GameState r = playing -> fst (restart r e) = r.
Proof. intros Hs. unfold restart. now rewrite Hs. Qed.

Lemma fire_only_Bullets p n : forall i r e,
  fst (PowerUp.fire p n i r e)
  = GameRoom.setBullets (GameRoom.Bullets (fst (PowerUp.fire p n i r e))) r.
Proof.
  induction n as [|n IH]; intros i r e; [now destruct r|].
  cbn [PowerUp.fire]. unfold bind. destruct (newUUID e) as [id e1].
  rewrite IH at 1. reflexivity.
Qed.

Lemma createBullet_only_Bullets v r p e :
  fst (createBullet v r p e)
  = GameRoom.setBullets (GameRoom.Bullets (fst (createBullet v r p e))) r.
Proof.
  destruct v; simpl; [unfold Main.createBullet | unfold PowerUp.createBullet];
    destruct (negb _); try (now destruct r).
  apply fire_only_Bullets.
Qed.

Lemma updateGame_idle v r e :
  GameRoom.GameState r <> playing -> fst (updateGame v r e) = r.
Proof.
  intros Hs. destruct v; simpl;
    [unfold Main.updateGame | unfold PowerUp.updateGame];
    destruct (GameRoom.GameState r); try congruence; reflexivity.
Qed.

Lemma enemyTick_idle r e :
  GameRoom.GameState r <> playing -> fst (enemyTick r e) = r.
Proof.
  intros Hs. unfold enemyTick.
  destruct (GameRoom.GameState r); try congruence; reflexivity.
Qed.

(** C4.  Once a room is in [gameover] or [clear], no event other than a
    restart request changes its state (ticks, spawner ticks and fire
    requests change nothing at all), and a restart request puts it back
    to [playing] with [EnemiesDefeated = 0], [BossSpawned = false], no
    boss, no bullets, no enemies, and the same players, each with
    health 100, score 0 and a spawn point drawn anew. *)
Theorem end_state_until_restart (v : Revision) (r : GameRoom.t) (e : Env) :
  GameRoom.GameState r = gameover \/ GameRoom.GameState r = clear ->
  (forall ev, ev <> Restart ->
     GameRoom.GameState (fst (roomStep v ev r e)) = GameRoom.GameState r
     /\ match ev with
        | Tick | EnemyTick | Shoot _ => fst (roomStep v ev r e) = r
        | _ => True
        end)
  /\ (let r' := fst (roomStep v Restart r e) in
      GameRoom.GameState r' = playing
      /\ GameRoom.EnemiesDefeated r' = 0
      /\ GameRoom.BossSpawned r' = false
      /\ GameRoom.Boss r' = None
      /\ GameRoom.Bullets r' = ∅
      /\ GameRoom.Enemies r' = ∅
      /\ forall pid,
           match GameRoom.Players r !! pid with
           | Some _ => exists p', GameRoom.Players r' !! pid = Some p'
                                  /\ respawned p'
           | None => GameRoom.Players r' !! pid = None
           end).
Proof.
  intros Hend.
  assert (Hs : GameRoom.GameState r <> playing) by (destruct Hend; congruence).
  split.
  - intros ev Hev. destruct ev as [cid|pid|pid vx vy|pid| | |]; cbn [roomStep].
    + split; [|exact I]. unfold bind. destruct (newPlayer cid e). reflexivity.
    + split; [reflexivity|exact I].
    + split; [|exact I]. unfold move, ret. cbn [fst].
      destruct (GameRoom.Players r !! pid); reflexivity.
    + assert (Hr : fst (match GameRoom.Players r !! pid with
                        | Some p => createBullet v r p
                        | None => ret r
                        end e) = r).
      { destruct (GameRoom.Players r !! pid); [|reflexivity].
        now apply createBullet_idle. }
      now rewrite Hr.
    + congruence.
    + now rewrite updateGame_idle.
    + now rewrite enemyTick_idle.
  - cbn [roomStep]. destruct (restart_spec r e Hs) as (H1 & H2 & H3 & H4 & H5 & H6 & _ & H8).
    split_and!; assumption.
Qed.

(** ** C7: the boss spawns once *)

Lemma enemyTick_spec r e :
  let r' := fst (enemyTick r e) in
  (GameRoom.GameState r = playing -> 20 <= GameRoom.EnemiesDefeated r ->
   GameRoom.BossSpawned r = false ->
   GameRoom.BossSpawned r' = true
   /\ exists b, GameRoom.Boss r' = Some b /\ Entity.Health b = 100
                /\ GameRoom.Enemies r' = GameRoom.Enemies r)
  /\ (GameRoom.Boss r' <> GameRoom.Boss r ->
      GameRoom.GameState r = playing /\ 20 <= GameRoom.EnemiesDefeated r
      /\ GameRoom.BossSpawned r = false /\ GameRoom.BossSpawned r' = true)
  /\ (GameRoom.BossSpawned r = true -> r' = r).
Proof.
  cbv zeta. unfold enemyTick, createBoss, createEnemy.
  destruct (GameRoom.GameState r) eqn:Hs; cbn [State_eqb negb orb];
    try (unfold ret; room_simpl;
         split_and!; [discriminate | congruence | reflexivity]).
  destruct (Z.leb_spec 20 (GameRoom.EnemiesDefeated r)) as [Hed|Hed];
    destruct (GameRoom.BossSpawned r) eqn:Hbs; cbn [negb andb];
    unfold bind, newUUID, Intn, ret; room_simpl.
  - split_and!; [discriminate | congruence | reflexivity].
  - split_and!; [|auto|discriminate].
    intros _ _ _. split; [reflexivity|]. eexists. split_and!; reflexivity.
  - split_and!; [lia | congruence | reflexivity].
  - split_and!; [lia | congruence | discriminate].
Qed.

Lemma spawnQuiet_facts r r' :
  spawnQuiet r r' ->
  bossAppears r r' = false
  /\ (GameRoom.BossSpawned r = true ->
      GameRoom.BossSpawned r' = true
      /\ dom (GameRoom.Enemies r') ⊆ dom (GameRoom.Enemies r)).
Proof.
  intros (Hb & Hf & He). unfold bossAppears. rewrite Hb, Hf, He. split.
  - now destruct (GameRoom.Boss r).
  - auto.
Qed.

Lemma spawnQuiet_step v ev r e :
  match ev with Tick | EnemyTick => False | _ => effectiveRestart ev r = false end ->
  spawnQuiet r (fst (roomStep v ev r e)).
Proof.
  unfold spawnQuiet.
  destruct ev as [cid|pid|pid vx vy|pid| | |]; cbn [roomStep]; intros Hev;
    try contradiction.
  - unfold bind. destruct (newPlayer cid e). split_and!; reflexivity.
  - split_and!; reflexivity.
  - unfold move, ret. cbn [fst].
    destruct (GameRoom.Players r !! pid); split_and!; reflexivity.
  - destruct (GameRoom.Players r !! pid); [|split_and!; reflexivity].
    rewrite createBullet_only_Bullets. split_and!; reflexivity.
  - cbn [effectiveRestart] in Hev. rewrite restart_playing; [split_and!; reflexivity|].
    destruct (GameRoom.GameState r); [reflexivity|discriminate..].
Qed.

Lemma step_spawn_facts v ev r e :
  let r' := fst (roomStep v ev r e) in
  (bossAppears r r' = true ->
   ev = EnemyTick /\ GameRoom.GameState r = playing
   /\ 20 <= GameRoom.EnemiesDefeated r
   /\ GameRoom.BossSpawned r = false /\ GameRoom.BossSpawned r' = true)
  /\ (GameRoom.BossSpawned r = true -> effectiveRestart ev r = false ->
      GameRoom.BossSpawned r' = true
      /\ dom (GameRoom.Enemies r') ⊆ dom (GameRoom.Enemies r)
      /\ (ev = EnemyTick -> r' = r)).
Proof.
  intros r'.
  assert (Hquiet : spawnQuiet r r' ->
    (bossAppears r r' = true ->
     ev = EnemyTick /\ GameRoom.GameState r = playing
     /\ 20 <= GameRoom.EnemiesDefeated r
     /\ GameRoom.BossSpawned r = false /\ GameRoom.BossSpawned r' = true)
    /\ (GameRoom.BossSpawned r = true ->
        GameRoom.BossSpawned r' = true
        /\ dom (GameRoom.Enemies r') ⊆ dom (GameRoom.Enemies r))).
  { intros Hq. destruct (spawnQuiet_facts r r' Hq) as [Hna Hkeep].
    split; [congruence|exact Hkeep]. }
  destruct (effectiveRestart ev r) eqn:Heff.
  - destruct ev; try discriminate. cbn [effectiveRestart] in Heff. split.
    + subst r'. cbn [roomStep]. unfold bossAppears.
      destruct (restart_spec r e) as (_ & _ & _ & Hb & _).
      { intros Hs. rewrite Hs in Heff. discriminate. }
      rewrite Hb. now destruct (GameRoom.Boss r).
    + discriminate.
  - destruct ev as [cid|pid|pid vx vy|pid| | |].
    1-5: (destruct Hquiet as [Ha Hk];
          [apply spawnQuiet_step; exact Heff|];
          split; [exact Ha|]; intros Hbs _;
          destruct (Hk Hbs) as [H1 H2]; split_and!; auto; discriminate).
    + subst r'. cbn [roomStep].
      destruct (tickStable_updateGame v r e) as (Hf & Hb & He & _). split.
      * unfold bossAppears. destruct (GameRoom.Boss r); [discriminate|].
        now rewrite Hb.
      * intros Hbs _. split_and!; [congruence|exact He|discriminate].
    + subst r'. cbn [roomStep].
      destruct (enemyTick_spec r e) as (_ & Hchg & Hoff). split.
      * intros Happ. split; [reflexivity|]. apply Hchg.
        unfold bossAppears in Happ. destruct (GameRoom.Boss r); [discriminate|].
        destruct (GameRoom.Boss _); [discriminate|discriminate].
      * intros Hbs _. rewrite (Hoff Hbs). split_and!; auto.
Qed.


Lemma bossFlagged_step v ev r e :
  bossFlagged r -> bossFlagged (fst (roomStep v ev r e)).
Proof.
  unfold bossFlagged. intros Hinv Hboss.
  destruct (GameRoom.BossSpawned r) eqn:Hbs.
  - destruct (effectiveRestart ev r) eqn:Heff.
    + destruct ev; try discriminate. cbn [effectiveRestart roomStep] in *.
      destruct (restart_spec r e) as (_ & _ & _ & Hb & _); [|contradiction].
      intros Hs. rewrite Hs in Heff. discriminate.
    + now destruct (step_spawn_facts v ev r e) as [_ [? _]].
  - assert (Hnone : GameRoom.Boss r = None).
    { destruct (GameRoom.Boss r); [|reflexivity]. discriminate Hinv. discriminate. }
    destruct (step_spawn_facts v ev r e) as [Happ _].
    apply Happ. unfold bossAppears. rewrite Hnone.
    destruct (GameRoom.Boss (fst (roomStep v ev r e))) eqn:Hb'; [reflexivity|].
    now contradiction Hboss.
Qed.



(** ** C5: health and score stay in range *)

Lemma playersOK_insert r k q :
  playersOK r -> okPlayer q ->
  map_Forall (fun _ p => okPlayer p) (<[k := q]> (GameRoom.Players r)).
Proof. intros Hr Hq. now apply map_Forall_insert_2. Qed.

Lemma playersOK_lookup r k p :
  playersOK r -> GameRoom.Players r !! k = Some p -> okPlayer p.
Proof. intros Hr Hp. exact (Hr k p Hp). Qed.

Lemma playersOK_hurt n pid p r :
  0 <= n -> playersOK r -> GameRoom.Players r !! pid = Some p ->
  playersOK (hurt n pid p r).
Proof.
  intros Hn Hr Hp. destruct (playersOK_lookup r pid p Hr Hp) as [Hh Hs].
  unfold hurt. destruct (Z.leb_spec (Player.Health p - n) 0);
    [destruct (allPlayersDead _)|]; unfold playersOK; room_simpl;
    apply playersOK_insert; try exact Hr; unfold okPlayer; simpl; lia.
Qed.

Lemma playersOK_hostileHit id pid p r :
  playersOK r -> GameRoom.Players r !! pid = Some p ->
  playersOK (PowerUp.hostileHit id pid p r).
Proof.
  intros Hr Hp. destruct (playersOK_lookup r pid p Hr Hp) as [Hh Hs].
  unfold PowerUp.hostileHit. cbv zeta.
  destruct (allPlayersDead _); unfold playersOK; room_simpl;
    apply playersOK_insert; try exact Hr; unfold okPlayer; simpl;
    destruct (Z.ltb_spec (Player.Health p - 15) 0); lia.
Qed.

Lemma playersOK_hitBoss id bs r : playersOK r -> playersOK (hitBoss id bs r).
Proof.
  intros Hr. unfold hitBoss. destruct (_ <=? 0); unfold playersOK; room_simpl;
    [|exact Hr].
  apply map_Forall_fmap. intros k p Hp. destruct (Hr k p Hp) as [Hh Hs].
  unfold okPlayer. simpl. lia.
Qed.

Lemma playersOK_creditScore b ks r : playersOK r -> playersOK (creditScore b ks r).
Proof.
  intros Hr. unfold creditScore. destruct (find _ ks) as [pid|]; [|exact Hr].
  destruct (GameRoom.Players r !! pid) as [p|] eqn:Hp; [|exact Hr].
  destruct (Hr pid p Hp) as [Hh Hs]. unfold playersOK. room_simpl.
  apply playersOK_insert; [exact Hr|]. unfold okPlayer. simpl. lia.
Qed.

Lemma playersOK_movePlayers r : playersOK r -> playersOK (movePlayers r).
Proof.
  intros Hr. unfold movePlayers, playersOK. room_simpl.
  apply map_Forall_fmap. intros k p Hp. exact (Hr k p Hp).
Qed.

Lemma playersOK_main_bulletStep id r :
  playersOK r -> post (Main.bulletStep id r) playersOK.
Proof.
  intros Hr. unfold Main.bulletStep.
  destruct (GameRoom.Bullets r !! id) as [b0|]; [|now apply post_ret].
  destruct (offScreen (advance b0)); [now apply post_ret|].
  destruct (bossHit _ _) as [bs|].
  - apply post_ret. now apply playersOK_hitBoss.
  - unfold Main.hitEnemy. apply post_any. intros eks.
    destruct (firstEnemyHit _ _ eks); [|now apply post_ret].
    apply post_any. intros pks. apply post_ret. now apply playersOK_creditScore.
Qed.

Lemma playersOK_powerUp_bulletStep id r :
  playersOK r -> post (PowerUp.bulletStep id r) playersOK.
Proof.
  intros Hr. unfold PowerUp.bulletStep.
  destruct (GameRoom.Bullets r !! id) as [b0|]; [|now apply post_ret].
  destruct (offScreen (advance b0)); [now apply post_ret|].
  assert (Hhostile : post
    (PowerUp.hitPlayer id (advance b0)
       (GameRoom.setBullets (<[id:=advance b0]> (GameRoom.Bullets r)) r))
    playersOK).
  { unfold PowerUp.hitPlayer. apply post_any. intros pks.
    destruct (firstPlayerHit _ _ pks) as [pid|]; [|now apply post_ret].
    destruct (GameRoom.Players _ !! pid) as [p|] eqn:Hp; [|now apply post_ret].
    apply post_ret. now apply playersOK_hostileHit. }
  destruct (Entity.Type_ (advance b0)); try (now apply post_ret);
    try exact Hhostile.
  destruct (bossHit _ _) as [bs|].
  - apply post_ret. now apply playersOK_hitBoss.
  - unfold PowerUp.hitEnemy. apply post_any. intros eks.
    destruct (firstEnemyHit _ _ eks) as [eid|]; [|now apply post_ret].
    destruct (GameRoom.Enemies _ !! eid); [|now apply post_ret].
    apply post_any. intros itemID. apply post_any. intros pks.
    apply post_ret. now apply playersOK_creditScore.
Qed.

Lemma playersOK_enemyFire id r : playersOK r -> post (PowerUp.enemyFire id r) playersOK.
Proof.
  intros Hr. unfold PowerUp.enemyFire.
  destruct (GameRoom.Enemies r !! id); [|now apply post_ret].
  apply post_any. intros n. destruct (n <? 5); [|now apply post_ret].
  apply post_any. intros bid. now apply post_ret.
Qed.

Lemma playersOK_itemStep iid r : playersOK r -> post (PowerUp.itemStep iid r) playersOK.
Proof.
  intros Hr. unfold PowerUp.itemStep.
  destruct (GameRoom.Items r !! iid); [|now apply post_ret].
  destruct (fgt _ 600); [now apply post_ret|].
  apply post_any. intros pks.
  destruct (firstPlayerHit _ _ pks) as [pid|]; [|now apply post_ret].
  destruct (GameRoom.Players _ !! pid) as [p|] eqn:Hp; [|now apply post_ret].
  apply post_ret. unfold playersOK. room_simpl.
  apply playersOK_insert; [exact Hr|]. exact (Hr pid p Hp).
Qed.

Lemma playersOK_enemyStep id r : playersOK r -> post (enemyStep id r) playersOK.
Proof.
  intros Hr. unfold enemyStep.
  destruct (GameRoom.Enemies r !! id) as [e0|]; [|now apply post_ret].
  destruct (fgt _ 600); [now apply post_ret|].
  apply post_any. intros pks.
  destruct (firstPlayerHit _ _ pks) as [pid|]; [|now apply post_ret].
  destruct (GameRoom.Players _ !! pid) as [p|] eqn:Hp; [|now apply post_ret].
  apply post_ret.
  assert (H : playersOK (hurt 10 pid p
     (GameRoom.setEnemies (<[id:=advance e0]> (GameRoom.Enemies r)) r)))
    by (apply playersOK_hurt; [lia|exact Hr|exact Hp]).
  exact H.
Qed.

Lemma playersOK_bossStep r : playersOK r -> post (bossStep r) playersOK.
Proof.
  intros Hr. unfold bossStep.
  destruct (GameRoom.Boss r) as [b0|]; [|now apply post_ret].
  apply post_any. intros n.
  eapply post_bind with (P := playersOK).
  - destruct (n <? 5); [|now apply post_ret].
    apply post_any. intros id. apply post_any. intros vx.
    apply post_any. intros vy. now apply post_ret.
  - intros s Hs. apply post_any. intros pks.
    apply post_forEach; [|exact Hs]. intros pid t Ht. apply post_ret.
    destruct (GameRoom.Players t !! pid) as [p|] eqn:Hp; [|exact Ht].
    destruct (checkCollision _ _); [|exact Ht].
    apply playersOK_hurt; [lia|exact Ht|exact Hp].
Qed.

Lemma playersOK_updateGame v r : playersOK r -> post (updateGame v r) playersOK.
Proof.
  intros Hr.
  destruct v; simpl; [unfold Main.updateGame | unfold PowerUp.updateGame];
    destruct (negb _); try (now apply post_ret).
  - apply post_any. intros bks.
    eapply post_bind with (P := playersOK).
    { apply post_forEach; [apply playersOK_main_bulletStep|].
      now apply playersOK_movePlayers. }
    intros s Hs. eapply post_bind with (P := playersOK).
    { unfold enemyLoop. apply post_any. intros ks.
      apply post_forEach; [apply playersOK_enemyStep|exact Hs]. }
    intros t Ht. now apply playersOK_bossStep.
  - apply post_any. intros eks.
    eapply post_bind with (P := playersOK).
    { apply post_forEach; [apply playersOK_enemyFire|].
      now apply playersOK_movePlayers. }
    intros s0 Hs0. apply post_any. intros bks.
    eapply post_bind with (P := playersOK).
    { apply post_forEach; [apply playersOK_powerUp_bulletStep|exact Hs0]. }
    intros s1 Hs1. apply post_any. intros iks.
    eapply post_bind with (P := playersOK).
    { apply post_forEach; [apply playersOK_itemStep|exact Hs1]. }
    intros s Hs. eapply post_bind with (P := playersOK).
    { unfold enemyLoop. apply post_any. intros ks.
      apply post_forEach; [apply playersOK_enemyStep|exact Hs]. }
    intros t Ht. now apply playersOK_bossStep.
Qed.

Lemma playersOK_respawn pid r : playersOK r -> post (respawn pid r) playersOK.
Proof.
  intros Hr. unfold respawn.
  destruct (GameRoom.Players r !! pid) as [p|]; [|now apply post_ret].
  apply post_any. intros x. apply post_any. intros y. apply post_ret.
  unfold playersOK. room_simpl. apply playersOK_insert; [exact Hr|].
  unfold okPlayer. simpl. lia.
Qed.

Lemma playersOK_restart r : playersOK r -> post (restart r) playersOK.
Proof.
  intros Hr. unfold restart.
  destruct (GameRoom.GameState r); [now apply post_ret| |];
    (apply post_any; intros pks; apply post_forEach;
     [apply playersOK_respawn|exact Hr]).
Qed.

Lemma playersOK_enemyTick r : playersOK r -> post (enemyTick r) playersOK.
Proof.
  intros Hr. unfold enemyTick, createBoss, createEnemy.
  destruct (State_eqb _ _); [|now apply post_ret].
  destruct (_ && _).
  - apply post_any. intros u. now apply post_ret.
  - destruct (_ || _); [now apply post_ret|].
    apply post_any. intros id. apply post_any. intros x.
    apply post_any. intros vx. apply post_any. intros vy. now apply post_ret.
Qed.

Lemma playersOK_createBullet v r p : playersOK r -> post (createBullet v r p) playersOK.
Proof.
  intros Hr e. rewrite createBullet_only_Bullets. exact Hr.
Qed.

Lemma newPlayer_fresh cid :
  post (newPlayer cid) (fun p => Player.Health p = 100 /\ Player.Score p = 0).
Proof.
  unfold newPlayer. apply post_any. intros x. apply post_any. intros y.
  apply post_any. intros c. apply post_ret. split; reflexivity.
Qed.

Lemma playersOK_roomStep v ev r : playersOK r -> post (roomStep v ev r) playersOK.
Proof.
  intros Hr. destruct ev as [cid|pid|pid vx vy|pid| | |]; cbn [roomStep].
  - eapply post_bind; [apply newPlayer_fresh|].
    intros p [Hh Hs]. apply post_ret. unfold join, playersOK. room_simpl.
    apply playersOK_insert; [exact Hr|]. unfold okPlayer. lia.
  - apply post_ret. unfold leave, playersOK. room_simpl.
    now apply map_Forall_delete.
  - apply post_ret. unfold move.
    destruct (GameRoom.Players r !! pid) as [p|] eqn:Hp; [|exact Hr].
    unfold playersOK. room_simpl. apply playersOK_insert; [exact Hr|].
    exact (Hr pid p Hp).
  - destruct (GameRoom.Players r !! pid); [|now apply post_ret].
    now apply playersOK_createBullet.
  - now apply playersOK_restart.
  - now apply playersOK_updateGame.
  - now apply playersOK_enemyTick.
Qed.

Lemma playersOK_runRoom v evs : forall r, playersOK r -> post (runRoom v evs r) playersOK.
Proof.
  induction evs as [|ev evs IH]; intros r Hr; cbn [runRoom].
  - now apply post_ret.
  - eapply post_bind; [apply playersOK_roomStep, Hr|exact IH].
Qed.

(** C5.  In both revisions, in every room reached from a new room by
    any sequence of events (joins, where a player starts with health
    100 and score 0, departures, move and fire requests, restarts,
    ticks and spawner ticks), every player has its health within
    [0, 100] and a score of at least 0. *)
Theorem health_and_score_in_range (v : Revision) (evs : list RoomEvent)
  (e : Env) (pid : string) (p : Player.t) :
  let r := fst ((let* r0 := newGameRoom in runRoom v evs r0) e) in
  (forall cid e', Player.Health (fst (newPlayer cid e')) = 100
                  /\ Player.Score (fst (newPlayer cid e')) = 0)
  /\ (GameRoom.Players r !! pid = Some p ->
      0 <= Player.Health p <= 100 /\ 0 <= Player.Score p).
Proof.
  intros r. split; [intros cid e'; apply newPlayer_fresh|].
  intros Hp.
  assert (Hok : playersOK r).
  { subst r. eapply post_bind with (P := playersOK).
    - unfold newGameRoom. apply post_any. intros id. apply post_ret.
      unfold playersOK. room_simpl. apply map_Forall_empty.
    - intros r0. apply playersOK_runRoom. }
  exact (Hok pid p Hp).
Qed.

(** ** The matchmaker and the capacity of a room *)

Lemma findRoom_Some rooms ks rid :
  findRoom rooms ks = Some rid ->
  exists room, rooms !! rid = Some room /\ hasVacancy room = true.
Proof.
  intros H. apply find_some in H as [_ H].
  destruct (rooms !! rid) as [room|]; [eauto|discriminate].
Qed.

Lemma findRoom_None rooms ks k room :
  findRoom rooms ks = None -> k ∈ ks -> rooms !! k = Some room ->
  hasVacancy room = false.
Proof.
  intros H Hk Hroom. apply list_elem_of_In in Hk.
  pose proof (find_none _ _ H k Hk) as Hn. simpl in Hn. now rewrite Hroom in Hn.
Qed.

Lemma hasVacancy_true room :
  hasVacancy room = true <->
  (size (GameRoom.Players room) < 4)%nat /\ GameRoom.GameState room = playing.
Proof.
  unfold hasVacancy. rewrite andb_true_iff, Nat.ltb_lt.
  destruct (GameRoom.GameState room); simpl; intuition congruence.
Qed.

(** The matchmaker: either an existing room with fewer than four
    players that is playing, and the registry as it was; or no such
    room exists and a new, empty, playing room is registered. *)
Lemma placeSession_spec rooms e :
  let placed := fst (placeSession rooms e) in
  (exists room, rooms !! placed.1 = Some room
                /\ (size (GameRoom.Players room) < 4)%nat
                /\ GameRoom.GameState room = playing
                /\ placed.2 = rooms)
  \/ ((forall k room, rooms !! k = Some room -> hasVacancy room = false)
      /\ exists room, placed.2 = <[placed.1 := room]> rooms
                      /\ GameRoom.ID room = placed.1
                      /\ GameRoom.Players room = ∅
                      /\ GameRoom.GameState room = playing).
Proof.
  unfold placeSession, bind.
  pose proof (elem_of_orderOf rooms e) as Hks. unfold orderOf in Hks.
  destruct (range rooms e) as [ks e1]. cbn [fst] in Hks.
  destruct (findRoom rooms ks) as [rid|] eqn:Hfind.
  - left. destruct (findRoom_Some _ _ _ Hfind) as (room & Hroom & Hvac).
    apply hasVacancy_true in Hvac as [Hsize Hst].
    exists room. unfold ret. cbn. auto.
  - right. split.
    + intros k room Hroom. apply (findRoom_None rooms ks k room Hfind); [|exact Hroom].
      apply Hks. eauto.
    + unfold newGameRoom, bind, newUUID, ret. cbn. eexists. split_and!; reflexivity.
Qed.

Lemma size_insert_le {V} (k : string) (x : V) (m : gmap string V) :
  (size (<[k := x]> m) <= S (size m))%nat.
Proof.
  destruct (m !! k) eqn:Hk.
  - rewrite map_size_insert_Some by eauto. lia.
  - rewrite map_size_insert_None by exact Hk. lia.
Qed.

Lemma size_dom_le {V} (m m' : gmap string V) :
  dom m' ⊆ dom m -> (size m' <= size m)%nat.
Proof. intros H. rewrite <- !size_dom. now apply subseteq_size. Qed.

Lemma forEach_respawn_dom ks s :
  post (forEach respawn ks s)
       (fun t => dom (GameRoom.Players t) = dom (GameRoom.Players s)).
Proof.
  apply post_forEach_rel with
    (R := fun s t => dom (GameRoom.Players t) = dom (GameRoom.Players s));
    [reflexivity | intros; congruence |].
  intros k t. unfold respawn.
  destruct (GameRoom.Players t !! k) as [p|] eqn:Hp; [|now apply post_ret].
  apply post_any. intros x. apply post_any. intros y. apply post_ret.
  room_simpl. eapply dom_insert_present, Hp.
Qed.

(** No event but a join adds a player to a room. *)
Lemma roomStep_players v ev r e :
  (forall cid, ev <> Joined cid) ->
  dom (GameRoom.Players (fst (roomStep v ev r e))) ⊆ dom (GameRoom.Players r).
Proof.
  intros Hev. destruct ev as [cid|pid|pid vx vy|pid| | |]; cbn [roomStep].
  - now contradiction (Hev cid).
  - apply dom_delete_subseteq.
  - unfold move, ret. cbn [fst].
    destruct (GameRoom.Players r !! pid) as [p|] eqn:Hp; [|reflexivity].
    room_simpl. erewrite dom_insert_present; [reflexivity|exact Hp].
  - destruct (GameRoom.Players r !! pid); [|reflexivity].
    now rewrite createBullet_only_Bullets.
  - unfold restart. destruct (GameRoom.GameState r); [reflexivity| |];
      unfold bind; destruct (range _ e) as [pks e1];
      rewrite forEach_respawn_dom; reflexivity.
  - now destruct (tickStable_updateGame v r e) as (_ & _ & _ & ->).
  - unfold enemyTick, createBoss, createEnemy.
    destruct (State_eqb _ _); [|reflexivity].
    destruct (_ && _); [reflexivity|]. destruct (_ || _); reflexivity.
Qed.

Lemma occupancyOK_inRoom v rid ev s :
  (forall cid, ev <> Joined cid) -> occupancyOK s ->
  post (inRoom v rid ev s) occupancyOK.
Proof.
  intros Hev Hs e. unfold inRoom.
  destruct (gameRooms s !! rid) as [room|] eqn:Hroom; [|exact Hs].
  unfold bind. pose proof (roomStep_players v ev room e Hev) as Hdom.
  destruct (roomStep v ev room e) as [room' e']. cbn [fst] in *.
  unfold ret, occupancyOK. cbn. apply map_Forall_insert_2; [|exact Hs].
  etransitivity; [apply size_dom_le, Hdom|]. exact (Hs rid room Hroom).
Qed.

Lemma inRoom_clients v rid ev s e : clients (fst (inRoom v rid ev s e)) = clients s.
Proof.
  unfold inRoom. destruct (gameRooms s !! rid); [|reflexivity].
  unfold bind. destruct (roomStep v ev _ e). reflexivity.
Qed.

Lemma occupancyOK_connect s : occupancyOK s -> post (connect s) occupancyOK.
Proof.
  intros Hs e. unfold connect, bind.
  destruct (newUUID e) as [clientID e1]. destruct (newPlayer clientID e1) as [p e2].
  pose proof (placeSession_spec (gameRooms s) e2) as Hplaced.
  destruct (placeSession (gameRooms s) e2) as [[rid rooms] e3].
  cbn [fst snd] in *. unfold ret, occupancyOK, enter. cbn [fst gameRooms].
  destruct Hplaced as [(room & Hroom & Hsize & _ & ->)
                      | (_ & room & -> & _ & Hempty & _)].
  - rewrite Hroom. apply map_Forall_insert_2; [|exact Hs].
    unfold join. room_simpl. etransitivity; [apply size_insert_le|lia].
  - rewrite lookup_insert_eq. apply map_Forall_insert_2.
    + unfold join. room_simpl. rewrite Hempty.
      etransitivity; [apply size_insert_le|]. rewrite map_size_empty. lia.
    + apply map_Forall_insert_2; [|exact Hs]. rewrite Hempty, map_size_empty. lia.
Qed.

Lemma occupancyOK_serverStep v ev s :
  occupancyOK s -> post (serverStep v ev s) occupancyOK.
Proof.
  intros Hs. destruct ev as [|cid m|cid|rid|rid]; cbn [serverStep].
  - now apply occupancyOK_connect.
  - destruct (clients s !! cid) as [c|]; [|now apply post_ret].
    apply occupancyOK_inRoom; [|exact Hs]. intros x. now destruct m.
  - destruct (clients s !! cid) as [c|]; [|now apply post_ret].
    eapply post_bind; [apply occupancyOK_inRoom; [discriminate|exact Hs]|].
    intros s' Hs'. now apply post_ret.
  - eapply post_bind; [apply occupancyOK_inRoom; [discriminate|exact Hs]|].
    intros s' Hs'. destruct (gameRooms s' !! rid) as [room|]; [|now apply post_ret].
    destruct (_ =? 0)%nat; apply post_ret; [|exact Hs'].
    unfold occupancyOK. cbn. now apply map_Forall_delete.
  - apply occupancyOK_inRoom; [discriminate|exact Hs].
Qed.

Lemma occupancyOK_runServer v evs : forall s,
  occupancyOK s -> post (runServer v evs s) occupancyOK.
Proof.
  induction evs as [|ev evs IH]; intros s Hs; cbn [runServer].
  - now apply post_ret.
  - eapply post_bind; [apply occupancyOK_serverStep, Hs|exact IH].
Qed.

(** The matchmaker places a session either in an existing room that
    has fewer than four players and is playing, or, when no registered
    room is like that, in a new empty room that it registers; it never
    picks a room with four players or one that is not playing.  Hence,
    as long as every connection runs its search and its entry with no
    other handler in between, no registered room has more than four
    players.  (What happens otherwise is shown with the two halves of a
    connection, below.) *)
Theorem matchmaker_respects_capacity (v : Revision) :
  (forall rooms e,
     let placed := fst (placeSession rooms e) in
     (exists room, rooms !! placed.1 = Some room
                   /\ (size (GameRoom.Players room) < 4)%nat
                   /\ GameRoom.GameState room = playing
                   /\ placed.2 = rooms)
     \/ ((forall k room, rooms !! k = Some room ->
            ~ ((size (GameRoom.Players room) < 4)%nat
               /\ GameRoom.GameState room = playing))
         /\ exists room, placed.2 = <[placed.1 := room]> rooms
                         /\ GameRoom.ID room = placed.1
                         /\ GameRoom.Players room = ∅
                         /\ GameRoom.GameState room = playing))
  /\ (forall evs e rid room,
        gameRooms (fst (runServer v evs emptyServer e)) !! rid = Some room ->
        (size (GameRoom.Players room) <= 4)%nat).
Proof.
  split.
  - intros rooms e placed.
    destruct (placeSession_spec rooms e) as [Hold | [Hnone Hnew]]; [left; exact Hold|].
    right. split; [|exact Hnew]. intros k room Hroom Hvac.
    apply hasVacancy_true in Hvac. rewrite (Hnone k room Hroom) in Hvac. discriminate.
  - intros evs e rid room Hroom.
    assert (Hok : occupancyOK (fst (runServer v evs emptyServer e))).
    { apply occupancyOK_runServer. unfold occupancyOK. apply map_Forall_empty. }
    exact (Hok rid room Hroom).
Qed.

(** C2, at fire power 2.  A player of [part_001] with [FirePower = 2]
    standing at x = 300 (centre 315) who fires while the room is playing
    gets exactly two bullets, at x = 312.5 and x = 317.5: their centres
    are at the player's centre and 5 to its right, with nothing to its
    left.  The fan of an even fire power is not symmetric. *)
Theorem createBullet_fire_power_two_lopsided :
  let r' := fst (PowerUp.createBullet lobby twin sampleEnv) in
  size (GameRoom.Bullets r') = 2%nat
  /\ Entity.X <$> (GameRoom.Bullets r' !! "uuid-0") = Some 312.5%float
  /\ Entity.X <$> (GameRoom.Bullets r' !! "uuid-1") = Some 317.5%float
  /\ (Player.X twin + float64_of_int (Entity.Width (Player.Entity twin)) / 2)%float
     = 315%float
  /\ PowerUp.fanIndex 2 0 = 0 /\ PowerUp.fanIndex 2 1 = 1
  /\ ~ symmetricFan 2.
Proof.
  split_and!; try (vm_compute; reflexivity).
  apply (fan_lopsided_even 1). lia.
Qed.

(** With fire power 3 the shot is the symmetric one of the
    specification: three bullets, at 5 to the left of the centre, at the
    centre and at 5 to its right. *)
Lemma createBullet_fire_power_three :
  let r' := fst (PowerUp.createBullet lobby triple sampleEnv) in
  size (GameRoom.Bullets r') = 3%nat
  /\ Entity.X <$> (GameRoom.Bullets r' !! "uuid-0") = Some 307.5%float
  /\ Entity.X <$> (GameRoom.Bullets r' !! "uuid-1") = Some 312.5%float
  /\ Entity.X <$> (GameRoom.Bullets r' !! "uuid-2") = Some 317.5%float
  /\ symmetricFan 3.
Proof.
  split_and!; try (vm_compute; reflexivity).
  apply (fan_symmetric_odd 1). lia.
Qed.

(** The room after a shot of [src/main.go], written out. *)
Lemma main_createBullet_single r p e :
  GameRoom.GameState r = playing ->
  fst (Main.createBullet r p e)
  = GameRoom.setBullets
      (<[uuidSource e (uuidUsed e) :=
           Entity.mk (uuidSource e (uuidUsed e)) bullet
             (Player.X p + float64_of_int (Entity.Width (Player.Entity p)) / 2
              - 2.5)%float
             (Player.Y p) 0 (-5) 5 10 0]> (GameRoom.Bullets r)) r.
Proof. intros Hs. unfold Main.createBullet. now rewrite Hs. Qed.

(** ** The bullet pass of [src/main.go] and the players' health *)

(** X3.  In [src/main.go] no bullet, whatever its type, changes the
    health of a player: the bullet pass only credits scores. *)
Lemma main_bulletStep_health id r e pid :
  Player.Health <$> (GameRoom.Players (fst (Main.bulletStep id r e)) !! pid)
  = Player.Health <$> (GameRoom.Players r !! pid).
Proof.
  unfold Main.bulletStep.
  destruct (GameRoom.Bullets r !! id) as [b0|]; [|reflexivity].
  destruct (offScreen (advance b0)); [reflexivity|].
  destruct (bossHit _ _) as [bs|].
  - unfold hitBoss, ret. cbn [fst]. destruct (_ <=? 0); room_simpl; [|reflexivity].
    rewrite lookup_fmap. now destruct (GameRoom.Players r !! pid).
  - unfold Main.hitEnemy, bind. destruct (range _ e) as [eks e1].
    destruct (firstEnemyHit _ _ eks); [|reflexivity].
    destruct (range _ e1) as [pks e2]. unfold ret. cbn [fst].
    unfold creditScore. destruct (find _ pks) as [k|]; [|reflexivity].
    room_simpl. destruct (GameRoom.Players r !! k) as [p|] eqn:Hk; [|reflexivity].
    room_simpl. destruct (decide (k = pid)) as [->|Hne].
    + now rewrite lookup_insert_eq, Hk.
    + now rewrite lookup_insert_ne.
Qed.

(** ** The two locks of a connection *)

(** X2.  The bound of C8 rests on the search and the entry of a
    connection running as one step, the way [connect] has them.  The source runs
    them under two different locks: when two connections both search
    (lines 245-262) before either enters (lines 267-269), both are
    placed in the same room of three players, which ends with five. *)
Lemma stale_searches_overfill :
  let a := fst (placeSession threeIn sampleEnv) in
  let b := fst (placeSession threeIn sampleEnv) in
  a = ("uuid-1", threeIn) /\ b = ("uuid-1", threeIn)
  /\ size <$> (GameRoom.Players <$> (threeIn !! "uuid-1")) = Some 3%nat
  /\ size <$> (GameRoom.Players
                <$> (enter carol b.1 (enter bob a.1 threeIn) !! "uuid-1"))
     = Some 5%nat.
Proof. vm_compute. split_and!; reflexivity. Qed.

(** ** The [int] fields stay small *)

Lemma size_insert_present {V} (k : string) (v w : V) (m : gmap string V) :
  m !! k = Some w -> size (<[k := v]> m) = size m.
Proof. intros H. apply map_size_insert_Some. eauto. Qed.

Lemma size_insert_leZ {V} (k : string) (v : V) (m : gmap string V) :
  Z.of_nat (size (<[k := v]> m)) <= Z.of_nat (size m) + 1.
Proof. pose proof (size_insert_le k v m). lia. Qed.

Lemma size_delete_present {V} (k : string) (w : V) (m : gmap string V) :
  m !! k = Some w -> Z.of_nat (size (delete k m)) = Z.of_nat (size m) - 1.
Proof.
  intros H. rewrite map_size_delete_Some by eauto.
  assert (size m <> 0%nat) by (apply map_size_ne_0_lookup; eauto). lia.
Qed.

Lemma size_delete_leZ {V} (k : string) (m : gmap string V) :
  Z.of_nat (size (delete k m)) <= Z.of_nat (size m).
Proof.
  pose proof (size_dom_le m (delete k m) (dom_delete_subseteq k m)). lia.
Qed.

Lemma bossFlagged_tickStable r s : bossFlagged r -> tickStable r s -> bossFlagged s.
Proof.
  unfold bossFlagged. intros Hr (Hf & Hb & _) Hs. rewrite Hf. apply Hr.
  intros Hnone. apply Hs, Hb, Hnone.
Qed.

Lemma playerWithin_mono n c c' ld ld' p :
  c <= c' -> ld' <= ld -> playerWithin n c ld p -> playerWithin n c' ld' p.
Proof. unfold playerWithin. lia. Qed.

Lemma intsBounded_mono n n' r : n <= n' -> intsBounded n r -> intsBounded n' r.
Proof.
  intros Hn (H1 & H2 & H3 & H4 & H5 & H6). unfold intsBounded.
  split_and!; try assumption; try lia.
  eapply map_Forall_impl; [exact H6|]. unfold playerWithin. simpl. lia.
Qed.

(** Changes that leave the counted fields alone. *)
Lemma intsBounded_setBullets n bs r :
  intsBounded n r -> intsBounded n (GameRoom.setBullets bs r).
Proof. exact id. Qed.

Lemma intsBounded_setGameState n st r :
  intsBounded n r -> intsBounded n (GameRoom.setGameState st r).
Proof. exact id. Qed.

(** One player rewritten, within its bounds. *)
Lemma intsBounded_setPlayer n r k q :
  intsBounded n r -> playerWithin n (scoreCeiling r) (load r) q ->
  intsBounded n (GameRoom.setPlayers (<[k := q]> (GameRoom.Players r)) r).
Proof.
  intros (H1 & H2 & H3 & H4 & H5 & H6) Hq. unfold intsBounded.
  split_and!; try assumption. room_simpl. now apply map_Forall_insert_2.
Qed.

Lemma intsBounded_lookup n r k p :
  intsBounded n r -> GameRoom.Players r !! k = Some p ->
  playerWithin n (scoreCeiling r) (load r) p.
Proof. intros (_ & _ & _ & _ & _ & H6) Hp. exact (H6 k p Hp). Qed.

Ltac within_simpl :=
  unfold playerWithin, scoreCeiling, bonusCap, load in *; room_simpl;
  cbn [Player.Health Player.Score Player.FirePower Player.Entity
       Player.setHealth Player.setScore Player.setFirePower Player.setEntity] in *.

Lemma intsBounded_hurt a n pid p r :
  0 <= a -> intsBounded n r -> GameRoom.Players r !! pid = Some p ->
  intsBounded n (hurt a pid p r).
Proof.
  intros Ha Hr Hp. pose proof (intsBounded_lookup n r pid p Hr Hp) as Hw.
  unfold hurt. destruct (Z.leb_spec (Player.Health p - a) 0);
    [destruct (allPlayersDead _)|];
    try apply intsBounded_setGameState;
    apply intsBounded_setPlayer; try exact Hr; within_simpl; lia.
Qed.

Lemma intsBounded_hostileHit n id pid p r :
  intsBounded n r -> GameRoom.Players r !! pid = Some p ->
  intsBounded n (PowerUp.hostileHit id pid p r).
Proof.
  intros Hr Hp. pose proof (intsBounded_lookup n r pid p Hr Hp) as Hw.
  unfold PowerUp.hostileHit. cbv zeta.
  destruct (allPlayersDead _); try apply intsBounded_setGameState;
    apply (intsBounded_setPlayer n (GameRoom.setBullets _ r));
    try exact Hr; within_simpl;
    destruct (Z.ltb_spec (Player.Health p - 15) 0); lia.
Qed.

Lemma intsBounded_hitBoss n id bs r :
  intsBounded n r -> GameRoom.Boss r = Some bs -> intsBounded n (hitBoss id bs r).
Proof.
  intros (H1 & H2 & H3 & H4 & H5 & H6) Hb.
  pose proof (H5 bs Hb) as Hh. pose proof (H1 ltac:(congruence)) as Hflag.
  unfold hitBoss. cbn [Entity.Health Entity.setHealth].
  destruct (Z.leb_spec (Entity.Health bs - 1) 0); unfold intsBounded, bossFlagged;
    within_simpl; rewrite ?Hflag; rewrite Hb in *.
  - split_and!; try assumption; try congruence.
    apply map_Forall_fmap. eapply map_Forall_impl; [exact H6|].
    unfold bonus. intros k p. cbv beta delta [compose]. within_simpl. lia.
  - split_and!; try assumption; try congruence.
    intros b [= <-]. cbn [Entity.Health Entity.setHealth]. lia.
Qed.

Lemma intsBounded_credit n b ks r :
  bossFlagged r ->
  0 <= GameRoom.EnemiesDefeated r ->
  GameRoom.EnemiesDefeated r + Z.of_nat (size (GameRoom.Enemies r)) <= n ->
  load r <= n ->
  (forall bs, GameRoom.Boss r = Some bs -> 0 < Entity.Health bs <= 100) ->
  map_Forall (fun _ p => playerWithin n (scoreCeiling r - 10) (load r) p)
    (GameRoom.Players r) ->
  intsBounded n (creditScore b ks r).
Proof.
  intros H1 H2 H3 H4 H5 H6.
  assert (Hr : intsBounded n r).
  { unfold intsBounded. split_and!; try assumption.
    eapply map_Forall_impl; [exact H6|]. intros k p.
    apply playerWithin_mono; lia. }
  unfold creditScore. destruct (find _ ks) as [pid|]; [|exact Hr].
  destruct (GameRoom.Players r !! pid) as [p|] eqn:Hp; [|exact Hr].
  apply intsBounded_setPlayer; [exact Hr|].
  pose proof (H6 pid p Hp). within_simpl. lia.
Qed.

Lemma intsBounded_main_hitEnemy n id b r :
  intsBounded n r -> post (Main.hitEnemy id b r) (intsBounded n).
Proof.
  intros Hr. unfold Main.hitEnemy. intros e. unfold bind.
  destruct (range (GameRoom.Enemies r) e) as [eks e1].
  destruct (firstEnemyHit _ _ eks) as [eid|] eqn:Hf; [|exact Hr].
  apply firstEnemyHit_Some in Hf as (en & _ & _ & _ & Hen & _).
  destruct (range _ e1) as [pks e2]. unfold ret. cbn [fst].
  destruct Hr as (H1 & H2 & H3 & H4 & H5 & H6).
  pose proof (size_delete_present eid en _ Hen) as Hsz.
  apply intsBounded_credit; unfold bossFlagged in *; within_simpl;
    try assumption; try lia.
  eapply map_Forall_impl; [exact H6|]. intros k p. within_simpl. lia.
Qed.

Lemma intsBounded_powerUp_hitEnemy n id b r :
  intsBounded n r -> post (PowerUp.hitEnemy id b r) (intsBounded n).
Proof.
  intros Hr. unfold PowerUp.hitEnemy. intros e. unfold bind.
  destruct (range (GameRoom.Enemies r) e) as [eks e1].
  destruct (firstEnemyHit _ _ eks) as [eid|] eqn:Hf; [|exact Hr].
  destruct (GameRoom.Enemies r !! eid) as [en|] eqn:Hen; [|exact Hr].
  destruct (newUUID e1) as [itemID e2].
  destruct (range _ e2) as [pks e3]. unfold ret. cbn [fst].
  destruct Hr as (H1 & H2 & H3 & H4 & H5 & H6).
  pose proof (size_delete_present eid en _ Hen) as Hsz.
  pose proof (size_insert_leZ itemID (PowerUp.itemOf itemID en) (GameRoom.Items r))
    as Hit.
  apply intsBounded_credit; unfold bossFlagged in *; within_simpl;
    try assumption; try lia.
  eapply map_Forall_impl; [exact H6|]. intros k p. within_simpl. lia.
Qed.

Lemma intsBounded_main_bulletStep n id r :
  intsBounded n r -> post (Main.bulletStep id r) (intsBounded n).
Proof.
  intros Hr. unfold Main.bulletStep.
  destruct (GameRoom.Bullets r !! id) as [b0|]; [|now apply post_ret].
  destruct (offScreen (advance b0)); [now apply post_ret|].
  destruct (bossHit _ _) as [bs|] eqn:Hh.
  - apply post_ret. apply intsBounded_hitBoss; [exact Hr|].
    now apply bossHit_Some in Hh.
  - now apply intsBounded_main_hitEnemy.
Qed.

Lemma intsBounded_powerUp_bulletStep n id r :
  intsBounded n r -> post (PowerUp.bulletStep id r) (intsBounded n).
Proof.
  intros Hr. unfold PowerUp.bulletStep.
  destruct (GameRoom.Bullets r !! id) as [b0|]; [|now apply post_ret].
  destruct (offScreen (advance b0)); [now apply post_ret|].
  assert (Hhostile : post
    (PowerUp.hitPlayer id (advance b0)
       (GameRoom.setBullets (<[id:=advance b0]> (GameRoom.Bullets r)) r))
    (intsBounded n)).
  { unfold PowerUp.hitPlayer. apply post_any. intros pks.
    destruct (firstPlayerHit _ _ pks) as [pid|]; [|now apply post_ret].
    destruct (GameRoom.Players _ !! pid) as [p|] eqn:Hp; [|now apply post_ret].
    apply post_ret. now apply intsBounded_hostileHit. }
  destruct (Entity.Type_ (advance b0)); try (now apply post_ret);
    try exact Hhostile.
  destruct (bossHit _ _) as [bs|] eqn:Hh.
  - apply post_ret. apply intsBounded_hitBoss; [exact Hr|].
    now apply bossHit_Some in Hh.
  - now apply intsBounded_powerUp_hitEnemy.
Qed.

Lemma intsBounded_enemyFire n id r :
  intsBounded n r -> post (PowerUp.enemyFire id r) (intsBounded n).
Proof.
  intros Hr. unfold PowerUp.enemyFire.
  destruct (GameRoom.Enemies r !! id); [|now apply post_ret].
  apply post_any. intros k. destruct (k <? 5); [|now apply post_ret].
  apply post_any. intros bid. now apply post_ret.
Qed.

Lemma intsBounded_movePlayers n r : intsBounded n r -> intsBounded n (movePlayers r).
Proof.
  intros (H1 & H2 & H3 & H4 & H5 & H6). unfold intsBounded, movePlayers.
  split_and!; try assumption. room_simpl. apply map_Forall_fmap.
  eapply map_Forall_impl; [exact H6|]. intros k p Hp. exact Hp.
Qed.

(** Fewer enemies or items: every bound still holds. *)
Lemma intsBounded_lighter n r r' :
  intsBounded n r ->
  GameRoom.Players r' = GameRoom.Players r ->
  GameRoom.Boss r' = GameRoom.Boss r ->
  GameRoom.BossSpawned r' = GameRoom.BossSpawned r ->
  GameRoom.EnemiesDefeated r' = GameRoom.EnemiesDefeated r ->
  (size (GameRoom.Enemies r') <= size (GameRoom.Enemies r))%nat ->
  (size (GameRoom.Items r') <= size (GameRoom.Items r))%nat ->
  intsBounded n r'.
Proof.
  intros (H1 & H2 & H3 & H4 & H5 & H6) Hp Hb Hf Hed He Hi.
  unfold intsBounded, bossFlagged in *. within_simpl.
  rewrite Hp, Hb, Hf, Hed. split_and!; try assumption; try lia.
  eapply map_Forall_impl; [exact H6|]. intros k p. within_simpl. lia.
Qed.

Lemma intsBounded_itemStep n iid r :
  intsBounded n r -> post (PowerUp.itemStep iid r) (intsBounded n).
Proof.
  intros Hr. unfold PowerUp.itemStep.
  destruct (GameRoom.Items r !! iid) as [it0|] eqn:Hit; [|now apply post_ret].
  destruct (fgt _ 600).
  { apply post_ret. apply (intsBounded_lighter n r); try reflexivity; [exact Hr|].
    room_simpl. pose proof (size_delete_leZ iid (GameRoom.Items r)). lia. }
  set (it := Entity.setY _ it0).
  assert (Hstored : intsBounded n
            (GameRoom.setItems (<[iid := it]> (GameRoom.Items r)) r)).
  { apply (intsBounded_lighter n r); try reflexivity; [exact Hr|].
    room_simpl. now rewrite (size_insert_present iid it it0). }
  apply post_any. intros pks.
  destruct (firstPlayerHit _ _ pks) as [pid|]; [|now apply post_ret].
  destruct (GameRoom.Players _ !! pid) as [p|] eqn:Hp; [|now apply post_ret].
  apply post_ret. room_simpl.
  destruct Hr as (H1 & H2 & H3 & H4 & H5 & H6).
  pose proof (H6 pid p Hp) as Hw.
  assert (Hsz : Z.of_nat (size (delete iid (<[iid := it]> (GameRoom.Items r))))
                = Z.of_nat (size (GameRoom.Items r)) - 1).
  { rewrite delete_insert_eq. apply (size_delete_present iid it0), Hit. }
  unfold intsBounded, bossFlagged in *. within_simpl. rewrite Hsz.
  split_and!; try assumption; try lia.
  apply map_Forall_insert_2.
  - within_simpl. lia.
  - eapply map_Forall_impl; [exact H6|]. intros k q. within_simpl. lia.
Qed.

Lemma intsBounded_enemyStep n id r :
  intsBounded n r -> post (enemyStep id r) (intsBounded n).
Proof.
  intros Hr. unfold enemyStep.
  destruct (GameRoom.Enemies r !! id) as [e0|] eqn:He0; [|now apply post_ret].
  destruct (fgt _ 600).
  { apply post_ret. apply (intsBounded_lighter n r); try reflexivity; [exact Hr|].
    room_simpl. pose proof (size_delete_leZ id (GameRoom.Enemies r)). lia. }
  assert (Hstored : intsBounded n
            (GameRoom.setEnemies (<[id := advance e0]> (GameRoom.Enemies r)) r)).
  { apply (intsBounded_lighter n r); try reflexivity; [exact Hr|].
    room_simpl. now rewrite (size_insert_present id (advance e0) e0). }
  apply post_any. intros pks.
  destruct (firstPlayerHit _ _ pks) as [pid|]; [|now apply post_ret].
  destruct (GameRoom.Players _ !! pid) as [p|] eqn:Hp; [|now apply post_ret].
  apply post_ret.
  assert (Hhurt : intsBounded n (hurt 10 pid p
            (GameRoom.setEnemies (<[id := advance e0]> (GameRoom.Enemies r)) r)))
    by (apply intsBounded_hurt; [lia|exact Hstored|exact Hp]).
  eapply intsBounded_lighter; [exact Hhurt|reflexivity..| |reflexivity].
  room_simpl. pose proof (size_delete_leZ id
    (GameRoom.Enemies (hurt 10 pid p
       (GameRoom.setEnemies (<[id := advance e0]> (GameRoom.Enemies r)) r)))). lia.
Qed.

Lemma intsBounded_bossStep n r : intsBounded n r -> post (bossStep r) (intsBounded n).
Proof.
  intros Hr. unfold bossStep.
  destruct (GameRoom.Boss r) as [b0|] eqn:Hb0; [|now apply post_ret].
  set (b := if _ || _ then _ else _).
  assert (Hhealth : Entity.Health b = Entity.Health b0)
    by (subst b; destruct (_ || _); reflexivity).
  assert (Hstored : intsBounded n (GameRoom.setBoss (Some b) r)).
  { destruct Hr as (H1 & H2 & H3 & H4 & H5 & H6).
    pose proof (H5 b0 Hb0). pose proof (H1 ltac:(congruence)).
    unfold intsBounded, bossFlagged in *. within_simpl. rewrite Hb0 in H6.
    split_and!; try assumption; [intros _; assumption|].
    intros b' [= <-]. lia. }
  apply post_any. intros k.
  eapply post_bind with (P := intsBounded n).
  - destruct (k <? 5); [|now apply post_ret].
    apply post_any. intros id. apply post_any. intros vx.
    apply post_any. intros vy. now apply post_ret.
  - intros s Hs. apply post_any. intros pks.
    apply post_forEach; [|exact Hs]. intros pid t Ht. apply post_ret.
    destruct (GameRoom.Players t !! pid) as [p|] eqn:Hp; [|exact Ht].
    destruct (checkCollision _ _); [|exact Ht].
    apply intsBounded_hurt; [lia|exact Ht|exact Hp].
Qed.

Lemma intsBounded_updateGame n v r :
  intsBounded n r -> post (updateGame v r) (intsBounded n).
Proof.
  intros Hr.
  destruct v; simpl; [unfold Main.updateGame | unfold PowerUp.updateGame];
    destruct (negb _); try (now apply post_ret).
  - apply post_any. intros bks.
    eapply post_bind with (P := intsBounded n).
    { apply post_forEach; [apply intsBounded_main_bulletStep|].
      now apply intsBounded_movePlayers. }
    intros s Hs. eapply post_bind with (P := intsBounded n).
    { unfold enemyLoop. apply post_any. intros ks.
      apply post_forEach; [apply intsBounded_enemyStep|exact Hs]. }
    intros t Ht. now apply intsBounded_bossStep.
  - apply post_any. intros eks.
    eapply post_bind with (P := intsBounded n).
    { apply post_forEach; [apply intsBounded_enemyFire|].
      now apply intsBounded_movePlayers. }
    intros s0 Hs0. apply post_any. intros bks.
    eapply post_bind with (P := intsBounded n).
    { apply post_forEach; [apply intsBounded_powerUp_bulletStep|exact Hs0]. }
    intros s1 Hs1. apply post_any. intros iks.
    eapply post_bind with (P := intsBounded n).
    { apply post_forEach; [apply intsBounded_itemStep|exact Hs1]. }
    intros s Hs. eapply post_bind with (P := intsBounded n).
    { unfold enemyLoop. apply post_any. intros ks.
      apply post_forEach; [apply intsBounded_enemyStep|exact Hs]. }
    intros t Ht. now apply intsBounded_bossStep.
Qed.

Lemma intsBounded_enemyTick n r :
  intsBounded n r -> post (enemyTick r) (intsBounded (n + 1)).
Proof.
  intros Hr. pose proof (intsBounded_mono n (n + 1) r ltac:(lia) Hr) as Hr1.
  unfold enemyTick, createBoss, createEnemy.
  destruct (State_eqb _ _); [|now apply post_ret].
  destruct (Z.leb_spec 20 (GameRoom.EnemiesDefeated r));
    destruct (GameRoom.BossSpawned r) eqn:Hflag; cbn [negb andb orb];
    try (now apply post_ret).
  - apply post_any. intros u. apply post_ret.
    destruct Hr1 as (H1 & H2 & H3 & H4 & H5 & H6).
    unfold intsBounded, bossFlagged in *. within_simpl. rewrite Hflag in *.
    assert (Hnone : GameRoom.Boss r = None).
    { destruct (GameRoom.Boss r); [|reflexivity]. discriminate H1. discriminate. }
    rewrite Hnone in H6. split_and!; try assumption; try reflexivity.
    intros b [= <-]. cbn [Entity.Health]. lia.
  - apply post_any. intros id. apply post_any. intros x.
    apply post_any. intros vx. apply post_any. intros vy. apply post_ret.
    destruct Hr as (H1 & H2 & H3 & H4 & H5 & H6).
    match goal with
    | |- context [<[id := ?en]> (GameRoom.Enemies r)] =>
        pose proof (size_insert_leZ id en (GameRoom.Enemies r)) as Hsz
    end.
    unfold intsBounded, bossFlagged in *. within_simpl.
    split_and!; try assumption; try lia.
    eapply map_Forall_impl; [exact H6|]. intros k p. within_simpl. lia.
Qed.

Lemma forEach_respawn_FirePower ks s :
  post (forEach respawn ks s)
       (fun t => forall k, Player.FirePower <$> (GameRoom.Players t !! k)
                           = Player.FirePower <$> (GameRoom.Players s !! k)).
Proof.
  apply post_forEach_rel with
    (R := fun s t => forall k, Player.FirePower <$> (GameRoom.Players t !! k)
                               = Player.FirePower <$> (GameRoom.Players s !! k));
    [reflexivity | intros a b c Hab Hbc k; now rewrite Hbc |].
  intros k0 t. unfold respawn.
  destruct (GameRoom.Players t !! k0) as [p|] eqn:Hp; [|now apply post_ret].
  apply post_any. intros x. apply post_any. intros y. apply post_ret.
  intros k. room_simpl. destruct (decide (k0 = k)) as [->|Hne].
  - now rewrite lookup_insert_eq, Hp.
  - now rewrite lookup_insert_ne.
Qed.

Lemma intsBounded_restart n r : intsBounded n r -> post (restart r) (intsBounded n).
Proof.
  intros Hr e.
  destruct (State_eqb (GameRoom.GameState r) playing) eqn:Hs.
  { rewrite restart_playing; [exact Hr|].
    destruct (GameRoom.GameState r); [reflexivity|discriminate..]. }
  assert (Hend : GameRoom.GameState r <> playing)
    by (intros Heq; rewrite Heq in Hs; discriminate).
  destruct (restart_spec r e Hend) as (_ & Hed & Hflag & Hboss & _ & Hen & Hit & Hall).
  assert (Hfp : forall k, Player.FirePower <$> (GameRoom.Players (fst (restart r e)) !! k)
                          = Player.FirePower <$> (GameRoom.Players r !! k)).
  { unfold restart. destruct (GameRoom.GameState r); [congruence| |];
      unfold bind; destruct (range _ e) as [pks e1]; intros k;
      (etransitivity; [apply (forEach_respawn_FirePower pks _ e1)|reflexivity]). }
  destruct Hr as (H1 & H2 & H3 & H4 & H5 & H6).
  unfold intsBounded, bossFlagged. within_simpl.
  rewrite Hed, Hflag, Hboss, Hen, Hit, map_size_empty.
  split_and!; try congruence; try lia.
  intros k p' Hp'. specialize (Hall k). specialize (Hfp k). rewrite Hp' in Hfp.
  destruct (GameRoom.Players r !! k) as [p|] eqn:Hp; [|congruence].
  destruct Hall as (p'' & Hp'' & (Hh & Hsc & _)).
  assert (p'' = p') by congruence. subst p''.
  injection Hfp as Hfp. pose proof (H6 k p Hp) as Hw. within_simpl. lia.
Qed.

Lemma newPlayer_fire_power cid :
  post (newPlayer cid)
       (fun p => Player.Health p = 100 /\ Player.Score p = 0
                 /\ Player.FirePower p = 1).
Proof.
  unfold newPlayer. apply post_any. intros x. apply post_any. intros y.
  apply post_any. intros c. apply post_ret. split_and!; reflexivity.
Qed.

Lemma intsBounded_roomStep n v ev r :
  intsBounded n r -> post (roomStep v ev r) (intsBounded (n + 1)).
Proof.
  intros Hr. pose proof (intsBounded_mono n (n + 1) r ltac:(lia) Hr) as Hr1.
  destruct ev as [cid|pid|pid vx vy|pid| | |]; cbn [roomStep].
  - eapply post_bind; [apply newPlayer_fire_power|].
    intros p (Hh & Hs & Hfp). apply post_ret. unfold join.
    apply intsBounded_setPlayer; [exact Hr1|].
    destruct Hr1 as (_ & H2 & _ & H4 & _). within_simpl.
    rewrite Hh, Hs, Hfp.
    destruct (GameRoom.Boss r); [|destruct (GameRoom.BossSpawned r)]; lia.
  - apply post_ret. destruct Hr1 as (H1 & H2 & H3 & H4 & H5 & H6).
    unfold leave, intsBounded. split_and!; try assumption.
    room_simpl. now apply map_Forall_delete.
  - apply post_ret. unfold move.
    destruct (GameRoom.Players r !! pid) as [p|] eqn:Hp; [|exact Hr1].
    apply intsBounded_setPlayer; [exact Hr1|].
    exact (intsBounded_lookup _ _ _ _ Hr1 Hp).
  - destruct (GameRoom.Players r !! pid); [|now apply post_ret].
    intros e. rewrite createBullet_only_Bullets. exact Hr1.
  - now apply intsBounded_restart.
  - now apply intsBounded_updateGame.
  - now apply intsBounded_enemyTick.
Qed.

Lemma intsBounded_runRoom v evs : forall n r,
  0 <= n -> intsBounded n r ->
  post (runRoom v evs r) (intsBounded (n + Z.of_nat (length evs))).
Proof.
  induction evs as [|ev evs IH]; intros n r Hn Hr; cbn [runRoom length].
  - apply post_ret. now rewrite Z.add_0_r.
  - eapply post_bind; [apply intsBounded_roomStep, Hr|].
    intros s Hs. replace (n + Z.of_nat (S (length evs)))
      with (n + 1 + Z.of_nat (length evs)) by lia.
    apply IH; [lia|exact Hs].
Qed.

(** X1.  In both revisions, in the room reached from a new room by the
    events [evs], the number of enemies defeated is at most the number
    of events, the health of the boss is within (0, 100], and every player
    has a health within [0, 100], a score within [0, 10 n + 500] and a
    fire power within [1, n + 1], [n] being the number of events. *)
Theorem ints_stay_small (v : Revision) (evs : list RoomEvent) (e : Env) :
  let n := Z.of_nat (length evs) in
  let r := fst ((let* r0 := newGameRoom in runRoom v evs r0) e) in
  0 <= GameRoom.EnemiesDefeated r <= n
  /\ (forall b, GameRoom.Boss r = Some b -> 0 < Entity.Health b <= 100)
  /\ (forall pid p, GameRoom.Players r !! pid = Some p ->
        0 <= Player.Health p <= 100
        /\ 0 <= Player.Score p <= 10 * n + 500
        /\ 1 <= Player.FirePower p <= n + 1).
Proof.
  intros n r.
  assert (Hok : intsBounded n r).
  { subst r n. eapply post_bind with (P := intsBounded 0).
    - unfold newGameRoom. apply post_any. intros id. apply post_ret.
      unfold intsBounded, bossFlagged. within_simpl. rewrite map_size_empty.
      split_and!; try congruence; try lia. apply map_Forall_empty.
    - intros r0 Hr0. apply (intsBounded_runRoom v evs 0 r0); [lia|exact Hr0]. }
  destruct Hok as (H1 & H2 & H3 & H4 & H5 & H6).
  split_and!; [lia|lia|exact H5|].
  intros pid p Hp. pose proof (H6 pid p Hp) as Hw.
  assert (0 <= load r) by (unfold load; lia).
  assert (bonusCap r <= 500)
    by (unfold bonusCap; destruct (GameRoom.Boss r);
        [|destruct (GameRoom.BossSpawned r)]; lia).
  unfold playerWithin, scoreCeiling in Hw. lia.
Qed.

(** ** float64: the order of two numbers *)

Lemma SFcompare_swap x y : SFcompare y x = CompOpp <$> SFcompare x y.
Proof.
  destruct x as [ [] | [] | | [] m e], y as [ [] | [] | | [] m' e']; try reflexivity;
    cbn [SFcompare fmap option_fmap option_map];
    rewrite (Z.compare_antisym e e'); destruct (e ?= e') eqn:He; cbn; try reflexivity;
    rewrite (Pos.compare_cont_antisym m m' Eq); cbn; rewrite ?CompOpp_involutive;
    reflexivity.
Qed.

Lemma SFcompare_None x y :
  SFcompare x y = None -> SFcompare x x = None \/ SFcompare y y = None.
Proof.
  destruct x as [ [] | [] | | [] m e], y as [ [] | [] | | [] m' e'];
    cbn; try discriminate; auto.
Qed.

(** Of two numbers, one is below the other or the other is at most it. *)
Lemma flt_false_fle (x y : float64) :
  feq x x = true -> feq y y = true -> flt x y = false -> fle y x = true.
Proof.
  unfold feq, flt, fle.
  rewrite !FloatAxioms.eqb_spec, FloatAxioms.ltb_spec, FloatAxioms.leb_spec.
  unfold SFeqb, SFltb, SFleb. rewrite (SFcompare_swap (Prim2SF x) (Prim2SF y)).
  destruct (SFcompare (Prim2SF x) (Prim2SF y)) as [[]|] eqn:Hc; cbn; try congruence.
  destruct (SFcompare_None _ _ Hc) as [-> | ->]; discriminate.
Qed.

Lemma fle_flt_false (x y : float64) : fle y x = true -> flt x y = false.
Proof.
  unfold flt, fle. rewrite FloatAxioms.ltb_spec, FloatAxioms.leb_spec.
  unfold SFltb, SFleb. rewrite (SFcompare_swap (Prim2SF x) (Prim2SF y)).
  destruct (SFcompare (Prim2SF x) (Prim2SF y)) as [[]|]; cbn; congruence.
Qed.

(** ** Player movement *)

(** The clamp of lines 499-510 on one coordinate, with upper bound [hi]. *)
Lemma clamp_spec (x hi : float64) :
  flt hi 0 = false -> feq hi hi = true ->
  let x1 := if flt x 0 then 0%float else x in
  let x2 := if fgt x1 hi then hi else x1 in
  flt x2 0 = false /\ fgt x2 hi = false
  /\ (feq x x = true -> fle 0 x2 = true /\ fle x2 hi = true)
  /\ (fle 0 x = true -> fle x hi = true -> x2 = x).
Proof.
  intros Hhi Hnum. cbv zeta.
  assert (H0 : flt 0 0 = false) by apply flt_irrefl.
  assert (Hh : fgt hi hi = false) by apply flt_irrefl.
  assert (H00 : feq 0 0 = true) by reflexivity.
  destruct (flt x 0) eqn:Hx.
  - assert (Hz : fgt 0 hi = false) by exact Hhi. rewrite Hz.
    split_and!; try assumption.
    + intros _. split; [reflexivity|]. now apply flt_false_fle.
    + intros Hle. apply fle_flt_false in Hle. unfold flt in *. congruence.
  - destruct (fgt x hi) eqn:Hg.
    + split_and!; try assumption.
      * intros _. split; apply flt_false_fle; assumption.
      * intros _ Hle. apply fle_flt_false in Hle. unfold fgt, flt in *. congruence.
    + split_and!; try assumption; [|reflexivity].
      intros Hx'. split; apply flt_false_fle; assumption.
Qed.

(** X7.  Player movement keeps a player within the field, whatever its
    velocity: the moved player is past none of the four edges; when the
    new coordinate is a number it lies in [0, 770] (resp. [0, 570]); a
    coordinate that was going to land within the bounds is not touched
    by the clamp; and nothing but the position changes. *)
Theorem movePlayer_within_field (p : Player.t) :
  let q := movePlayer p in
  let x := (Player.X p + Entity.VelocityX (Player.Entity p))%float in
  let y := (Player.Y p + Entity.VelocityY (Player.Entity p))%float in
  withinField q
  /\ (feq x x = true -> fle 0 (Player.X q) = true /\ fle (Player.X q) 770 = true)
  /\ (feq y y = true -> fle 0 (Player.Y q) = true /\ fle (Player.Y q) 570 = true)
  /\ (fle 0 x = true -> fle x 770 = true -> Player.X q = x)
  /\ (fle 0 y = true -> fle y 570 = true -> Player.Y q = y)
  /\ q = Player.setEntity
           (Entity.setY (Player.Y q) (Entity.setX (Player.X q) (Player.Entity p))) p.
Proof.
  intros q x y.
  destruct (clamp_spec x 770 eq_refl eq_refl) as (Hx1 & Hx2 & Hx3 & Hx4).
  destruct (clamp_spec y 570 eq_refl eq_refl) as (Hy1 & Hy2 & Hy3 & Hy4).
  unfold withinField. split_and!; try assumption. reflexivity.
Qed.

Lemma movePlayer_withinField p : withinField (movePlayer p).
Proof.
  destruct (clamp_spec (Player.X p + Entity.VelocityX (Player.Entity p))%float
              770 eq_refl eq_refl) as (Hx1 & Hx2 & _).
  destruct (clamp_spec (Player.Y p + Entity.VelocityY (Player.Entity p))%float
              570 eq_refl eq_refl) as (Hy1 & Hy2 & _).
  unfold withinField. split_and!; assumption.
Qed.

(** ** What a tick does to the players *)

Lemma playerKept_refl p : playerKept p p.
Proof. unfold playerKept. split_and!; try reflexivity; lia. Qed.

Lemma playerKept_trans p q t : playerKept p q -> playerKept q t -> playerKept p t.
Proof.
  unfold playerKept. intros (H1 & H2 & H3 & H4 & H5 & H6) (K1 & K2 & K3 & K4 & K5 & K6).
  split_and!; try congruence; lia.
Qed.

Lemma playersKept_refl r : playersKept r r.
Proof.
  intros pid. destruct (GameRoom.Players r !! pid); constructor.
  apply playerKept_refl.
Qed.

Lemma playersKept_trans r s t : playersKept r s -> playersKept s t -> playersKept r t.
Proof.
  intros H K pid. specialize (H pid). specialize (K pid).
  destruct H as [p q Hpq|]; inversion K; subst; constructor.
  eapply playerKept_trans; eassumption.
Qed.

Lemma playersKept_same r s : GameRoom.Players s = GameRoom.Players r -> playersKept r s.
Proof. intros H pid. rewrite H. apply playersKept_refl. Qed.

Lemma playersKept_insert r pid p q :
  GameRoom.Players r !! pid = Some p -> playerKept p q ->
  playersKept r (GameRoom.setPlayers (<[pid := q]> (GameRoom.Players r)) r).
Proof.
  intros Hp Hq k. room_simpl. destruct (decide (pid = k)) as [<-|Hne].
  - rewrite lookup_insert_eq, Hp. now constructor.
  - rewrite lookup_insert_ne by exact Hne. apply playersKept_refl.
Qed.

Lemma playersKept_setGameState r s st :
  playersKept r s -> playersKept r (GameRoom.setGameState st s).
Proof. exact id. Qed.

Lemma playersKept_hurt a pid p r :
  0 <= a -> GameRoom.Players r !! pid = Some p -> playersKept r (hurt a pid p r).
Proof.
  intros Ha Hp. unfold hurt. cbv zeta.
  destruct (Z.leb_spec (Player.Health p - a) 0);
    [destruct (allPlayersDead _)|]; try apply playersKept_setGameState;
    (eapply playersKept_insert; [exact Hp|]); unfold playerKept; cbn;
    split_and!; try reflexivity; lia.
Qed.

Lemma playersKept_hostileHit id pid p r :
  GameRoom.Players r !! pid = Some p ->
  playersKept r (PowerUp.hostileHit id pid p r).
Proof.
  intros Hp. unfold PowerUp.hostileHit. cbv zeta.
  destruct (allPlayersDead _); try apply playersKept_setGameState;
    (eapply playersKept_trans;
     [apply (playersKept_same r (GameRoom.setBullets (delete id (GameRoom.Bullets r)) r));
      reflexivity|]);
    (eapply (playersKept_insert (GameRoom.setBullets _ r)); [exact Hp|]);
    unfold playerKept; cbn; destruct (Z.ltb_spec (Player.Health p - 15) 0);
    split_and!; try reflexivity; lia.
Qed.

Lemma playersKept_hitBoss id bs r : playersKept r (hitBoss id bs r).
Proof.
  unfold hitBoss. cbv zeta. destruct (_ <=? 0); [|now apply playersKept_same].
  intros pid. room_simpl. rewrite lookup_fmap.
  destruct (GameRoom.Players r !! pid) as [p|]; constructor.
  unfold playerKept. cbn. split_and!; try reflexivity; lia.
Qed.

Lemma playersKept_creditScore b ks r : playersKept r (creditScore b ks r).
Proof.
  unfold creditScore. destruct (find _ ks) as [pid|]; [|apply playersKept_refl].
  destruct (GameRoom.Players r !! pid) as [p|] eqn:Hp; [|apply playersKept_refl].
  eapply playersKept_insert; [exact Hp|].
  unfold playerKept. cbn. split_and!; try reflexivity; lia.
Qed.

(** A relation between rooms that every pass of a tick respects is
    respected by the tick. *)
Lemma updateGame_rel (R : GameRoom.t -> GameRoom.t -> Prop) (v : Revision) :
  (forall s, R s s) -> (forall r s t, R r s -> R s t -> R r t) ->
  (forall r, R r (movePlayers r)) ->
  (forall id r, post (bulletStep v id r) (R r)) ->
  (forall id r, post (enemyStep id r) (R r)) ->
  (forall r, post (bossStep r) (R r)) ->
  (forall id r, post (PowerUp.enemyFire id r) (R r)) ->
  (forall id r, post (PowerUp.itemStep id r) (R r)) ->
  forall r, post (updateGame v r) (R r).
Proof.
  intros Hrefl Htrans Hmove Hbullet Henemy Hboss Hfire Hitem r.
  assert (Hloop : forall s, post (enemyLoop s) (R s)).
  { intros s. unfold enemyLoop. apply post_any. intros ks.
    now apply post_forEach_rel. }
  destruct v; simpl; [unfold Main.updateGame | unfold PowerUp.updateGame];
    destruct (negb _); try (apply post_ret; apply Hrefl).
  - apply post_any. intros bks.
    eapply post_bind with (P := R r).
    { intros e. eapply Htrans; [apply Hmove|].
      apply post_forEach_rel; [apply Hrefl | apply Htrans | apply Hbullet]. }
    intros s Hs. eapply post_bind with (P := R r).
    { intros e. eapply Htrans; [exact Hs|apply Hloop]. }
    intros t Ht e. eapply Htrans; [exact Ht|apply Hboss].
  - apply post_any. intros eks.
    eapply post_bind with (P := R r).
    { intros e. eapply Htrans; [apply Hmove|].
      apply post_forEach_rel; [apply Hrefl | apply Htrans | apply Hfire]. }
    intros s0 Hs0. apply post_any. intros bks.
    eapply post_bind with (P := R r).
    { intros e. eapply Htrans; [exact Hs0|].
      apply post_forEach_rel; [apply Hrefl | apply Htrans | apply Hbullet]. }
    intros s1 Hs1. apply post_any. intros iks.
    eapply post_bind with (P := R r).
    { intros e. eapply Htrans; [exact Hs1|].
      apply post_forEach_rel; [apply Hrefl | apply Htrans | apply Hitem]. }
    intros s Hs. eapply post_bind with (P := R r).
    { intros e. eapply Htrans; [exact Hs|apply Hloop]. }
    intros t Ht e. eapply Htrans; [exact Ht|apply Hboss].
Qed.

Lemma playersKept_bulletStep v id r : post (bulletStep v id r) (playersKept r).
Proof.
  assert (Hboss : forall bs s,
            GameRoom.Players s = GameRoom.Players r ->
            playersKept r (hitBoss id bs s)).
  { intros bs s Hs. eapply playersKept_trans; [apply playersKept_same, Hs|].
    apply playersKept_hitBoss. }
  destruct v; cbn [bulletStep];
    [unfold Main.bulletStep | unfold PowerUp.bulletStep];
    (destruct (GameRoom.Bullets r !! id) as [b0|];
     [|apply post_ret, playersKept_refl]);
    (destruct (offScreen (advance b0)); [now apply post_ret, playersKept_same|]).
  - destruct (bossHit _ _) as [bs|]; [apply post_ret; now apply Hboss|].
    unfold Main.hitEnemy. apply post_any. intros eks.
    destruct (firstEnemyHit _ _ eks); [|now apply post_ret, playersKept_same].
    apply post_any. intros pks. apply post_ret.
    eapply playersKept_trans; [|apply playersKept_creditScore].
    now apply playersKept_same.
  - assert (Hhostile : post
      (PowerUp.hitPlayer id (advance b0)
         (GameRoom.setBullets (<[id:=advance b0]> (GameRoom.Bullets r)) r))
      (playersKept r)).
    { unfold PowerUp.hitPlayer. apply post_any. intros pks.
      destruct (firstPlayerHit _ _ pks) as [pid|];
        [|now apply post_ret, playersKept_same].
      destruct (GameRoom.Players _ !! pid) as [p|] eqn:Hp;
        [|now apply post_ret, playersKept_same].
      apply post_ret.
      eapply playersKept_trans; [|apply playersKept_hostileHit, Hp].
      now apply playersKept_same. }
    destruct (Entity.Type_ (advance b0));
      try (now apply post_ret, playersKept_same); try exact Hhostile.
    destruct (bossHit _ _) as [bs|]; [apply post_ret; now apply Hboss|].
    unfold PowerUp.hitEnemy. apply post_any. intros eks.
    destruct (firstEnemyHit _ _ eks) as [eid|];
      [|now apply post_ret, playersKept_same].
    destruct (GameRoom.Enemies _ !! eid); [|now apply post_ret, playersKept_same].
    apply post_any. intros itemID. apply post_any. intros pks. apply post_ret.
    eapply playersKept_trans; [|apply playersKept_creditScore].
    now apply playersKept_same.
Qed.

Lemma playersKept_enemyFire id r : post (PowerUp.enemyFire id r) (playersKept r).
Proof.
  unfold PowerUp.enemyFire.
  destruct (GameRoom.Enemies r !! id); [|apply post_ret, playersKept_refl].
  apply post_any. intros n. destruct (n <? 5); [|apply post_ret, playersKept_refl].
  apply post_any. intros bid. now apply post_ret, playersKept_same.
Qed.

Lemma playersKept_itemStep iid r : post (PowerUp.itemStep iid r) (playersKept r).
Proof.
  unfold PowerUp.itemStep.
  destruct (GameRoom.Items r !! iid); [|apply post_ret, playersKept_refl].
  destruct (fgt _ 600); [now apply post_ret, playersKept_same|].
  apply post_any. intros pks.
  destruct (firstPlayerHit _ _ pks) as [pid|]; [|now apply post_ret, playersKept_same].
  destruct (GameRoom.Players _ !! pid) as [p|] eqn:Hp;
    [|now apply post_ret, playersKept_same].
  apply post_ret. intros k. room_simpl. room_simpl.
  destruct (decide (pid = k)) as [<-|Hne].
  - rewrite lookup_insert_eq, Hp. constructor.
    unfold playerKept. cbn. split_and!; try reflexivity; lia.
  - rewrite lookup_insert_ne by exact Hne. apply playersKept_refl.
Qed.

Lemma playersKept_enemyStep id r : post (enemyStep id r) (playersKept r).
Proof.
  unfold enemyStep.
  destruct (GameRoom.Enemies r !! id) as [e0|]; [|apply post_ret, playersKept_refl].
  destruct (fgt _ 600); [now apply post_ret, playersKept_same|].
  apply post_any. intros pks.
  destruct (firstPlayerHit _ _ pks) as [pid|]; [|now apply post_ret, playersKept_same].
  destruct (GameRoom.Players _ !! pid) as [p|] eqn:Hp;
    [|now apply post_ret, playersKept_same].
  apply post_ret.
  eapply playersKept_trans; [|now apply playersKept_same].
  eapply playersKept_trans; [|apply playersKept_hurt; [lia|exact Hp]].
  now apply playersKept_same.
Qed.

Lemma playersKept_bossStep r : post (bossStep r) (playersKept r).
Proof.
  unfold bossStep.
  destruct (GameRoom.Boss r) as [b0|]; [|apply post_ret, playersKept_refl].
  set (b := if _ || _ then _ else _).
  apply post_any. intros n.
  eapply post_bind with (P := playersKept r).
  - destruct (n <? 5); [|now apply post_ret, playersKept_same].
    apply post_any. intros id. apply post_any. intros vx.
    apply post_any. intros vy. now apply post_ret, playersKept_same.
  - intros s Hs. apply post_any. intros pks e.
    eapply playersKept_trans; [exact Hs|].
    apply post_forEach_rel; [apply playersKept_refl | apply playersKept_trans |].
    intros pid t. apply post_ret.
    destruct (GameRoom.Players t !! pid) as [p|] eqn:Hp; [|apply playersKept_refl].
    destruct (checkCollision b (Player.Entity p)); [|apply playersKept_refl].
    apply playersKept_hurt; [lia|exact Hp].
Qed.

(** X8.  What a tick does to the players of a room in play, in both
    revisions: it neither adds nor removes a player; each player is
    moved by its velocity and clamped to the field, once; otherwise its
    entity, name and colour are as before, its score and fire power have
    not gone down and its health has not gone up. *)
Theorem tick_moves_and_keeps_players (v : Revision) (r : GameRoom.t) (e : Env)
  (pid : string) :
  GameRoom.GameState r = playing ->
  option_Forall2 (fun p p' => playerKept (movePlayer p) p' /\ withinField p')
    (GameRoom.Players r !! pid)
    (GameRoom.Players (fst (updateGame v r e)) !! pid).
Proof.
  intros Hs.
  assert (Hk : playersKept (movePlayers r) (fst (updateGame v r e))).
  { destruct v; cbn [updateGame];
      [unfold Main.updateGame | unfold PowerUp.updateGame];
      rewrite Hs; cbn [State_eqb negb].
    - apply post_any. intros bks.
      eapply post_bind with (P := playersKept (movePlayers r)).
      { apply post_forEach_rel;
          [apply playersKept_refl | apply playersKept_trans
          | apply (playersKept_bulletStep main_go)]. }
      intros s Hs1. eapply post_bind with (P := playersKept (movePlayers r)).
      { intros e1. eapply playersKept_trans; [exact Hs1|].
        unfold enemyLoop. apply post_any. intros ks.
        apply post_forEach_rel;
          [apply playersKept_refl | apply playersKept_trans
          | apply playersKept_enemyStep]. }
      intros t Ht e1. eapply playersKept_trans; [exact Ht|apply playersKept_bossStep].
    - apply post_any. intros eks.
      eapply post_bind with (P := playersKept (movePlayers r)).
      { apply post_forEach_rel;
          [apply playersKept_refl | apply playersKept_trans
          | apply playersKept_enemyFire]. }
      intros s0 Hs0. apply post_any. intros bks.
      eapply post_bind with (P := playersKept (movePlayers r)).
      { intros e1. eapply playersKept_trans; [exact Hs0|].
        apply post_forEach_rel;
          [apply playersKept_refl | apply playersKept_trans
          | apply (playersKept_bulletStep part_001)]. }
      intros s1 Hs1. apply post_any. intros iks.
      eapply post_bind with (P := playersKept (movePlayers r)).
      { intros e1. eapply playersKept_trans; [exact Hs1|].
        apply post_forEach_rel;
          [apply playersKept_refl | apply playersKept_trans
          | apply playersKept_itemStep]. }
      intros s Hs2. eapply post_bind with (P := playersKept (movePlayers r)).
      { intros e1. eapply playersKept_trans; [exact Hs2|].
        unfold enemyLoop. apply post_any. intros ks.
        apply post_forEach_rel;
          [apply playersKept_refl | apply playersKept_trans
          | apply playersKept_enemyStep]. }
      intros t Ht e1. eapply playersKept_trans; [exact Ht|apply playersKept_bossStep]. }
  specialize (Hk pid). unfold movePlayers in Hk. room_simpl.
  rewrite lookup_fmap in Hk.
  destruct (GameRoom.Players r !! pid) as [p|]; inversion Hk; subst; constructor.
  split; [assumption|].
  match goal with H : playerKept _ _ |- _ => destruct H as (He & _) end.
  pose proof (movePlayer_withinField p) as Hw. unfold withinField, Player.X, Player.Y in *.
  now rewrite He.
Qed.

(** ** Loops over the keys of a map *)

Lemma orderOf_NoDup {V} (m : gmap string V) (e : Env) : NoDup (orderOf m e).
Proof.
  unfold orderOf, range. simpl. rewrite shuffle_Permutation.
  apply NoDup_fst_map_to_list.
Qed.

(** A loop whose body, run for the key [id], touches the entry [id] of
    the map [get s] only, and leaves it related by [D] to what it was:
    after the loop over distinct keys, every visited entry is related by
    [D] to what it was, and the other entries are untouched.  [I] is an
    invariant of the body. *)
Lemma forEach_per_key {S V} (get : S -> gmap string V) (I : S -> Prop)
  (D : option V -> option V -> Prop) (body : string -> S -> Rand S) :
  (forall id s e, I s ->
     let t := fst (body id s e) in
     I t /\ (forall k, k <> id -> get t !! k = get s !! k)
     /\ D (get s !! id) (get t !! id)) ->
  forall ks, NoDup ks -> forall s e, I s ->
    let t := fst (forEach body ks s e) in
    I t /\ forall k, (k ∈ ks -> D (get s !! k) (get t !! k))
                     /\ (k ∉ ks -> get t !! k = get s !! k).
Proof.
  intros Hbody ks Hnd. induction Hnd as [|id ks Hid Hnd IH]; intros s e Hs; cbn.
  - split; [exact Hs|]. intros k. split; [|reflexivity].
    intros Hk. now apply elem_of_nil in Hk.
  - unfold bind. destruct (body id s e) as [s1 e1] eqn:Hb.
    destruct (Hbody id s e Hs) as (Hs1 & Hother & Hd). rewrite Hb in *. cbn in *.
    destruct (IH s1 e1 Hs1) as (Ht & Hks). split; [exact Ht|].
    intros k. destruct (Hks k) as [Hin Hout]. split.
    + intros Hk. apply elem_of_cons in Hk as [->|Hk].
      * rewrite (proj2 (Hks id) Hid). exact Hd.
      * rewrite <- (Hother k) by (intros ->; contradiction). now apply Hin.
    + intros Hk. rewrite not_elem_of_cons in Hk. destruct Hk as [Hne Hk].
      rewrite (Hout Hk). now apply Hother.
Qed.

(** ** The bullets through a tick *)

Lemma hitBoss_Bullets id bs r :
  GameRoom.Bullets (hitBoss id bs r) = delete id (GameRoom.Bullets r).
Proof. unfold hitBoss. cbv zeta. now destruct (_ <=? 0). Qed.

Lemma creditScore_Bullets b ks r :
  GameRoom.Bullets (creditScore b ks r) = GameRoom.Bullets r.
Proof. destruct (creditScore_spec b ks r) as [-> _]. reflexivity. Qed.

Lemma hostileHit_Bullets id pid p r :
  GameRoom.Bullets (PowerUp.hostileHit id pid p r) = delete id (GameRoom.Bullets r).
Proof. unfold PowerUp.hostileHit. cbv zeta. now destruct (allPlayersDead _). Qed.

(** What the body of the bullet loop does to the bullets: the bullet
    [id] is gone, or it has moved by one step and is on screen; no other
    bullet is touched. *)
Lemma bulletStep_Bullets v id r e :
  let t := fst (bulletStep v id r e) in
  (forall k, k <> id -> GameRoom.Bullets t !! k = GameRoom.Bullets r !! k)
  /\ (GameRoom.Bullets t !! id = None
      \/ exists b0, GameRoom.Bullets r !! id = Some b0
                    /\ GameRoom.Bullets t !! id = Some (advance b0)
                    /\ offScreen (advance b0) = false).
Proof.
  cbv zeta.
  assert (Hgone : forall bs : gmap string Entity.t,
            (forall k, k <> id -> delete id bs !! k = bs !! k)
            /\ (delete id bs !! id = None
                \/ exists b0, GameRoom.Bullets r !! id = Some b0
                              /\ delete id bs !! id = Some (advance b0)
                              /\ offScreen (advance b0) = false)).
  { intros bs. split; [intros k Hk; now apply lookup_delete_ne|].
    left. apply lookup_delete_eq. }
  assert (Hgone' : forall b : Entity.t,
            (forall k, k <> id ->
               delete id (<[id := b]> (GameRoom.Bullets r)) !! k
               = GameRoom.Bullets r !! k)
            /\ (delete id (<[id := b]> (GameRoom.Bullets r)) !! id = None
                \/ exists b0, GameRoom.Bullets r !! id = Some b0
                              /\ delete id (<[id := b]> (GameRoom.Bullets r)) !! id
                                 = Some (advance b0)
                              /\ offScreen (advance b0) = false)).
  { intros b. split; [|left; apply lookup_delete_eq].
    intros k Hk. rewrite lookup_delete_ne, lookup_insert_ne; congruence. }
  destruct v; cbn [bulletStep];
    [unfold Main.bulletStep | unfold PowerUp.bulletStep];
    (destruct (GameRoom.Bullets r !! id) as [b0|] eqn:Hb0;
     [|unfold ret; cbn [fst]; split; [reflexivity|left; exact Hb0]]);
    (destruct (offScreen (advance b0)) eqn:Hoff;
     [unfold ret; room_simpl; apply Hgone|]).
  all: assert (Hkept :
         (forall k, k <> id ->
            <[id := advance b0]> (GameRoom.Bullets r) !! k = GameRoom.Bullets r !! k)
         /\ (<[id := advance b0]> (GameRoom.Bullets r) !! id = None
             \/ exists b1, Some b0 = Some b1
                  /\ <[id := advance b0]> (GameRoom.Bullets r) !! id
                     = Some (advance b1)
                  /\ offScreen (advance b1) = false))
         by (split; [intros k Hk; now apply lookup_insert_ne|];
             right; exists b0; split_and!;
             [reflexivity | apply lookup_insert_eq | exact Hoff]).
  - destruct (bossHit _ _) as [bs|].
    + unfold ret. cbn [fst]. rewrite hitBoss_Bullets. room_simpl. apply Hgone'.
    + unfold Main.hitEnemy, bind. destruct (range _ e) as [eks e1].
      destruct (firstEnemyHit _ _ eks); [|unfold ret; room_simpl; exact Hkept].
      destruct (range _ e1) as [pks e2]. unfold ret. cbn [fst].
      rewrite creditScore_Bullets. room_simpl. apply Hgone'.
  - assert (Hhostile :
      let t := fst (PowerUp.hitPlayer id (advance b0)
         (GameRoom.setBullets (<[id:=advance b0]> (GameRoom.Bullets r)) r) e) in
      (forall k, k <> id -> GameRoom.Bullets t !! k = GameRoom.Bullets r !! k)
      /\ (GameRoom.Bullets t !! id = None
          \/ exists b1, Some b0 = Some b1
               /\ GameRoom.Bullets t !! id = Some (advance b1)
               /\ offScreen (advance b1) = false)).
    { cbv zeta. unfold PowerUp.hitPlayer, bind. destruct (range _ e) as [pks e1].
      destruct (firstPlayerHit _ _ pks) as [pid|];
        [|unfold ret; room_simpl; exact Hkept].
      destruct (GameRoom.Players _ !! pid) as [p|];
        [|unfold ret; room_simpl; exact Hkept].
      unfold ret. cbn [fst]. rewrite hostileHit_Bullets. room_simpl. apply Hgone'. }
    destruct (Entity.Type_ (advance b0));
      try (unfold ret; room_simpl; exact Hkept); try exact Hhostile.
    destruct (bossHit _ _) as [bs|].
    + unfold ret. cbn [fst]. rewrite hitBoss_Bullets. room_simpl. apply Hgone'.
    + unfold PowerUp.hitEnemy, bind. destruct (range _ e) as [eks e1].
      destruct (firstEnemyHit _ _ eks) as [eid|];
        [|unfold ret; room_simpl; exact Hkept].
      destruct (GameRoom.Enemies _ !! eid); [|unfold ret; room_simpl; exact Hkept].
      destruct (newUUID e1) as [itemID e2].
      destruct (range _ e2) as [pks e3]. unfold ret. cbn [fst].
      rewrite creditScore_Bullets. room_simpl. apply Hgone'.
Qed.

(** The bullet loop: every bullet left has moved by one step, once, and
    is on screen. *)
Lemma bulletPass_Bullets v s e :
  let t := fst ((let* bks := range (GameRoom.Bullets s) in
                 forEach (bulletStep v) bks s) e) in
  forall k b, GameRoom.Bullets t !! k = Some b ->
    exists b0, GameRoom.Bullets s !! k = Some b0
               /\ b = advance b0 /\ offScreen b = false.
Proof.
  cbv zeta. unfold bind.
  pose proof (orderOf_NoDup (GameRoom.Bullets s) e) as Hnd.
  pose proof (elem_of_orderOf (GameRoom.Bullets s) e) as Hin.
  unfold orderOf in Hnd, Hin. destruct (range (GameRoom.Bullets s) e) as [bks e1].
  cbn [fst] in Hnd, Hin.
  destruct (forEach_per_key GameRoom.Bullets (fun _ => True)
              (fun o o' => o' = None
                 \/ exists b0, o = Some b0 /\ o' = Some (advance b0)
                               /\ offScreen (advance b0) = false)
              (bulletStep v)) with (ks := bks) (s := s) (e := e1) as [_ H];
    [|exact Hnd|exact I|].
  { intros id r e' _. cbv zeta. split; [exact I|]. apply bulletStep_Bullets. }
  intros k b Hb. destruct (H k) as [Hvisited Hnot].
  destruct (decide (k ∈ bks)) as [Hk|Hk].
  - destruct (Hvisited Hk) as [Hnone|(b0 & Hb0 & Hb' & Hoff)]; [congruence|].
    exists b0. rewrite Hb in Hb'. injection Hb' as ->. auto.
  - rewrite (Hnot Hk) in Hb. exfalso. apply Hk, Hin. eauto.
Qed.

(** The passes that leave the bullets alone. *)
Lemma enemyStep_Bullets id r :
  post (enemyStep id r) (fun t => GameRoom.Bullets t = GameRoom.Bullets r).
Proof.
  unfold enemyStep.
  destruct (GameRoom.Enemies r !! id) as [e0|]; [|now apply post_ret].
  destruct (fgt _ 600); [now apply post_ret|].
  apply post_any. intros pks.
  destruct (firstPlayerHit _ _ pks) as [pid|]; [|now apply post_ret].
  destruct (GameRoom.Players _ !! pid) as [p|]; [|now apply post_ret].
  apply post_ret. room_simpl. now rewrite hurt_Bullets.
Qed.

Lemma itemStep_Bullets iid r :
  post (PowerUp.itemStep iid r) (fun t => GameRoom.Bullets t = GameRoom.Bullets r).
Proof.
  unfold PowerUp.itemStep.
  destruct (GameRoom.Items r !! iid); [|now apply post_ret].
  destruct (fgt _ 600); [now apply post_ret|].
  apply post_any. intros pks.
  destruct (firstPlayerHit _ _ pks) as [pid|]; [|now apply post_ret].
  destruct (GameRoom.Players _ !! pid) as [p|]; now apply post_ret.
Qed.

Lemma enemyLoop_Bullets r :
  post (enemyLoop r) (fun t => GameRoom.Bullets t = GameRoom.Bullets r).
Proof.
  unfold enemyLoop. apply post_any. intros ks.
  apply (post_forEach_rel (fun r t => GameRoom.Bullets t = GameRoom.Bullets r));
    [reflexivity | intros a b c Hab Hbc; congruence | apply enemyStep_Bullets].
Qed.

Lemma hurt_Boss n pid p r : GameRoom.Boss (hurt n pid p r) = GameRoom.Boss r.
Proof.
  unfold hurt. cbv zeta. destruct (_ <=? 0); [|reflexivity].
  now destruct (allPlayersDead _).
Qed.

(** The boss step on the boss and the bullets: the boss is moved and
    turned, and at most one bullet is added, fired from under it. *)
Lemma bossStep_Boss_Bullets r e :
  let t := fst (bossStep r e) in
  GameRoom.Boss t = patrolled <$> GameRoom.Boss r
  /\ forall k b, GameRoom.Bullets t !! k = Some b ->
       GameRoom.Bullets r !! k = Some b
       \/ exists bs vx vy, GameRoom.Boss t = Some bs /\ b = bossBulletOf k bs vx vy
                           /\ 0 <= vx < 5 /\ 0 <= vy < 3.
Proof.
  cbv zeta. unfold bossStep.
  destruct (GameRoom.Boss r) as [b0|] eqn:Hb0;
    [|unfold ret; cbn [fst]; rewrite Hb0; split; [reflexivity|auto]].
  fold (patrolled b0). set (b := patrolled b0). unfold bind.
  destruct (Intn 60 e) as [n e1].
  set (fired := if n <? 5 then _ else _).
  assert (Hfired :
    GameRoom.Boss (fst (fired e1)) = Some b
    /\ forall k x, GameRoom.Bullets (fst (fired e1)) !! k = Some x ->
         GameRoom.Bullets r !! k = Some x
         \/ exists vx vy, x = bossBulletOf k b vx vy /\ 0 <= vx < 5 /\ 0 <= vy < 3).
  { subst fired. destruct (n <? 5); [|split; [reflexivity|auto]].
    unfold bind, newUUID, Intn, ret. cbn [fst snd]. room_simpl.
    split; [reflexivity|]. intros k x Hx.
    apply lookup_insert_Some in Hx as [[<- <-]|[_ Hx]]; [|auto].
    right. eexists _, _. split; [reflexivity|].
    split; apply Z.mod_pos_bound; lia. }
  destruct (fired e1) as [s e2]. cbn [fst] in Hfired. destruct Hfired as [Hboss Hbul].
  destruct (range (GameRoom.Players s) e2) as [pks e3].
  pose proof (post_forEach_rel
    (fun r t => GameRoom.Bullets t = GameRoom.Bullets r
                /\ GameRoom.Boss t = GameRoom.Boss r)
    (fun pid r =>
       ret match GameRoom.Players r !! pid with
           | Some p => if checkCollision b (Player.Entity p)
                       then hurt 20 pid p r else r
           | None => r
           end)) as Hloop.
  destruct (Hloop (fun _ => conj eq_refl eq_refl)) with (ks := pks) (s := s) (e := e3)
    as [Hbs Hbo].
  { intros x y z [H1 H2] [H3 H4]. split; congruence. }
  { intros pid t. apply post_ret.
    destruct (GameRoom.Players t !! pid) as [p|]; [|auto].
    destruct (checkCollision _ _); [|auto].
    now rewrite hurt_Bullets, hurt_Boss. }
  rewrite Hbo, Hbs, Hboss. split; [reflexivity|].
  intros k x Hx. destruct (Hbul k x Hx) as [|(vx & vy & H)]; [auto|].
  right. exists b, vx, vy. auto.
Qed.

Lemma enemyFire_firedFrom id r : post (PowerUp.enemyFire id r) (firedFrom r).
Proof.
  unfold PowerUp.enemyFire, firedFrom.
  destruct (GameRoom.Enemies r !! id) as [en|] eqn:Hen; [|apply post_ret; auto].
  apply post_any. intros n. destruct (n <? 5); [|apply post_ret; auto].
  apply post_any. intros bid. apply post_ret. room_simpl.
  split; [reflexivity|]. intros k b Hb.
  apply lookup_insert_Some in Hb as [[<- <-]|[_ Hb]]; [|auto].
  right. exists id, en. auto.
Qed.

Lemma firePass_firedFrom ks r : post (forEach PowerUp.enemyFire ks r) (firedFrom r).
Proof.
  apply post_forEach_rel; [unfold firedFrom; auto | | apply enemyFire_firedFrom].
  unfold firedFrom. intros a b c [Hab Hab'] [Hbc Hbc']. split; [congruence|].
  intros k x Hx. destruct (Hbc' k x Hx) as [Hx'|(eid & en & Hen & ->)]; [auto|].
  right. exists eid, en. rewrite <- Hab. auto.
Qed.

(** X9.  The bullets after a tick of a room in play, in both revisions.
    Every bullet of the room has moved by exactly one step and is on
    screen, the one the boss fired during the tick apart; a bullet that
    left the screen is gone.  In [part_001] a bullet fired by an enemy
    during the tick counts as a bullet of the room: it moves in the same
    tick. *)
Theorem tick_bullets_move_once (v : Revision) (r : GameRoom.t) (e : Env)
  (k : string) (b : Entity.t) :
  GameRoom.GameState r = playing ->
  GameRoom.Bullets (fst (updateGame v r e)) !! k = Some b ->
  bulletOrigin v r (fst (updateGame v r e)) k b.
Proof.
  intros Hs.
  assert (Hlate : forall s e1,
    let t := fst ((let* s' := enemyLoop s in bossStep s') e1) in
    forall k b, GameRoom.Bullets t !! k = Some b ->
      GameRoom.Bullets s !! k = Some b
      \/ exists bs vx vy, GameRoom.Boss t = Some bs /\ b = bossBulletOf k bs vx vy
                          /\ 0 <= vx < 5 /\ 0 <= vy < 3).
  { intros s e1. cbv zeta. unfold bind.
    pose proof (enemyLoop_Bullets s e1) as Hl.
    destruct (enemyLoop s e1) as [s' e2]. cbn [fst] in Hl.
    intros k' b' Hb'.
    destruct (bossStep_Boss_Bullets s' e2) as [_ H].
    destruct (H k' b' Hb') as [Hold|Hnew]; [left; congruence|now right]. }
  remember (fst (updateGame v r e)) as r' eqn:Hr'. revert Hr'.
  destruct v; cbn [updateGame];
    [unfold Main.updateGame | unfold PowerUp.updateGame];
    rewrite Hs; cbn [State_eqb negb].
  - pose proof (bulletPass_Bullets main_go (movePlayers r) e) as Hpass.
    cbv zeta in Hpass. unfold bind at 1 in Hpass. unfold bind at 1.
    destruct (range (GameRoom.Bullets (movePlayers r)) e) as [bks e1].
    unfold bind at 1. cbn [bulletStep] in Hpass.
    destruct (forEach Main.bulletStep bks (movePlayers r) e1) as [s e2].
    cbn [fst] in Hpass. intros -> Hb.
    destruct (Hlate s e2 k b Hb) as [Hold|Hnew]; [|right; exact Hnew].
    left. destruct (Hpass k b Hold) as (b0 & Hb0 & -> & Hoff).
    exists b0. split_and!; [left; exact Hb0|reflexivity|exact Hoff].
  - unfold bind at 1. destruct (range _ e) as [eks e0].
    unfold bind at 1.
    pose proof (firePass_firedFrom eks (movePlayers r) e0) as [Hen Hfire].
    destruct (forEach PowerUp.enemyFire eks (movePlayers r) e0) as [s0 e1].
    cbn [fst] in Hen, Hfire.
    pose proof (bulletPass_Bullets part_001 s0 e1) as Hpass.
    cbv zeta in Hpass. unfold bind at 1 in Hpass. unfold bind at 1.
    destruct (range (GameRoom.Bullets s0) e1) as [bks e2].
    unfold bind at 1. cbn [bulletStep] in Hpass.
    destruct (forEach PowerUp.bulletStep bks s0 e2) as [s1 e3].
    cbn [fst] in Hpass. unfold bind at 1. destruct (range _ e3) as [iks e4].
    unfold bind at 1.
    pose proof (post_forEach_rel
      (fun r t => GameRoom.Bullets t = GameRoom.Bullets r) PowerUp.itemStep
      (fun _ => eq_refl) (fun a b c Hab Hbc => eq_trans Hbc Hab)
      itemStep_Bullets iks s1 e4) as Hitems.
    destruct (forEach PowerUp.itemStep iks s1 e4) as [s2 e5]. cbn [fst] in Hitems.
    intros -> Hb.
    destruct (Hlate s2 e5 k b Hb) as [Hold|Hnew]; [|right; exact Hnew].
    left. rewrite Hitems in Hold.
    destruct (Hpass k b Hold) as (b0 & Hb0 & -> & Hoff).
    exists b0. split_and!; [|reflexivity|exact Hoff].
    destruct (Hfire k b0 Hb0) as [H|(eid & en & Hen' & ->)]; [left; exact H|].
    right. split; [reflexivity|]. exists eid, en. split; [exact Hen'|reflexivity].
Qed.

(** ** The enemies and the items through a tick *)

Lemma playersKept_Entity r s pid :
  playersKept r s ->
  Player.Entity <$> (GameRoom.Players s !! pid)
  = Player.Entity <$> (GameRoom.Players r !! pid).
Proof.
  intros H. specialize (H pid). destruct H as [p q (He & _)|]; [|reflexivity].
  cbn. now rewrite He.
Qed.

Lemma hurt_Enemies n pid p r : GameRoom.Enemies (hurt n pid p r) = GameRoom.Enemies r.
Proof.
  unfold hurt. cbv zeta. destruct (_ <=? 0); [|reflexivity].
  now destruct (allPlayersDead _).
Qed.

Lemma hurt_Items n pid p r : GameRoom.Items (hurt n pid p r) = GameRoom.Items r.
Proof.
  unfold hurt. cbv zeta. destruct (_ <=? 0); [|reflexivity].
  now destruct (allPlayersDead _).
Qed.

Lemma dropped_refl r : dropped r r.
Proof. unfold dropped. auto. Qed.

Lemma dropped_trans r s t : dropped r s -> dropped s t -> dropped r t.
Proof.
  unfold dropped. intros [He Hi] [He' Hi']. split; [auto|].
  intros k it Hit. destruct (Hi' k it Hit) as [H|(eid & en & Hen & ->)]; [auto|].
  right. exists eid, en. auto.
Qed.

Lemma dropped_same r s :
  GameRoom.Enemies s = GameRoom.Enemies r -> GameRoom.Items s = GameRoom.Items r ->
  dropped r s.
Proof. unfold dropped. intros -> ->. auto. Qed.

Lemma creditScore_stock b ks r :
  GameRoom.Enemies (creditScore b ks r) = GameRoom.Enemies r
  /\ GameRoom.Items (creditScore b ks r) = GameRoom.Items r.
Proof. destruct (creditScore_spec b ks r) as [-> _]. split; reflexivity. Qed.

Lemma hitBoss_stock id bs r :
  GameRoom.Enemies (hitBoss id bs r) = GameRoom.Enemies r
  /\ GameRoom.Items (hitBoss id bs r) = GameRoom.Items r.
Proof. unfold hitBoss. cbv zeta. now destruct (_ <=? 0). Qed.

Lemma hostileHit_stock id pid p r :
  GameRoom.Enemies (PowerUp.hostileHit id pid p r) = GameRoom.Enemies r
  /\ GameRoom.Items (PowerUp.hostileHit id pid p r) = GameRoom.Items r.
Proof. unfold PowerUp.hostileHit. cbv zeta. now destruct (allPlayersDead _). Qed.

Lemma bulletStep_dropped v id r : post (bulletStep v id r) (dropped r).
Proof.
  assert (Hboss : forall bs b,
            dropped r (hitBoss id bs (GameRoom.setBullets b r))).
  { intros bs b. destruct (hitBoss_stock id bs (GameRoom.setBullets b r)).
    now apply dropped_same. }
  destruct v; cbn [bulletStep];
    [unfold Main.bulletStep | unfold PowerUp.bulletStep];
    (destruct (GameRoom.Bullets r !! id) as [b0|];
     [|apply post_ret, dropped_refl]);
    (destruct (offScreen (advance b0)); [now apply post_ret, dropped_same|]).
  - destruct (bossHit _ _) as [bs|]; [apply post_ret, Hboss|].
    unfold Main.hitEnemy. apply post_any. intros eks.
    destruct (firstEnemyHit _ _ eks) as [eid|]; [|now apply post_ret, dropped_same].
    apply post_any. intros pks. apply post_ret.
    match goal with |- dropped r (creditScore ?b ?ks ?s) =>
      destruct (creditScore_stock b ks s) as [He Hi] end.
    unfold dropped. rewrite He, Hi. room_simpl. split; [|auto].
    intros k en Hk. apply lookup_delete_Some in Hk. tauto.
  - assert (Hhostile : post
      (PowerUp.hitPlayer id (advance b0)
         (GameRoom.setBullets (<[id:=advance b0]> (GameRoom.Bullets r)) r))
      (dropped r)).
    { unfold PowerUp.hitPlayer. apply post_any. intros pks.
      destruct (firstPlayerHit _ _ pks) as [pid|];
        [|now apply post_ret, dropped_same].
      destruct (GameRoom.Players _ !! pid) as [p|];
        [|now apply post_ret, dropped_same].
      apply post_ret.
      match goal with |- dropped r (PowerUp.hostileHit ?a ?b ?c ?s) =>
        destruct (hostileHit_stock a b c s) end.
      now apply dropped_same. }
    destruct (Entity.Type_ (advance b0));
      try (now apply post_ret, dropped_same); try exact Hhostile.
    destruct (bossHit _ _) as [bs|]; [apply post_ret, Hboss|].
    unfold PowerUp.hitEnemy. apply post_any. intros eks.
    destruct (firstEnemyHit _ _ eks) as [eid|];
      [|now apply post_ret, dropped_same].
    room_simpl.
    destruct (GameRoom.Enemies r !! eid) as [en|] eqn:Hen;
      [|now apply post_ret, dropped_same].
    apply post_any. intros itemID. apply post_any. intros pks. apply post_ret.
    match goal with |- dropped r (creditScore ?b ?ks ?s) =>
      destruct (creditScore_stock b ks s) as [He Hi] end.
    unfold dropped. rewrite He, Hi. room_simpl. split.
    + intros k x Hk. apply lookup_delete_Some in Hk. tauto.
    + intros k it Hit.
      apply lookup_insert_Some in Hit as [[<- <-]|[_ Hit]]; [|auto].
      right. exists eid, en. auto.
Qed.

Lemma enemyFire_dropped id r : post (PowerUp.enemyFire id r) (dropped r).
Proof.
  intros e. destruct (enemyFire_firedFrom id r e) as [He _].
  apply dropped_same; [exact He|].
  unfold PowerUp.enemyFire.
  destruct (GameRoom.Enemies r !! id); [|reflexivity].
  unfold bind. destruct (Intn 1000 e) as [n e1].
  destruct (n <? 5); [|reflexivity]. now destruct (newUUID e1).
Qed.

(** The body of the enemy loop, for the enemy [id]: the enemy is gone,
    or it has moved by one step, is not below the screen and overlaps no
    player; no other enemy is touched, and the players stay where they
    are. *)
Lemma enemyStep_per_key (ents : string -> option Entity.t) id s e :
  (forall pid, Player.Entity <$> (GameRoom.Players s !! pid) = ents pid) ->
  let t := fst (enemyStep id s e) in
  (forall pid, Player.Entity <$> (GameRoom.Players t !! pid) = ents pid)
  /\ (forall k, k <> id -> GameRoom.Enemies t !! k = GameRoom.Enemies s !! k)
  /\ (GameRoom.Enemies t !! id = None
      \/ exists e0, GameRoom.Enemies s !! id = Some e0
           /\ GameRoom.Enemies t !! id = Some (advance e0)
           /\ fgt (Entity.Y (advance e0)) 600 = false
           /\ forall pid ent, ents pid = Some ent ->
                checkCollision (advance e0) ent = false).
Proof.
  intros Hents. cbv zeta. split.
  { intros pid. rewrite <- Hents. apply playersKept_Entity, playersKept_enemyStep. }
  unfold enemyStep.
  destruct (GameRoom.Enemies s !! id) as [e0|] eqn:He0;
    [|unfold ret; cbn [fst]; split; [reflexivity|left; exact He0]].
  destruct (fgt (Entity.Y (advance e0)) 600) eqn:Hy.
  { unfold ret. room_simpl. split; [|left; apply lookup_delete_eq].
    intros k Hk. now apply lookup_delete_ne. }
  unfold bind.
  pose proof (elem_of_orderOf
    (GameRoom.Players (GameRoom.setEnemies (<[id:=advance e0]> (GameRoom.Enemies s)) s))
    e) as Hin. unfold orderOf in Hin.
  destruct (range _ e) as [pks e1]. cbn [fst] in Hin. room_simpl.
  destruct (firstPlayerHit _ _ pks) as [pid|] eqn:Hhit.
  - apply firstPlayerHit_Some in Hhit as (p & _ & _ & _ & Hp & _).
    rewrite Hp. unfold ret. room_simpl. rewrite hurt_Enemies. room_simpl. split.
    + intros k Hk. rewrite lookup_delete_ne, lookup_insert_ne; congruence.
    + left. apply lookup_delete_eq.
  - unfold ret. room_simpl. split; [intros k Hk; now apply lookup_insert_ne|].
    right. exists e0. split_and!; [reflexivity|apply lookup_insert_eq|exact Hy|].
    intros pid ent Hent. rewrite <- Hents in Hent.
    destruct (GameRoom.Players s !! pid) as [p|] eqn:Hp; [|discriminate].
    injection Hent as <-.
    destruct (checkCollision (advance e0) (Player.Entity p)) eqn:Hc; [|reflexivity].
    assert (Hsome : is_Some (firstPlayerHit (advance e0) (GameRoom.Players s) pks)).
    { eapply firstPlayerHit_exists; [|exact Hp|exact Hc]. apply Hin. eauto. }
    rewrite Hhit in Hsome. now destruct Hsome.
Qed.

Lemma playersKept_enemyLoop s : post (enemyLoop s) (playersKept s).
Proof.
  unfold enemyLoop. apply post_any. intros ks.
  apply post_forEach_rel;
    [apply playersKept_refl|apply playersKept_trans|apply playersKept_enemyStep].
Qed.

Lemma enemyLoop_Items s :
  post (enemyLoop s) (fun t => GameRoom.Items t = GameRoom.Items s).
Proof.
  unfold enemyLoop. apply post_any. intros ks.
  apply (post_forEach_rel (fun r t => GameRoom.Items t = GameRoom.Items r));
    [reflexivity | intros a b c Hab Hbc; congruence |].
  intros id r. unfold enemyStep.
  destruct (GameRoom.Enemies r !! id) as [e0|]; [|now apply post_ret].
  destruct (fgt _ 600); [now apply post_ret|].
  apply post_any. intros pks.
  destruct (firstPlayerHit _ _ pks) as [pid|]; [|now apply post_ret].
  destruct (GameRoom.Players _ !! pid) as [p|]; [|now apply post_ret].
  apply post_ret. room_simpl. now rewrite hurt_Items.
Qed.

(** The enemy loop: every enemy left has moved by one step, once, is
    not below the screen and overlaps no player. *)
Lemma enemyLoop_spec s e :
  let t := fst (enemyLoop s e) in
  playersKept s t /\ GameRoom.Items t = GameRoom.Items s
  /\ forall k en, GameRoom.Enemies t !! k = Some en ->
       exists e0, GameRoom.Enemies s !! k = Some e0 /\ en = advance e0
                  /\ fgt (Entity.Y en) 600 = false /\ clearOfPlayers en t.
Proof.
  cbv zeta. split; [apply playersKept_enemyLoop|].
  split; [apply enemyLoop_Items|].
  unfold enemyLoop, bind.
  pose proof (orderOf_NoDup (GameRoom.Enemies s) e) as Hnd.
  pose proof (elem_of_orderOf (GameRoom.Enemies s) e) as Hin.
  unfold orderOf in Hnd, Hin. destruct (range (GameRoom.Enemies s) e) as [ks e1].
  cbn [fst] in Hnd, Hin.
  set (ents := fun pid => Player.Entity <$> (GameRoom.Players s !! pid)).
  destruct (forEach_per_key GameRoom.Enemies
              (fun t => forall pid,
                 Player.Entity <$> (GameRoom.Players t !! pid) = ents pid)
              (fun o o' => o' = None
                 \/ exists e0, o = Some e0 /\ o' = Some (advance e0)
                      /\ fgt (Entity.Y (advance e0)) 600 = false
                      /\ forall pid ent, ents pid = Some ent ->
                           checkCollision (advance e0) ent = false)
              enemyStep) with (ks := ks) (s := s) (e := e1) as [Hents H];
    [|exact Hnd|reflexivity|].
  { intros id r e' Hr. apply (enemyStep_per_key ents id r e' Hr). }
  intros k en Hen. destruct (H k) as [Hvisited Hnot].
  destruct (decide (k ∈ ks)) as [Hk|Hk].
  - destruct (Hvisited Hk) as [Hnone|(e0 & He0 & Hen' & Hy & Hclear)]; [congruence|].
    rewrite Hen in Hen'. injection Hen' as ->.
    exists e0. split_and!; try assumption; try reflexivity.
    intros pid p Hp. apply (Hclear pid). rewrite <- Hents, Hp. reflexivity.
  - rewrite (Hnot Hk) in Hen. exfalso. apply Hk, Hin. eauto.
Qed.

(** ** A tick as the sequence of its passes *)

Lemma updateGame_passes v r e :
  GameRoom.GameState r = playing ->
  updateGame v r e
  = (let* s0 := firePass v (movePlayers r) in
     let* s1 := bulletPass v s0 in
     let* s2 := itemPass v s1 in
     let* s3 := enemyLoop s2 in
     bossStep s3) e.
Proof.
  intros Hs.
  destruct v; cbn [updateGame firePass itemPass];
    [unfold Main.updateGame | unfold PowerUp.updateGame];
    rewrite Hs; cbn [State_eqb negb]; unfold bulletPass, bind, ret;
    cbn [bulletStep].
  - destruct (range _ e) as [bks e1]. now destruct (forEach _ bks _ e1).
  - destruct (range _ e) as [eks e0]. destruct (forEach _ eks _ e0) as [s0 e1].
    destruct (range _ e1) as [bks e2]. destruct (forEach _ bks _ e2) as [s1 e3].
    destruct (range _ e3) as [iks e4]. now destruct (forEach _ iks _ e4).
Qed.

Lemma firePass_spec v s :
  post (firePass v s)
    (fun t => firedFrom s t /\ GameRoom.Items t = GameRoom.Items s
              /\ playersKept s t /\ GameRoom.Boss t = GameRoom.Boss s).
Proof.
  destruct v; cbn [firePass].
  - apply post_ret. unfold firedFrom. split_and!; auto. apply playersKept_refl.
  - apply post_any. intros eks.
    apply (post_forEach_rel
      (fun s t => firedFrom s t /\ GameRoom.Items t = GameRoom.Items s
                  /\ playersKept s t /\ GameRoom.Boss t = GameRoom.Boss s)).
    + intros r. unfold firedFrom. split_and!; auto. apply playersKept_refl.
    + intros a b c (H1 & H2 & H3 & H4) (K1 & K2 & K3 & K4). split_and!; try congruence.
      * destruct H1 as [Hab Hab'], K1 as [Hbc Hbc']. split; [congruence|].
        intros k x Hx. destruct (Hbc' k x Hx) as [Hx'|(eid & en & Hen & ->)]; [auto|].
        right. exists eid, en. rewrite <- Hab. auto.
      * eapply playersKept_trans; eassumption.
    + intros id r e. split_and!.
      * apply enemyFire_firedFrom.
      * unfold PowerUp.enemyFire. destruct (GameRoom.Enemies r !! id); [|reflexivity].
        unfold bind. destruct (Intn 1000 e) as [n e1].
        destruct (n <? 5); [|reflexivity]. now destruct (newUUID e1).
      * apply playersKept_enemyFire.
      * unfold PowerUp.enemyFire. destruct (GameRoom.Enemies r !! id); [|reflexivity].
        unfold bind. destruct (Intn 1000 e) as [n e1].
        destruct (n <? 5); [|reflexivity]. now destruct (newUUID e1).
Qed.

Lemma bulletPass_spec v s :
  post (bulletPass v s) (fun t => dropped s t /\ playersKept s t).
Proof.
  unfold bulletPass. apply post_any. intros bks.
  apply (post_forEach_rel (fun s t => dropped s t /\ playersKept s t)).
  - intros r. split; [apply dropped_refl|apply playersKept_refl].
  - intros a b c [H1 H2] [K1 K2].
    split; [eapply dropped_trans|eapply playersKept_trans]; eassumption.
  - intros id r e. split; [apply bulletStep_dropped|apply playersKept_bulletStep].
Qed.

Lemma bossStep_stock r :
  post (bossStep r)
    (fun t => GameRoom.Enemies t = GameRoom.Enemies r
              /\ GameRoom.Items t = GameRoom.Items r).
Proof.
  unfold bossStep.
  destruct (GameRoom.Boss r) as [b0|]; [|now apply post_ret].
  set (b := if _ || _ then _ else _).
  apply post_any. intros n.
  eapply post_bind with
    (P := fun t => GameRoom.Enemies t = GameRoom.Enemies r
                   /\ GameRoom.Items t = GameRoom.Items r).
  - destruct (n <? 5); [|now apply post_ret].
    apply post_any. intros id. apply post_any. intros vx.
    apply post_any. intros vy. now apply post_ret.
  - intros s [Hs1 Hs2]. apply post_any. intros pks e. rewrite <- Hs1, <- Hs2.
    apply (post_forEach_rel
      (fun r t => GameRoom.Enemies t = GameRoom.Enemies r
                  /\ GameRoom.Items t = GameRoom.Items r));
      [auto | intros x y z [] []; split; congruence |].
    intros pid t. apply post_ret.
    destruct (GameRoom.Players t !! pid) as [p|]; [|auto].
    destruct (checkCollision _ _); [|auto].
    now rewrite hurt_Enemies, hurt_Items.
Qed.

(** The body of the item loop, for the item [iid]: the item is gone, or
    it has fallen by one step, is not below the screen and overlaps no
    player; no other item is touched, and the players stay where they
    are. *)
Lemma itemStep_per_key (ents : string -> option Entity.t) iid s e :
  (forall pid, Player.Entity <$> (GameRoom.Players s !! pid) = ents pid) ->
  let t := fst (PowerUp.itemStep iid s e) in
  (forall pid, Player.Entity <$> (GameRoom.Players t !! pid) = ents pid)
  /\ (forall k, k <> iid -> GameRoom.Items t !! k = GameRoom.Items s !! k)
  /\ (GameRoom.Items t !! iid = None
      \/ exists it0, GameRoom.Items s !! iid = Some it0
           /\ GameRoom.Items t !! iid = Some (fallen it0)
           /\ fgt (Entity.Y (fallen it0)) 600 = false
           /\ forall pid ent, ents pid = Some ent ->
                checkCollision (fallen it0) ent = false).
Proof.
  intros Hents. cbv zeta. split.
  { intros pid. rewrite <- Hents. apply playersKept_Entity, playersKept_itemStep. }
  unfold PowerUp.itemStep.
  destruct (GameRoom.Items s !! iid) as [it0|] eqn:Hit0;
    [|unfold ret; cbn [fst]; split; [reflexivity|left; exact Hit0]].
  fold (fallen it0).
  destruct (fgt (Entity.Y (fallen it0)) 600) eqn:Hy.
  { unfold ret. room_simpl. split; [|left; apply lookup_delete_eq].
    intros k Hk. now apply lookup_delete_ne. }
  unfold bind.
  pose proof (elem_of_orderOf
    (GameRoom.Players (GameRoom.setItems (<[iid:=fallen it0]> (GameRoom.Items s)) s))
    e) as Hin. unfold orderOf in Hin.
  destruct (range _ e) as [pks e1]. cbn [fst] in Hin. room_simpl.
  destruct (firstPlayerHit _ _ pks) as [pid|] eqn:Hhit.
  - apply firstPlayerHit_Some in Hhit as (p & _ & _ & _ & Hp & _).
    rewrite Hp. unfold ret. room_simpl. split.
    + intros k Hk. rewrite lookup_delete_ne, lookup_insert_ne; congruence.
    + left. apply lookup_delete_eq.
  - unfold ret. room_simpl. split; [intros k Hk; now apply lookup_insert_ne|].
    right. exists it0. split_and!; [reflexivity|apply lookup_insert_eq|exact Hy|].
    intros pid ent Hent. rewrite <- Hents in Hent.
    destruct (GameRoom.Players s !! pid) as [p|] eqn:Hp; [|discriminate].
    injection Hent as <-.
    destruct (checkCollision (fallen it0) (Player.Entity p)) eqn:Hc; [|reflexivity].
    assert (Hsome : is_Some (firstPlayerHit (fallen it0) (GameRoom.Players s) pks)).
    { eapply firstPlayerHit_exists; [|exact Hp|exact Hc]. apply Hin. eauto. }
    rewrite Hhit in Hsome. now destruct Hsome.
Qed.

Lemma itemStep_Enemies iid r :
  post (PowerUp.itemStep iid r) (fun t => GameRoom.Enemies t = GameRoom.Enemies r).
Proof.
  unfold PowerUp.itemStep.
  destruct (GameRoom.Items r !! iid); [|now apply post_ret].
  destruct (fgt _ 600); [now apply post_ret|].
  apply post_any. intros pks.
  destruct (firstPlayerHit _ _ pks) as [pid|]; [|now apply post_ret].
  destruct (GameRoom.Players _ !! pid) as [p|]; now apply post_ret.
Qed.

(** The item loop of [part_001]: every item left has fallen by one step,
    once, is not below the screen and overlaps no player.  [src/main.go]
    has no items and no such loop. *)
Lemma itemPass_spec v s e :
  let t := fst (itemPass v s e) in
  playersKept s t /\ GameRoom.Enemies t = GameRoom.Enemies s
  /\ match v with
     | main_go => t = s
     | part_001 =>
         forall k it, GameRoom.Items t !! k = Some it ->
           exists it0, GameRoom.Items s !! k = Some it0 /\ it = fallen it0
                       /\ fgt (Entity.Y it) 600 = false /\ clearOfPlayers it t
     end.
Proof.
  cbv zeta. destruct v; cbn [itemPass].
  { split_and!; [apply playersKept_refl|reflexivity..]. }
  assert (Hkept : post (itemPass part_001 s) (playersKept s)).
  { cbn [itemPass]. apply post_any. intros ks. apply post_forEach_rel;
      [apply playersKept_refl|apply playersKept_trans|apply playersKept_itemStep]. }
  assert (Hen : post (itemPass part_001 s)
                  (fun t => GameRoom.Enemies t = GameRoom.Enemies s)).
  { cbn [itemPass]. apply post_any. intros ks.
    apply (post_forEach_rel (fun r t => GameRoom.Enemies t = GameRoom.Enemies r));
      [reflexivity | intros a b c Hab Hbc; congruence | apply itemStep_Enemies]. }
  split_and!; [apply Hkept|apply Hen|]. clear Hkept Hen.
  unfold bind.
  pose proof (orderOf_NoDup (GameRoom.Items s) e) as Hnd.
  pose proof (elem_of_orderOf (GameRoom.Items s) e) as Hin.
  unfold orderOf in Hnd, Hin. destruct (range (GameRoom.Items s) e) as [ks e1].
  cbn [fst] in Hnd, Hin.
  set (ents := fun pid => Player.Entity <$> (GameRoom.Players s !! pid)).
  destruct (forEach_per_key GameRoom.Items
              (fun t => forall pid,
                 Player.Entity <$> (GameRoom.Players t !! pid) = ents pid)
              (fun o o' => o' = None
                 \/ exists it0, o = Some it0 /\ o' = Some (fallen it0)
                      /\ fgt (Entity.Y (fallen it0)) 600 = false
                      /\ forall pid ent, ents pid = Some ent ->
                           checkCollision (fallen it0) ent = false)
              PowerUp.itemStep) with (ks := ks) (s := s) (e := e1) as [Hents H];
    [|exact Hnd|reflexivity|].
  { intros id r e' Hr. apply (itemStep_per_key ents id r e' Hr). }
  intros k it Hit. destruct (H k) as [Hvisited Hnot].
  destruct (decide (k ∈ ks)) as [Hk|Hk].
  - destruct (Hvisited Hk) as [Hnone|(it0 & Hit0 & Hit' & Hy & Hclear)]; [congruence|].
    rewrite Hit in Hit'. injection Hit' as ->.
    exists it0. split_and!; try assumption; try reflexivity.
    intros pid p Hp. apply (Hclear pid). rewrite <- Hents, Hp. reflexivity.
  - rewrite (Hnot Hk) in Hit. exfalso. apply Hk, Hin. eauto.
Qed.

Lemma clearOfPlayers_kept a s t :
  playersKept s t -> clearOfPlayers a s -> clearOfPlayers a t.
Proof.
  intros Hk Hc pid p Hp. pose proof (playersKept_Entity s t pid Hk) as He.
  rewrite Hp in He. destruct (GameRoom.Players s !! pid) as [q|] eqn:Hq; [|discriminate].
  injection He as ->. now apply (Hc pid q).
Qed.

(** X10.  The enemies after a tick of a room in play, in both revisions:
    a tick creates no enemy; every enemy left has moved by exactly one
    step, has not gone below the screen (its y is not beyond 600), and
    overlaps no player of the room. *)
Theorem tick_enemies_move_once (v : Revision) (r : GameRoom.t) (e : Env)
  (k : string) (en : Entity.t) :
  GameRoom.GameState r = playing ->
  GameRoom.Enemies (fst (updateGame v r e)) !! k = Some en ->
  exists e0, GameRoom.Enemies r !! k = Some e0 /\ en = advance e0
             /\ fgt (Entity.Y en) 600 = false
             /\ clearOfPlayers en (fst (updateGame v r e)).
Proof.
  intros Hs. rewrite (updateGame_passes v r e Hs). unfold bind.
  destruct (firePass_spec v (movePlayers r) e) as ([Hfire _] & _).
  destruct (firePass v (movePlayers r) e) as [s0 e0].
  destruct (bulletPass_spec v s0 e0) as [[Hdrop _] _].
  destruct (bulletPass v s0 e0) as [s1 e1].
  destruct (itemPass_spec v s1 e1) as (_ & Hitem & _).
  destruct (itemPass v s1 e1) as [s2 e2].
  destruct (enemyLoop_spec s2 e2) as (_ & _ & Hloop).
  destruct (enemyLoop s2 e2) as [s3 e3].
  pose proof (bossStep_stock s3 e3) as [Hboss _].
  pose proof (playersKept_bossStep s3 e3) as Hkept.
  cbn [fst] in *. rewrite Hboss. intros Hen.
  destruct (Hloop k en Hen) as (x & Hx & -> & Hy & Hclear).
  exists x. split_and!; try assumption; try reflexivity.
  - rewrite Hitem in Hx. apply Hdrop in Hx. now rewrite Hfire in Hx.
  - eapply clearOfPlayers_kept; eassumption.
Qed.

(** X11.  The items after a tick of a room in play, in [part_001].  Every
    item left is an item of the room, or the item dropped during the
    tick by an enemy of the room at the place where it was shot, and has
    fallen by exactly one step; it has not gone below the screen and
    overlaps no player. *)
Theorem tick_items_fall_once (r : GameRoom.t) (e : Env) (k : string)
  (it : Entity.t) :
  GameRoom.GameState r = playing ->
  GameRoom.Items (fst (PowerUp.updateGame r e)) !! k = Some it ->
  exists it0,
    (GameRoom.Items r !! k = Some it0
     \/ exists eid en, GameRoom.Enemies r !! eid = Some en
                       /\ it0 = PowerUp.itemOf k en)
    /\ it = fallen it0
    /\ fgt (Entity.Y it) 600 = false
    /\ clearOfPlayers it (fst (PowerUp.updateGame r e)).
Proof.
  intros Hs. change (PowerUp.updateGame r e) with (updateGame part_001 r e).
  rewrite (updateGame_passes part_001 r e Hs). unfold bind.
  destruct (firePass_spec part_001 (movePlayers r) e) as ([Hfire _] & Hfi & _).
  destruct (firePass part_001 (movePlayers r) e) as [s0 e0].
  destruct (bulletPass_spec part_001 s0 e0) as [[_ Hdrop] _].
  destruct (bulletPass part_001 s0 e0) as [s1 e1].
  destruct (itemPass_spec part_001 s1 e1) as (_ & _ & Hitem).
  destruct (itemPass part_001 s1 e1) as [s2 e2].
  destruct (enemyLoop_spec s2 e2) as (Hk1 & Hi1 & _).
  destruct (enemyLoop s2 e2) as [s3 e3].
  pose proof (bossStep_stock s3 e3) as [_ Hboss].
  pose proof (playersKept_bossStep s3 e3) as Hk2.
  cbn [fst] in *. rewrite Hboss, Hi1. intros Hit.
  destruct (Hitem k it Hit) as (x & Hx & -> & Hy & Hclear).
  exists x. split_and!; try assumption; try reflexivity.
  - destruct (Hdrop k x Hx) as [H|(eid & en & Hen & ->)].
    + left. now rewrite Hfi in H.
    + right. exists eid, en. rewrite Hfire in Hen. auto.
  - eapply clearOfPlayers_kept; [exact Hk2|].
    eapply clearOfPlayers_kept; eassumption.
Qed.

(** ** Contact damage *)

Lemma allPlayersDead_alive ps pid p :
  ps !! pid = Some p -> 0 < Player.Health p -> allPlayersDead ps = false.
Proof.
  intros Hp Hh. unfold allPlayersDead. apply bool_decide_eq_false.
  intros Hall. specialize (Hall pid p Hp). simpl in Hall. lia.
Qed.

(** The contact damage of lines 578-594 and 631-647 in one equation: the
    player loses [amount] points, floored at 0, and the room is over
    when no player is left alive. *)
Lemma hurt_spec amount pid p r :
  hurt amount pid p r
  = let ps := <[pid := wounded amount p]> (GameRoom.Players r) in
    GameRoom.setGameState
      (if allPlayersDead ps then gameover else GameRoom.GameState r)
      (GameRoom.setPlayers ps r).
Proof.
  unfold hurt, wounded. cbv zeta.
  destruct (Z.leb_spec (Player.Health p - amount) 0) as [Hle|Hgt].
  - rewrite Z.max_l by exact Hle. room_simpl.
    destruct (allPlayersDead _); [reflexivity|]. now destruct r.
  - rewrite Z.max_r by lia.
    rewrite (allPlayersDead_alive _ pid (Player.setHealth (Player.Health p - amount) p));
      [now destruct r|apply lookup_insert_eq|cbn; lia].
Qed.

(** X12.  The enemy loop of [updateGame], for one enemy (both revisions).
    An enemy that has gone below the screen is removed.  Otherwise it
    moves by one step; when it then overlaps no player it stays, and
    when it overlaps one, the first such player in the order of the
    pass loses 10 points of health (floored at 0), the enemy is
    removed, and the room is over when no player is left alive.  The
    enemy is not counted as defeated and nobody scores. *)
Theorem enemy_contact_hurts_first_player (r : GameRoom.t) (e : Env)
  (id : string) (e0 : Entity.t) :
  GameRoom.Enemies r !! id = Some e0 ->
  let en := advance e0 in
  let r' := fst (enemyStep id r e) in
  (fgt (Entity.Y en) 600 = true ->
   r' = GameRoom.setEnemies (delete id (GameRoom.Enemies r)) r)
  /\ (fgt (Entity.Y en) 600 = false ->
      (forall k q, GameRoom.Players r !! k = Some q ->
                   checkCollision en (Player.Entity q) = false) ->
      r' = GameRoom.setEnemies (<[id := en]> (GameRoom.Enemies r)) r)
  /\ (fgt (Entity.Y en) 600 = false ->
      (exists k q, GameRoom.Players r !! k = Some q
                   /\ checkCollision en (Player.Entity q) = true) ->
      exists pid p before after,
        orderOf (GameRoom.Players r) e = before ++ pid :: after
        /\ GameRoom.Players r !! pid = Some p
        /\ checkCollision en (Player.Entity p) = true
        /\ (forall k q, k ∈ before -> GameRoom.Players r !! k = Some q ->
                        checkCollision en (Player.Entity q) = false)
        /\ let ps := <[pid := wounded 10 p]> (GameRoom.Players r) in
           r' = GameRoom.setGameState
                  (if allPlayersDead ps then gameover else GameRoom.GameState r)
                  (GameRoom.setPlayers ps
                     (GameRoom.setEnemies (delete id (GameRoom.Enemies r)) r))).
Proof.
  intros He0 en r'. subst r'. unfold enemyStep. rewrite He0. fold en.
  split_and!.
  - intros ->. reflexivity.
  - intros -> Hclear. unfold bind.
    pose proof (elem_of_orderOf (GameRoom.Players r) e) as Hin. unfold orderOf in Hin.
    room_simpl. destruct (range (GameRoom.Players r) e) as [pks e1]. cbn [fst] in Hin.
    destruct (firstPlayerHit _ _ pks) as [pid|] eqn:Hhit; [|reflexivity].
    apply firstPlayerHit_Some in Hhit as (p & before & after & _ & Hp & Hc & _).
    rewrite (Hclear pid p Hp) in Hc. discriminate.
  - intros -> (k & q & Hq & Hc). unfold bind.
    pose proof (elem_of_orderOf (GameRoom.Players r) e) as Hin. unfold orderOf in *.
    room_simpl. destruct (range (GameRoom.Players r) e) as [pks e1]. cbn [fst] in *.
    destruct (firstPlayerHit en (GameRoom.Players r) pks) as [pid|] eqn:Hhit.
    + apply firstPlayerHit_Some in Hhit as (p & before & after & -> & Hp & Hcp & Hb).
      exists pid, p, before, after. split_and!; try assumption; try reflexivity.
      rewrite Hp. unfold ret. cbn [fst]. rewrite hurt_spec. cbv zeta. room_simpl.
      rewrite delete_insert_eq. reflexivity.
    + assert (Hsome : is_Some (firstPlayerHit en (GameRoom.Players r) pks)).
      { eapply firstPlayerHit_exists; [|exact Hq|exact Hc]. apply Hin. eauto. }
      rewrite Hhit in Hsome. now destruct Hsome.
Qed.

(** X13.  The item loop of [part_001], for one item.  An item that has
    fallen below the screen is removed.  Otherwise it falls by one step;
    when it then overlaps no player it stays, and when it overlaps one,
    the first such player in the order of the pass gains one point of
    fire power and the item is removed.  Nothing else changes; the fire
    power has no upper bound. *)
Theorem item_pickup_raises_fire_power (r : GameRoom.t) (e : Env)
  (iid : string) (it0 : Entity.t) :
  GameRoom.Items r !! iid = Some it0 ->
  let it := fallen it0 in
  let r' := fst (PowerUp.itemStep iid r e) in
  (fgt (Entity.Y it) 600 = true ->
   r' = GameRoom.setItems (delete iid (GameRoom.Items r)) r)
  /\ (fgt (Entity.Y it) 600 = false ->
      (forall k q, GameRoom.Players r !! k = Some q ->
                   checkCollision it (Player.Entity q) = false) ->
      r' = GameRoom.setItems (<[iid := it]> (GameRoom.Items r)) r)
  /\ (fgt (Entity.Y it) 600 = false ->
      (exists k q, GameRoom.Players r !! k = Some q
                   /\ checkCollision it (Player.Entity q) = true) ->
      exists pid p before after,
        orderOf (GameRoom.Players r) e = before ++ pid :: after
        /\ GameRoom.Players r !! pid = Some p
        /\ checkCollision it (Player.Entity p) = true
        /\ (forall k q, k ∈ before -> GameRoom.Players r !! k = Some q ->
                        checkCollision it (Player.Entity q) = false)
        /\ r' = GameRoom.setItems (delete iid (GameRoom.Items r))
                  (GameRoom.setPlayers
                     (<[pid := Player.setFirePower (Player.FirePower p + 1) p]>
                        (GameRoom.Players r)) r)).
Proof.
  intros Hit0 it r'. subst r'. unfold PowerUp.itemStep. rewrite Hit0.
  fold (fallen it0). fold it.
  split_and!.
  - intros ->. reflexivity.
  - intros -> Hclear. unfold bind.
    pose proof (elem_of_orderOf (GameRoom.Players r) e) as Hin. unfold orderOf in Hin.
    room_simpl. destruct (range (GameRoom.Players r) e) as [pks e1]. cbn [fst] in Hin.
    destruct (firstPlayerHit _ _ pks) as [pid|] eqn:Hhit; [|reflexivity].
    apply firstPlayerHit_Some in Hhit as (p & before & after & _ & Hp & Hc & _).
    rewrite (Hclear pid p Hp) in Hc. discriminate.
  - intros -> (k & q & Hq & Hc). unfold bind.
    pose proof (elem_of_orderOf (GameRoom.Players r) e) as Hin. unfold orderOf in *.
    room_simpl. destruct (range (GameRoom.Players r) e) as [pks e1]. cbn [fst] in *.
    destruct (firstPlayerHit it (GameRoom.Players r) pks) as [pid|] eqn:Hhit.
    + apply firstPlayerHit_Some in Hhit as (p & before & after & -> & Hp & Hcp & Hb).
      exists pid, p, before, after. split_and!; try assumption; try reflexivity.
      rewrite Hp. unfold ret. room_simpl. rewrite delete_insert_eq. reflexivity.
    + assert (Hsome : is_Some (firstPlayerHit it (GameRoom.Players r) pks)).
      { eapply firstPlayerHit_exists; [|exact Hq|exact Hc]. apply Hin. eauto. }
      rewrite Hhit in Hsome. now destruct Hsome.
Qed.

(** ** The body of the boss *)

Lemma allPlayersDead_rammed b (ps ps' : gmap string Player.t) :
  (forall k, ps' !! k = ps !! k \/ ps' !! k = rammed b <$> (ps !! k)) ->
  allPlayersDead ps = true -> allPlayersDead ps' = true.
Proof.
  unfold allPlayersDead. intros Hk Hall. apply bool_decide_eq_true in Hall.
  apply bool_decide_eq_true. intros k p' Hp'. simpl.
  destruct (Hk k) as [H|H]; rewrite Hp' in H.
  - symmetry in H. exact (Hall k p' H).
  - destruct (ps !! k) as [p|] eqn:Hp; [|discriminate]. injection H as ->.
    pose proof (Hall k p Hp) as Hh. simpl in Hh.
    unfold rammed, wounded. destruct (checkCollision _ _); cbn; lia.
Qed.

Lemma existsb_agree {A} (f g : A -> bool) (l : list A) :
  (forall x, x ∈ l -> f x = g x) -> existsb f l = existsb g l.
Proof.
  induction l as [|x l IH]; intros H; [reflexivity|]. cbn.
  rewrite (H x) by apply list_elem_of_here.
  rewrite IH; [reflexivity|]. intros y Hy. apply H. now apply list_elem_of_further.
Qed.

Lemma contact_spec b pid s e :
  let t := fst (contact b pid s e) in
  t = GameRoom.setGameState (GameRoom.GameState t)
        (GameRoom.setPlayers (GameRoom.Players t) s)
  /\ (forall k, GameRoom.Players t !! k
                = if decide (k = pid) then rammed b <$> (GameRoom.Players s !! pid)
                  else GameRoom.Players s !! k)
  /\ GameRoom.GameState t
     = if overlapsAt b (GameRoom.Players s) pid
          && allPlayersDead (GameRoom.Players t)
       then gameover else GameRoom.GameState s.
Proof.
  cbv zeta. unfold contact, ret, overlapsAt. cbn [fst].
  assert (Hsame : s = GameRoom.setGameState (GameRoom.GameState s)
                        (GameRoom.setPlayers (GameRoom.Players s) s))
    by now destruct s.
  destruct (GameRoom.Players s !! pid) as [p|] eqn:Hp.
  - destruct (checkCollision b (Player.Entity p)) eqn:Hc.
    + rewrite hurt_spec. cbv zeta. room_simpl. split_and!; [reflexivity| |reflexivity].
      intros k. destruct (decide (k = pid)) as [->|Hne].
      * rewrite lookup_insert_eq. cbn. unfold rammed. now rewrite Hc.
      * now rewrite lookup_insert_ne.
    + split_and!; [exact Hsame| |reflexivity].
      intros k. destruct (decide (k = pid)) as [->|Hne]; [|reflexivity].
      rewrite Hp. cbn. unfold rammed. now rewrite Hc.
  - split_and!; [exact Hsame| |reflexivity].
    intros k. destruct (decide (k = pid)) as [->|Hne]; [exact Hp|reflexivity].
Qed.

(** The contact loop over distinct keys: every player visited is
    [rammed], and the room is over exactly when a visited player was
    overlapped and no player is left alive.  The outcome does not depend
    on the order of the keys. *)
Lemma contactLoop_spec b pks : NoDup pks -> forall s e,
  let t := fst (forEach (contact b) pks s e) in
  t = GameRoom.setGameState (GameRoom.GameState t)
        (GameRoom.setPlayers (GameRoom.Players t) s)
  /\ (forall k, GameRoom.Players t !! k
                = if decide (k ∈ pks) then rammed b <$> (GameRoom.Players s !! k)
                  else GameRoom.Players s !! k)
  /\ GameRoom.GameState t
     = if existsb (overlapsAt b (GameRoom.Players s)) pks
          && allPlayersDead (GameRoom.Players t)
       then gameover else GameRoom.GameState s.
Proof.
  induction 1 as [|pid pks Hpid Hnd IH]; intros s e; cbv zeta.
  - cbn. split_and!; [now destruct s| |reflexivity].
    intros k. destruct (decide (k ∈ [])) as [Hk|]; [|reflexivity].
    now apply elem_of_nil in Hk.
  - cbn [forEach]. unfold bind.
    destruct (contact_spec b pid s e) as (F1 & F2 & F3).
    destruct (contact b pid s e) as [s1 e1]. cbn [fst] in F1, F2, F3.
    destruct (IH s1 e1) as (G1 & G2 & G3).
    set (t := fst (forEach (contact b) pks s1 e1)) in *.
    assert (Hplayers : forall k, GameRoom.Players t !! k
              = if decide (k ∈ pid :: pks)
                then rammed b <$> (GameRoom.Players s !! k)
                else GameRoom.Players s !! k).
    { intros k. rewrite G2, !F2. destruct (decide (k = pid)) as [->|Hne].
      - rewrite decide_False by exact Hpid.
        rewrite decide_True by apply list_elem_of_here. reflexivity.
      - destruct (decide (k ∈ pks)) as [Hk|Hk].
        + rewrite decide_True by now apply list_elem_of_further. reflexivity.
        + rewrite decide_False; [reflexivity|].
          rewrite elem_of_cons. tauto. }
    split_and!.
    + rewrite G1 at 1. rewrite F1. reflexivity.
    + exact Hplayers.
    + rewrite G3.
      assert (Hex : existsb (overlapsAt b (GameRoom.Players s1)) pks
                    = existsb (overlapsAt b (GameRoom.Players s)) pks).
      { apply existsb_agree. intros k Hk. unfold overlapsAt. rewrite F2.
        rewrite decide_False; [reflexivity|]. intros ->. contradiction. }
      rewrite Hex. cbn [existsb]. rewrite F3.
      destruct (overlapsAt b (GameRoom.Players s) pid) eqn:Hc; cbn [andb orb];
        [|reflexivity].
      destruct (allPlayersDead (GameRoom.Players s1)) eqn:Hdead1.
      * assert (Hdead : allPlayersDead (GameRoom.Players t) = true).
        { apply (allPlayersDead_rammed b (GameRoom.Players s1)); [|exact Hdead1].
          intros k. rewrite G2. destruct (decide (k ∈ pks)); auto. }
        rewrite Hdead. rewrite andb_true_r.
        now destruct (existsb (overlapsAt b (GameRoom.Players s)) pks).
      * destruct (existsb (overlapsAt b (GameRoom.Players s)) pks) eqn:Hany;
          [reflexivity|]. cbn [andb].
        assert (Heq : GameRoom.Players t = GameRoom.Players s1).
        { apply map_eq. intros k. rewrite G2.
          destruct (decide (k ∈ pks)) as [Hk|Hk]; [|reflexivity].
          rewrite <- Hex in Hany.
          assert (Hk' : overlapsAt b (GameRoom.Players s1) k = false).
          { destruct (overlapsAt b (GameRoom.Players s1) k) eqn:Ho; [|reflexivity].
            assert (existsb (overlapsAt b (GameRoom.Players s1)) pks = true)
              by (apply existsb_exists; exists k; split;
                  [now apply list_elem_of_In|exact Ho]).
            congruence. }
          unfold overlapsAt in Hk'.
          destruct (GameRoom.Players s1 !! k) as [p|]; [|reflexivity].
          cbn. unfold rammed. now rewrite Hk'. }
        rewrite Heq, Hdead1. reflexivity.
Qed.

Lemma existsb_overlapsAt b (ps : gmap string Player.t) ks :
  (forall k, k ∈ ks <-> is_Some (ps !! k)) ->
  existsb (overlapsAt b ps) ks = touches b ps.
Proof.
  intros Hks. unfold touches.
  destruct (existsb (overlapsAt b ps) ks) eqn:Hex.
  - apply existsb_exists in Hex as (k & Hk & Ho). unfold overlapsAt in Ho.
    destruct (ps !! k) as [p|] eqn:Hp; [|discriminate].
    symmetry. apply negb_true_iff, bool_decide_eq_false. intros Hall.
    specialize (Hall k p Hp). simpl in Hall. congruence.
  - symmetry. apply negb_false_iff, bool_decide_eq_true. intros k p Hp. simpl.
    destruct (checkCollision b (Player.Entity p)) eqn:Hc; [|reflexivity].
    assert (existsb (overlapsAt b ps) ks = true); [|congruence].
    apply existsb_exists. exists k. split.
    + apply list_elem_of_In, Hks. eauto.
    + unfold overlapsAt. now rewrite Hp.
Qed.

(** X14.  The boss step of [updateGame], in full (both revisions).  The
    boss moves by its horizontal velocity and turns round when it has
    reached the left edge or when its right side has reached x = 800;
    with probability 5/60 it fires one bullet from under its body, with
    a horizontal speed drawn from -2..2 and a vertical speed from 2..4;
    then every player that its body overlaps loses 20 points of health
    (floored at 0), not only the first one, and the room is over when
    a player was hit and none is left alive.  The outcome does not
    depend on the order in which the players are visited. *)
Theorem boss_step_rams_every_player (r : GameRoom.t) (e : Env) (b0 : Entity.t) :
  GameRoom.Boss r = Some b0 ->
  let b := patrolled b0 in
  let fires := randSource e (randUsed e) mod 60 <? 5 in
  let id := uuidSource e (uuidUsed e) in
  let shot := bossBulletOf id b (randSource e (S (randUsed e)) mod 5)
                (randSource e (S (S (randUsed e))) mod 3) in
  let ps := rammed b <$> GameRoom.Players r in
  fst (bossStep r e)
  = GameRoom.setGameState
      (if touches b (GameRoom.Players r) && allPlayersDead ps
       then gameover else GameRoom.GameState r)
      (GameRoom.setPlayers ps
         (GameRoom.setBullets
            (if fires then <[id := shot]> (GameRoom.Bullets r)
             else GameRoom.Bullets r)
            (GameRoom.setBoss (Some b) r))).
Proof.
  intros Hb0 b fires id shot ps. unfold bossStep. rewrite Hb0.
  fold (patrolled b0). fold b. unfold bind at 1. unfold Intn at 1.
  fold fires. unfold bind at 1.
  set (e1 := mkEnv _ _ _ _ _ _).
  set (s := GameRoom.setBullets
              (if fires then <[id := shot]> (GameRoom.Bullets r)
               else GameRoom.Bullets r)
              (GameRoom.setBoss (Some b) r)).
  assert (Hfired : exists e2,
    (if fires
     then let* id := newUUID in
          let* vx := Intn 5 in
          let* vy := Intn 3 in
          ret (GameRoom.setBullets
                 (<[id := bossBulletOf id b vx vy]>
                    (GameRoom.Bullets (GameRoom.setBoss (Some b) r)))
                 (GameRoom.setBoss (Some b) r))
     else ret (GameRoom.setBoss (Some b) r)) e1 = (s, e2)).
  { subst s. destruct fires; [|exists e1; now destruct r].
    eexists. unfold bind, newUUID, Intn, ret. cbn. reflexivity. }
  destruct Hfired as [e2 ->]. unfold bind.
  pose proof (orderOf_NoDup (GameRoom.Players s) e2) as Hnd.
  pose proof (elem_of_orderOf (GameRoom.Players s) e2) as Hin.
  unfold orderOf in Hnd, Hin. destruct (range (GameRoom.Players s) e2) as [pks e3].
  cbn [fst] in Hnd, Hin.
  destruct (contactLoop_spec b pks Hnd s e3) as (H1 & H2 & H3).
  change (forEach _ pks s e3) with (forEach (contact b) pks s e3).
  set (t := fst (forEach (contact b) pks s e3)) in *.
  assert (Hps : GameRoom.Players t = ps).
  { apply map_eq. intros k. rewrite H2. subst ps. rewrite lookup_fmap.
    destruct (decide (k ∈ pks)) as [Hk|Hk]; [reflexivity|].
    destruct (GameRoom.Players r !! k) as [p|] eqn:Hp; [|exact Hp].
    exfalso. apply Hk, Hin. subst s. room_simpl. eauto. }
  rewrite H1, H3, Hps. rewrite (existsb_overlapsAt b (GameRoom.Players s) pks Hin).
  reflexivity.
Qed.

(** ** The patrol of the boss *)

(** Every step of the patrol, checked by computation on the 351 stops. *)
Lemma patrol_steps_checked :
  forallb (fun n => (if n =? 350 then true else patrolStepOK n true)
                    && (if n =? 0 then true else patrolStepOK n false)) stops
  = true.
Proof. vm_compute. reflexivity. Qed.

Lemma patrolStepOK_all n right :
  0 <= n <= 350 -> (n = 0 -> right = true) -> (n = 350 -> right = false) ->
  patrolStepOK n right = true.
Proof.
  intros Hn H0 H350.
  pose proof patrol_steps_checked as H. rewrite forallb_forall in H.
  assert (Hin : In n stops).
  { unfold stops. apply in_map_iff. exists (Z.to_nat n). split; [lia|].
    apply in_seq. lia. }
  specialize (H n Hin). apply andb_true_iff in H as [H1 H2].
  destruct right.
  - destruct (Z.eqb_spec n 350) as [->|_]; [|exact H1]. now specialize (H350 eq_refl).
  - destruct (Z.eqb_spec n 0) as [->|_]; [|exact H2]. now specialize (H0 eq_refl).
Qed.

Lemma patrolled_course b c :
  Entity.X b = Entity.X c -> Entity.VelocityX b = Entity.VelocityX c ->
  Entity.Width b = Entity.Width c ->
  Entity.X (patrolled b) = Entity.X (patrolled c)
  /\ Entity.VelocityX (patrolled b) = Entity.VelocityX (patrolled c)
  /\ Entity.Y (patrolled b) = Entity.Y b
  /\ Entity.Width (patrolled b) = Entity.Width b
  /\ Entity.Height (patrolled b) = Entity.Height b
  /\ Entity.Health (patrolled b) = Entity.Health b.
Proof.
  destruct b, c. cbn. intros -> -> ->. unfold patrolled. cbn.
  destruct (_ || _); cbn; split_and!; reflexivity.
Qed.

Lemma onPatrol_patrolled b : onPatrol b -> onPatrol (patrolled b).
Proof.
  intros (n & right & Hn & Hx & Hv & H0 & H350 & Hy & Hw & Hh).
  pose proof (patrolStepOK_all n right Hn H0 H350) as Hok.
  unfold patrolStepOK in Hok. cbv zeta in Hok.
  apply andb_true_iff in Hok as [Hok _]. apply andb_true_iff in Hok as [Hok _].
  apply andb_true_iff in Hok as [Hx' Hv'].
  apply FloatAxioms.Leibniz.eqb_spec in Hx', Hv'.
  destruct (patrolled_course b (bossAt n right)) as (Ex & Ev & Ey & Ew & Eh & _);
    [exact Hx|exact Hv|exact Hw|].
  exists (fst (nextStop n right)), (snd (nextStop n right)).
  rewrite Ex, Ev, Ey, Ew, Eh.
  split_and!; try assumption; unfold nextStop; cbn [fst snd];
    destruct right; try specialize (H350 ltac:(lia)); try specialize (H0 ltac:(lia));
    repeat match goal with
           | |- context [?a <=? ?b] => destruct (Z.leb_spec a b)
           end; cbn; try lia; try congruence; try (intros; lia);
    try (intros ->; lia).
Qed.

Lemma onPatrol_on_screen b : onPatrol b -> bossOnScreen b.
Proof.
  intros (n & right & Hn & Hx & Hv & H0 & H350 & Hy & Hw & Hh).
  pose proof (patrolStepOK_all n right Hn H0 H350) as Hok.
  unfold patrolStepOK in Hok. cbv zeta in Hok.
  apply andb_true_iff in Hok as [Hok H2]. apply andb_true_iff in Hok as [_ H1].
  unfold bossOnScreen. rewrite Hx, Hw. auto.
Qed.

Lemma onPatrol_setHealth h b : onPatrol b -> onPatrol (Entity.setHealth h b).
Proof. exact id. Qed.

Lemma bossKept_refl s : bossKept s s.
Proof. intros b Hb. exists b. split; [exact Hb|now destruct b]. Qed.

Lemma bossKept_trans r s t : bossKept r s -> bossKept s t -> bossKept r t.
Proof.
  intros H K b'' Hb''. destruct (K b'' Hb'') as (b' & Hb' & ->).
  destruct (H b' Hb') as (b & Hb & ->). exists b. split; [exact Hb|reflexivity].
Qed.

Lemma bossKept_same s t : GameRoom.Boss t = GameRoom.Boss s -> bossKept s t.
Proof. intros H b Hb. rewrite H in Hb. now apply bossKept_refl. Qed.

Lemma creditScore_Boss b ks r : GameRoom.Boss (creditScore b ks r) = GameRoom.Boss r.
Proof. destruct (creditScore_spec b ks r) as [-> _]. reflexivity. Qed.

Lemma hostileHit_Boss id pid p r :
  GameRoom.Boss (PowerUp.hostileHit id pid p r) = GameRoom.Boss r.
Proof. unfold PowerUp.hostileHit. cbv zeta. now destruct (allPlayersDead _). Qed.

Lemma bulletStep_bossKept v id r : post (bulletStep v id r) (bossKept r).
Proof.
  assert (Hboss : forall bs s,
            GameRoom.Boss s = GameRoom.Boss r -> GameRoom.Boss r = Some bs ->
            bossKept r (hitBoss id bs s)).
  { intros bs s Hs Hbs. unfold hitBoss. cbv zeta.
    destruct (_ <=? 0); intros b'; room_simpl; [discriminate|].
    intros [= <-]. exists bs. split; [exact Hbs|reflexivity]. }
  destruct v; cbn [bulletStep];
    [unfold Main.bulletStep | unfold PowerUp.bulletStep];
    (destruct (GameRoom.Bullets r !! id) as [b0|];
     [|apply post_ret, bossKept_refl]);
    (destruct (offScreen (advance b0)); [now apply post_ret, bossKept_same|]).
  - destruct (bossHit _ _) as [bs|] eqn:Hh.
    { apply post_ret, Hboss; [reflexivity|]. now apply bossHit_Some in Hh. }
    unfold Main.hitEnemy. apply post_any. intros eks.
    destruct (firstEnemyHit _ _ eks); [|now apply post_ret, bossKept_same].
    apply post_any. intros pks. apply post_ret, bossKept_same.
    now rewrite creditScore_Boss.
  - assert (Hhostile : post
      (PowerUp.hitPlayer id (advance b0)
         (GameRoom.setBullets (<[id:=advance b0]> (GameRoom.Bullets r)) r))
      (bossKept r)).
    { unfold PowerUp.hitPlayer. apply post_any. intros pks.
      destruct (firstPlayerHit _ _ pks) as [pid|];
        [|now apply post_ret, bossKept_same].
      destruct (GameRoom.Players _ !! pid) as [p|];
        [|now apply post_ret, bossKept_same].
      apply post_ret, bossKept_same. now rewrite hostileHit_Boss. }
    destruct (Entity.Type_ (advance b0));
      try (now apply post_ret, bossKept_same); try exact Hhostile.
    destruct (bossHit _ _) as [bs|] eqn:Hh.
    { apply post_ret, Hboss; [reflexivity|]. now apply bossHit_Some in Hh. }
    unfold PowerUp.hitEnemy. apply post_any. intros eks.
    destruct (firstEnemyHit _ _ eks) as [eid|];
      [|now apply post_ret, bossKept_same].
    destruct (GameRoom.Enemies _ !! eid); [|now apply post_ret, bossKept_same].
    apply post_any. intros itemID. apply post_any. intros pks.
    apply post_ret, bossKept_same. now rewrite creditScore_Boss.
Qed.

Lemma bulletPass_bossKept v s : post (bulletPass v s) (bossKept s).
Proof.
  unfold bulletPass. apply post_any. intros bks.
  apply post_forEach_rel;
    [apply bossKept_refl|apply bossKept_trans|apply bulletStep_bossKept].
Qed.

Lemma itemPass_Boss v s :
  post (itemPass v s) (fun t => GameRoom.Boss t = GameRoom.Boss s).
Proof.
  destruct v; cbn [itemPass]; [now apply post_ret|].
  apply post_any. intros ks.
  apply (post_forEach_rel (fun r t => GameRoom.Boss t = GameRoom.Boss r));
    [reflexivity | intros a b c Hab Hbc; congruence |].
  intros iid r. unfold PowerUp.itemStep.
  destruct (GameRoom.Items r !! iid); [|now apply post_ret].
  destruct (fgt _ 600); [now apply post_ret|].
  apply post_any. intros pks.
  destruct (firstPlayerHit _ _ pks) as [pid|]; [|now apply post_ret].
  destruct (GameRoom.Players _ !! pid) as [p|]; now apply post_ret.
Qed.

Lemma enemyLoop_Boss s :
  post (enemyLoop s) (fun t => GameRoom.Boss t = GameRoom.Boss s).
Proof.
  unfold enemyLoop. apply post_any. intros ks.
  apply (post_forEach_rel (fun r t => GameRoom.Boss t = GameRoom.Boss r));
    [reflexivity | intros a b c Hab Hbc; congruence |].
  intros id r. unfold enemyStep.
  destruct (GameRoom.Enemies r !! id) as [e0|]; [|now apply post_ret].
  destruct (fgt _ 600); [now apply post_ret|].
  apply post_any. intros pks.
  destruct (firstPlayerHit _ _ pks) as [pid|]; [|now apply post_ret].
  destruct (GameRoom.Players _ !! pid) as [p|]; [|now apply post_ret].
  apply post_ret. room_simpl. now rewrite hurt_Boss.
Qed.

Lemma bossPatrols_updateGame v r e :
  bossPatrols r -> bossPatrols (fst (updateGame v r e)).
Proof.
  intros Hr.
  destruct (GameRoom.GameState r) eqn:Hs;
    [|rewrite updateGame_idle by congruence; exact Hr..].
  rewrite (updateGame_passes v r e Hs). unfold bind.
  destruct (firePass_spec v (movePlayers r) e) as (_ & _ & _ & H0).
  destruct (firePass v (movePlayers r) e) as [s0 e0].
  pose proof (bulletPass_bossKept v s0 e0) as H1.
  destruct (bulletPass v s0 e0) as [s1 e1].
  pose proof (itemPass_Boss v s1 e1) as H2.
  destruct (itemPass v s1 e1) as [s2 e2].
  pose proof (enemyLoop_Boss s2 e2) as H3.
  destruct (enemyLoop s2 e2) as [s3 e3].
  destruct (bossStep_Boss_Bullets s3 e3) as [H4 _].
  cbn [fst] in *. intros b Hb. rewrite H4, H3, H2 in Hb.
  destruct (GameRoom.Boss s1) as [b1|] eqn:Hb1; [|discriminate].
  injection Hb as <-. apply onPatrol_patrolled.
  destruct (H1 b1 Hb1) as (b0 & Hb0 & ->). apply onPatrol_setHealth.
  apply Hr. rewrite H0 in Hb0. exact Hb0.
Qed.

Lemma bossPatrols_roomStep v ev r e :
  bossPatrols r -> bossPatrols (fst (roomStep v ev r e)).
Proof.
  intros Hr. destruct ev as [cid|pid|pid vx vy|pid| | |]; cbn [roomStep].
  - unfold bind. destruct (newPlayer cid e). exact Hr.
  - exact Hr.
  - unfold ret, move. cbn [fst]. now destruct (GameRoom.Players r !! pid).
  - destruct (GameRoom.Players r !! pid); [|exact Hr].
    rewrite createBullet_only_Bullets. exact Hr.
  - destruct (GameRoom.GameState r) eqn:Hs;
      [rewrite restart_playing by exact Hs; exact Hr| |];
      (destruct (restart_spec r e) as (_ & _ & _ & Hb & _); [congruence|]);
      intros b; rewrite Hb; discriminate.
  - now apply bossPatrols_updateGame.
  - unfold enemyTick, createBoss, createEnemy.
    destruct (State_eqb _ _); [|exact Hr].
    destruct (_ && _).
    + unfold bind, newUUID, ret. cbn [fst]. intros b. room_simpl. intros [= <-].
      exists 175, true. cbn. split_and!; try reflexivity; lia.
    + destruct (_ || _); [exact Hr|].
      unfold bind, newUUID, Intn, ret. cbn [fst]. exact Hr.
Qed.

(** X15.  The boss never leaves the screen.  In both revisions, in every
    room reached from a new room (or from any room whose boss is on its
    patrol) by any sequence of events, the boss, when there is one, is
    at one of the abscissas 0, 2, ..., 700 and at height 50, moves at
    speed 2 to the right or to the left, and lies within the screen from
    side to side. *)
Theorem boss_patrols_within_screen (v : Revision) (evs : list RoomEvent)
  (r : GameRoom.t) (e e0 : Env) (b : Entity.t) :
  bossPatrols r \/ r = fst (newGameRoom e0) ->
  GameRoom.Boss (fst (runRoom v evs r e)) = Some b ->
  onPatrol b /\ bossOnScreen b.
Proof.
  intros Hr Hb.
  assert (Hr' : bossPatrols r)
    by (destruct Hr as [H|H]; [exact H|subst r; intros b0; discriminate]).
  clear Hr.
  assert (Hrun : bossPatrols (fst (runRoom v evs r e))).
  { clear Hb. revert r e Hr'. induction evs as [|ev evs IH]; intros r e Hr; [exact Hr|].
    cbn [runRoom]. unfold bind.
    pose proof (bossPatrols_roomStep v ev r e Hr) as Hstep.
    destruct (roomStep v ev r e) as [r1 e1]. now apply IH. }
  split; [|apply onPatrol_on_screen]; now apply Hrun.
Qed.

(** ** What a restart keeps *)

Lemma respawnKept_refl p : respawnKept p p.
Proof. unfold respawnKept. split_and!; try reflexivity. now destruct p as [[]]. Qed.

Lemma respawnKept_trans p q t : respawnKept p q -> respawnKept q t -> respawnKept p t.
Proof.
  unfold respawnKept. intros (H1 & H2 & H3 & H4) (K1 & K2 & K3 & K4).
  split_and!; try congruence. rewrite K4, H4. reflexivity.
Qed.

Lemma restartKept_refl r : restartKept r r.
Proof.
  unfold restartKept. split_and!; try reflexivity. intros pid.
  destruct (GameRoom.Players r !! pid); constructor. apply respawnKept_refl.
Qed.

Lemma restartKept_trans r s t : restartKept r s -> restartKept s t -> restartKept r t.
Proof.
  unfold restartKept. intros (H1 & H2 & H3) (K1 & K2 & K3).
  split_and!; try congruence. intros pid. specialize (H3 pid). specialize (K3 pid).
  destruct H3 as [p q Hpq|]; inversion K3; subst; constructor.
  eapply respawnKept_trans; eassumption.
Qed.

Lemma respawn_restartKept pid r : post (respawn pid r) (restartKept r).
Proof.
  unfold respawn.
  destruct (GameRoom.Players r !! pid) as [p|] eqn:Hp;
    [|apply post_ret, restartKept_refl].
  apply post_any. intros x. apply post_any. intros y. apply post_ret.
  unfold restartKept. room_simpl. split_and!; try reflexivity.
  intros k. destruct (decide (pid = k)) as [<-|Hne].
  - rewrite lookup_insert_eq, Hp. constructor.
    unfold respawnKept. cbn. split_and!; reflexivity.
  - rewrite lookup_insert_ne by exact Hne.
    destruct (GameRoom.Players r !! k); constructor. apply respawnKept_refl.
Qed.

(** X16.  What the restart handler does not reset (both revisions).  A
    restart keeps the room's identifier and players; it keeps the name,
    the colour and the velocity of every player, and, in [part_001],
    its fire power and the items that are falling: a new play-through
    starts with the fire power and the items of the last one. *)
Theorem restart_keeps_fire_power_and_items (r : GameRoom.t) (e : Env)
  (pid : string) :
  let r' := fst (restart r e) in
  GameRoom.ID r' = GameRoom.ID r
  /\ GameRoom.Items r' = GameRoom.Items r
  /\ option_Forall2 respawnKept (GameRoom.Players r !! pid)
       (GameRoom.Players r' !! pid).
Proof.
  cbv zeta.
  assert (H : restartKept r (fst (restart r e))).
  { unfold restart. destruct (GameRoom.GameState r); [apply restartKept_refl| |];
      unfold bind; destruct (range _ e) as [pks e1];
      (eapply restartKept_trans;
       [|apply (post_forEach_rel restartKept respawn restartKept_refl
                  restartKept_trans respawn_restartKept)]);
      unfold restartKept; room_simpl; split_and!; try reflexivity;
      intros k; destruct (GameRoom.Players r !! k); constructor;
      apply respawnKept_refl. }
  destruct H as (H1 & H2 & H3). auto.
Qed.

(** ** The spawner *)

Lemma spawnColumns_checked :
  forallb (fun x => fle 0 (float64_of_int x)
                    && fle (float64_of_int x + float64_of_int 30)%float 800)
          spawnColumns = true.
Proof. vm_compute. reflexivity. Qed.

(** X17.  The spawner tick that creates an enemy (both revisions): in a
    room in play whose boss has not come yet and with fewer than 20
    enemies defeated, exactly one enemy is added, under a fresh
    identifier; it is 30 by 30, has health 1, starts on the top edge at
    an integer abscissa in [0, 600), entirely within the screen from
    side to side, and moves down at speed 1 or 2 with a sideways speed
    of -1, 0 or 1.  Nothing else changes. *)
Theorem spawner_tick_adds_one_enemy (r : GameRoom.t) (e : Env) :
  GameRoom.GameState r = playing ->
  GameRoom.BossSpawned r = false ->
  GameRoom.EnemiesDefeated r < 20 ->
  let id := uuidSource e (uuidUsed e) in
  exists x vx vy,
    0 <= x < 600 /\ -1 <= vx <= 1 /\ 1 <= vy <= 2
    /\ let en := Entity.mk id enemy (float64_of_int x) 0 (float64_of_int vx)
                   (float64_of_int vy) 30 30 1 in
       fst (enemyTick r e)
       = GameRoom.setEnemies (<[id := en]> (GameRoom.Enemies r)) r
       /\ fle 0 (Entity.X en) = true
       /\ fle (Entity.X en + float64_of_int (Entity.Width en))%float 800 = true.
Proof.
  intros Hs Hflag Hed id.
  exists (randSource e (randUsed e) mod 600),
         (randSource e (S (randUsed e)) mod 3 - 1),
         (randSource e (S (S (randUsed e))) mod 2 + 1).
  pose proof (Z.mod_pos_bound (randSource e (randUsed e)) 600 ltac:(lia)) as Hx.
  pose proof (Z.mod_pos_bound (randSource e (S (randUsed e))) 3 ltac:(lia)).
  pose proof (Z.mod_pos_bound (randSource e (S (S (randUsed e)))) 2 ltac:(lia)).
  split_and!; try lia. cbv zeta.
  pose proof spawnColumns_checked as Hcols. rewrite forallb_forall in Hcols.
  assert (Hin : In (randSource e (randUsed e) mod 600) spawnColumns).
  { unfold spawnColumns. apply in_map_iff.
    exists (Z.to_nat (randSource e (randUsed e) mod 600)). split; [lia|].
    apply in_seq. lia. }
  apply Hcols in Hin. apply andb_true_iff in Hin as [H1 H2].
  split_and!; [|exact H1|exact H2].
  unfold enemyTick, createEnemy. rewrite Hs, Hflag. cbn [State_eqb negb orb andb].
  destruct (Z.leb_spec 20 (GameRoom.EnemiesDefeated r)); [lia|]. cbn [andb].
  reflexivity.
Qed.

(** ** How a tick ends a game *)

Lemma allPlayersDead_kept s t :
  playersKept s t -> allPlayersDead (GameRoom.Players s) = true ->
  allPlayersDead (GameRoom.Players t) = true.
Proof.
  unfold allPlayersDead. intros Hk Hall. apply bool_decide_eq_true in Hall.
  apply bool_decide_eq_true. intros k p' Hp'. simpl.
  specialize (Hk k). rewrite Hp' in Hk. inversion Hk as [p q Hpq Hp|]; subst.
  symmetry in Hp. pose proof (Hall k p Hp) as Hh. simpl in Hh.
  destruct Hpq as (_ & _ & _ & _ & _ & Hle). lia.
Qed.

Lemma passSound_refl s : passSound s s.
Proof. unfold passSound, endStep. split_and!; auto. apply playersKept_refl. Qed.

Lemma passSound_trans r s t : passSound r s -> passSound s t -> passSound r t.
Proof.
  unfold passSound, endStep. intros (H1 & H2 & H3) (K1 & K2 & K3).
  split_and!; [eapply playersKept_trans; eassumption|auto|].
  destruct K3 as [K3|[[K3 K3']|(K3 & K3' & K3'')]].
  - destruct H3 as [H3|[[H3 H3']|(H3 & H3' & H3'')]].
    + left. congruence.
    + right. left. split; [congruence|]. now apply (allPlayersDead_kept s t).
    + right. right. split_and!; [congruence|auto|assumption].
  - right. left. auto.
  - right. right. split_and!; [assumption..|]. intros Hr. apply K3''. auto.
Qed.

Lemma post_conj {A} (c : Rand A) (P Q : A -> Prop) :
  post c P -> post c Q -> post c (fun a => P a /\ Q a).
Proof. intros HP HQ e. split; [apply HP|apply HQ]. Qed.

Lemma endStep_same s t :
  GameRoom.GameState t = GameRoom.GameState s -> endStep s t.
Proof. intros H. left. exact H. Qed.

Lemma hurt_endStep s n pid p r :
  GameRoom.GameState r = GameRoom.GameState s -> endStep s (hurt n pid p r).
Proof.
  intros Hs. rewrite hurt_spec. cbv zeta. unfold endStep. room_simpl.
  destruct (allPlayersDead _) eqn:Hd; [right; left; auto|left; exact Hs].
Qed.

Lemma creditScore_GameState b ks r :
  GameRoom.GameState (creditScore b ks r) = GameRoom.GameState r.
Proof. destruct (creditScore_spec b ks r) as [-> _]. reflexivity. Qed.

Lemma bulletStep_endStep v id r : post (bulletStep v id r) (endStep r).
Proof.
  assert (Hboss : forall bs s,
            GameRoom.GameState s = GameRoom.GameState r ->
            GameRoom.Boss r = Some bs -> endStep r (hitBoss id bs s)).
  { intros bs s Hs Hbs. unfold hitBoss, endStep. cbv zeta.
    destruct (_ <=? 0); room_simpl; [|left; exact Hs].
    right. right. split_and!; [reflexivity..|congruence]. }
  destruct v; cbn [bulletStep];
    [unfold Main.bulletStep | unfold PowerUp.bulletStep];
    (destruct (GameRoom.Bullets r !! id) as [b0|];
     [|now apply post_ret, endStep_same]);
    (destruct (offScreen (advance b0)); [now apply post_ret, endStep_same|]).
  - destruct (bossHit _ _) as [bs|] eqn:Hh.
    { apply post_ret, Hboss; [reflexivity|]. now apply bossHit_Some in Hh. }
    unfold Main.hitEnemy. apply post_any. intros eks.
    destruct (firstEnemyHit _ _ eks); [|now apply post_ret, endStep_same].
    apply post_any. intros pks. apply post_ret, endStep_same.
    now rewrite creditScore_GameState.
  - assert (Hhostile : post
      (PowerUp.hitPlayer id (advance b0)
         (GameRoom.setBullets (<[id:=advance b0]> (GameRoom.Bullets r)) r))
      (endStep r)).
    { unfold PowerUp.hitPlayer. apply post_any. intros pks.
      destruct (firstPlayerHit _ _ pks) as [pid|];
        [|now apply post_ret, endStep_same].
      destruct (GameRoom.Players _ !! pid) as [p|];
        [|now apply post_ret, endStep_same].
      apply post_ret. unfold PowerUp.hostileHit, endStep. cbv zeta.
      destruct (allPlayersDead _) eqn:Hd; room_simpl; [|now left].
      right. left. auto. }
    destruct (Entity.Type_ (advance b0));
      try (now apply post_ret, endStep_same); try exact Hhostile.
    destruct (bossHit _ _) as [bs|] eqn:Hh.
    { apply post_ret, Hboss; [reflexivity|]. now apply bossHit_Some in Hh. }
    unfold PowerUp.hitEnemy. apply post_any. intros eks.
    destruct (firstEnemyHit _ _ eks) as [eid|];
      [|now apply post_ret, endStep_same].
    destruct (GameRoom.Enemies _ !! eid); [|now apply post_ret, endStep_same].
    apply post_any. intros itemID. apply post_any. intros pks.
    apply post_ret, endStep_same. now rewrite creditScore_GameState.
Qed.

Lemma bulletPass_passSound v s : post (bulletPass v s) (passSound s).
Proof.
  unfold bulletPass. apply post_any. intros bks.
  apply post_forEach_rel; [apply passSound_refl|apply passSound_trans|].
  intros id r e. split_and!.
  - apply playersKept_bulletStep.
  - intros Hnone. pose proof (bulletStep_bossKept v id r e) as Hk.
    destruct (GameRoom.Boss (fst (bulletStep v id r e))) as [b'|] eqn:Hb'; [|reflexivity].
    destruct (Hk b' Hb') as (b & Hb & _). congruence.
  - apply bulletStep_endStep.
Qed.

Lemma firePass_passSound v s : post (firePass v s) (passSound s).
Proof.
  intros e. destruct (firePass_spec v s e) as (_ & _ & Hk & Hb).
  split_and!; [exact Hk|congruence|]. left.
  destruct v; cbn [firePass]; [reflexivity|]. revert e Hk Hb.
  apply (post_any (range (GameRoom.Enemies s))
           (fun eks => forEach PowerUp.enemyFire eks s)
           (fun t => playersKept s t -> GameRoom.Boss t = GameRoom.Boss s ->
                     GameRoom.GameState t = GameRoom.GameState s)).
  intros eks e _ _. revert e.
  apply (post_forEach_rel
           (fun r t => GameRoom.GameState t = GameRoom.GameState r));
    [reflexivity | intros a b c Hab Hbc; congruence |].
  intros id r. unfold PowerUp.enemyFire.
  destruct (GameRoom.Enemies r !! id); [|now apply post_ret].
  apply post_any. intros n. destruct (n <? 5); [|now apply post_ret].
  apply post_any. intros bid. now apply post_ret.
Qed.

Lemma itemPass_passSound v s : post (itemPass v s) (passSound s).
Proof.
  intros e. destruct (itemPass_spec v s e) as (Hk & _ & _).
  pose proof (itemPass_Boss v s e) as Hb.
  split_and!; [exact Hk|congruence|]. left.
  destruct v; cbn [itemPass]; [reflexivity|]. clear Hk Hb. revert e.
  apply (post_any (range (GameRoom.Items s))
           (fun ks => forEach PowerUp.itemStep ks s)
           (fun t => GameRoom.GameState t = GameRoom.GameState s)).
  intros ks.
  apply (post_forEach_rel
           (fun r t => GameRoom.GameState t = GameRoom.GameState r));
    [reflexivity | intros a b c Hab Hbc; congruence |].
  intros iid r. unfold PowerUp.itemStep.
  destruct (GameRoom.Items r !! iid); [|now apply post_ret].
  destruct (fgt _ 600); [now apply post_ret|].
  apply post_any. intros pks.
  destruct (firstPlayerHit _ _ pks) as [pid|]; [|now apply post_ret].
  destruct (GameRoom.Players _ !! pid) as [p|]; now apply post_ret.
Qed.

Lemma enemyStep_Boss id r :
  post (enemyStep id r) (fun t => GameRoom.Boss t = GameRoom.Boss r).
Proof.
  unfold enemyStep.
  destruct (GameRoom.Enemies r !! id) as [e0|]; [|now apply post_ret].
  destruct (fgt _ 600); [now apply post_ret|].
  apply post_any. intros pks.
  destruct (firstPlayerHit _ _ pks) as [pid|]; [|now apply post_ret].
  destruct (GameRoom.Players _ !! pid) as [p|]; [|now apply post_ret].
  apply post_ret. room_simpl. now rewrite hurt_Boss.
Qed.

Lemma enemyStep_endStep id r : post (enemyStep id r) (endStep r).
Proof.
  unfold enemyStep.
  destruct (GameRoom.Enemies r !! id) as [e0|]; [|now apply post_ret, endStep_same].
  destruct (fgt _ 600); [now apply post_ret, endStep_same|].
  apply post_any. intros pks.
  destruct (firstPlayerHit _ _ pks) as [pid|]; [|now apply post_ret, endStep_same].
  destruct (GameRoom.Players _ !! pid) as [p|]; [|now apply post_ret, endStep_same].
  apply post_ret.
  match goal with |- endStep r (GameRoom.setEnemies _ (hurt ?n ?a ?b ?s)) =>
    pose proof (hurt_endStep r n a b s eq_refl) as H end.
  exact H.
Qed.

Lemma enemyLoop_passSound s : post (enemyLoop s) (passSound s).
Proof.
  unfold enemyLoop. apply post_any. intros ks.
  apply post_forEach_rel; [apply passSound_refl|apply passSound_trans|].
  intros id r e. split_and!; [apply playersKept_enemyStep| |apply enemyStep_endStep].
  intros Hnone. now rewrite enemyStep_Boss.
Qed.

Lemma bossStep_passSound r : post (bossStep r) (passSound r).
Proof.
  intros e. split_and!; [apply playersKept_bossStep| |].
  - intros Hnone. destruct (bossStep_Boss_Bullets r e) as [-> _]. now rewrite Hnone.
  - revert e. unfold bossStep.
    destruct (GameRoom.Boss r) as [b0|]; [|now apply post_ret, endStep_same].
    set (b := if _ || _ then _ else _).
    apply post_any. intros n.
    eapply post_bind with
      (P := fun t => GameRoom.GameState t = GameRoom.GameState r).
    { destruct (n <? 5); [|now apply post_ret].
      apply post_any. intros id. apply post_any. intros vx.
      apply post_any. intros vy. now apply post_ret. }
    intros s Hs. apply post_any. intros pks e.
    change (endStep r (fst (forEach (contact b) pks s e))).
    assert (Hloop : passSound s (fst (forEach (contact b) pks s e))).
    { apply post_forEach_rel; [apply passSound_refl|apply passSound_trans|].
      intros pid t. apply post_ret.
      destruct (GameRoom.Players t !! pid) as [p|] eqn:Hp; [|apply passSound_refl].
      destruct (checkCollision b (Player.Entity p)); [|apply passSound_refl].
      split_and!; [apply playersKept_hurt; [lia|exact Hp]| |now apply hurt_endStep].
      now rewrite hurt_Boss. }
    destruct Hloop as (_ & _ & [H|[H|(H & H' & H'')]]).
    + left. congruence.
    + right. left. exact H.
    + exfalso. revert H'. 
      assert (Hb : GameRoom.Boss (fst (forEach (contact b) pks s e)) = GameRoom.Boss s).
      { apply (post_forEach_rel (fun r t => GameRoom.Boss t = GameRoom.Boss r));
          [reflexivity | intros x y z Hxy Hyz; congruence |].
        intros pid t. apply post_ret.
        destruct (GameRoom.Players t !! pid) as [p|]; [|reflexivity].
        destruct (checkCollision _ _); [|reflexivity]. apply hurt_Boss. }
      intros H'. rewrite Hb in H'. contradiction.
Qed.

Lemma updateGame_passSound v r e :
  GameRoom.GameState r = playing ->
  passSound (movePlayers r) (fst (updateGame v r e)).
Proof.
  intros Hs. rewrite (updateGame_passes v r e Hs). unfold bind.
  pose proof (firePass_passSound v (movePlayers r) e) as H0.
  destruct (firePass v (movePlayers r) e) as [s0 e0].
  pose proof (bulletPass_passSound v s0 e0) as H1.
  destruct (bulletPass v s0 e0) as [s1 e1].
  pose proof (itemPass_passSound v s1 e1) as H2.
  destruct (itemPass v s1 e1) as [s2 e2].
  pose proof (enemyLoop_passSound s2 e2) as H3.
  destruct (enemyLoop s2 e2) as [s3 e3].
  pose proof (bossStep_passSound s3 e3) as H4. cbn [fst] in *.
  eapply passSound_trans; [exact H0|].
  eapply passSound_trans; [exact H1|].
  eapply passSound_trans; [exact H2|].
  eapply passSound_trans; [exact H3|exact H4].
Qed.

(** X18.  How a tick can end a game (both revisions).  After a tick of a
    room in play, the room is in state "gameover" only if no player is
    left alive, and in state "clear" only if it had a boss before the
    tick and has none after it. *)
Theorem tick_ends_game_soundly (v : Revision) (r : GameRoom.t) (e : Env) :
  GameRoom.GameState r = playing ->
  let r' := fst (updateGame v r e) in
  (GameRoom.GameState r' = gameover ->
   allPlayersDead (GameRoom.Players r') = true)
  /\ (GameRoom.GameState r' = clear ->
      GameRoom.Boss r' = None /\ GameRoom.Boss r <> None).
Proof.
  intros Hs. cbv zeta.
  destruct (updateGame_passSound v r e Hs) as (_ & _ & [H|[[H H']|(H & H' & H'')]]).
  - change (GameRoom.GameState (movePlayers r)) with (GameRoom.GameState r) in H.
    rewrite H, Hs. split; discriminate.
  - split; [auto|]. rewrite H. discriminate.
  - split; [rewrite H; discriminate|]. auto.
Qed.

(** ** The fan of a shot, for every fire power *)

(** X5.  The bullets of a shot of [part_001] are laid out symmetrically
    around the shooter's centre exactly when the fire power is odd: the
    lateral index [i - (FirePower - 1) / 2] of line 360 uses the
    truncating division of [int]. *)
Theorem fan_symmetric_iff_odd (firePower : Z) :
  1 <= firePower -> (symmetricFan firePower <-> Z.odd firePower = true).
Proof.
  intros Hn. destruct (Z.odd firePower) eqn:Hodd.
  - split; [reflexivity|]. intros _.
    apply Z.odd_spec in Hodd as [k ->]. apply fan_symmetric_odd. lia.
  - split; [|discriminate]. intros Hsym. exfalso.
    assert (Heven : Z.even firePower = true)
      by (rewrite <- Z.negb_odd, Hodd; reflexivity).
    apply Z.even_spec in Heven as [k ->]. revert Hsym. apply fan_lopsided_even. lia.
Qed.

(** ** Draws from the environment *)

Lemma laterEnv_refl e : laterEnv e e.
Proof. split; [reflexivity|lia]. Qed.

Lemma laterEnv_trans e1 e2 e3 : laterEnv e1 e2 -> laterEnv e2 e3 -> laterEnv e1 e3.
Proof. intros [H1 H2] [K1 K2]. split; [congruence|lia]. Qed.

Lemma steady_ret {A} (a : A) : steady (ret a).
Proof. intros e. apply laterEnv_refl. Qed.

Lemma steady_bind {A B} (c : Rand A) (k : A -> Rand B) :
  steady c -> (forall a, steady (k a)) -> steady (bind c k).
Proof.
  intros Hc Hk e. unfold bind. specialize (Hc e). destruct (c e) as [a e1].
  eapply laterEnv_trans; [exact Hc|apply Hk].
Qed.

Lemma steady_Intn n : steady (Intn n).
Proof. intros e. split; cbn; [reflexivity|lia]. Qed.

Lemma steady_newUUID : steady newUUID.
Proof. intros e. split; cbn; [reflexivity|lia]. Qed.

Lemma steady_range {V} (m : gmap string V) : steady (range m).
Proof. intros e. split; cbn; [reflexivity|lia]. Qed.

Lemma steady_forEach {S} (body : string -> S -> Rand S) :
  (forall k s, steady (body k s)) -> forall ks s, steady (forEach body ks s).
Proof.
  intros Hbody ks. induction ks as [|k ks IH]; intros s; cbn [forEach].
  - apply steady_ret.
  - apply steady_bind; [apply Hbody|exact IH].
Qed.

Ltac steady_step :=
  first
    [ apply steady_ret | apply steady_Intn | apply steady_newUUID
    | apply steady_range
    | apply steady_bind; [|intros ?]
    | apply steady_forEach; intros ? ?
    | match goal with
      | |- steady (match ?x with _ => _ end) => destruct x
      | |- steady (if ?b then _ else _) => destruct b
      end ].

Ltac steady_tac := cbv zeta; repeat steady_step.

Lemma steady_fire p n : forall i r, steady (PowerUp.fire p n i r).
Proof. induction n as [|n IH]; intros i r; cbn [PowerUp.fire]; steady_tac. apply IH. Qed.

Lemma steady_createBullet v r p : steady (createBullet v r p).
Proof.
  destruct v; cbn [createBullet];
    [unfold Main.createBullet|unfold PowerUp.createBullet]; steady_tac.
  apply steady_fire.
Qed.

Lemma steady_enemyStep id r : steady (enemyStep id r).
Proof. unfold enemyStep. steady_tac. Qed.

Lemma steady_bossStep r : steady (bossStep r).
Proof. unfold bossStep. steady_tac. Qed.

Lemma steady_bulletStep v id r : steady (bulletStep v id r).
Proof.
  destruct v; cbn [bulletStep]; [unfold Main.bulletStep|unfold PowerUp.bulletStep];
    steady_tac; unfold Main.hitEnemy, PowerUp.hitEnemy, PowerUp.hitPlayer; steady_tac.
Qed.

Lemma steady_updateGame v r : steady (updateGame v r).
Proof.
  destruct v; cbn [updateGame]; [unfold Main.updateGame|unfold PowerUp.updateGame];
    unfold enemyLoop; steady_tac;
    first [ apply (steady_bulletStep main_go) | apply (steady_bulletStep part_001)
          | apply steady_enemyStep | apply steady_bossStep
          | unfold PowerUp.enemyFire, PowerUp.itemStep; steady_tac ].
Qed.

Lemma steady_roomStep v ev r : steady (roomStep v ev r).
Proof.
  destruct ev; cbn [roomStep].
  - unfold newPlayer. steady_tac.
  - steady_tac.
  - steady_tac.
  - steady_tac. apply steady_createBullet.
  - unfold restart. steady_tac; unfold respawn; steady_tac.
  - apply steady_updateGame.
  - unfold enemyTick, createBoss, createEnemy. steady_tac.
Qed.

(** ** The identifier of a room *)

Ltac frame_leaf :=
  unfold hurt, hitBoss, creditScore, PowerUp.hostileHit; cbv zeta;
  repeat match goal with
         | |- context [if ?b then _ else _] => destruct b
         | |- context [match ?x with Some _ => _ | None => _ end] => destruct x
         end;
  reflexivity.

Ltac frame_step :=
  first
    [ apply post_ret; frame_leaf
    | apply post_any; intros ?
    | match goal with
      | |- post (match ?x with _ => _ end) _ => destruct x
      | |- post (if ?b then _ else _) _ => destruct b
      end ].

Ltac frame_tac := cbv zeta; repeat frame_step.

Lemma bulletStep_ID v id r :
  post (bulletStep v id r) (fun t => GameRoom.ID t = GameRoom.ID r).
Proof.
  destruct v; cbn [bulletStep]; [unfold Main.bulletStep|unfold PowerUp.bulletStep];
    frame_tac; unfold Main.hitEnemy, PowerUp.hitEnemy, PowerUp.hitPlayer; frame_tac.
Qed.

Lemma enemyStep_ID id r :
  post (enemyStep id r) (fun t => GameRoom.ID t = GameRoom.ID r).
Proof. unfold enemyStep. frame_tac. Qed.

Lemma enemyFire_ID id r :
  post (PowerUp.enemyFire id r) (fun t => GameRoom.ID t = GameRoom.ID r).
Proof. unfold PowerUp.enemyFire. frame_tac. Qed.

Lemma itemStep_ID id r :
  post (PowerUp.itemStep id r) (fun t => GameRoom.ID t = GameRoom.ID r).
Proof. unfold PowerUp.itemStep. frame_tac. Qed.

Lemma bossStep_ID r :
  post (bossStep r) (fun t => GameRoom.ID t = GameRoom.ID r).
Proof.
  unfold bossStep. destruct (GameRoom.Boss r) as [b0|]; [|now apply post_ret].
  set (b := if _ || _ then _ else _).
  apply post_any. intros n.
  eapply post_bind with (P := fun t => GameRoom.ID t = GameRoom.ID r).
  - frame_tac.
  - intros s Hs. apply post_any. intros pks e. rewrite <- Hs.
    apply (post_forEach_rel (fun r t => GameRoom.ID t = GameRoom.ID r));
      [reflexivity | intros x y z Hxy Hyz; congruence |].
    intros pid t. frame_tac.
Qed.

Lemma updateGame_ID v r :
  post (updateGame v r) (fun t => GameRoom.ID t = GameRoom.ID r).
Proof.
  apply (updateGame_rel (fun r t => GameRoom.ID t = GameRoom.ID r));
    [reflexivity | intros x y z Hxy Hyz; congruence | reflexivity
    | apply bulletStep_ID | apply enemyStep_ID | apply bossStep_ID
    | apply enemyFire_ID | apply itemStep_ID].
Qed.

Lemma newPlayer_ID cid :
  post (newPlayer cid) (fun p => Entity.ID (Player.Entity p) = cid).
Proof. unfold newPlayer. frame_tac. Qed.

(** The events of a room and its identifier and players: the identifier
    never changes; a join adds the player of the session, a departure
    removes it, and no other event adds or removes a player. *)
Lemma roomStep_ID_dom v ev r e :
  let r' := fst (roomStep v ev r e) in
  GameRoom.ID r' = GameRoom.ID r
  /\ dom (GameRoom.Players r')
     = match ev with
       | Joined cid => {[cid]} ∪ dom (GameRoom.Players r)
       | Left pid => dom (GameRoom.Players r) ∖ {[pid]}
       | _ => dom (GameRoom.Players r)
       end.
Proof.
  cbv zeta. destruct ev as [cid|pid|pid vx vy|pid| | |]; cbn [roomStep].
  - unfold bind. pose proof (newPlayer_ID cid e) as Hid.
    destruct (newPlayer cid e) as [p e1]. cbn [fst] in *. unfold ret, join.
    room_simpl. rewrite Hid. split; [reflexivity|]. apply dom_insert_L.
  - unfold ret, leave. room_simpl. split; [reflexivity|]. apply dom_delete_L.
  - unfold ret, move. cbn [fst].
    destruct (GameRoom.Players r !! pid) as [p|] eqn:Hp; [|auto].
    room_simpl. split; [reflexivity|]. now apply (dom_insert_present pid _ p).
  - destruct (GameRoom.Players r !! pid); [|auto].
    rewrite createBullet_only_Bullets. auto.
  - split.
    + unfold restart. destruct (GameRoom.GameState r); [reflexivity| |];
        unfold bind; destruct (range _ e) as [pks e1];
        (etransitivity;
         [apply (post_forEach_rel (fun r t => GameRoom.ID t = GameRoom.ID r) respawn);
          [reflexivity | intros x y z Hxy Hyz; congruence
          | intros k t; unfold respawn; frame_tac]
         |reflexivity]).
    + unfold restart. destruct (GameRoom.GameState r); [reflexivity| |];
        unfold bind; destruct (range _ e) as [pks e1];
        rewrite forEach_respawn_dom; reflexivity.
  - split; [apply updateGame_ID|].
    now destruct (tickStable_updateGame v r e) as (_ & _ & _ & ->).
  - unfold enemyTick, createBoss, createEnemy.
    destruct (State_eqb _ _); [|auto].
    destruct (_ && _); [auto|]. destruct (_ || _); auto.
Qed.

(** ** Sessions and rooms *)

Lemma inRoom_spec v rid ev s e :
  laterEnv e (snd (inRoom v rid ev s e))
  /\ match gameRooms s !! rid with
     | None => fst (inRoom v rid ev s e) = s
     | Some room =>
         exists room',
           fst (inRoom v rid ev s e)
           = mkServer (clients s) (<[rid := room']> (gameRooms s))
           /\ GameRoom.ID room' = GameRoom.ID room
           /\ dom (GameRoom.Players room')
              = match ev with
                | Joined cid => {[cid]} ∪ dom (GameRoom.Players room)
                | Left pid => dom (GameRoom.Players room) ∖ {[pid]}
                | _ => dom (GameRoom.Players room)
                end
     end.
Proof.
  unfold inRoom. destruct (gameRooms s !! rid) as [room|] eqn:Hroom.
  - unfold bind. pose proof (steady_roomStep v ev room e) as Henv.
    destruct (roomStep_ID_dom v ev room e) as [Hid Hdom].
    destruct (roomStep v ev room e) as [room' e']. cbn [fst snd] in *.
    split; [exact Henv|]. exists room'. auto.
  - split; [apply laterEnv_refl|reflexivity].
Qed.

Lemma unusedAhead_later e e' s :
  laterEnv e e' -> unusedAhead e s -> unusedAhead e' s.
Proof.
  intros [Hsrc Hused] Hs i Hi. rewrite Hsrc. apply Hs. lia.
Qed.

Lemma unusedAhead_update e s rid room room' :
  gameRooms s !! rid = Some room -> unusedAhead e s ->
  unusedAhead e (mkServer (clients s) (<[rid := room']> (gameRooms s))).
Proof.
  intros Hroom Hs i Hi. destruct (Hs i Hi) as [Hc Hr]. cbn. split; [exact Hc|].
  rewrite lookup_insert_ne; [exact Hr|]. intros ->. congruence.
Qed.

(** A room replaced by one with the same identifier and the same
    players. *)
Lemma sessionsOK_update s rid room room' :
  sessionsOK s -> gameRooms s !! rid = Some room ->
  GameRoom.ID room' = GameRoom.ID room ->
  dom (GameRoom.Players room') = dom (GameRoom.Players room) ->
  sessionsOK (mkServer (clients s) (<[rid := room']> (gameRooms s))).
Proof.
  intros [Hc Hr] Hroom Hid Hdom. split; cbn.
  - intros cid c Hcid. destruct (Hc cid c Hcid) as (Hcc & rm & Hrm & Hin).
    split; [exact Hcc|]. destruct (decide (Client.GameRoom c = rid)) as [Heq|Hne].
    + exists room'. rewrite Heq, lookup_insert_eq. split; [reflexivity|].
      rewrite Hdom. rewrite Heq, Hroom in Hrm. now injection Hrm as <-.
    + exists rm. now rewrite lookup_insert_ne.
  - intros k rm Hk. apply lookup_insert_Some in Hk as [[<- <-]|[Hne Hk]].
    + destruct (Hr rid room Hroom) as [Hrid Hps]. split; [congruence|].
      intros pid Hpid. apply Hps. now rewrite <- Hdom.
    + now apply Hr.
Qed.

Lemma steady_newPlayer cid : steady (newPlayer cid).
Proof. unfold newPlayer. steady_tac. Qed.

Lemma servedConnect s e :
  uuidsDistinct e -> unusedAhead e s -> sessionsOK s ->
  laterEnv e (snd (connect s e))
  /\ unusedAhead (snd (connect s e)) (fst (connect s e))
  /\ sessionsOK (fst (connect s e)).
Proof.
  intros Hinj Hfresh [Hc Hr].
  destruct (connect s e) as [s' e'] eqn:Hres. cbn [fst snd]. revert Hres.
  unfold connect. unfold bind at 1.
  set (cid := uuidSource e (uuidUsed e)).
  assert (Hcid : clients s !! cid = None /\ gameRooms s !! cid = None)
    by (apply Hfresh; lia).
  unfold newUUID at 1. fold cid. set (e1 := mkEnv _ _ _ _ _ _).
  assert (He1 : laterEnv e e1) by (split; cbn; [reflexivity|lia]).
  assert (Hu1 : uuidUsed e1 = S (uuidUsed e)) by reflexivity.
  unfold bind at 1. pose proof (newPlayer_ID cid e1) as Hpid.
  pose proof (steady_newPlayer cid e1) as He2.
  destruct (newPlayer cid e1) as [p e2]. cbn [fst snd] in Hpid, He2.
  unfold bind at 1. unfold placeSession. unfold bind at 1.
  pose proof (elem_of_orderOf (gameRooms s) e2) as Hks. unfold orderOf in Hks.
  pose proof (steady_range (gameRooms s) e2) as He3.
  destruct (range (gameRooms s) e2) as [ks e3]. cbn [fst snd] in Hks, He3.
  assert (Hlater3 : laterEnv e e3)
    by (eapply laterEnv_trans; [exact He1|];
        eapply laterEnv_trans; [exact He2|exact He3]).
  assert (Hused3 : (S (uuidUsed e) <= uuidUsed e3)%nat).
  { destruct He2 as [_ H2], He3 as [_ H3]. lia. }
  destruct (findRoom (gameRooms s) ks) as [rid|] eqn:Hfind.
  - destruct (findRoom_Some _ _ _ Hfind) as (room & Hroom & _).
    cbv beta iota zeta delta [ret fst snd]. unfold enter. rewrite Hroom.
    intros [= <- <-]. split_and!.
    + exact Hlater3.
    + intros i Hi. destruct Hlater3 as [Hsrc _]. rewrite Hsrc.
      destruct (Hfresh i ltac:(lia)) as [Hci Hri]. cbn. split.
      * rewrite lookup_insert_ne; [exact Hci|].
        intros Heq. apply Hinj in Heq. lia.
      * rewrite lookup_insert_ne; [exact Hri|]. intros ->. congruence.
    + split; cbn.
      * intros k c Hk. apply lookup_insert_Some in Hk as [[<- <-]|[Hne Hk]].
        -- cbn. split; [reflexivity|]. exists (join p room).
           rewrite lookup_insert_eq. split; [reflexivity|].
           unfold join. room_simpl. rewrite Hpid, dom_insert_L.
           apply elem_of_union_l, elem_of_singleton. reflexivity.
        -- destruct (Hc k c Hk) as (Hcc & rm & Hrm & Hin). split; [exact Hcc|].
           destruct (decide (Client.GameRoom c = rid)) as [Heq|Hneq].
           ++ exists (join p room). rewrite Heq, lookup_insert_eq.
              split; [reflexivity|]. rewrite Heq, Hroom in Hrm. injection Hrm as <-.
              unfold join. room_simpl. rewrite dom_insert_L.
              now apply elem_of_union_r.
           ++ exists rm. now rewrite lookup_insert_ne.
      * intros k rm Hk. apply lookup_insert_Some in Hk as [[<- <-]|[Hne Hk]].
        -- destruct (Hr rid room Hroom) as [Hrid Hps]. split; [exact Hrid|].
           intros pid Hin. unfold join in Hin. room_simpl. rewrite Hpid in Hin.
           apply elem_of_dom in Hin. apply lookup_insert_is_Some in Hin
             as [<-|[Hne Hin]].
           ++ exists (Client.mk cid rid). now rewrite lookup_insert_eq.
           ++ apply elem_of_dom in Hin. destruct (Hps pid Hin) as (c & Hcl & Hcr).
              exists c. now rewrite lookup_insert_ne.
        -- destruct (Hr k rm Hk) as [Hrid Hps]. split; [exact Hrid|].
           intros pid Hin. destruct (Hps pid Hin) as (c & Hcl & Hcr).
           exists c. rewrite lookup_insert_ne; [auto|].
           intros <-. destruct Hcid as [Hcid _]. congruence.
  - unfold newGameRoom.
    cbv beta iota zeta delta [bind newUUID ret fst snd GameRoom.ID].
    destruct Hlater3 as [Hsrc3 _].
    set (nid := uuidSource e3 (uuidUsed e3)).
    assert (Hnid : clients s !! nid = None /\ gameRooms s !! nid = None).
    { subst nid. rewrite Hsrc3. apply Hfresh. lia. }
    assert (Hne : nid <> cid).
    { subst nid cid. rewrite Hsrc3. intros Heq. apply Hinj in Heq. lia. }
    unfold enter. rewrite lookup_insert_eq. rewrite insert_insert_eq.
    intros [= <- <-]. split_and!.
    + split; cbn; [exact Hsrc3|lia].
    + intros i Hi. cbn in Hi |- *. rewrite Hsrc3.
      destruct (Hfresh i ltac:(lia)) as [Hci Hri]. split.
      * rewrite lookup_insert_ne; [exact Hci|].
        intros Heq. apply Hinj in Heq. lia.
      * rewrite lookup_insert_ne; [exact Hri|].
        subst nid. rewrite Hsrc3. intros Heq. apply Hinj in Heq. lia.
    + split; cbn.
      * intros k c Hk. apply lookup_insert_Some in Hk as [[<- <-]|[Hnek Hk]].
        -- cbn. split; [reflexivity|]. eexists. rewrite lookup_insert_eq.
           split; [reflexivity|]. unfold join. room_simpl.
           rewrite Hpid, dom_insert_L.
           apply elem_of_union_l, elem_of_singleton. reflexivity.
        -- destruct (Hc k c Hk) as (Hcc & rm & Hrm & Hin). split; [exact Hcc|].
           exists rm. rewrite lookup_insert_ne; [auto|].
           intros Heq. rewrite <- Heq in Hrm. destruct Hnid as [_ Hnid]. congruence.
      * intros k rm Hk. apply lookup_insert_Some in Hk as [[<- <-]|[Hnek Hk]].
        -- split; [reflexivity|]. intros pid Hin. unfold join in Hin. room_simpl.
           rewrite Hpid in Hin. apply elem_of_dom in Hin.
           apply lookup_insert_is_Some in Hin as [<-|[_ Hin]].
           ++ exists (Client.mk cid nid). now rewrite lookup_insert_eq.
           ++ rewrite lookup_empty in Hin. now destruct Hin.
        -- destruct (Hr k rm Hk) as [Hrid Hps]. split; [exact Hrid|].
           intros pid Hin. destruct (Hps pid Hin) as (c & Hcl & Hcr).
           exists c. rewrite lookup_insert_ne; [auto|].
           intros <-. destruct Hcid as [Hcid _]. congruence.
Qed.

Lemma servedInRoom v rid ev s e :
  match ev with Joined _ | Left _ => False | _ => True end ->
  unusedAhead e s -> sessionsOK s ->
  laterEnv e (snd (inRoom v rid ev s e))
  /\ unusedAhead (snd (inRoom v rid ev s e)) (fst (inRoom v rid ev s e))
  /\ sessionsOK (fst (inRoom v rid ev s e)).
Proof.
  intros Hev Hfresh Hs. destruct (inRoom_spec v rid ev s e) as [Henv Hres].
  split; [exact Henv|].
  destruct (gameRooms s !! rid) as [room|] eqn:Hroom.
  - destruct Hres as (room' & -> & Hid & Hdom). split.
    + eapply unusedAhead_later; [exact Henv|].
      now apply (unusedAhead_update e s rid room).
    + apply (sessionsOK_update s rid room room' Hs Hroom Hid).
      now destruct ev.
  - rewrite Hres. split; [|exact Hs]. eapply unusedAhead_later; eassumption.
Qed.

Lemma servedDisconnect v cid s e :
  unusedAhead e s -> sessionsOK s ->
  laterEnv e (snd (serverStep v (Disconnect cid) s e))
  /\ unusedAhead (snd (serverStep v (Disconnect cid) s e))
       (fst (serverStep v (Disconnect cid) s e))
  /\ sessionsOK (fst (serverStep v (Disconnect cid) s e)).
Proof.
  intros Hfresh Hs. cbn [serverStep].
  destruct (clients s !! cid) as [c|] eqn:Hc;
    [|split_and!; [apply laterEnv_refl|exact Hfresh|exact Hs]].
  unfold bind.
  destruct (inRoom_spec v (Client.GameRoom c) (Left cid) s e) as [Henv Hres].
  destruct (inRoom v (Client.GameRoom c) (Left cid) s e) as [s1 e1].
  cbn [fst snd] in *. unfold ret. cbn [fst snd].
  split; [exact Henv|]. destruct Hs as [Hcs Hrs].
  destruct (Hcs cid c Hc) as (_ & room & Hroom & _). rewrite Hroom in Hres.
  destruct Hres as (room' & -> & Hid & Hdom). cbn [clients gameRooms]. split.
  - intros i Hi. destruct Henv as [Hsrc Hused]. rewrite Hsrc.
    destruct (Hfresh i ltac:(lia)) as [Hci Hri]. cbn. split.
    + apply lookup_delete_None. auto.
    + rewrite lookup_insert_ne; [exact Hri|]. intros Heq. congruence.
  - split; cbn.
    + intros k ck Hk. apply lookup_delete_Some in Hk as [Hne Hk].
      destruct (Hcs k ck Hk) as (Hkk & rm & Hrm & Hin). split; [exact Hkk|].
      destruct (decide (Client.GameRoom ck = Client.GameRoom c)) as [Heq|Hneq].
      * exists room'. rewrite Heq, lookup_insert_eq. split; [reflexivity|].
        rewrite Hdom. rewrite Heq, Hroom in Hrm. injection Hrm as <-.
        apply elem_of_difference. split; [exact Hin|].
        rewrite elem_of_singleton. congruence.
      * exists rm. now rewrite lookup_insert_ne.
    + intros k rm Hk. apply lookup_insert_Some in Hk as [[<- <-]|[Hne Hk]].
      * destruct (Hrs _ room Hroom) as [Hrid Hps]. split; [congruence|].
        intros pid Hin. rewrite Hdom in Hin.
        apply elem_of_difference in Hin as [Hin Hnot].
        rewrite elem_of_singleton in Hnot.
        destruct (Hps pid Hin) as (cp & Hcp & Hcr). exists cp.
        rewrite lookup_delete_ne by congruence. auto.
      * destruct (Hrs k rm Hk) as [Hrid Hps]. split; [exact Hrid|].
        intros pid Hin. destruct (Hps pid Hin) as (cp & Hcp & Hcr). exists cp.
        rewrite lookup_delete_ne; [auto|]. intros <-. congruence.
Qed.

Lemma servedTicker v rid s e :
  unusedAhead e s -> sessionsOK s ->
  laterEnv e (snd (serverStep v (Ticker rid) s e))
  /\ unusedAhead (snd (serverStep v (Ticker rid) s e))
       (fst (serverStep v (Ticker rid) s e))
  /\ sessionsOK (fst (serverStep v (Ticker rid) s e)).
Proof.
  intros Hfresh Hs. cbn [serverStep]. unfold bind.
  destruct (servedInRoom v rid Tick s e I Hfresh Hs) as (Henv & Hfresh1 & Hs1).
  destruct (inRoom v rid Tick s e) as [s1 e1]. cbn [fst snd] in *.
  destruct (gameRooms s1 !! rid) as [room|] eqn:Hroom; [|auto].
  destruct (Nat.eqb_spec (size (GameRoom.Players room)) 0) as [Hempty|_]; [|auto].
  unfold ret. cbn [fst snd]. split_and!; [exact Henv| |].
  - intros i Hi. destruct (Hfresh1 i Hi) as [Hci Hri]. cbn. split; [exact Hci|].
    apply lookup_delete_None. auto.
  - apply map_size_empty_iff in Hempty. destruct Hs1 as [Hcs Hrs]. split; cbn.
    + intros k ck Hk. destruct (Hcs k ck Hk) as (Hkk & rm & Hrm & Hin).
      split; [exact Hkk|]. exists rm. split; [|exact Hin].
      rewrite lookup_delete_ne; [exact Hrm|]. intros Heq. rewrite <- Heq in Hrm.
      rewrite Hroom in Hrm. injection Hrm as <-. rewrite Hempty in Hin.
      now rewrite dom_empty_L in Hin.
    + intros k rm Hk. apply lookup_delete_Some in Hk as [Hne Hk]. now apply Hrs.
Qed.

Lemma servedStep v ev s e :
  uuidsDistinct e -> unusedAhead e s -> sessionsOK s ->
  laterEnv e (snd (serverStep v ev s e))
  /\ unusedAhead (snd (serverStep v ev s e)) (fst (serverStep v ev s e))
  /\ sessionsOK (fst (serverStep v ev s e)).
Proof.
  intros Hinj Hfresh Hs. destruct ev as [|cid m|cid|rid|rid].
  - now apply servedConnect.
  - cbn [serverStep]. destruct (clients s !! cid) as [c|];
      [|split_and!; [apply laterEnv_refl|exact Hfresh|exact Hs]].
    apply servedInRoom; [now destruct m|exact Hfresh|exact Hs].
  - now apply servedDisconnect.
  - now apply servedTicker.
  - cbn [serverStep]. now apply servedInRoom.
Qed.

Lemma servedRun v evs : forall s e,
  uuidsDistinct e -> unusedAhead e s -> sessionsOK s ->
  sessionsOK (fst (runServer v evs s e)).
Proof.
  induction evs as [|ev evs IH]; intros s e Hinj Hfresh Hs; [exact Hs|].
  cbn [runServer]. unfold bind.
  destruct (servedStep v ev s e Hinj Hfresh Hs) as ([Hsrc Hused] & Hfresh1 & Hs1).
  destruct (serverStep v ev s e) as [s1 e1]. cbn [fst snd] in *.
  apply IH; [|exact Hfresh1|exact Hs1].
  intros i j. rewrite Hsrc. apply Hinj.
Qed.

(** X19.  Sessions and rooms stay in step.  As long as [uuid.New] never
    returns an identifier twice, in every state that the server reaches
    from its start by connections, messages, disconnections and timer
    ticks (each handled in one piece), in both revisions: every session
    is a player of a registered room, namely the one it was placed in;
    every player of a registered room is a connected session placed in
    that room; and every room is registered under its own identifier.
    So a disconnection leaves no player behind, and a room is never
    removed from under a session. *)
Theorem sessions_match_players (v : Revision) (evs : list ServerEvent) (e : Env) :
  uuidsDistinct e ->
  sessionsOK (fst (runServer v evs emptyServer e)).
Proof.
  intros Hinj. apply servedRun; [exact Hinj| |].
  - intros i _. split; apply lookup_empty.
  - split; cbn; intros k x Hk; now rewrite lookup_empty in Hk.
Qed.

(** ** Who is sent the state of a room *)



(** ** Messages that are not understood *)

Lemma move_nothing pid r : move pid None None r = r.
Proof.
  unfold move. destruct (GameRoom.Players r !! pid) as [p|] eqn:Hp; [|reflexivity].
  replace (Player.setEntity (Player.Entity p) p) with p by now destruct p.
  rewrite insert_id by exact Hp. now destruct r.
Qed.

(** X21.  What the message loop does with a message (both revisions).
    A message whose type is none of "move", "shoot" and "restart" is
    ignored, and so is a "move" whose data is not an object or holds a
    number under neither "vx" nor "vy": the server is as it was.  A
    "move" with a number under "vx" only sets the horizontal velocity of
    the sender and keeps its vertical velocity (and the other way
    round); it changes nothing else, in particular no position. *)
Theorem message_loop_ignores_what_it_cannot_read (v : Revision)
  (cid type : string) (data : Dyn) (s : Server) (e : Env) :
  (type <> "move" -> type <> "shoot" -> type <> "restart" ->
   receive v cid type data s e = (s, e))
  /\ (type = "move" ->
      match data with
      | DObject m => numberAt "vx" m = None /\ numberAt "vy" m = None
      | _ => True
      end ->
      receive v cid type data s e = (s, e))
  /\ (forall m c room p,
        type = "move" -> data = DObject m ->
        clients s !! cid = Some c ->
        gameRooms s !! Client.GameRoom c = Some room ->
        GameRoom.Players room !! cid = Some p ->
        let en := Player.Entity p in
        let en := match numberAt "vx" m with
                  | Some x => Entity.setVelocityX x en
                  | None => en
                  end in
        let en := match numberAt "vy" m with
                  | Some y => Entity.setVelocityY y en
                  | None => en
                  end in
        receive v cid type data s e
        = (mkServer (clients s)
             (<[Client.GameRoom c :=
                  GameRoom.setPlayers
                    (<[cid := Player.setEntity en p]> (GameRoom.Players room))
                    room]> (gameRooms s)), e)).
Proof.
  split_and!.
  - intros H1 H2 H3. unfold receive, decode.
    apply String.eqb_neq in H1, H2, H3. now rewrite H1, H2, H3.
  - intros -> Hdata. unfold receive, decode. cbn [String.eqb Ascii.eqb Bool.eqb].
    assert (Hmsg : match data with
                   | DObject m => MsgMove (numberAt "vx" m) (numberAt "vy" m)
                   | _ => MsgMove None None
                   end = MsgMove None None).
    { destruct data as [| | | | |m]; try reflexivity. now destruct Hdata as [-> ->]. }
    rewrite Hmsg. cbn [serverStep roomEventOf].
    destruct (clients s !! cid) as [c|]; [|reflexivity].
    unfold inRoom. destruct (gameRooms s !! Client.GameRoom c) as [room|] eqn:Hroom;
      [|reflexivity].
    cbn [roomStep]. unfold bind, ret. rewrite move_nothing.
    rewrite insert_id by exact Hroom. now destruct s.
  - intros m c room p -> -> Hc Hroom Hp. cbv zeta. unfold receive, decode.
    cbn [String.eqb Ascii.eqb Bool.eqb serverStep roomEventOf]. rewrite Hc.
    unfold inRoom. rewrite Hroom. cbn [roomStep]. unfold bind, ret, move.
    rewrite Hp. reflexivity.
Qed.

(** The sample environment never repeats an identifier. *)
Lemma sampleEnv_distinct : uuidsDistinct sampleEnv.
Proof.
  intros i j. cbn. intros H. apply (inj (String.app "uuid-")) in H.
  now apply (inj pretty) in H.
Qed.

(** ** Room invariants, lifted to the server *)

Section RoomInvariant.

Variable v : Revision.
Variable Inv : GameRoom.t -> Prop.

Hypothesis Inv_new : forall e, Inv (fst (newGameRoom e)).
Hypothesis Inv_step : forall ev r e,
  (forall cid, ev <> Joined cid) -> Inv r -> Inv (fst (roomStep v ev r e)).
Hypothesis Inv_join : forall cid r e,
  GameRoom.GameState r = playing -> Inv r ->
  Inv (join (fst (newPlayer cid e)) r).

Lemma roomsInv_inRoom rid ev s e :
  (forall cid, ev <> Joined cid) -> roomsInv Inv s ->
  roomsInv Inv (fst (inRoom v rid ev s e)).
Proof.
  intros Hev Hs. unfold inRoom.
  destruct (gameRooms s !! rid) as [room|] eqn:Hroom; [|exact Hs].
  unfold bind. pose proof (Inv_step ev room e Hev (Hs rid room Hroom)) as Hstep.
  destruct (roomStep v ev room e) as [room' e']. cbn [fst] in *.
  unfold ret, roomsInv. cbn. now apply map_Forall_insert_2.
Qed.

Lemma roomsInv_connect s e : roomsInv Inv s -> roomsInv Inv (fst (connect s e)).
Proof.
  intros Hs. unfold connect, bind.
  destruct (newUUID e) as [clientID e1].
  pose proof (fun r => Inv_join clientID r e1) as Hjoin.
  destruct (newPlayer clientID e1) as [p e2]. cbn [fst] in Hjoin.
  pose proof (placeSession_spec (gameRooms s) e2) as Hplaced.
  pose proof (Inv_new) as Hnew.
  unfold placeSession, bind in *.
  destruct (range (gameRooms s) e2) as [ks e3].
  destruct (findRoom (gameRooms s) ks) as [rid|] eqn:Hfind.
  - unfold ret in *. cbn [fst snd] in *.
    destruct Hplaced as [(room & Hroom & _ & Hst & _)|(Hnone & _)].
    + unfold enter, roomsInv. cbn. rewrite Hroom.
      apply map_Forall_insert_2; [|exact Hs]. apply Hjoin; [exact Hst|].
      exact (Hs rid room Hroom).
    + destruct (findRoom_Some _ _ _ Hfind) as (room & Hroom & Hvac).
      rewrite (Hnone rid room Hroom) in Hvac. discriminate.
  - specialize (Hnew e3). unfold newGameRoom, bind, newUUID, ret in *.
    cbn [fst snd GameRoom.ID] in *. unfold enter, roomsInv. cbn.
    rewrite lookup_insert_eq, insert_insert_eq.
    apply map_Forall_insert_2; [|exact Hs]. now apply Hjoin.
Qed.

Lemma roomsInv_step ev s e : roomsInv Inv s -> roomsInv Inv (fst (serverStep v ev s e)).
Proof.
  intros Hs. destruct ev as [|cid m|cid|rid|rid]; cbn [serverStep].
  - now apply roomsInv_connect.
  - destruct (clients s !! cid) as [c|]; [|exact Hs].
    apply roomsInv_inRoom; [|exact Hs]. intros x. now destruct m.
  - destruct (clients s !! cid) as [c|]; [|exact Hs].
    unfold bind.
    pose proof (roomsInv_inRoom (Client.GameRoom c) (Left cid) s e
                  ltac:(discriminate) Hs) as H.
    destruct (inRoom v _ _ s e) as [s1 e1]. exact H.
  - unfold bind.
    pose proof (roomsInv_inRoom rid Tick s e ltac:(discriminate) Hs) as H.
    destruct (inRoom v rid Tick s e) as [s1 e1]. cbn [fst] in H.
    destruct (gameRooms s1 !! rid) as [room|]; [|exact H].
    destruct (_ =? _)%nat; [|exact H].
    unfold ret, roomsInv. cbn. now apply map_Forall_delete.
  - apply roomsInv_inRoom; [discriminate|exact Hs].
Qed.

Lemma roomsInv_run evs : forall s e,
  roomsInv Inv s -> roomsInv Inv (fst (runServer v evs s e)).
Proof.
  induction evs as [|ev evs IH]; intros s e Hs; [exact Hs|].
  cbn [runServer]. unfold bind.
  pose proof (roomsInv_step ev s e Hs) as H.
  destruct (serverStep v ev s e) as [s1 e1]. now apply IH.
Qed.

Lemma roomsInv_reached evs e rid room :
  gameRooms (fst (runServer v evs emptyServer e)) !! rid = Some room -> Inv room.
Proof.
  intros Hroom.
  exact (roomsInv_run evs emptyServer e (map_Forall_empty _) rid room Hroom).
Qed.

End RoomInvariant.

(** ** The rooms of the server are sound *)

Lemma endSound_playing r : GameRoom.GameState r = playing -> endSound r.
Proof. intros Hs. unfold endSound. rewrite Hs. split; discriminate. Qed.

Lemma endSound_roomStep v ev r e :
  (forall cid, ev <> Joined cid) -> endSound r -> endSound (fst (roomStep v ev r e)).
Proof.
  intros Hev Hr.
  destruct ev as [cid|pid|pid vx vy|pid| | |]; cbn [roomStep].
  - now contradiction (Hev cid).
  - destruct Hr as [Hover Hclear].
    unfold ret, leave, endSound. room_simpl. split; [|exact Hclear].
    intros Hs. specialize (Hover Hs). unfold allPlayersDead in *.
    apply bool_decide_eq_true in Hover. apply bool_decide_eq_true.
    now apply map_Forall_delete.
  - unfold ret, move. cbn [fst].
    destruct (GameRoom.Players r !! pid) as [p|] eqn:Hp; [|exact Hr].
    destruct Hr as [Hover Hclear].
    unfold endSound. room_simpl. split; [|exact Hclear].
    intros Hs. specialize (Hover Hs). unfold allPlayersDead in *.
    apply bool_decide_eq_true in Hover. apply bool_decide_eq_true.
    apply map_Forall_insert_2; [|exact Hover]. exact (Hover pid p Hp).
  - destruct (GameRoom.Players r !! pid); [|exact Hr].
    rewrite createBullet_only_Bullets. exact Hr.
  - destruct (GameRoom.GameState r) eqn:Hs;
      [rewrite restart_playing by exact Hs; exact Hr| |];
      (destruct (restart_spec r e) as (Hplay & _); [congruence|]);
      now apply endSound_playing.
  - destruct (GameRoom.GameState r) eqn:Hs;
      [|rewrite updateGame_idle by congruence; exact Hr..].
    destruct (updateGame_passSound v r e Hs) as (_ & _ & [H|[[H H']|(H & H' & _)]]).
    + apply endSound_playing. rewrite H. exact Hs.
    + unfold endSound. rewrite H. split; [auto|discriminate].
    + unfold endSound. rewrite H. split; [discriminate|auto].
  - destruct (GameRoom.GameState r) eqn:Hs;
      [|rewrite enemyTick_idle by congruence; exact Hr..].
    apply endSound_playing. unfold enemyTick, createBoss, createEnemy.
    rewrite Hs. cbn [State_eqb negb orb].
    destruct (_ && _); [exact Hs|].
    destruct (GameRoom.BossSpawned r); exact Hs.
Qed.

Lemma roomSound_new e : roomSound (fst (newGameRoom e)).
Proof.
  unfold newGameRoom, bind, newUUID, ret. cbn [fst].
  split_and!.
  - unfold playersOK. room_simpl. apply map_Forall_empty.
  - now apply endSound_playing.
  - unfold bossFlagged. room_simpl. congruence.
  - intros b. room_simpl. discriminate.
Qed.

Lemma roomSound_step v ev r e :
  (forall cid, ev <> Joined cid) -> roomSound r -> roomSound (fst (roomStep v ev r e)).
Proof.
  intros Hev (H1 & H2 & H3 & H4). split_and!.
  - now apply playersOK_roomStep.
  - now apply endSound_roomStep.
  - now apply bossFlagged_step.
  - now apply bossPatrols_roomStep.
Qed.

Lemma roomSound_join cid r e :
  GameRoom.GameState r = playing -> roomSound r ->
  roomSound (join (fst (newPlayer cid e)) r).
Proof.
  intros Hs (H1 & H2 & H3 & H4). split_and!; try assumption.
  - destruct (newPlayer_fresh cid e) as [Hh Hsc].
    unfold join, playersOK. room_simpl.
    apply playersOK_insert; [exact H1|]. unfold okPlayer. lia.
  - now apply endSound_playing.
Qed.

(** X22.  The rooms of the server can be trusted.  In every state that
    the server reaches from its start by connections, messages,
    disconnections and timer ticks, each handled in one piece (a
    connection's search and entry with no other handler or timer in
    between), in both revisions: every player of a registered room has
    a health within [0, 100] and a score of at least 0; if the room is
    over, every player has health 0; if it is cleared, it has no boss;
    and a boss, where there is one, has been announced by the
    [BossSpawned] flag, is on its patrol and lies within the screen. *)
Theorem rooms_of_the_server_are_sound (v : Revision) (evs : list ServerEvent)
  (e : Env) (rid : string) (room : GameRoom.t) :
  gameRooms (fst (runServer v evs emptyServer e)) !! rid = Some room ->
  (forall pid p, GameRoom.Players room !! pid = Some p ->
     0 <= Player.Health p <= 100 /\ 0 <= Player.Score p
     /\ (GameRoom.GameState room = gameover -> Player.Health p = 0))
  /\ (GameRoom.GameState room = clear -> GameRoom.Boss room = None)
  /\ (forall b, GameRoom.Boss room = Some b ->
        GameRoom.BossSpawned room = true /\ onPatrol b /\ bossOnScreen b).
Proof.
  intros Hroom.
  destruct (roomsInv_reached v roomSound roomSound_new (roomSound_step v)
              roomSound_join evs e rid room Hroom)
    as (Hok & [Hover Hclear] & Hflag & Hpatrol).
  split_and!.
  - intros pid p Hp. destruct (Hok pid p Hp) as [Hh Hs].
    split; [exact Hh|]. split; [exact Hs|]. intros Hg. specialize (Hover Hg). unfold allPlayersDead in Hover.
    apply bool_decide_eq_true in Hover. specialize (Hover pid p Hp).
    simpl in Hover. lia.
  - exact Hclear.
  - intros b Hb. split_and!.
    + apply Hflag. congruence.
    + now apply Hpatrol.
    + now apply onPatrol_on_screen, Hpatrol.
Qed.

(** ** The ticker of a room and the registry *)

(** X23.  The 60 Hz ticker of a room and the registry (both revisions).
    The tick of the room registered under [rid] touches neither the
    sessions nor any other room.  The room itself is updated by
    [updateGame] and then removed from the registry exactly when it has
    no player; a tick for an identifier that is not registered does
    nothing at all. *)
Theorem ticker_removes_the_empty_room_only (v : Revision) (rid : string)
  (s : Server) (e : Env) :
  let s' := fst (serverStep v (Ticker rid) s e) in
  clients s' = clients s
  /\ (forall k, k <> rid -> gameRooms s' !! k = gameRooms s !! k)
  /\ match gameRooms s !! rid with
     | None => s' = s
     | Some room =>
         gameRooms s' !! rid
         = if decide (GameRoom.Players room = ∅) then None
           else Some (fst (updateGame v room e))
     end.
Proof.
  cbv zeta. cbn [serverStep]. unfold bind, inRoom.
  destruct (gameRooms s !! rid) as [room|] eqn:Hroom.
  - cbn [roomStep]. unfold bind.
    destruct (tickStable_updateGame v room e) as (_ & _ & _ & Hdom).
    destruct (updateGame v room e) as [room' e']. cbn [fst] in *.
    unfold ret. cbn [fst gameRooms]. rewrite lookup_insert_eq.
    assert (Hempty : GameRoom.Players room' = ∅ <-> GameRoom.Players room = ∅).
    { rewrite <- !dom_empty_iff_L, Hdom. reflexivity. }
    destruct (Nat.eqb_spec (size (GameRoom.Players room')) 0) as [Hz|Hnz];
      cbn [fst clients gameRooms].
    + apply map_size_empty_iff in Hz. split; [reflexivity|]. split.
      * intros k Hk. rewrite lookup_delete_ne, lookup_insert_ne; congruence.
      * rewrite lookup_delete_eq. rewrite decide_True; [reflexivity|]. now apply Hempty.
    + split; [reflexivity|]. split.
      * intros k Hk. rewrite lookup_insert_ne; congruence.
      * rewrite lookup_insert_eq. rewrite decide_False; [reflexivity|].
        intros Hz. apply Hnz, map_size_empty_iff, Hempty, Hz.
  - unfold ret. cbn [fst]. rewrite Hroom. auto.
Qed.

(** ** A connection *)

Lemma spawnPoints_checked :
  forallb (fun x =>
             let c := float64_of_int (300 + x) in
             negb (flt c 0) && negb (fgt c 770) && negb (fgt c 600)
             && negb (fgt c 800)
             && PrimFloat.Leibniz.eqb
                  (if fgt (if flt (c + 0) 0 then 0 else c + 0) 770
                   then 770 else if flt (c + 0) 0 then 0 else c + 0)%float
                  c
             && (if 270 <? x
                 then fgt c 570
                      && PrimFloat.Leibniz.eqb
                           (if fgt (if flt (c + 0) 0 then 0 else c + 0) 570
                            then 570 else if flt (c + 0) 0 then 0 else c + 0)%float
                           570
                 else negb (fgt c 570)
                      && PrimFloat.Leibniz.eqb
                           (if fgt (if flt (c + 0) 0 then 0 else c + 0) 570
                            then 570 else if flt (c + 0) 0 then 0 else c + 0)%float
                           c))
          spawnPoints
  = true.
Proof. vm_compute. reflexivity. Qed.

Lemma spawnPoint_spec x :
  0 <= x < 300 ->
  let c := float64_of_int (300 + x) in
  let moved := (if fgt (if flt (c + 0) 0 then 0 else c + 0) 570
                then 570 else if flt (c + 0) 0 then 0 else c + 0)%float in
  flt c 0 = false /\ fgt c 770 = false /\ fgt c 600 = false
  /\ fgt c 800 = false
  /\ (if fgt (if flt (c + 0) 0 then 0 else c + 0) 770
      then 770 else if flt (c + 0) 0 then 0 else c + 0)%float = c
  /\ (270 < x -> fgt c 570 = true /\ moved = 570%float)
  /\ (x <= 270 -> fgt c 570 = false /\ moved = c).
Proof.
  intros Hx. cbv zeta. pose proof spawnPoints_checked as H.
  rewrite forallb_forall in H.
  assert (Hin : In x spawnPoints).
  { unfold spawnPoints. apply in_map_iff. exists (Z.to_nat x). split; [lia|].
    apply in_seq. lia. }
  apply H in Hin. cbv zeta in Hin. apply andb_true_iff in Hin as [Hin H4].
  apply andb_true_iff in Hin as [Hin H3'']. apply FloatAxioms.Leibniz.eqb_spec in H3''.
  apply andb_true_iff in Hin as [Hin H3']. apply andb_true_iff in Hin as [Hin H3].
  apply andb_true_iff in Hin as [H1 H2].
  apply negb_true_iff in H1, H2, H3, H3'. split_and!; try assumption.
  - intros Hlt. destruct (Z.ltb_spec 270 x); [|lia].
    apply andb_true_iff in H4 as [H5 H6].
    apply FloatAxioms.Leibniz.eqb_spec in H6. auto.
  - intros Hle. destruct (Z.ltb_spec 270 x); [lia|].
    apply andb_true_iff in H4 as [H5 H6]. apply negb_true_iff in H5.
    apply FloatAxioms.Leibniz.eqb_spec in H6. auto.
Qed.

Lemma newPlayer_spec cid e :
  let p := fst (newPlayer cid e) in
  Entity.ID (Player.Entity p) = cid
  /\ Player.Health p = 100 /\ Player.Score p = 0 /\ Player.FirePower p = 1
  /\ Entity.VelocityX (Player.Entity p) = 0%float
  /\ Entity.VelocityY (Player.Entity p) = 0%float
  /\ Player.Color p ∈ playerColors
  /\ Player.X p = float64_of_int (300 + randSource e (randUsed e) mod 300)
  /\ Player.Y p = float64_of_int (300 + randSource e (S (randUsed e)) mod 300).
Proof.
  cbv zeta. unfold newPlayer, bind, Intn, ret. cbn [fst snd].
  split_and!; try reflexivity. cbn [Player.Color].
  pose proof (Z.mod_pos_bound (randSource e (S (S (randUsed e))))
                (Z.of_nat (length playerColors)) ltac:(cbn; lia)) as Hc.
  apply list_elem_of_In, nth_In. cbn in Hc |- *. lia.
Qed.

(** The matchmaker, with the new room spelled out. *)
Lemma placeSession_cases rooms e :
  let placed := fst (placeSession rooms e) in
  (exists room, rooms !! placed.1 = Some room /\ hasVacancy room = true
                /\ placed.2 = rooms)
  \/ ((forall k room, rooms !! k = Some room -> hasVacancy room = false)
      /\ placed.2 = <[placed.1 := GameRoom.mk placed.1 ∅ ∅ ∅ ∅ None 0 false playing]>
                      rooms).
Proof.
  unfold placeSession, bind.
  pose proof (elem_of_orderOf rooms e) as Hks. unfold orderOf in Hks.
  destruct (range rooms e) as [ks e1]. cbn [fst] in Hks.
  destruct (findRoom rooms ks) as [rid|] eqn:Hfind.
  - left. destruct (findRoom_Some _ _ _ Hfind) as (room & Hroom & Hvac).
    exists room. unfold ret. cbn. auto.
  - right. split.
    + intros k room Hroom. apply (findRoom_None rooms ks k room Hfind); [|exact Hroom].
      apply Hks. eauto.
    + unfold newGameRoom, bind, newUUID, ret. cbn. reflexivity.
Qed.

(** X24.  A connection, up to the "init" message (both revisions).  The
    session is registered under a fresh identifier and its player, under
    the same identifier, enters exactly one room: a registered room that
    is in play with fewer than four players when there is one, and else
    a new, empty room in play.  The player starts with health 100,
    score 0 and (the field being of [part_001] only) fire power 1, at
    rest, with one of the five colours, at integer coordinates drawn
    from [300, 600) x [300, 600), so on screen.  No other room and no
    other session is touched. *)
Theorem connection_places_one_new_player (s : Server) (e : Env) :
  let s' := fst (connect s e) in
  let cid := uuidSource e (uuidUsed e) in
  exists rid room p x y,
    clients s' = <[cid := Client.mk cid rid]> (clients s)
    /\ gameRooms s' !! rid = Some room
    /\ (forall k, k <> rid -> gameRooms s' !! k = gameRooms s !! k)
    /\ ((exists old, gameRooms s !! rid = Some old /\ hasVacancy old = true
                     /\ room = join p old)
        \/ ((forall k old, gameRooms s !! k = Some old -> hasVacancy old = false)
            /\ room = join p (GameRoom.mk rid ∅ ∅ ∅ ∅ None 0 false playing)))
    /\ GameRoom.GameState room = playing
    /\ GameRoom.Players room !! cid = Some p
    /\ Entity.ID (Player.Entity p) = cid
    /\ Player.Health p = 100 /\ Player.Score p = 0 /\ Player.FirePower p = 1
    /\ Entity.VelocityX (Player.Entity p) = 0%float
    /\ Entity.VelocityY (Player.Entity p) = 0%float
    /\ Player.Color p ∈ playerColors
    /\ 0 <= x < 300 /\ 0 <= y < 300
    /\ Player.X p = float64_of_int (300 + x)
    /\ Player.Y p = float64_of_int (300 + y)
    /\ offScreen (Player.Entity p) = false.
Proof.
  cbv zeta. remember (fst (connect s e)) as s' eqn:Hs'. revert Hs'.
  unfold connect. unfold bind at 1. unfold newUUID at 1.
  set (cid := uuidSource e (uuidUsed e)). set (e1 := mkEnv _ _ _ _ _ _).
  unfold bind at 1.
  destruct (newPlayer_spec cid e1)
    as (Hid & Hh & Hsc & Hfp & Hvx & Hvy & Hcol & HX & HY).
  pose proof (Z.mod_pos_bound (randSource e1 (randUsed e1)) 300 ltac:(lia)) as Hx.
  pose proof (Z.mod_pos_bound (randSource e1 (S (randUsed e1))) 300 ltac:(lia)) as Hy.
  assert (Hon : offScreen (Player.Entity (fst (newPlayer cid e1))) = false).
  { unfold offScreen. fold (Player.X (fst (newPlayer cid e1))).
    fold (Player.Y (fst (newPlayer cid e1))). rewrite HX, HY.
    destruct (spawnPoint_spec _ Hx) as (X1 & _ & _ & X4 & _).
    destruct (spawnPoint_spec _ Hy) as (Y1 & _ & Y3 & _).
    now rewrite Y1, Y3, X1, X4. }
  set (x := randSource e1 (randUsed e1) mod 300) in *.
  set (y := randSource e1 (S (randUsed e1)) mod 300) in *.
  destruct (newPlayer cid e1) as [p e2]. cbn [fst] in *.
  unfold bind at 1.
  pose proof (placeSession_cases (gameRooms s) e2) as Hplaced.
  destruct (placeSession (gameRooms s) e2) as [[rid rooms] e3].
  cbn [fst snd] in *. unfold ret. cbn [fst]. unfold enter.
  destruct Hplaced as [(old & Hold & Hvac & ->) | (Hfull & ->)].
  - rewrite Hold. intros ->. cbn [clients gameRooms]. exists rid, (join p old), p, x, y.
    pose proof Hvac as [_ Hst]%hasVacancy_true.
    split_and!; try assumption; try reflexivity; try lia.
    + apply lookup_insert_eq.
    + intros k Hk. now apply lookup_insert_ne.
    + left. exists old. auto.
    + unfold join. cbn. rewrite Hid. apply lookup_insert_eq.
  - rewrite lookup_insert_eq, insert_insert_eq. intros ->. cbn [clients gameRooms].
    exists rid, (join p (GameRoom.mk rid ∅ ∅ ∅ ∅ None 0 false playing)), p, x, y.
    split_and!; try assumption; try reflexivity; try lia.
    + apply lookup_insert_eq.
    + intros k Hk. now apply lookup_insert_ne.
    + right. split; [exact Hfull|reflexivity].
    + unfold join. cbn. rewrite Hid. apply lookup_insert_eq.
Qed.

(** X25.  Where a new player starts (both revisions).  Its coordinates
    are drawn from [300, 600) x [300, 600) while the field that player
    movement enforces ends at Y = 570: the player starts within the
    field exactly when the draw for Y is at most 270.  The first
    movement leaves X as it is and pulls a Y beyond 570 back to 570. *)
Theorem new_player_may_start_below_the_field (cid : string) (e : Env) :
  let p := fst (newPlayer cid e) in
  let y := randSource e (S (randUsed e)) mod 300 in
  (withinField p <-> y <= 270)
  /\ Player.X (movePlayer p) = Player.X p
  /\ Player.Y (movePlayer p) = (if 270 <? y then 570%float else Player.Y p).
Proof.
  cbv zeta.
  destruct (newPlayer_spec cid e)
    as (Hid & Hh & Hsc & Hfp & Hvx & Hvy & Hcol & HX & HY).
  pose proof (Z.mod_pos_bound (randSource e (randUsed e)) 300 ltac:(lia)) as Hx.
  pose proof (Z.mod_pos_bound (randSource e (S (randUsed e))) 300 ltac:(lia)) as Hy.
  destruct (spawnPoint_spec _ Hx) as (X1 & X2 & _ & _ & X5 & _).
  destruct (spawnPoint_spec _ Hy) as (Y1 & _ & _ & _ & _ & Y6 & Y7).
  set (p := fst (newPlayer cid e)) in *. clearbody p.
  set (y := randSource e (S (randUsed e)) mod 300) in *. clearbody y.
  split_and!.
  - unfold withinField. rewrite HX, HY. split.
    + intros (_ & _ & _ & H). destruct (Z.le_gt_cases y 270) as [Hle|Hgt]; [exact Hle|].
      destruct (Y6 Hgt) as [Hf _]. congruence.
    + intros Hle. destruct (Y7 Hle) as [Hf _]. auto.
  - unfold movePlayer, Player.X. cbn. rewrite Hvx.
    fold (Player.X p). rewrite HX. exact X5.
  - unfold movePlayer, Player.Y. cbn. rewrite Hvy.
    fold (Player.Y p). rewrite HY.
    destruct (Z.ltb_spec 270 y) as [Hgt|Hle].
    + now destruct (Y6 Hgt).
    + now destruct (Y7 Hle).
Qed.

(** ** The life of a session *)

Lemma servedRun_env v evs : forall s e,
  uuidsDistinct e -> unusedAhead e s -> sessionsOK s ->
  uuidsDistinct (snd (runServer v evs s e))
  /\ unusedAhead (snd (runServer v evs s e)) (fst (runServer v evs s e))
  /\ sessionsOK (fst (runServer v evs s e)).
Proof.
  induction evs as [|ev evs IH]; intros s e Hinj Hfresh Hs; [now split_and!|].
  cbn [runServer]. unfold bind.
  destruct (servedStep v ev s e Hinj Hfresh Hs) as ([Hsrc Hused] & Hfresh1 & Hs1).
  destruct (serverStep v ev s e) as [s1 e1]. cbn [fst snd] in *.
  apply IH; [|exact Hfresh1|exact Hs1].
  intros i j. rewrite Hsrc. apply Hinj.
Qed.

Lemma clients_inRoom v rid ev s e :
  clients (fst (inRoom v rid ev s e)) = clients s.
Proof.
  destruct (inRoom_spec v rid ev s e) as [_ H].
  destruct (gameRooms s !! rid); [|now rewrite H].
  destruct H as (room' & -> & _). reflexivity.
Qed.

(** X26.  The life of a session.  As long as [uuid.New] never returns an
    identifier twice, in every state that the server reaches by
    connections, messages, disconnections and timer ticks, each handled
    in one piece (a connection's search and entry with no other handler
    or timer in between), in both revisions: no event, itself handled
    in one piece, other than its own disconnection ends a
    session or moves it to another room; its disconnection removes the
    session and takes its player out of its room, leaves every other
    session and every other room as they were, and leaves no room with
    that player.  The room itself stays registered, empty or not, until
    its next tick. *)
Theorem session_lasts_until_it_disconnects (v : Revision)
  (evs : list ServerEvent) (ev : ServerEvent) (e : Env) (cid : string)
  (c : Client.t) :
  uuidsDistinct e ->
  let s := fst (runServer v evs emptyServer e) in
  let s' := fst (serverStep v ev s (snd (runServer v evs emptyServer e))) in
  clients s !! cid = Some c ->
  (ev <> Disconnect cid -> clients s' !! cid = Some c)
  /\ (ev = Disconnect cid ->
      clients s' = delete cid (clients s)
      /\ (exists room,
            gameRooms s !! Client.GameRoom c = Some room
            /\ gameRooms s' = <[Client.GameRoom c := leave cid room]> (gameRooms s))
      /\ forall rid room, gameRooms s' !! rid = Some room ->
                          GameRoom.Players room !! cid = None).
Proof.
  intros Hinj. cbv zeta.
  assert (Hempty : unusedAhead e emptyServer) by (intros i _; split; apply lookup_empty).
  assert (Hok0 : sessionsOK emptyServer).
  { split; intros k x Hk; cbn in Hk; now rewrite lookup_empty in Hk. }
  destruct (servedRun_env v evs emptyServer e Hinj Hempty Hok0)
    as (Hinj1 & Hfresh & Hs).
  destruct (runServer v evs emptyServer e) as [s e1]. cbn [fst snd] in *.
  intros Hc. split.
  - intros Hev. destruct ev as [|k m|k|rid|rid]; cbn [serverStep].
    + unfold connect, bind, newUUID. cbn [fst snd].
      destruct (newPlayer _ _) as [p e2]. destruct (placeSession _ _) as [placed e3].
      unfold ret. cbn [fst clients]. rewrite lookup_insert_ne; [exact Hc|].
      intros Heq. destruct (Hfresh (uuidUsed e1) (le_n _)) as [Hnone _].
      rewrite Heq in Hnone. congruence.
    + destruct (clients s !! k); [|exact Hc]. now rewrite clients_inRoom.
    + destruct (clients s !! k) as [c'|] eqn:Hk; [|exact Hc].
      unfold bind. pose proof (clients_inRoom v (Client.GameRoom c') (Left k) s e1) as H.
      destruct (inRoom v _ _ s e1) as [s1 e2]. cbn [fst] in *.
      unfold ret. cbn. rewrite lookup_delete_ne by congruence. now rewrite H.
    + unfold bind. pose proof (clients_inRoom v rid Tick s e1) as H.
      destruct (inRoom v rid Tick s e1) as [s1 e2]. cbn [fst] in *.
      destruct (gameRooms s1 !! rid); [destruct (_ =? _)%nat|];
        unfold ret; cbn [fst clients]; now rewrite H.
    + now rewrite clients_inRoom.
  - intros ->.
    destruct (servedStep v (Disconnect cid) s e1 Hinj1 Hfresh Hs) as (_ & _ & Hs').
    destruct Hs as [Hcl Hrm]. destruct (Hcl cid c Hc) as (_ & room & Hroom & _).
    revert Hs'. cbn [serverStep]. rewrite Hc. unfold bind, inRoom. rewrite Hroom.
    cbn [roomStep]. unfold bind, ret. cbn [fst snd]. intros [Hcl' Hrm'].
    cbn [clients gameRooms]. split_and!; [reflexivity|eauto|].
    intros rid room' Hroom'. destruct (GameRoom.Players room' !! cid) as [p|] eqn:Hp;
      [|reflexivity].
    destruct (Hrm' rid room' Hroom') as [_ Hdom].
    destruct (Hdom cid) as (c' & Hc' & _); [apply elem_of_dom; eauto|].
    cbn in Hc'. now rewrite lookup_delete_eq in Hc'.
Qed.

(** ** A friendly bullet meets an enemy, in both revisions *)

Lemma samePosition_standsAt p b : samePosition p b = true <-> standsAt p b.
Proof. unfold samePosition, standsAt, feq. now rewrite andb_true_iff. Qed.

Lemma samePosition_not_standsAt p b : samePosition p b = false <-> ~ standsAt p b.
Proof.
  rewrite <- samePosition_standsAt. destruct (samePosition p b); split; congruence.
Qed.

Lemma creditScore_awarded b ks r :
  creditScore b ks r = GameRoom.setPlayers (GameRoom.Players (creditScore b ks r)) r
  /\ awarded b ks (GameRoom.Players r) (GameRoom.Players (creditScore b ks r)).
Proof.
  destruct (creditScore_spec b ks r) as [Heq Hc]. split; [exact Heq|].
  destruct Hc as [[Hnone ->] | (pid & p & before & after & -> & Hp & Hat & Hb & ->)].
  - left. split; [|reflexivity]. intros k p Hk Hp.
    apply samePosition_not_standsAt. eauto.
  - right. exists pid, p, before, after. split_and!; try reflexivity; try assumption.
    + now apply samePosition_standsAt.
    + intros k q Hk Hq. apply samePosition_not_standsAt. eauto.
Qed.

(** C3, as amended.  In the bullet pass of either revision, a friendly
    bullet that, once advanced, is on screen, misses the boss and
    overlaps some enemy is removed together with the first overlapping
    enemy of this pass; [EnemiesDefeated] grows by one; the first
    player, in the order of the score loop, who stands exactly where
    the bullet is gets 10 points, and when no player stands there
    nobody does.  In [part_001] an item falling at speed 1 appears at
    the position of that enemy, under a fresh identifier; [src/main.go]
    has no items and adds none.  Nothing else changes. *)
Theorem friendly_bullet_kills_first_enemy (v : Revision)
  (r : GameRoom.t) (e : Env) (id : string) (b0 : Entity.t) :
  GameRoom.Bullets r !! id = Some b0 ->
  Entity.Type_ b0 = bullet ->
  offScreen (advance b0) = false ->
  bossHit (advance b0) r = None ->
  (exists k q, GameRoom.Enemies r !! k = Some q
               /\ checkCollision (advance b0) q = true) ->
  let r' := fst (bulletStep v id r e) in
  exists eid en before after pks,
    orderOf (GameRoom.Enemies r) e = before ++ eid :: after
    /\ GameRoom.Enemies r !! eid = Some en
    /\ checkCollision (advance b0) en = true
    /\ (forall k q, k ∈ before -> GameRoom.Enemies r !! k = Some q ->
                    checkCollision (advance b0) q = false)
    /\ GameRoom.Bullets r' = delete id (GameRoom.Bullets r)
    /\ GameRoom.Enemies r' = delete eid (GameRoom.Enemies r)
    /\ GameRoom.EnemiesDefeated r' = GameRoom.EnemiesDefeated r + 1
    /\ GameRoom.Items r'
       = match v with
         | main_go => GameRoom.Items r
         | part_001 =>
             let itemID := uuidSource e (uuidUsed e) in
             <[itemID := Entity.mk itemID item (Entity.X en) (Entity.Y en)
                           0 1 15 15 0]> (GameRoom.Items r)
         end
    /\ (forall k, k ∈ pks <-> is_Some (GameRoom.Players r !! k))
    /\ awarded (advance b0) pks (GameRoom.Players r) (GameRoom.Players r')
    /\ GameRoom.ID r' = GameRoom.ID r
    /\ GameRoom.Boss r' = GameRoom.Boss r
    /\ GameRoom.BossSpawned r' = GameRoom.BossSpawned r
    /\ GameRoom.GameState r' = GameRoom.GameState r.
Proof.
  intros Hb Hty Hon Hboss (k & q & Hq & Hcq) r'.
  assert (Hin : k ∈ orderOf (GameRoom.Enemies r) e)
    by (apply elem_of_orderOf; eauto).
  destruct (firstEnemyHit_exists _ _ _ _ _ Hin Hq Hcq) as [eid Hfind].
  destruct (firstEnemyHit_Some _ _ _ _ Hfind)
    as (en & before & after & Hord & Hen & Hcen & Hbefore).
  subst r'. destruct v; cbn [bulletStep].
  - unfold Main.bulletStep. rewrite Hb, Hon.
    rewrite bossHit_setBullets, Hboss.
    unfold Main.hitEnemy, bind.
    cbn [GameRoom.Enemies GameRoom.setBullets].
    unfold orderOf in *.
    destruct (range (GameRoom.Enemies r) e) as [eks e1].
    cbn [fst] in *. rewrite Hfind. room_simpl. rewrite delete_insert_eq.
    match goal with
    | |- context [range ?m e1] =>
        pose proof (elem_of_orderOf m e1) as Hpks; unfold orderOf in Hpks;
        destruct (range m e1) as [pks e2]
    end.
    cbn in Hpks.
    match goal with
    | |- context [creditScore ?b ?ks ?r0] =>
        destruct (creditScore_awarded b ks r0) as [Heq Hcred]; rewrite Heq
    end.
    exists eid, en, before, after, pks. unfold ret. room_simpl.
    split_and!; try assumption; reflexivity.
  - unfold PowerUp.bulletStep. rewrite Hb, Hon.
    change (Entity.Type_ (advance b0)) with (Entity.Type_ b0). rewrite Hty.
    rewrite bossHit_setBullets, Hboss.
    unfold PowerUp.hitEnemy, bind.
    cbn [GameRoom.Enemies GameRoom.setBullets].
    unfold orderOf in *.
    assert (Hid : uuidUsed (snd (range (GameRoom.Enemies r) e)) = uuidUsed e
                  /\ uuidSource (snd (range (GameRoom.Enemies r) e)) = uuidSource e)
      by (split; reflexivity).
    destruct (range (GameRoom.Enemies r) e) as [eks e1].
    cbn [fst snd] in *. destruct Hid as [Hused Hsrc].
    rewrite Hfind, Hen. room_simpl. rewrite delete_insert_eq.
    assert (Hitem : fst (newUUID e1) = uuidSource e (uuidUsed e))
      by (cbn; now rewrite Hused, Hsrc).
    destruct (newUUID e1) as [itemID e2]. cbn [fst] in Hitem. subst itemID.
    match goal with
    | |- context [range ?m e2] =>
        pose proof (elem_of_orderOf m e2) as Hpks; unfold orderOf in Hpks;
        destruct (range m e2) as [pks e3]
    end.
    cbn in Hpks.
    match goal with
    | |- context [creditScore ?b ?ks ?r0] =>
        destruct (creditScore_awarded b ks r0) as [Heq Hcred]; rewrite Heq
    end.
    exists eid, en, before, after, pks. unfold ret. room_simpl.
    split_and!; try assumption; reflexivity.
Qed.

(** C3, the claim as it stands, on [src/main.go]: the bullet [zap]
    overlaps the enemy [raider], which is removed and counted, yet the
    room has no item afterwards. *)
Lemma main_go_kill_drops_no_item :
  let r' := fst (bulletStep main_go "zap" melee sampleEnv) in
  GameRoom.Bullets melee !! "zap" = Some zap
  /\ Entity.Type_ zap = bullet
  /\ checkCollision (advance zap) raider = true
  /\ GameRoom.Enemies melee !! "raider" = Some raider
  /\ GameRoom.Enemies r' !! "raider" = None
  /\ GameRoom.Bullets r' !! "zap" = None
  /\ GameRoom.EnemiesDefeated r' = GameRoom.EnemiesDefeated melee + 1
  /\ GameRoom.Items r' = ∅.
Proof. vm_compute. split_and!; reflexivity. Qed.

(** ** Hostile bullets, in [part_001] and in [src/main.go] *)

Lemma allPlayersDead_nobodyAlive ps : allPlayersDead ps = true <-> nobodyAlive ps.
Proof.
  unfold allPlayersDead, nobodyAlive. rewrite bool_decide_eq_true. reflexivity.
Qed.

(** X27.  In the bullet pass of [part_001], a hostile bullet
    (enemyBullet or bossBullet) that, once advanced, is on screen and
    overlaps some player is removed; the first overlapping player in
    the order of this pass loses 15 health, floored at 0, and no other
    player is touched; the room goes to gameover when no player is left
    alive, and keeps its state otherwise.  Nothing else changes. *)
Theorem hostile_bullet_hits_first_player
  (r : GameRoom.t) (e : Env) (id : string) (b0 : Entity.t) :
  GameRoom.Bullets r !! id = Some b0 ->
  Entity.Type_ b0 = enemyBullet \/ Entity.Type_ b0 = bossBullet ->
  offScreen (advance b0) = false ->
  (exists k q, GameRoom.Players r !! k = Some q
               /\ checkCollision (advance b0) (Player.Entity q) = true) ->
  let r' := fst (PowerUp.bulletStep id r e) in
  exists pid p before after,
    orderOf (GameRoom.Players r) e = before ++ pid :: after
    /\ GameRoom.Players r !! pid = Some p
    /\ checkCollision (advance b0) (Player.Entity p) = true
    /\ (forall k q, k ∈ before -> GameRoom.Players r !! k = Some q ->
                    checkCollision (advance b0) (Player.Entity q) = false)
    /\ GameRoom.Bullets r' = delete id (GameRoom.Bullets r)
    /\ GameRoom.Players r'
       = <[pid := Player.setHealth (Z.max 0 (Player.Health p - 15)) p]>
           (GameRoom.Players r)
    /\ (nobodyAlive (GameRoom.Players r') -> GameRoom.GameState r' = gameover)
    /\ (~ nobodyAlive (GameRoom.Players r') ->
        GameRoom.GameState r' = GameRoom.GameState r)
    /\ r' = GameRoom.setGameState (GameRoom.GameState r')
              (GameRoom.setPlayers (GameRoom.Players r')
                 (GameRoom.setBullets (GameRoom.Bullets r') r)).
Proof.
  intros Hb Hty Hon (k & q & Hq & Hcq) r'.
  assert (Hin : k ∈ orderOf (GameRoom.Players r) e)
    by (apply elem_of_orderOf; eauto).
  destruct (firstPlayerHit_exists _ _ _ _ _ Hin Hq Hcq) as [pid Hfind].
  destruct (firstPlayerHit_Some _ _ _ _ Hfind)
    as (p & before & after & Hord & Hp & Hcp & Hbefore).
  exists pid, p, before, after. subst r'.
  rewrite (hostile_step r e id b0 pid p Hb Hty Hon Hfind Hp), hostileHit_stored.
  cbv zeta.
  set (ps' := <[pid := Player.setHealth (Z.max 0 (Player.Health p - 15)) p]>
                (GameRoom.Players r)).
  pose proof (allPlayersDead_nobodyAlive ps') as Hdead.
  room_simpl.
  split_and!; try assumption; try reflexivity.
  - intros Hnone. apply Hdead in Hnone. now rewrite Hnone.
  - intros Hsome. destruct (allPlayersDead ps'); [|reflexivity].
    exfalso. apply Hsome, Hdead. reflexivity.
Qed.

(** C1, on [src/main.go].  The boss's bullet [hostileShot] is on screen
    and overlaps [alice].  The bullet pass of [src/main.go] moves it and
    leaves it in the room, and [alice] keeps her health of 100; the
    bullet flies on through her and is gone, 110 ticks later, without
    anybody having been hurt.  The pass of [part_001] removes the
    bullet and takes 15 points of health from [alice]. *)
Theorem main_go_hostile_bullet_harms_nobody :
  let shot' := advance hostileShot in
  let r1 := fst (bulletStep main_go "shot" siege sampleEnv) in
  let r2 := fst (bulletStep part_001 "shot" siege sampleEnv) in
  let rN := fst (runRoom main_go (replicate 110 Tick) siege sampleEnv) in
  GameRoom.Bullets siege !! "shot" = Some hostileShot
  /\ Entity.Type_ hostileShot = bossBullet
  /\ offScreen shot' = false
  /\ checkCollision shot' (Player.Entity alice) = true
  /\ GameRoom.Bullets r1 !! "shot" = Some shot'
  /\ GameRoom.Players r1 = GameRoom.Players siege
  /\ GameRoom.GameState r1 = playing
  /\ GameRoom.Bullets rN !! "shot" = None
  /\ Player.Health <$> (GameRoom.Players rN !! "alice") = Some 100
  /\ GameRoom.Bullets r2 !! "shot" = None
  /\ Player.Health <$> (GameRoom.Players r2 !! "alice") = Some 85.
Proof. vm_compute. split_and!; reflexivity. Qed.

(** ** The two halves of a connection, interleaved *)

(** [connect] is one handler run with no other handler in between: the
    search, then the entry. *)
Lemma connect_search_entry s e :
  connect s e
  = (let* found := search s in
     ret (entry (fst (fst found)) (snd (fst found)) (snd found))) e.
Proof.
  unfold connect, search, entry, bind, ret.
  destruct (newUUID e) as [cid e1]. destruct (newPlayer cid e1) as [p e2].
  destruct (placeSession (gameRooms s) e2) as [placed e3]. reflexivity.
Qed.

(** C8, on the handler as the source runs it.  Three sessions are in
    one room.  Two more handlers both run their search before either
    runs its entry: each finds the room with three players, in play,
    and both enter it, so that it ends with five players.  Run one
    after the other, the same two connections leave four players in
    that room and one in a new room. *)
Theorem interleaved_connections_overfill :
  let s3 := runServer main_go (replicate 3 Connect) emptyServer sampleEnv in
  let a := search (fst s3) (snd s3) in
  let b := search (snd (fst a)) (snd a) in
  let pa := fst (fst (fst a)) in
  let ra := snd (fst (fst a)) in
  let pb := fst (fst (fst b)) in
  let rb := snd (fst (fst b)) in
  let s5 := entry pb rb (entry pa ra (snd (fst b))) in
  let t5 := fst (runServer main_go (replicate 5 Connect) emptyServer sampleEnv) in
  hasVacancy <$> (gameRooms (fst s3) !! "uuid-1") = Some true
  /\ size <$> (GameRoom.Players <$> (gameRooms (fst s3) !! "uuid-1")) = Some 3%nat
  /\ ra = "uuid-1"
  /\ hasVacancy <$> (gameRooms (snd (fst a)) !! "uuid-1") = Some true
  /\ rb = "uuid-1"
  /\ size <$> (GameRoom.Players <$> (gameRooms s5 !! "uuid-1")) = Some 5%nat
  /\ size (clients s5) = 5%nat
  /\ size (gameRooms s5) = 1%nat
  /\ size <$> (GameRoom.Players <$> (gameRooms t5 !! "uuid-1")) = Some 4%nat
  /\ size (gameRooms t5) = 2%nat.
Proof. vm_compute. split_and!; reflexivity. Qed.

(** ** One shot of [src/main.go] *)

Lemma fieldColumns_checked :
  forallb (fun x =>
             let c := float64_of_int x in
             PrimFloat.Leibniz.eqb
               (c + float64_of_int 30 / 2 - 2.5 + float64_of_int 5 / 2)%float
               (c + float64_of_int 30 / 2)%float)
          fieldColumns
  = true.
Proof. vm_compute. reflexivity. Qed.

(** X6.  One shot of [src/main.go].  A shot in a room in play adds
    exactly one bullet, under the fresh identifier, and changes nothing
    else: no other bullet, no player, no enemy.  The bullet is 5 wide
    and 10 high, starts at the height of the shooter and moves straight
    up at speed 5; for a shooter of width 30 at a whole abscissa of the
    field, the centre of the bullet is the centre of the shooter. *)
Theorem main_shot_adds_one_centred_bullet (r : GameRoom.t) (p : Player.t)
  (e : Env) :
  GameRoom.GameState r = playing ->
  GameRoom.Bullets r !! uuidSource e (uuidUsed e) = None ->
  let id := uuidSource e (uuidUsed e) in
  let r' := fst (Main.createBullet r p e) in
  exists b,
    GameRoom.Bullets r' !! id = Some b
    /\ size (GameRoom.Bullets r') = S (size (GameRoom.Bullets r))
    /\ (forall k, k <> id -> GameRoom.Bullets r' !! k = GameRoom.Bullets r !! k)
    /\ r' = GameRoom.setBullets (GameRoom.Bullets r') r
    /\ Entity.ID b = id /\ Entity.Type_ b = bullet
    /\ Entity.Width b = 5 /\ Entity.Height b = 10
    /\ Entity.VelocityX b = 0%float /\ Entity.VelocityY b = (-5)%float
    /\ Entity.Y b = Player.Y p
    /\ (forall x, 0 <= x <= 770 ->
          Player.X p = float64_of_int x ->
          Entity.Width (Player.Entity p) = 30 ->
          (Entity.X b + float64_of_int (Entity.Width b) / 2)%float
          = (Player.X p + float64_of_int (Entity.Width (Player.Entity p)) / 2)%float).
Proof.
  intros Hs Hfresh id r'. subst r'. unfold Main.createBullet. rewrite Hs.
  cbn [State_eqb negb]. unfold bind, newUUID, ret. cbn [fst]. fold id.
  eexists. room_simpl. split; [apply lookup_insert_eq|].
  split; [now apply map_size_insert_None|].
  split; [intros k Hk; now apply lookup_insert_ne|].
  split_and!; try reflexivity.
  intros x Hx HX Hw. cbn [Entity.X Entity.Width]. rewrite Hw, HX.
  pose proof fieldColumns_checked as H. rewrite forallb_forall in H.
  assert (Hin : In x fieldColumns).
  { unfold fieldColumns. apply in_map_iff. exists (Z.to_nat x). split; [lia|].
    apply in_seq. lia. }
  apply H in Hin. cbv zeta in Hin. now apply FloatAxioms.Leibniz.eqb_spec in Hin.
Qed.

(** ** Witnesses *)

Lemma checkCollision_witness :
  checkCollision grunt
    (Entity.setX (Entity.X grunt + float64_of_int (Entity.Width grunt))%float grunt)
  = false
  /\ checkCollision grunt
       (Entity.setY (Entity.Y grunt + float64_of_int (Entity.Height grunt))%float grunt)
     = false.
Proof.
  destruct (checkCollision_symmetric_edge_exclusive grunt grunt) as (_ & H & _).
  apply H; reflexivity.
Defined.

Lemma boss_bullet_witness :
  (exists id bb,
     Entity.Type_ bb = bossBullet
     /\ GameRoom.Bullets (fst (bossStep bossFight sampleEnv))
        = <[id := bb]> (GameRoom.Bullets bossFight))
  /\ (let r' := fst (Main.bulletStep "bolt" bossFight sampleEnv) in
      (exists eid en before after,
         orderOf (GameRoom.Enemies bossFight) sampleEnv = before ++ eid :: after
         /\ GameRoom.Enemies bossFight !! eid = Some en
         /\ checkCollision (advance bolt) en = true
         /\ (forall k q, k ∈ before -> GameRoom.Enemies bossFight !! k = Some q ->
                         checkCollision (advance bolt) q = false)
         /\ GameRoom.Bullets r' = delete "bolt" (GameRoom.Bullets bossFight)
         /\ GameRoom.Enemies r' = delete eid (GameRoom.Enemies bossFight)
         /\ GameRoom.EnemiesDefeated r' = GameRoom.EnemiesDefeated bossFight + 1)
      /\ r' = fst (Main.bulletStep "bolt"
                     (GameRoom.setBullets
                        (<["bolt" := Entity.setType_ bullet bolt]>
                           (GameRoom.Bullets bossFight)) bossFight)
                     sampleEnv)).
Proof.
  destruct boss_bullet_kills_enemy_like_friendly as [Hstore Hkill]. split.
  - apply (Hstore bossFight sampleEnv bigBoss); reflexivity.
  - apply (Hkill bossFight sampleEnv "bolt" bolt).
    + reflexivity.
    + reflexivity.
    + reflexivity.
    + reflexivity.
    + exists "grunt", grunt. split; reflexivity.
Defined.

Lemma end_state_witness :
  (forall ev, ev <> Restart ->
     GameRoom.GameState (fst (roomStep part_001 ev wreck sampleEnv))
     = GameRoom.GameState wreck
     /\ match ev with
        | Tick | EnemyTick | Shoot _ => fst (roomStep part_001 ev wreck sampleEnv) = wreck
        | _ => True
        end)
  /\ (let r' := fst (roomStep part_001 Restart wreck sampleEnv) in
      GameRoom.GameState r' = playing
      /\ GameRoom.EnemiesDefeated r' = 0
      /\ GameRoom.BossSpawned r' = false
      /\ GameRoom.Boss r' = None
      /\ GameRoom.Bullets r' = ∅
      /\ GameRoom.Enemies r' = ∅
      /\ forall pid,
           match GameRoom.Players wreck !! pid with
           | Some _ => exists p', GameRoom.Players r' !! pid = Some p'
                                  /\ respawned p'
           | None => GameRoom.Players r' !! pid = None
           end).
Proof.
  apply (end_state_until_restart part_001 wreck sampleEnv). left. reflexivity.
Defined.

Lemma health_and_score_witness :
  let r := fst ((let* r0 := newGameRoom in runRoom part_001 sampleRun r0) sampleEnv) in
  let p := default alice (GameRoom.Players r !! "alice") in
  0 <= Player.Health p <= 100 /\ 0 <= Player.Score p.
Proof.
  intros r p.
  apply (health_and_score_in_range part_001 sampleRun sampleEnv "alice" p).
  vm_compute. reflexivity.
Defined.

Lemma strikesb_sound r bs id : strikesb r bs id = true -> strikes r bs id.
Proof.
  unfold strikesb, strikes. destruct (GameRoom.Bullets r !! id) as [b0|]; [|discriminate].
  rewrite !andb_true_iff, negb_true_iff. intros [[Hty Hon] Hc].
  exists b0. split_and!; try assumption; try reflexivity.
  destruct (Entity.Type_ b0); try discriminate. reflexivity.
Qed.

Lemma friendly_bullet_hits_boss_witness :
  let r' := fst (forEach (bulletStep main_go) volleyIds volley sampleEnv) in
  GameRoom.GameState r' = clear
  /\ GameRoom.Boss r' = None
  /\ (forall pid, GameRoom.Players r' !! pid
                  = bonus <$> (GameRoom.Players volley !! pid))
  /\ GameRoom.Bullets r' = deleteAll volleyIds (GameRoom.Bullets volley).
Proof.
  destruct (friendly_bullet_hits_boss main_go) as [_ Hvolley].
  apply (Hvolley volley sampleEnv volleyIds bigBoss).
  - apply (bool_decide_eq_true_1 (NoDup volleyIds)). vm_compute. reflexivity.
  - reflexivity.
  - reflexivity.
  - reflexivity.
  - intros id Hid. apply strikesb_sound.
    assert (Hall : forallb (strikesb volley bigBoss) volleyIds = true)
      by (vm_compute; reflexivity).
    rewrite forallb_forall in Hall. apply Hall. now apply list_elem_of_In.
Defined.


Lemma matchmaker_witness :
  let s := fst (runServer main_go (replicate 5 Connect) emptyServer sampleEnv) in
  let room := default duel (gameRooms s !! "uuid-1") in
  (size (GameRoom.Players room) <= 4)%nat.
Proof.
  intros s room. destruct (matchmaker_respects_capacity main_go) as [_ Hcap].
  apply (Hcap (replicate 5 Connect) sampleEnv "uuid-1" room).
  vm_compute. reflexivity.
Defined.

Lemma createBullet_fires_witness :
  size (GameRoom.Bullets (fst (PowerUp.createBullet lobby triple sampleEnv)))
  = (size (GameRoom.Bullets lobby) + 3)%nat.
Proof.
  destruct (createBullet_fires_FirePower lobby triple sampleEnv) as [_ H].
  destruct H as (_ & Hsize & _).
  - reflexivity.
  - apply (bool_decide_eq_true_1 (NoDup (nextUUIDs sampleEnv 3))).
    vm_compute. reflexivity.
  - intros id Hid. vm_compute. reflexivity.
  - exact Hsize.
Defined.

Lemma main_createBullet_witness :
  GameRoom.GameState lobby = playing
  /\ size (GameRoom.Bullets (fst (Main.createBullet lobby triple sampleEnv)))
     = 1%nat.
Proof.
  split; [reflexivity|].
  rewrite (main_createBullet_single lobby triple sampleEnv eq_refl).
  vm_compute. reflexivity.
Defined.

Lemma tick_moves_and_keeps_players_witness :
  option_Forall2 (fun p p' => playerKept (movePlayer p) p' /\ withinField p')
    (GameRoom.Players skirmish !! "alice")
    (GameRoom.Players (fst (updateGame main_go skirmish sampleEnv)) !! "alice").
Proof.
  apply (tick_moves_and_keeps_players main_go skirmish sampleEnv "alice").
  reflexivity.
Defined.

Lemma tick_bullets_move_once_witness :
  bulletOrigin main_go duel (fst (updateGame main_go duel sampleEnv))
    "shot" (advance hostileShot).
Proof.
  apply (tick_bullets_move_once main_go duel sampleEnv "shot" (advance hostileShot)).
  - reflexivity.
  - vm_compute. reflexivity.
Defined.

Lemma tick_enemies_move_once_witness :
  exists e0, GameRoom.Enemies ripe !! "grunt" = Some e0
             /\ advance grunt = advance e0
             /\ fgt (Entity.Y (advance grunt)) 600 = false
             /\ clearOfPlayers (advance grunt) (fst (updateGame main_go ripe sampleEnv)).
Proof.
  apply (tick_enemies_move_once main_go ripe sampleEnv "grunt" (advance grunt)).
  - reflexivity.
  - vm_compute. reflexivity.
Defined.

Lemma tick_items_fall_once_witness :
  exists it0,
    (GameRoom.Items skirmish !! "uuid-1" = Some it0
     \/ exists eid en, GameRoom.Enemies skirmish !! eid = Some en
                       /\ it0 = PowerUp.itemOf "uuid-1" en)
    /\ fallen (PowerUp.itemOf "uuid-1" grunt) = fallen it0
    /\ fgt (Entity.Y (fallen (PowerUp.itemOf "uuid-1" grunt))) 600 = false
    /\ clearOfPlayers (fallen (PowerUp.itemOf "uuid-1" grunt))
         (fst (PowerUp.updateGame skirmish sampleEnv)).
Proof.
  apply (tick_items_fall_once skirmish sampleEnv "uuid-1"
           (fallen (PowerUp.itemOf "uuid-1" grunt))).
  - reflexivity.
  - vm_compute. reflexivity.
Defined.

Lemma enemy_contact_witness :
  exists pid p before after,
    orderOf (GameRoom.Players ambush) sampleEnv = before ++ pid :: after
    /\ GameRoom.Players ambush !! pid = Some p
    /\ checkCollision (advance lurker) (Player.Entity p) = true
    /\ (forall k q, k ∈ before -> GameRoom.Players ambush !! k = Some q ->
                    checkCollision (advance lurker) (Player.Entity q) = false)
    /\ let ps := <[pid := wounded 10 p]> (GameRoom.Players ambush) in
       fst (enemyStep "lurker" ambush sampleEnv)
       = GameRoom.setGameState
           (if allPlayersDead ps then gameover else GameRoom.GameState ambush)
           (GameRoom.setPlayers ps
              (GameRoom.setEnemies (delete "lurker" (GameRoom.Enemies ambush)) ambush)).
Proof.
  destruct (enemy_contact_hurts_first_player ambush sampleEnv "lurker" lurker eq_refl)
    as (_ & _ & H).
  apply H; [reflexivity|]. exists "alice", alice. split; reflexivity.
Defined.

Lemma item_pickup_witness :
  exists pid p before after,
    orderOf (GameRoom.Players windfall) sampleEnv = before ++ pid :: after
    /\ GameRoom.Players windfall !! pid = Some p
    /\ checkCollision (fallen prize) (Player.Entity p) = true
    /\ (forall k q, k ∈ before -> GameRoom.Players windfall !! k = Some q ->
                    checkCollision (fallen prize) (Player.Entity q) = false)
    /\ fst (PowerUp.itemStep "prize" windfall sampleEnv)
       = GameRoom.setItems (delete "prize" (GameRoom.Items windfall))
           (GameRoom.setPlayers
              (<[pid := Player.setFirePower (Player.FirePower p + 1) p]>
                 (GameRoom.Players windfall)) windfall).
Proof.
  destruct (item_pickup_raises_fire_power windfall sampleEnv "prize" prize eq_refl)
    as (_ & _ & H).
  apply H; [reflexivity|]. exists "alice", alice. split; reflexivity.
Defined.

Lemma boss_step_witness :
  Player.Health <$> (GameRoom.Players (fst (bossStep brawl sampleEnv)) !! "alice")
  = Some 80.
Proof.
  rewrite (boss_step_rams_every_player brawl sampleEnv bigBoss eq_refl).
  vm_compute. reflexivity.
Defined.

Lemma boss_patrols_witness :
  onPatrol (patrolled (patrolled bigBoss))
  /\ bossOnScreen (patrolled (patrolled bigBoss)).
Proof.
  apply (boss_patrols_within_screen main_go [Tick; Tick] bossFight sampleEnv
           sampleEnv (patrolled (patrolled bigBoss))).
  - left. intros b [= <-]. exists 175, true. cbn.
    split_and!; try reflexivity; lia.
  - vm_compute. reflexivity.
Defined.

Lemma spawner_tick_witness :
  exists x vx vy,
    0 <= x < 600 /\ -1 <= vx <= 1 /\ 1 <= vy <= 2
    /\ let en := Entity.mk "uuid-0" enemy (float64_of_int x) 0 (float64_of_int vx)
                   (float64_of_int vy) 30 30 1 in
       fst (enemyTick lobby sampleEnv)
       = GameRoom.setEnemies (<["uuid-0" := en]> (GameRoom.Enemies lobby)) lobby
       /\ fle 0 (Entity.X en) = true
       /\ fle (Entity.X en + float64_of_int (Entity.Width en))%float 800 = true.
Proof.
  apply (spawner_tick_adds_one_enemy lobby sampleEnv); [reflexivity..|].
  cbn. lia.
Defined.

Lemma tick_ends_game_witness :
  GameRoom.GameState (fst (updateGame main_go lastStand sampleEnv)) = gameover
  /\ allPlayersDead (GameRoom.Players (fst (updateGame main_go lastStand sampleEnv)))
     = true.
Proof.
  split; [vm_compute; reflexivity|].
  apply (tick_ends_game_soundly main_go lastStand sampleEnv); [reflexivity|].
  vm_compute. reflexivity.
Defined.

Lemma fan_symmetric_witness : symmetricFan 3 <-> Z.odd 3 = true.
Proof. apply (fan_symmetric_iff_odd 3). lia. Defined.

Lemma sessions_match_players_witness :
  sessionsOK
    (fst (runServer main_go
            [Connect; Connect; Disconnect "uuid-0"; Ticker "uuid-1"]
            emptyServer sampleEnv)).
Proof. apply sessions_match_players. exact sampleEnv_distinct. Defined.


Lemma rooms_of_the_server_witness :
  exists room,
    threeIn !! "uuid-1" = Some room
    /\ (forall pid p, GameRoom.Players room !! pid = Some p ->
          0 <= Player.Health p <= 100 /\ 0 <= Player.Score p
          /\ (GameRoom.GameState room = gameover -> Player.Health p = 0))
    /\ (GameRoom.GameState room = clear -> GameRoom.Boss room = None)
    /\ (forall b, GameRoom.Boss room = Some b ->
          GameRoom.BossSpawned room = true /\ onPatrol b /\ bossOnScreen b).
Proof.
  destruct (threeIn !! "uuid-1") as [room|] eqn:H; [|vm_compute in H; discriminate].
  exists room. split; [reflexivity|].
  exact (rooms_of_the_server_are_sound main_go (replicate 3 Connect)
           sampleEnv "uuid-1" room H).
Defined.

Lemma session_lasts_witness :
  exists c,
    clients (fst (runServer main_go [Connect; Connect] emptyServer sampleEnv))
      !! "uuid-0" = Some c
    /\ clients
         (fst (serverStep main_go (Ticker "uuid-1")
                 (fst (runServer main_go [Connect; Connect] emptyServer sampleEnv))
                 (snd (runServer main_go [Connect; Connect] emptyServer sampleEnv))))
         !! "uuid-0" = Some c.
Proof.
  destruct (clients (fst (runServer main_go [Connect; Connect] emptyServer sampleEnv))
              !! "uuid-0") as [c|] eqn:H; [|vm_compute in H; discriminate].
  exists c. split; [reflexivity|].
  refine (proj1 (session_lasts_until_it_disconnects main_go [Connect; Connect]
                   (Ticker "uuid-1") sampleEnv "uuid-0" c sampleEnv_distinct H) _).
  discriminate.
Defined.

Lemma hostile_bullet_witness :
  let r' := fst (PowerUp.bulletStep "shot" brink sampleEnv) in
  GameRoom.Bullets r' = ∅
  /\ Player.Health <$> (GameRoom.Players r' !! "alice") = Some 0
  /\ GameRoom.GameState r' = gameover.
Proof.
  cbv zeta.
  assert (H1 : GameRoom.Bullets brink !! "shot" = Some hostileShot) by reflexivity.
  assert (H2 : Entity.Type_ hostileShot = enemyBullet
               \/ Entity.Type_ hostileShot = bossBullet) by (right; reflexivity).
  assert (H3 : offScreen (advance hostileShot) = false) by reflexivity.
  assert (H4 : exists k q, GameRoom.Players brink !! k = Some q
                 /\ checkCollision (advance hostileShot) (Player.Entity q) = true)
    by (exists "alice", (Player.setHealth 10 alice); split; reflexivity).
  pose proof (hostile_bullet_hits_first_player brink sampleEnv "shot" hostileShot
                H1 H2 H3 H4) as H.
  cbv zeta in H.
  destruct H as (pid & p & before & after & _ & Hp & _ & _ & Hbs & Hps & Hover & _).
  change (GameRoom.Players brink)
    with ({["alice" := Player.setHealth 10 alice]} : gmap string Player.t) in *.
  change (GameRoom.Bullets brink)
    with ({["shot" := hostileShot]} : gmap string Entity.t) in *.
  assert (Hpid : pid = "alice" /\ p = Player.setHealth 10 alice).
  { destruct (decide (pid = "alice")) as [->|Hne].
    - rewrite lookup_singleton_eq in Hp. injection Hp as <-. split; reflexivity.
    - rewrite lookup_singleton_ne in Hp by (intros Heq; apply Hne; symmetry; exact Heq).
      discriminate Hp. }
  destruct Hpid as [-> ->].
  split; [rewrite Hbs; apply delete_singleton_eq|].
  split; [rewrite Hps, lookup_insert_eq; reflexivity|].
  apply Hover. rewrite Hps. intros k q Hq.
  rewrite insert_singleton_eq in Hq.
  destruct (decide (k = "alice")) as [->|Hne].
  - rewrite lookup_singleton_eq in Hq. injection Hq as <-. cbn. lia.
  - rewrite lookup_singleton_ne in Hq by (intros Heq; apply Hne; symmetry; exact Heq).
    discriminate Hq.
Defined.

Lemma main_shot_witness :
  let r' := fst (Main.createBullet lobby alice sampleEnv) in
  exists b,
    GameRoom.Bullets r' !! "uuid-0" = Some b
    /\ size (GameRoom.Bullets r') = 1%nat
    /\ (Entity.X b + float64_of_int (Entity.Width b) / 2)%float = 315%float.
Proof.
  cbv zeta.
  assert (H1 : GameRoom.GameState lobby = playing) by reflexivity.
  assert (H2 : GameRoom.Bullets lobby !! uuidSource sampleEnv (uuidUsed sampleEnv) = None)
    by reflexivity.
  pose proof (main_shot_adds_one_centred_bullet lobby alice sampleEnv H1 H2) as H.
  cbv zeta in H.
  destruct H as (b & Hb & Hsize & _ & _ & _ & _ & _ & _ & _ & _ & _ & Hc).
  exists b. split; [exact Hb|]. split; [exact Hsize|].
  assert (H300 : 0 <= 300 <= 770) by lia.
  assert (HX : Player.X alice = float64_of_int 300) by (vm_compute; reflexivity).
  assert (HW : Entity.Width (Player.Entity alice) = 30) by reflexivity.
  rewrite (Hc 300 H300 HX HW). vm_compute. reflexivity.
Defined.

Lemma friendly_bullet_witness :
  let r' := fst (bulletStep part_001 "zap" melee sampleEnv) in
  GameRoom.Enemies r' = ∅
  /\ GameRoom.EnemiesDefeated r' = 1
  /\ GameRoom.Items r'
     = ({["uuid-0" := Entity.mk "uuid-0" item 290 290 0 1 15 15 0]}
        : gmap string Entity.t)
  /\ Player.Score <$> (GameRoom.Players r' !! "alice") = Some 10.
Proof.
  cbv zeta.
  assert (H1 : GameRoom.Bullets melee !! "zap" = Some zap) by reflexivity.
  assert (H2 : Entity.Type_ zap = bullet) by reflexivity.
  assert (H3 : offScreen (advance zap) = false) by reflexivity.
  assert (H4 : bossHit (advance zap) melee = None) by reflexivity.
  assert (H5 : exists k q, GameRoom.Enemies melee !! k = Some q
                           /\ checkCollision (advance zap) q = true)
    by (exists "raider", raider; split; reflexivity).
  pose proof (friendly_bullet_kills_first_enemy part_001 melee sampleEnv "zap" zap
                H1 H2 H3 H4 H5) as H.
  cbv zeta in H.
  destruct H as (eid & en & before & after & pks & _ & Hen & _ & _ & _ & Hes & Hn
                 & Hit & Hpks & Haw & _).
  assert (Heid : eid = "raider" /\ en = raider).
  { change (GameRoom.Enemies melee) with ({["raider" := raider]} : gmap string Entity.t)
      in Hen.
    destruct (decide (eid = "raider")) as [->|Hne].
    - rewrite lookup_singleton_eq in Hen. injection Hen as <-. split; reflexivity.
    - rewrite lookup_singleton_ne in Hen by (intros Heq; apply Hne; symmetry; exact Heq).
      discriminate Hen. }
  destruct Heid as [-> ->].
  rewrite Hes, Hn, Hit.
  change (GameRoom.Enemies melee) with ({["raider" := raider]} : gmap string Entity.t).
  change (GameRoom.Players melee) with ({["alice" := alice]} : gmap string Player.t)
    in *.
  split; [apply delete_singleton_eq|]. split; [reflexivity|].
  split; [vm_compute; reflexivity|].
  assert (Hin : "alice" ∈ pks) by (apply Hpks; rewrite lookup_singleton_eq; eauto).
  assert (Hat : standsAt alice (advance zap)) by (split; reflexivity).
  destruct Haw as [[Hnone _] | (pid & p & _ & _ & _ & Hp & _ & _ & ->)].
  - exfalso. apply (Hnone "alice" alice Hin); [|exact Hat]. apply lookup_singleton_eq.
  - destruct (decide (pid = "alice")) as [->|Hne].
    + rewrite lookup_singleton_eq in Hp. injection Hp as <-.
      rewrite lookup_insert_eq. reflexivity.
    + rewrite lookup_singleton_ne in Hp by (intros Heq; apply Hne; symmetry; exact Heq).
      discriminate Hp.
Defined.
